(* ===== verification/_CoqProject ===== *)
-Q . S2P
Prelude.v
Interaction.v
Liveness.v
GoStd.v
Api.v
Concrete.v
Names.v
Workload.v
Fixtures.v
PodSpec.v
Allocation.v
Refinement.v
Configure.v
ProxyArgs.v
Repeated.v
Matching.v
Webhook.v
Admission.v
Status.v
Reconciler.v
Locking.v
Convergence.v
Heap.v
Slices.v
DeepCopy.v
InPlace.v
PodInPlace.v
Concurrency.v
Queue.v
Settling.v
Fleet.v
Agreement.v
Setup.v
Retry.v
TestHelpers.v
EnvTest.v
