(* ===== verification/Prelude.v ===== *)
(** * Cloud SQL Proxy Operator: verification development

    The operator (a Kubernetes controller written in Go, under [src/]) adds
    Cloud SQL proxy containers to pods.  A custom resource,
    [AuthProxyWorkload], names the database instances and selects the
    workloads.  The program has these parts:

    - [src/internal/workload/names.go] generates names of containers and
      volumes: file [Names].
    - [src/internal/workload/workload.go] gives seven kinds of workloads one
      interface, and matches objects against selectors: file [Workload].
    - [src/internal/workload/podspec_updates.go] finds the resources that
      select a pod (file [Matching]) and changes the pod (files [PodSpec] and,
      for the memory it is in, [PodInPlace]).
    - [src/internal/controller/pod_controller.go] is the admission webhook
      that calls the two when a pod is created: file [Webhook].
    - [src/internal/controller/authproxyworkload_controller.go] is the
      controller that keeps the finalizer and the status of the resources:
      files [Status] (list operations, cache), [Reconciler] (the calls to the
      API server), [Locking] (the cache under its lock) and [InPlace] (its
      updates of shared memory).
    - [src/internal/api/v1alpha1/authproxyworkload_types.go] declares the data
      of the resource: file [Api]; [zz_generated.deepcopy.go] copies it: file
      [DeepCopy].
    - [src/main.go], [src/internal/controller/setup.go],
      [authproxyworkload_webhook.go] and [groupversion_info.go] start the
      process and register all this: file [Setup].
    - [src/internal/testhelpers] and [src/internal/testintegration/setup.go]
      are the helpers and the environment of the tests: files [Retry],
      [TestHelpers] and [EnvTest].

    The other files: this one holds outcomes, the state monad with its rules,
    and generic lemmas; [Interaction] programs that call an environment;
    [GoStd] what the code uses of the Go language and its standard library
    ([int32], strings, sorting, [fmt], [hash/fnv], the order of [range] over a
    map); [Heap] and [Slices] Go's pointers and slices; [Concrete] and
    [Fixtures] concrete instances and inputs, used by the witnesses only;
    [Allocation] the abstract specification of [ConfigureWorkload],
    [Refinement] its proof, [Configure] consequences, [Repeated] what happens
    when a resource lists a connection twice; [ProxyArgs] a reader of
    the command lines it writes; [Admission] the path from a request to these
    command lines; [Convergence] the controller alone with an API server,
    [Concurrency] the controller among other clients, [Queue] and [Settling]
    with the work queue and the cache that decide when it runs, [Fleet] with
    many resources; [Liveness] what every execution reaches; [Agreement] the controller and the webhook on one
    cluster.

    ** How the code is modelled

    A definition has the name of the Go function it translates.  Fallible calls
    return [Res]; code that may panic or loop returns an [Outcome]; the methods
    of [updateState] run in the monad [Go updateState], one definition per
    method.  The methods that fill in a [*corev1.Container] return it.  Integers
    are [Z]; port counters wrap around as [int32] ([wrap32]).  The loops that
    look for a free port are [bump], whose fuel is the number of ports in use:
    such a loop either stops within that many steps or, all ports of [int32]
    being taken, never ([bump_spec], [bump_diverges_all_used]); the theorems
    bound the number of ports by [2^31] or [max_port_demand = 2^29], far above
    what fits in a pod.

    The admission webhook reads one snapshot of the cluster ([ClusterReader]).
    [listOwners] recurses over owner references; its fuel is the depth allowed,
    and the theorems relate it to the length of ownership chains
    ([owner_depth]).  The webhook is a record with the decoder that
    [InjectDecoder] sets.  The controller and the process are interaction programs:
    trees of calls to the API server, the clock and the cache, or to
    controller-runtime ([Interaction.Prog]).  [runs] relates a program to the
    answers of any environment, [exec] runs it against a server with a state,
    and [Concurrency.step] lets it run among users and other controllers, one
    call at a time.  [Queue.queue_step] adds when runs start: a version that
    reaches the cache, an error or a request for a requeue, a restart.
    [Fleet.fleet_step] interleaves the runs for any number of resources, which
    share the cache of deleted resources, with an API server that finds a
    resource by the name in the call.
    [Locking] replaces the calls of the cache by the code of [set] and [get], on
    a mutex and a map, and lets any number of programs interleave; the
    other files take [set] and [get] as single steps, which it justifies.

    In most files a value stands for a Go structure and what it points to.
    [Heap] has the memory itself: blocks of typed structures, pointers, slices
    that share arrays, nil dereferences and bounds that panic.  [denote] reads
    the value at a pointer together with the blocks it depends on, its
    footprint.  [DeepCopy] shows that copies share nothing, [InPlace] that
    [doCreateUpdate], with its updates through pointers, gets to the calls that
    [Reconciler] makes, with the copy kept for the patch unchanged, and [PodInPlace] that [update]
    builds in memory the pod of [PodSpec], and what it leaves of the pod it was
    given; these are why values are enough elsewhere.  How far [append]
    over-allocates is a parameter ([GoRuntime]).

    Kubernetes types have the fields the operator uses; the others are opaque
    [Rest] fields, which the theorems show to be preserved.  Code outside
    [src/] is a parameter: the classes [K8sTypes], [SchemaPkg], [LabelsPkg],
    [UnicodeTables], [MapRange] (the iteration order of a map: any permutation),
    [ClusterReader], [AdmissionPkg], [ControllerUtil], [APIServer], [Versions]
    (resource versions are distinct), [ExternalMemory], [ExternalCopies] and
    [MemoryFinalizers] (how Kubernetes structures lie in memory, are copied and
    are asked for a finalizer), with their documented laws.

    ** What is proved

    - Pod configuration: [ConfigureWorkload] returns, and implements the
      abstract allocator of [Allocation] ([Refinement]); if no resource lists a
      connection twice, ports are distinct and free; the environment is complete and nothing else changes, ports chosen
      by the operator never conflict, the result is independent of map orders
      ([Configure]); the command line of each proxy reads back as the settings
      of its resource, with the ports the applications are given ([ProxyArgs]).
    - Matching: exactly the live resources that select the pod or its owners,
      once each ([Matching], [Workload]); what the
      webhook applies to a pod is what the controller lists ([Agreement]).
    - Webhook: what it answers in every case, that errors fail closed, that
      listing owners ends and is complete, and that the answer depends on
      nothing in other namespaces ([Webhook]); a pod is not admitted
      without the proxies of every resource that applies to it ([Admission]).
    - Controller: at most one safe write per run, the state machine of
      [doCreateUpdate], deletion only after listing, statuses and conditions
      kept one per key ([Status], [Reconciler]); two runs settle a new resource
      ([Convergence]).  In any interleaving with other clients no change of a
      user is lost, the finalizer protects the resource, also while it is being
      deleted, until the controller has listed its workloads, and the status is never ahead of the spec
      ([Concurrency]).  No change is forgotten: when nothing is left to run, the
      resource is settled or gone ([Queue]); and once failures stop, every
      execution gets there ([Settling]).  All this holds for each of many
      resources: the runs for one do not disturb the others ([Fleet]).
    - Locking: the cache is linearizable, free of races and of panics, and
      nobody waits for ever ([Locking]).
    - Memory: deep copies are equal and separate ([DeepCopy]); the updates
      in place of the controller and of [ConfigureWorkload] refine the functional
      ones; a pod that could not be configured keeps its containers, but may
      keep operator variables ([InPlace], [PodInPlace]).
    - Start-up: the calls in order, and what each failure leads to ([Setup]).
    - Tests: retries end and report the last error ([Retry]); what the helpers
      build is selected as intended, what they judge is what they say, and the
      pods they simulate have the owners the webhook looks for ([TestHelpers]);
      no test environment is left running ([EnvTest]).
    - Names: at most 63 characters, DNS labels, which names can collide
      ([Names]).
    - Defects of the code, as theorems: [http_port_shared],
      [repeated_connection_shares_port], [repeated_connection_frees_port],
      [automatic_port_takes_explicit], [configuration_depends_on_map_order],
      [reapplying_duplicates], [workload_status_time_moves],
      [status_ignores_pods], [stale_status_kept],
      [unsupported_selector_undeletable], [missing_resource_retried],
      [name_hides_selector],
      [listOwners_cycle], [qualified_kind_never_matches],
      [selector_without_name_or_labels], [ContainerName_dotted],
      [EnvTestSetup_ignores_readiness], [DeleteResourceAndWait_any_error].

    ** What is not modelled

    [Concurrency] and [Fleet] have at most one run for a resource at a time, which
    is what controller-runtime guarantees, and reads that may lag behind but do
    not go back.  [Queue] leaves out delays: a requeue after 30 seconds is one
    that may come at any time.  [Settling] assumes that the cache catches up
    before the next run starts; a cache that never does makes every update of
    the controller fail.  [Agreement] is about selectors by name or by labels
    of kinds without a version, and one state of the cluster.  [TestHelpers] takes the client to fill in only the object it is
    given, not what shares memory with it.  Log lines, manifests, scripts and
    the tests themselves are left out. *)

From stdpp Require Export base decidable list list_numbers numbers strings gmap sorting pretty.

Declare Scope go_scope.
Delimit Scope go_scope with go.

(** ** Outcomes of running Go code

    A Go call returns, panics, or runs for ever.  [Panic] carries the reason
    (a slice bound, an explicit [panic]); [Diverge] is a loop that never
    exits. *)
Inductive Outcome (A : Type) : Type :=
| Ret (a : A)
| Panic (why : string)
| Diverge.
Arguments Ret {_} _.
Arguments Panic {_} _.
Arguments Diverge {_}.

#[export] Instance Outcome_ret : MRet Outcome := fun A a => Ret a.
#[export] Instance Outcome_bind : MBind Outcome := fun A B f o =>
  match o with
  | Ret a => f a
  | Panic w => Panic w
  | Diverge => Diverge
  end.
#[export] Instance Outcome_fmap : FMap Outcome := fun A B f o =>
  match o with
  | Ret a => Ret (f a)
  | Panic w => Panic w
  | Diverge => Diverge
  end.

(** ** Code that runs on a mutable state [S] *)
Definition Go (S A : Type) : Type := S -> Outcome (A * S).

#[export] Instance Go_ret S : MRet (Go S) := fun A a s => Ret (a, s).
#[export] Instance Go_bind S : MBind (Go S) := fun A B f m s =>
  match m s with
  | Ret (a, s') => f a s'
  | Panic w => Panic w
  | Diverge => Diverge
  end.

Definition get {S} : Go S S := fun s => Ret (s, s).
Definition gets {S A} (f : S -> A) : Go S A := fun s => Ret (f s, s).
Definition modify {S} (f : S -> S) : Go S unit := fun s => Ret (tt, f s).
Definition lift_outcome {S A} (o : Outcome A) : Go S A := fun s =>
  match o with
  | Ret a => Ret (a, s)
  | Panic w => Panic w
  | Diverge => Diverge
  end.

(** [for _, x := range l { acc = f(acc, x) }] *)
Fixpoint fold_range {S A X} (f : A -> X -> Go S A) (acc : A) (l : list X) : Go S A :=
  match l with
  | [] => mret acc
  | x :: l => acc' ← f acc x; fold_range f acc' l
  end.

(** [for _, x := range l { f(x) }] *)
Definition for_range {S X} (f : X -> Go S unit) (l : list X) : Go S unit :=
  fold_range (fun _ x => f x) tt l.

(** ** Total-correctness triples

    [triple P m Q]: started in a state satisfying [P], [m] returns (it neither
    panics nor diverges), and its result and final state satisfy [Q]. *)
Definition triple {S A} (P : S -> Prop) (m : Go S A) (Q : A -> S -> Prop) : Prop :=
  forall s, P s -> exists a s', m s = Ret (a, s') /\ Q a s'.

Notation "⦃ P ⦄ m ⦃ Q ⦄" := (triple P m Q)
  (at level 20, P at level 200, m at level 200, Q at level 200,
   format "⦃  P  ⦄  m  ⦃  Q  ⦄") : go_scope.

Create HintDb go.

Section triples.
Context {S : Type}.

Lemma triple_ret {A} (P : S -> Prop) (a : A) (Q : A -> S -> Prop) :
  (forall s, P s -> Q a s) -> triple P (mret a) Q.
Proof. intros H s Hs. exists a, s. split; [done|auto]. Qed.

Lemma triple_bind {A B} P (m : Go S A) (f : A -> Go S B) R Q :
  triple P m R -> (forall a, triple (R a) (f a) Q) -> triple P (a ← m; f a) Q.
Proof.
  intros Hm Hf s Hs. destruct (Hm s Hs) as (a & s' & E & Ha).
  destruct (Hf a s' Ha) as (b & s'' & E' & Hb).
  exists b, s''. unfold mbind, Go_bind. by rewrite E.
Qed.

Lemma triple_conseq {A} (P P' : S -> Prop) (m : Go S A) (Q Q' : A -> S -> Prop) :
  triple P' m Q' -> (forall s, P s -> P' s) -> (forall a s, Q' a s -> Q a s) ->
  triple P m Q.
Proof. intros Hm HP HQ s Hs. destruct (Hm s (HP s Hs)) as (a & s' & ? & ?); eauto. Qed.

(** A condition that does not mention the state moves out of the precondition. *)
Lemma triple_assume {A} (phi : Prop) (P : S -> Prop) (m : Go S A) Q :
  (phi -> triple P m Q) -> triple (fun s => phi /\ P s) m Q.
Proof. intros H s [Hphi Hs]. exact (H Hphi s Hs). Qed.

Lemma triple_modify (P : S -> Prop) (f : S -> S) (Q : unit -> S -> Prop) :
  (forall s, P s -> Q tt (f s)) -> triple P (modify f) Q.
Proof. intros H s Hs. exists tt, (f s). split; [done|auto]. Qed.

Lemma triple_gets {A} (P : S -> Prop) (f : S -> A) Q :
  (forall s, P s -> Q (f s) s) -> triple P (gets f) Q.
Proof. intros H s Hs. exists (f s), s. split; [done|auto]. Qed.

Lemma triple_get (P : S -> Prop) Q :
  (forall s, P s -> Q s s) -> triple P get Q.
Proof. intros H s Hs. exists s, s. split; [done|auto]. Qed.

Lemma triple_lift {A} (P : S -> Prop) (o : Outcome A) (a : A) Q :
  o = Ret a -> (forall s, P s -> Q a s) -> triple P (lift_outcome o) Q.
Proof. intros -> H s Hs. exists a, s. split; [done|auto]. Qed.

(** Code that reads the whole state first. *)
Lemma triple_get_bind {A} P (f : S -> Go S A) Q :
  (forall s, P s -> triple (fun s' => s' = s) (f s) Q) -> triple P (s ← get; f s) Q.
Proof. intros H s Hs. exact (H s Hs s eq_refl). Qed.

End triples.

#[export] Hint Resolve triple_ret triple_modify triple_gets triple_get : go.

(** The first step of a run. *)
Lemma Go_bind_eq {S A B} (m : Go S A) (f : A -> Go S B) s a s' :
  m s = Ret (a, s') -> (a ← m; f a) s = f a s'.
Proof. intros E. unfold mbind, Go_bind. by rewrite E. Qed.

(** Inversion of a run that returned. *)
Lemma Go_bind_Ret {S A B} (m : Go S A) (f : A -> Go S B) s b s'' :
  (a ← m; f a) s = Ret (b, s'') ->
  exists a s', m s = Ret (a, s') /\ f a s' = Ret (b, s'').
Proof.
  unfold mbind, Go_bind. destruct (m s) as [[a s']| |]; [|done..]. eauto.
Qed.

(** ** State that every step moves along a preorder [R] *)
Definition along {S A} (R : S -> S -> Prop) (m : Go S A) : Prop :=
  forall s a s', m s = Ret (a, s') -> R s s'.

Section along.
Context {S : Type} (R : S -> S -> Prop) `{!PreOrder R}.

Lemma along_ret {A} (a : A) : along R (mret a).
Proof. intros s b s' [= <- <-]. reflexivity. Qed.

Lemma along_gets {A} (f : S -> A) : along R (gets f).
Proof. intros s b s' [= <- <-]. reflexivity. Qed.

Lemma along_get : along R get.
Proof. intros s b s' [= <- <-]. reflexivity. Qed.

Lemma along_lift {A} (o : Outcome A) : along R (lift_outcome o).
Proof. intros s b s'. destruct o; [|done..]. intros [= <- <-]. reflexivity. Qed.

Lemma along_modify (f : S -> S) : (forall s, R s (f s)) -> along R (modify f).
Proof. intros H s b s' [= <- <-]. auto. Qed.

Lemma along_bind {A B} (m : Go S A) (f : A -> Go S B) :
  along R m -> (forall a, along R (f a)) -> along R (a ← m; f a).
Proof.
  intros Hm Hf s b s'' (a & s' & E & E')%Go_bind_Ret.
  etransitivity; [by eapply Hm|by eapply Hf].
Qed.

Lemma along_fold_range {A X} (f : A -> X -> Go S A) l acc :
  (forall acc x, along R (f acc x)) -> along R (fold_range f acc l).
Proof.
  intros Hf. revert acc. induction l as [|x l IH]; intros acc; cbn.
  - apply along_ret.
  - apply along_bind; auto.
Qed.

Lemma along_for_range {X} (f : X -> Go S unit) l :
  (forall x, along R (f x)) -> along R (for_range f l).
Proof. intros Hf. apply along_fold_range. auto. Qed.

End along.

(** ** Guards: early returns of [false] *)
Lemma if_false_iff (b x : bool) : (if b then false else x) = true <-> b = false /\ x = true.
Proof. destruct b; intuition congruence. Qed.

Lemma negb_guard_false_iff (a b : bool) :
  (negb a && negb b = false /\ true = true) <-> (a = true \/ b = true).
Proof. destruct a, b; cbn; intuition congruence. Qed.

Lemma guard_false_iff (P Q : Prop) `{Decision P} `{Decision Q} :
  negb (bool_decide P) && negb (bool_decide Q) = false <-> P \/ Q.
Proof. repeat case_bool_decide; cbn; intuition congruence. Qed.

(** ** Evaluation of decidable facts *)
Ltac by_evaluation := apply (bool_decide_eq_true_1 _); vm_compute; reflexivity.

(** ** List lemmas the components share *)

(** First element satisfying a boolean test, with its index. *)
Fixpoint find_index {A} (p : A -> bool) (l : list A) : option (nat * A) :=
  match l with
  | [] => None
  | x :: l => if p x then Some (0, x) else (fun '(i, y) => (S i, y)) <$> find_index p l
  end.

Lemma find_index_Some {A} (p : A -> bool) l i x :
  find_index p l = Some (i, x) ->
  l !! i = Some x /\ p x = true /\ forall j y, j < i -> l !! j = Some y -> p y = false.
Proof.
  revert i. induction l as [|y l IH]; intros i; cbn; [done|].
  destruct (p y) eqn:Hp; [intros [= <- <-]; split_and!; [done|done|lia]|].
  destruct (find_index p l) as [[k z]|]; [|done]. intros [= <- ->].
  destruct (IH k eq_refl) as (? & ? & Hlt). split_and!; [done|done|].
  intros [|j] z ? Hz; cbn in Hz; [by simplify_eq|]. apply (Hlt j); [lia|done].
Qed.

Lemma find_index_None {A} (p : A -> bool) l :
  find_index p l = None <-> Forall (fun x => p x = false) l.
Proof.
  induction l as [|y l IH]; cbn; [split; [constructor|done]|].
  rewrite Forall_cons, <-IH. destruct (p y), (find_index p l) as [[]|]; cbn; split;
    try done; by intros [].
Qed.

Lemma fmap_insert_id {A B} (f : A -> B) (l : list A) i x y :
  l !! i = Some x -> f y = f x -> f <$> <[i:=y]> l = f <$> l.
Proof.
  intros Hi Hf. rewrite list_fmap_insert, Hf. apply list_insert_id.
  by rewrite list_lookup_fmap, Hi.
Qed.

(** A projection without duplicates identifies the elements. *)
Lemma NoDup_fmap_inj_elem {A B} (f : A -> B) l x y :
  NoDup (f <$> l) -> x ∈ l -> y ∈ l -> f x = f y -> x = y.
Proof.
  intros Hnd [i Hi]%list_elem_of_lookup [j Hj]%list_elem_of_lookup Hf.
  assert (i = j) as ->; [|congruence].
  eapply NoDup_lookup; [exact Hnd|by rewrite list_lookup_fmap, Hi|].
  by rewrite list_lookup_fmap, Hj, Hf.
Qed.

Lemma bind_length_submseteq {A B} (f : A -> list B) l k :
  l ⊆+ k -> (length (l ≫= f) <= length (k ≫= f))%nat.
Proof. intros (k' & ->)%submseteq_Permutation. rewrite bind_app, length_app. lia. Qed.
