(* ===== verification/Interaction.v ===== *)
(** * Programs that interact

    Code that calls its environment (the API server, the clock, the libraries
    that start the process) is a tree of calls, with a continuation for every
    answer.  [runs] relates it to the answers of any environment; [continues]
    relates it to what is left of it after some calls. *)

From S2P Require Import Prelude.

Section interaction.
Context {Call : Type -> Type}.

Inductive Prog (A : Type) : Type :=
| Done (a : A)
| Step (X : Type) (c : Call X) (k : X -> Prog A).
#[global] Arguments Done {_} a.
#[global] Arguments Step {_ _} c k.

#[export] Instance Prog_ret : MRet Prog := fun A a => Done a.
#[export] Instance Prog_bind : MBind Prog := fix bind A B f m :=
  match m with
  | Done a => f a
  | Step c k => Step c (fun x => bind A B f (k x))
  end.

Definition call {X} (c : Call X) : Prog X := Step c Done.

(** A call with its answer. *)
Inductive Event : Type := event (X : Type) (c : Call X) (answer : X).
#[global] Arguments event {_} c answer.

(** [runs m es a]: [m] returns [a] when the environment answers its calls as
    in [es]. *)
Fixpoint runs {A} (m : Prog A) (es : list Event) (a : A) : Prop :=
  match m with
  | Done x => es = [] /\ a = x
  | Step c k => exists answer es', es = event c answer :: es' /\ runs (k answer) es' a
  end.

Lemma runs_bind {A B} (m : Prog A) (f : A -> Prog B) es b :
  runs (x ← m; f x) es b <->
  exists es1 es2 a, es = es1 ++ es2 /\ runs m es1 a /\ runs (f a) es2 b.
Proof.
  revert es. induction m as [x|X c k IH]; intros es.
  - split; [intros Hr; by exists [], es, x|]. by intros (es1 & es2 & a & -> & [-> ->] & Hr).
  - split.
    + intros (x & es' & -> & Hr). apply IH in Hr as (es1 & es2 & a & -> & H1 & H2).
      exists (event c x :: es1), es2, a. split_and!; [done| |done]. by exists x, es1.
    + intros (es1 & es2 & a & -> & (x & es' & -> & H1) & H2).
      exists x, (es' ++ es2). split; [done|]. apply IH. by exists es', es2, a.
Qed.

Lemma runs_call {X} (c : Call X) es a : runs (call c) es a <-> es = [event c a].
Proof.
  split; [by intros (x & es' & -> & -> & ->)|]. intros ->. by exists a, [].
Qed.

(** A program that makes no more calls. *)
Lemma runs_done {A B} (m : Prog A) (f : A -> Prog B) es a :
  runs m es a -> (exists b, f a = Done b) -> exists b, runs (x ← m; f x) es b.
Proof.
  intros Hm [b E]. exists b. apply runs_bind. exists es, [], a. by rewrite app_nil_r, E.
Qed.

(** Every call of every run, with its answer, is in [P]. *)
Definition calls_only {A} (P : Event -> Prop) (m : Prog A) : Prop :=
  forall es a, runs m es a -> Forall P es.

Lemma calls_only_ret {A} (P : Event -> Prop) (a : A) : calls_only P (mret a).
Proof. intros es a' [-> _]. constructor. Qed.

Lemma calls_only_call {X} (P : Event -> Prop) (c : Call X) :
  (forall x, P (event c x)) -> calls_only P (call c).
Proof. intros HP es a ->%runs_call. by apply Forall_singleton. Qed.

Lemma calls_only_bind {A B} (P : Event -> Prop) (m : Prog A) (f : A -> Prog B) :
  calls_only P m -> (forall es a, runs m es a -> calls_only P (f a)) ->
  calls_only P (x ← m; f x).
Proof.
  intros Hm Hf es b (es1 & es2 & a & -> & H1 & H2)%runs_bind.
  apply Forall_app_2; [by eapply Hm|by eapply Hf].
Qed.

(** ** Programs that are stopped *)

(** [m] is what is left of [m0] after the calls [es]. *)
Definition continues {A} (m0 : Prog A) (es : list Event) (m : Prog A) : Prop :=
  forall es' a, runs m es' a -> runs m0 (es ++ es') a.

Lemma continues_refl {A} (m : Prog A) : continues m [] m.
Proof. by intros es a. Qed.

Lemma continues_call {A X} (m0 : Prog A) es (c : Call X) k x :
  continues m0 es (Step c k) -> continues m0 (es ++ [event c x]) (k x).
Proof.
  intros Hc es' a Hr. rewrite <-app_assoc. apply Hc. by exists x, es'.
Qed.

Lemma continues_bind {A B} (m : Prog A) (f : A -> Prog B) es a :
  runs m es a -> continues (x ← m; f x) es (f a).
Proof. intros Hm es' b Hf. apply runs_bind. by exists es, es', a. Qed.

Lemma continues_trans {A} (m0 m1 m2 : Prog A) es1 es2 :
  continues m0 es1 m1 -> continues m1 es2 m2 -> continues m0 (es1 ++ es2) m2.
Proof. intros H1 H2 es' a Hr. rewrite <-app_assoc. auto. Qed.

(** Every call can be answered somehow. *)
Context (some_answer : forall X, Call X -> X).

Lemma runs_total {A} (m : Prog A) : exists es a, runs m es a.
Proof.
  induction m as [a|X c k IH]; [by exists [], a|].
  destruct (IH (some_answer X c)) as (es & a & Hr).
  by exists (event c (some_answer X c) :: es), a, (some_answer X c), es.
Qed.

(** A stopped program can be completed, its next call answered with [x]. *)
Lemma continues_complete {A X} (m0 : Prog A) es (c : Call X) k x :
  continues m0 es (Step c k) -> exists es' a, runs m0 (es ++ event c x :: es') a.
Proof.
  intros Hc. destruct (runs_total (k x)) as (es' & a & Hr). exists es', a. apply Hc. by exists x, es'.
Qed.

End interaction.

(** ** Programs of other calls *)
Section translation.
Context {C1 C2 : Type -> Type} (h : forall X, C1 X -> C2 X).

(** A program whose calls are among those of a larger set. *)
Fixpoint translate {A} (m : Prog (Call := C1) A) : Prog (Call := C2) A :=
  match m with
  | Done a => Done a
  | Step c k => Step (h _ c) (fun x => translate (k x))
  end.

Definition translate_event (e : Event (Call := C1)) : Event (Call := C2) :=
  match e with event c x => event (h _ c) x end.

Lemma runs_translate {A} (m : Prog (Call := C1) A) es a :
  runs (translate m) es a <-> exists es', es = translate_event <$> es' /\ runs m es' a.
Proof.
  revert es. induction m as [x|X c k IH]; intros es; cbn.
  - split; [intros [-> ->]; by exists []|]. by intros (es' & -> & -> & ->).
  - split.
    + intros (x & es' & -> & (es1 & -> & Hr)%IH). exists (event c x :: es1).
      split; [done|]. by exists x, es1.
    + intros (es' & -> & x & es1 & -> & Hr). exists x, (translate_event <$> es1).
      split; [done|]. apply IH. by exists es1.
Qed.
End translation.

#[global] Arguments Prog : clear implicits.
#[global] Arguments Event : clear implicits.
