(* ===== verification/Liveness.v ===== *)
(** * What every execution reaches

    [eventually R P s]: whatever steps are taken from [s], a state of [P] is
    reached after finitely many, and until then there is always a next step.
    [interleaves] is one step of one of several programs ([Interaction]); a
    list of programs can only make finitely many of them. *)

From S2P Require Import Prelude Interaction.

Section eventually.
Context {S : Type} (R : S -> S -> Prop).

Inductive eventually (P : S -> Prop) (s : S) : Prop :=
| reached : P s -> eventually P s
| further : (exists s', R s s') -> (forall s', R s s' -> eventually P s') -> eventually P s.

Lemma eventually_weaken (P Q : S -> Prop) s :
  (forall s, P s -> Q s) -> eventually P s -> eventually Q s.
Proof.
  intros HPQ. induction 1 as [s Hs|s Hex _ IH]; [by apply reached, HPQ|]. by apply further.
Qed.

(** One stage after the other. *)
Lemma eventually_then (P Q : S -> Prop) s :
  eventually P s -> (forall s', P s' -> eventually Q s') -> eventually Q s.
Proof.
  intros He HPQ. induction He as [s Hs|s Hex _ IH]; [by apply HPQ|]. by apply further.
Qed.

(** Steps that go down a well-founded relation reach [P], if there is a next
    step as long as [P] does not hold. *)
Lemma eventually_wf (I P : S -> Prop) s :
  Acc (fun s' s => R s s') s ->
  (forall s s', I s -> R s s' -> I s') -> (forall s, I s -> P s \/ exists s', R s s') ->
  I s -> eventually P s.
Proof.
  intros Hacc Hkeep Hgo. induction Hacc as [s _ IH]. intros Hs.
  destruct (Hgo s Hs) as [Hp|Hex]; [by apply reached|]. apply further; [done|].
  intros s' Hr. apply IH; [done|]. by eapply Hkeep.
Qed.

End eventually.

(** What the steps of [RT] reach, the steps of [RS] that they simulate reach. *)
Lemma eventually_simulated {S T : Type} (RS : S -> S -> Prop) (RT : T -> T -> Prop)
    (sim : S -> T -> Prop) (P : S -> Prop) (Q : T -> Prop) s t :
  (forall s s' t, sim s t -> RS s s' -> exists t', RT t t' /\ sim s' t') ->
  (forall s t t', sim s t -> RT t t' -> exists s', RS s s') ->
  (forall s t, sim s t -> Q t -> P s) ->
  sim s t -> eventually RT Q t -> eventually RS P s.
Proof.
  intros Hstep Hgo Hend Hsim He. revert s Hsim.
  induction He as [t Ht|t [t1 Ht1] _ IH]; intros s Hsim; [by apply reached; eauto|].
  apply further; [by eapply Hgo|]. intros s' Hs.
  destruct (Hstep s s' t Hsim Hs) as (t' & Ht' & Hsim'). by eapply IH.
Qed.

(** ** Several programs *)
Section interleaving.
Context {Call : Type -> Type} {A : Type}.

(** What is left of a program after its next call. *)
Definition advances (m m' : Prog Call A) : Prop :=
  match m with Done _ => False | Step c k => exists x, m' = k x end.

Definition interleaves (ts ts' : list (Prog Call A)) : Prop :=
  exists i m m', ts !! i = Some m /\ advances m m' /\ ts' = <[i := m']> ts.

Lemma interleaves_cons m ts ts' :
  interleaves (m :: ts) ts' ->
  (exists m', advances m m' /\ ts' = m' :: ts) \/ (exists ts1, interleaves ts ts1 /\ ts' = m :: ts1).
Proof.
  intros ([|i] & m0 & m' & Hi & Ha & ->); [injection Hi as ->; left; by exists m'|].
  right. exists (<[i := m']> ts). split; [by exists i, m0, m'|done].
Qed.

(** Only finitely many calls are made. *)
Lemma interleaves_wf ts : Acc (fun ts' ts => interleaves ts ts') ts.
Proof.
  induction ts as [|m ts IH].
  - constructor. intros ts' (i & m & m' & Hi & _). by rewrite lookup_nil in Hi.
  - revert ts IH. induction m as [a|X c k IHm]; intros ts Hts; induction Hts as [ts Hacc IHts].
    + constructor. intros ts' [(m' & [] & _)|(ts1 & H1 & ->)]%interleaves_cons. by apply IHts.
    + constructor. intros ts' [(m' & (x & ->) & ->)|(ts1 & H1 & ->)]%interleaves_cons; [|by apply IHts].
      apply IHm. by constructor.
Qed.

End interleaving.
