(* ===== verification/GoStd.v ===== *)
(** * The parts of Go and its standard library the operator uses

    Fixed-width integers ([int32] as [Z] with its wrap-around), string
    slicing, [strings.ToLower], [strings.HasPrefix], [strings.ReplaceAll] for a
    one-byte pattern, [strings.Join], [sort.Strings], [hash/fnv] (32-bit
    FNV-1a), the verbs %d and %x of [fmt], and [range] over a map. *)

From S2P Require Import Prelude.
From Stdlib Require Import Ascii.
From Stdlib Require String.

#[local] Open Scope Z_scope.

(** ** [int32] *)
Definition is_int32 (z : Z) : Prop := - 2 ^ 31 <= z < 2 ^ 31.

Definition wrap32 (z : Z) : Z := (z + 2 ^ 31) `mod` 2 ^ 32 - 2 ^ 31.

(** [p++] *)
Definition int32_inc (p : Z) : Z := wrap32 (p + 1).

Lemma wrap32_is_int32 z : is_int32 (wrap32 z).
Proof. unfold is_int32, wrap32. pose proof (Z.mod_pos_bound (z + 2 ^ 31) (2 ^ 32)). lia. Qed.

Lemma wrap32_id z : is_int32 z -> wrap32 z = z.
Proof. unfold is_int32, wrap32. intros. rewrite Z.mod_small; lia. Qed.

Lemma wrap32_wrap32 a b : wrap32 (wrap32 a + b) = wrap32 (a + b).
Proof.
  unfold wrap32.
  replace ((a + 2 ^ 31) `mod` 2 ^ 32 - 2 ^ 31 + b + 2 ^ 31)
    with ((a + 2 ^ 31) `mod` 2 ^ 32 + b) by lia.
  rewrite Zplus_mod_idemp_l. do 2 f_equal. lia.
Qed.

Lemma wrap32_inj a b j k :
  wrap32 (a + j) = wrap32 (a + k) -> b <= j < b + 2 ^ 32 -> b <= k < b + 2 ^ 32 -> j = k.
Proof.
  unfold wrap32. intros H Hj Hk.
  assert (((a + j + 2 ^ 31) - (a + k + 2 ^ 31)) `mod` 2 ^ 32 = 0) as Hmod.
  { rewrite Zminus_mod. replace ((a + j + 2 ^ 31) `mod` 2 ^ 32)
      with ((a + k + 2 ^ 31) `mod` 2 ^ 32) by lia.
    by rewrite Z.sub_diag. }
  apply Z.mod_divide in Hmod as [q Hq]; [|lia]. nia.
Qed.

Lemma wrap32_onto a z : is_int32 z -> exists k, 0 <= k < 2 ^ 32 /\ wrap32 (a + k) = z.
Proof.
  intros Hz. exists ((z - a) `mod` 2 ^ 32). split.
  - apply Z.mod_pos_bound. lia.
  - transitivity (wrap32 z); [|by apply wrap32_id]. unfold wrap32. f_equal.
    replace (a + (z - a) `mod` 2 ^ 32 + 2 ^ 31)
      with ((a + 2 ^ 31) + (z - a) `mod` 2 ^ 32) by lia.
    rewrite Zplus_mod_idemp_r. f_equal. lia.
Qed.

(** ** The loop [for used(port) { port++ }]

    [fuel] bounds the number of increments; running out of it is [Diverge]. *)
Fixpoint bump (used : Z -> bool) (fuel : nat) (port : Z) : Outcome Z :=
  if used port then
    match fuel with
    | O => Diverge
    | S fuel => bump used fuel (int32_inc port)
    end
  else Ret port.

Lemma bump_spec used fuel port :
  is_int32 port ->
  match bump used fuel port with
  | Ret r => exists k, (k <= fuel)%nat /\ r = wrap32 (port + Z.of_nat k) /\ used r = false
               /\ forall j, (j < k)%nat -> used (wrap32 (port + Z.of_nat j)) = true
  | Panic _ => False
  | Diverge => forall j, (j <= fuel)%nat -> used (wrap32 (port + Z.of_nat j)) = true
  end.
Proof.
  revert port. induction fuel as [|fuel IH]; intros port Hp; cbn.
  - destruct (used port) eqn:Hu.
    + intros j ?. replace j with O by lia. by rewrite Z.add_0_r, wrap32_id.
    + exists O. rewrite Z.add_0_r, wrap32_id by done. split_and!; [lia|done|done|lia].
  - destruct (used port) eqn:Hu.
    + specialize (IH (int32_inc port) (wrap32_is_int32 _)).
      assert (forall j, wrap32 (int32_inc port + Z.of_nat j) = wrap32 (port + Z.of_nat (S j)))
        as Hshift.
      { intros j. unfold int32_inc. rewrite wrap32_wrap32. f_equal. lia. }
      destruct (bump used fuel (int32_inc port)) as [r| |]; [|done|].
      * destruct IH as (k & ? & -> & ? & Hbefore). exists (S k). rewrite Hshift in *.
        split_and!; [lia|done|done|]. intros [|j] ?.
        { by rewrite Z.add_0_r, wrap32_id. }
        rewrite <-Hshift. apply Hbefore. lia.
      * intros [|j] ?; [by rewrite Z.add_0_r, wrap32_id|].
        rewrite <-Hshift. apply IH. lia.
    + exists O. rewrite Z.add_0_r, wrap32_id by done. split_and!; [lia|done|done|lia].
Qed.

(** Fuel equal to the number of used ports is exact: the loop diverges only
    when every [int32] is used. *)
Lemma bump_diverges_all_used (L : list Z) used port :
  (forall p, used p = true <-> p ∈ L) -> is_int32 port ->
  bump used (length L) port = Diverge -> forall z, is_int32 z -> z ∈ L.
Proof.
  intros Hused Hport Hdiv z Hz.
  pose proof (bump_spec used (length L) port Hport) as H. rewrite Hdiv in H.
  destruct (decide (Z.of_nat (length L) < 2 ^ 32 - 1)) as [Hsmall|Hbig].
  - exfalso.
    set (tried := (fun j => wrap32 (port + Z.of_nat j)) <$> seq 0 (S (length L))).
    assert (NoDup tried) as Hnd.
    { apply NoDup_fmap_2_strong; [|apply NoDup_seq].
      intros j k [??]%elem_of_seq [??]%elem_of_seq Heq.
      assert (Z.of_nat j = Z.of_nat k) by (apply (wrap32_inj port 0 _ _ Heq); lia). lia. }
    assert (tried ⊆ L) as Hsub.
    { intros x (j & -> & [??]%elem_of_seq)%list_elem_of_fmap. apply Hused, H. lia. }
    assert (length tried <= length L)%nat as Hlen.
    { apply submseteq_length, NoDup_submseteq; done. }
    unfold tried in Hlen. rewrite length_fmap, length_seq in Hlen. lia.
  - destruct (wrap32_onto port z Hz) as (k & Hk & <-).
    rewrite <-(Z2Nat.id k) by lia. apply Hused, H. lia.
Qed.

(** ** Strings *)
Definition len (s : string) : Z := Z.of_nat (String.length s).

Fixpoint string_forall (P : ascii -> bool) (s : string) : bool :=
  match s with
  | EmptyString => true
  | String c s => P c && string_forall P s
  end.

Fixpoint string_map (f : ascii -> ascii) (s : string) : string :=
  match s with
  | EmptyString => EmptyString
  | String c s => String (f c) (string_map f s)
  end.

Fixpoint string_last (s : string) : option ascii :=
  match s with
  | EmptyString => None
  | String c EmptyString => Some c
  | String _ s => string_last s
  end.

(** [s[:n]] and [s[n:]]: out of range they panic. *)
Definition slice_to (s : string) (n : Z) : Outcome string :=
  if (0 <=? n) && (n <=? len s) then Ret (String.substring 0 (Z.to_nat n) s)
  else Panic "slice bounds out of range".

Definition slice_from (s : string) (n : Z) : Outcome string :=
  if (0 <=? n) && (n <=? len s)
  then Ret (String.substring (Z.to_nat n) (Z.to_nat (len s - n)) s)
  else Panic "slice bounds out of range".

(** [strings.ToLower]: a fast path for ASCII, and the Unicode tables (a
    parameter) for the rest. *)
Class UnicodeTables := { map_to_lower : string -> string }.

Definition is_ascii (c : ascii) : bool := (N_of_ascii c <? 128)%N.
Definition is_upper (c : ascii) : bool :=
  (N_of_ascii "A" <=? N_of_ascii c)%N && (N_of_ascii c <=? N_of_ascii "Z")%N.
Definition lower_ascii (c : ascii) : ascii :=
  if is_upper c then ascii_of_N (N_of_ascii c + 32) else c.

Definition isASCII (s : string) : bool := string_forall is_ascii s.

Definition ToLower `{UnicodeTables} (s : string) : string :=
  if isASCII s then string_map lower_ascii s else map_to_lower s.

(** [strings.HasPrefix] *)
Definition HasPrefix (s pre : string) : bool := String.prefix pre s.

(** [strings.ReplaceAll(s, old, new)] for one-byte [old] and [new]. *)
Definition ReplaceAll (s : string) (old new : ascii) : string :=
  string_map (fun c => if (c =? old)%char then new else c) s.

(** [strings.Join] *)
Definition Join (l : list string) (sep : string) : string := String.concat sep l.

(** [sort.Strings]: byte-wise increasing order. *)
Definition sort_Strings (l : list string) : list string := merge_sort String.le l.

(** ** [fmt]: %d (and %v of an integer) and %x of an unsigned integer *)
Definition format_d (z : Z) : string := pretty z.

Definition hex_digit (d : Z) : ascii :=
  if d <? 10 then ascii_of_N (Z.to_N (48 + d)) else ascii_of_N (Z.to_N (87 + d)).

Fixpoint hex_go (fuel : nat) (z : Z) (acc : string) : string :=
  match fuel with
  | O => acc
  | S fuel => if z =? 0 then acc else hex_go fuel (z `div` 16) (String (hex_digit (z `mod` 16)) acc)
  end.

(** Eight digits are enough for a [uint32] ([format_x_value] below). *)
Definition format_x (z : Z) : string := if z =? 0 then "0" else hex_go 8 z "".

(** ** [hash/fnv]: [fnv.New32a], [Write], [Sum32] *)
Definition fnv_offset32 : Z := 2166136261.
Definition fnv_prime32 : Z := 16777619.

Definition fnv1a_step (hash : Z) (c : ascii) : Z :=
  (Z.lxor hash (Z.of_N (N_of_ascii c)) * fnv_prime32) `mod` 2 ^ 32.

(** The new sum, the number of bytes written, and no error. *)
Fixpoint fnv_Write (hash : Z) (data : string) : Z * Z * option string :=
  match data with
  | EmptyString => (hash, 0, None)
  | String c data => let '(h, n, e) := fnv_Write (fnv1a_step hash c) data in (h, n + 1, e)
  end.

(** ** [range] over a map

    Every entry is visited once, in an order the language leaves open:
    [range_order] is that order, some permutation of the entries. *)
Class MapRange := {
  range_order : forall {V : Type}, list (string * V) -> list (string * V);
  range_order_perm : forall V (l : list (string * V)), range_order l ≡ₚ l
}.

Definition range_map `{MapRange} {V} (m : gmap string V) : list (string * V) :=
  range_order (map_to_list m).

(** * Lemmas *)

Lemma range_map_perm `{MapRange} {V} (m : gmap string V) : range_map m ≡ₚ map_to_list m.
Proof. apply range_order_perm. Qed.

Lemma string_app_cons c s1 s2 : String c s1 +:+ s2 = String c (s1 +:+ s2).
Proof. done. Qed.

Lemma string_length_app s1 s2 :
  String.length (s1 +:+ s2) = (String.length s1 + String.length s2)%nat.
Proof. induction s1 as [|c s1 IH]; [done|]. rewrite string_app_cons. cbn. by f_equal. Qed.

Lemma len_app s1 s2 : len (s1 +:+ s2) = len s1 + len s2.
Proof. unfold len. rewrite string_length_app. lia. Qed.

Lemma len_nonneg s : 0 <= len s.
Proof. unfold len. apply Nat2Z.is_nonneg. Qed.

Lemma string_app_nil s : s +:+ "" = s.
Proof. induction s as [|c s IH]; [done|]. by rewrite string_app_cons, IH. Qed.

Lemma string_app_assoc s1 s2 s3 : (s1 +:+ s2) +:+ s3 = s1 +:+ (s2 +:+ s3).
Proof. induction s1 as [|c s1 IH]; [done|]. by rewrite !string_app_cons, IH. Qed.

Lemma string_forall_app P s1 s2 :
  string_forall P (s1 +:+ s2) = string_forall P s1 && string_forall P s2.
Proof. induction s1 as [|c s1 IH]; [done|]. rewrite string_app_cons. cbn. by rewrite IH, andb_assoc. Qed.

Lemma string_forall_impl (P Q : ascii -> bool) s :
  (forall c, P c = true -> Q c = true) -> string_forall P s = true -> string_forall Q s = true.
Proof. intros HPQ. induction s as [|c s IH]; cbn; [done|]. rewrite !andb_true_iff. intros []; auto. Qed.

Lemma string_map_length f s : String.length (string_map f s) = String.length s.
Proof. induction s as [|c s IH]; cbn; [done|]. by f_equal. Qed.

Lemma string_map_id P f s :
  (forall c, P c = true -> f c = c) -> string_forall P s = true -> string_map f s = s.
Proof.
  intros Hf. induction s as [|c s IH]; cbn; [done|]. rewrite andb_true_iff.
  intros [??]. f_equal; auto.
Qed.

Lemma string_forall_map P f s :
  string_forall P (string_map f s) = string_forall (fun c => P (f c)) s.
Proof. induction s as [|c s IH]; cbn; [done|]. by f_equal. Qed.

Lemma string_last_app s1 s2 c : string_last s2 = Some c -> string_last (s1 +:+ s2) = Some c.
Proof.
  intros H. induction s1 as [|d s1 IH]; [done|].
  rewrite string_app_cons. cbn. by destruct (s1 +:+ s2).
Qed.

Lemma string_app_inj_len a a' b b' :
  String.length a = String.length a' -> a +:+ b = a' +:+ b' -> a = a' /\ b = b'.
Proof.
  revert a'. induction a as [|c a IH]; intros [|c' a'] Hl H; try done; cbn in Hl.
  rewrite !string_app_cons in H. injection H as -> H. destruct (IH a' ltac:(lia) H) as [-> ->]. done.
Qed.

Lemma string_app_inj_l a b b' : a +:+ b = a +:+ b' -> b = b'.
Proof. intros H. by apply string_app_inj_len in H as [_ ?]. Qed.

Lemma HasPrefix_app pre s : HasPrefix (pre +:+ s) pre = true.
Proof.
  unfold HasPrefix. induction pre as [|c pre IH]; [by destruct s|].
  rewrite string_app_cons. cbn. destruct (ascii_dec c c); [done|congruence].
Qed.

Lemma substring_length n m s :
  (n + m <= String.length s)%nat -> String.length (String.substring n m s) = m.
Proof.
  revert n m. induction s as [|c s IH]; intros n m; cbn.
  - intros. assert (n = O /\ m = O) as [-> ->] by lia. done.
  - destruct n as [|n]; [|intros; apply IH; lia].
    destruct m as [|m]; [done|]. intros. cbn. f_equal. apply IH. lia.
Qed.

Lemma string_forall_substring P n m s :
  string_forall P s = true -> string_forall P (String.substring n m s) = true.
Proof.
  revert n m. induction s as [|c s IH]; intros n m; cbn.
  - intros _. by destruct n, m.
  - rewrite andb_true_iff. intros [Hc Hs]. destruct n as [|n]; [|by apply IH].
    destruct m as [|m]; [done|]. cbn. rewrite Hc. by apply IH.
Qed.

Lemma slice_to_Ret s n : 0 <= n <= len s -> slice_to s n = Ret (String.substring 0 (Z.to_nat n) s).
Proof. intros [H1 H2]. unfold slice_to. apply Z.leb_le in H1, H2. by rewrite H1, H2. Qed.

Lemma slice_from_Ret s n :
  0 <= n <= len s ->
  slice_from s n = Ret (String.substring (Z.to_nat n) (Z.to_nat (len s - n)) s).
Proof. intros [H1 H2]. unfold slice_from. apply Z.leb_le in H1, H2. by rewrite H1, H2. Qed.

(** Decide a statement over all 256 bytes by evaluation. *)
Ltac by_bytes :=
  let b := fresh in intros [[|] [|] [|] [|] [|] [|] [|] [|]]; vm_compute; first [done | congruence].

Lemma lower_ascii_not_upper c : is_upper (lower_ascii c) = false.
Proof. revert c. by_bytes. Qed.

Lemma lower_ascii_id c : is_upper c = false -> lower_ascii c = c.
Proof. unfold lower_ascii. by intros ->. Qed.

Section ToLower.
Context `{UnicodeTables}.

Lemma ToLower_ascii s : isASCII s = true -> ToLower s = string_map lower_ascii s.
Proof. unfold ToLower. by intros ->. Qed.

Lemma ToLower_length s : isASCII s = true -> len (ToLower s) = len s.
Proof. intros ?. rewrite ToLower_ascii by done. unfold len. by rewrite string_map_length. Qed.

Lemma ToLower_id s :
  string_forall (fun c => is_ascii c && negb (is_upper c)) s = true -> ToLower s = s.
Proof.
  intros Hs. rewrite ToLower_ascii.
  - eapply string_map_id; [|exact Hs]. intros c [_ ?%negb_true_iff]%andb_true_iff.
    by apply lower_ascii_id.
  - eapply string_forall_impl; [|exact Hs]. by intros c [? _]%andb_true_iff.
Qed.

End ToLower.

(** *** %x *)
Definition hex_digit_value (c : ascii) : Z :=
  let n := Z.of_N (N_of_ascii c) in if n <? 58 then n - 48 else n - 87.

Fixpoint hex_value_go (acc : Z) (s : string) : Z :=
  match s with
  | EmptyString => acc
  | String c s => hex_value_go (acc * 16 + hex_digit_value c) s
  end.
Definition hex_value (s : string) : Z := hex_value_go 0 s.

Definition is_hex (c : ascii) : bool :=
  ((48 <=? N_of_ascii c)%N && (N_of_ascii c <=? 57)%N)
  || ((97 <=? N_of_ascii c)%N && (N_of_ascii c <=? 102)%N).

Lemma small_digit d (P : Z -> Prop) :
  0 <= d < 16 ->
  P 0 -> P 1 -> P 2 -> P 3 -> P 4 -> P 5 -> P 6 -> P 7 -> P 8 -> P 9 -> P 10 -> P 11 ->
  P 12 -> P 13 -> P 14 -> P 15 -> P d.
Proof.
  intros. assert (d = 0 \/ d = 1 \/ d = 2 \/ d = 3 \/ d = 4 \/ d = 5 \/ d = 6 \/ d = 7 \/ d = 8
    \/ d = 9 \/ d = 10 \/ d = 11 \/ d = 12 \/ d = 13 \/ d = 14 \/ d = 15) by lia.
  repeat match goal with H : _ \/ _ |- _ => destruct H as [->|H] end; subst; assumption.
Qed.

Lemma hex_digit_value_digit d : 0 <= d < 16 -> hex_digit_value (hex_digit d) = d.
Proof. intros H. apply small_digit with (d := d); done. Qed.

Lemma hex_digit_is_hex d : 0 <= d < 16 -> is_hex (hex_digit d) = true.
Proof. intros H. apply small_digit with (d := d); done. Qed.

Lemma hex_go_is_hex fuel z acc :
  string_forall is_hex acc = true -> string_forall is_hex (hex_go fuel z acc) = true.
Proof.
  revert z acc. induction fuel as [|fuel IH]; intros z acc Hacc; cbn; [done|].
  destruct (z =? 0); [done|]. apply IH. cbn. rewrite Hacc, hex_digit_is_hex; [done|].
  apply Z.mod_pos_bound. lia.
Qed.

Lemma hex_go_length fuel z acc :
  (String.length acc <= String.length (hex_go fuel z acc) <= fuel + String.length acc)%nat.
Proof.
  revert z acc. induction fuel as [|fuel IH]; intros z acc; cbn; [lia|].
  destruct (z =? 0); [lia|].
  specialize (IH (z `div` 16) (String (hex_digit (z `mod` 16)) acc)). cbn in IH. lia.
Qed.

Lemma hex_value_go_hex_go fuel z acc v :
  0 <= z < 16 ^ Z.of_nat fuel ->
  hex_value_go v (hex_go fuel z acc) =
  hex_value_go (v * 16 ^ Z.of_nat (String.length (hex_go fuel z acc) - String.length acc) + z) acc.
Proof.
  revert z acc. induction fuel as [|fuel IH]; intros z acc Hz.
  - cbn in *. assert (z = 0) as -> by lia. rewrite Nat.sub_diag. f_equal. lia.
  - cbn [hex_go]. destruct (Z.eqb_spec z 0) as [->|Hne].
    { rewrite Nat.sub_diag. f_equal. lia. }
    assert (0 <= z `div` 16 < 16 ^ Z.of_nat fuel) as Hdiv.
    { split; [apply Z.div_pos; lia|]. apply Z.div_lt_upper_bound; [lia|].
      rewrite Nat2Z.inj_succ, Z.pow_succ_r in Hz by lia. lia. }
    rewrite IH by done. cbn [hex_value_go String.length].
    pose proof (hex_go_length fuel (z `div` 16) (String (hex_digit (z `mod` 16)) acc)) as Hl.
    cbn in Hl.
    set (n := String.length (hex_go fuel (z `div` 16) (String (hex_digit (z `mod` 16)) acc))) in *.
    rewrite hex_digit_value_digit by (apply Z.mod_pos_bound; lia).
    replace (n - String.length acc)%nat with (S (n - S (String.length acc))) by lia.
    rewrite Nat2Z.inj_succ, Z.pow_succ_r by lia. f_equal.
    pose proof (Z.div_mod z 16). lia.
Qed.

(** Printing a [uint32] with %x and reading it back. *)
Lemma format_x_value z : 0 <= z < 2 ^ 32 -> hex_value (format_x z) = z.
Proof.
  intros Hz. unfold format_x. destruct (Z.eqb_spec z 0) as [->|]; [done|].
  unfold hex_value. rewrite hex_value_go_hex_go by (cbn; lia). cbn. lia.
Qed.

Lemma format_x_is_hex z : string_forall is_hex (format_x z) = true.
Proof. unfold format_x. destruct (z =? 0); [done|]. by apply hex_go_is_hex. Qed.

Lemma format_x_length z : 1 <= len (format_x z) <= 8.
Proof.
  unfold format_x, len. destruct (Z.eqb_spec z 0); [cbn; lia|].
  pose proof (hex_go_length 8 z "") as [_ ?]. cbn [hex_go] in *.
  destruct (Z.eqb_spec z 0); [done|].
  pose proof (hex_go_length 7 (z `div` 16) (String (hex_digit (z `mod` 16)) "")) as Hl.
  cbn [hex_go String.length] in *. lia.
Qed.

(** *** FNV-1a *)
Lemma fnv_Write_ok hash data :
  exists h, fnv_Write hash data = (h, len data, None)
  /\ (0 <= hash < 2 ^ 32 -> 0 <= h < 2 ^ 32).
Proof.
  revert hash. induction data as [|c data IH]; intros hash; cbn [fnv_Write].
  - by exists hash.
  - destruct (IH (fnv1a_step hash c)) as (h & -> & Hh). exists h. split.
    + unfold len. cbn [String.length]. do 2 f_equal. lia.
    + intros _. apply Hh. unfold fnv1a_step. apply Z.mod_pos_bound. lia.
Qed.

(** *** Sorting *)
Lemma sort_Strings_perm l : sort_Strings l ≡ₚ l.
Proof. apply merge_sort_Permutation. Qed.

(** Sorting forgets the order of its argument. *)
Lemma sort_Strings_proper l1 l2 : l1 ≡ₚ l2 -> sort_Strings l1 = sort_Strings l2.
Proof.
  intros H. apply (Sorted_unique String.le); try apply Sorted_merge_sort; try apply _.
  by rewrite !sort_Strings_perm.
Qed.

#[export] Instance sort_Strings_Proper : Proper ((≡ₚ) ==> (=)) sort_Strings.
Proof. intros l1 l2. apply sort_Strings_proper. Qed.
