(* ===== verification/Api.v ===== *)
(** * Kubernetes objects and the v1alpha1 API types

    [src/internal/api/v1alpha1/authproxyworkload_types.go], and the fields of
    the Kubernetes types (k8s.io/api, k8s.io/apimachinery: not part of the
    repository) that the operator reads or writes.  What the operator never
    looks at is carried in an opaque [...Rest] field, so that theorems can say
    it is preserved.  External types and functions are the members of the
    classes [K8sTypes] and [LabelsPkg]. *)

From S2P Require Import Prelude GoStd.
From Stdlib Require Import Ascii.
#[local] Open Scope Z_scope.

(** ** Errors

    [errors.StatusError] of apimachinery carries a reason; every other error
    the operator sees or makes is its text. *)
Inductive error : Type :=
| StatusError (reason : string) (msg : string)
| ErrorString (msg : string).

#[export] Instance error_eq_dec : EqDecision error.
Proof. solve_decision. Defined.

Definition StatusReasonNotFound : string := "NotFound".

(** [errors.IsNotFound] *)
Definition IsNotFound (e : error) : bool :=
  match e with
  | StatusError reason _ => bool_decide (reason = StatusReasonNotFound)
  | ErrorString _ => false
  end.

(** [err.Error()] *)
Definition Error_text (e : error) : string :=
  match e with StatusError _ msg => msg | ErrorString msg => msg end.

(** A Go call that returns a value or an error. *)
Inductive Res (A : Type) : Type :=
| OK (a : A)
| Fail (e : error).
Arguments OK {_} _.
Arguments Fail {_} _.

#[export] Instance Res_ret : MRet Res := fun A a => OK a.
#[export] Instance Res_bind : MBind Res := fun A B f r =>
  match r with OK a => f a | Fail e => Fail e end.

(** ** External types *)
Class K8sTypes := {
  (** [resource.Quantity] and [resource.MustParse] *)
  Quantity : Type;
  MustParse : string -> Quantity;
  (** [metav1.Time]; [IsZero] is a method of [*metav1.Time], so a nil pointer
      is [None] *)
  Time : Type;
  Time_zero : Time;
  Time_IsZero : option Time -> bool;
  Time_IsZero_nil : Time_IsZero None = true;
  Time_IsZero_zero : Time_IsZero (Some Time_zero) = true;
  (** what the operator does not look at, with Go's zero values *)
  EnvVarSource : Type;
  Volume : Type;
  VolumeMount : Type;
  ProbeRest : Type; ProbeRest_zero : ProbeRest;
  HTTPGetRest : Type; HTTPGetRest_zero : HTTPGetRest;
  ResourcesRest : Type; ResourcesRest_zero : ResourcesRest;
  ContainerPortRest : Type;
  ContainerRest : Type; ContainerRest_zero : ContainerRest;
  PodSpecRest : Type; PodSpecRest_zero : PodSpecRest;
  ObjectMetaRest : Type; ObjectMetaRest_zero : ObjectMetaRest;
  ObjectRest : Type; ObjectRest_zero : ObjectRest
}.

(** ** schema, types *)
Record GroupVersionKind := { gvk_Group : string; gvk_Version : string; gvk_Kind : string }.

Definition GVK_zero : GroupVersionKind := {| gvk_Group := ""; gvk_Version := ""; gvk_Kind := "" |}.

Record GroupKind := { gk_Group : string; gk_Kind : string }.

(** k8s.io/apimachinery/pkg/runtime/schema.  [ParseKindArg] takes a string of
    the form Kind, Kind.group or Kind.version.group; its second result splits
    it at the first dot. *)
Class SchemaPkg := {
  ParseKindArg : string -> option GroupVersionKind * GroupKind;
  ParseKindArg_plain : forall k,
    string_forall (fun c => negb (c =? ".")%char) k = true ->
    (ParseKindArg k).2 = {| gk_Group := ""; gk_Kind := k |};
  ParseKindArg_dotted : forall k rest,
    string_forall (fun c => negb (c =? ".")%char) k = true ->
    (ParseKindArg (k +:+ "." +:+ rest)).2 = {| gk_Group := rest; gk_Kind := k |};
  (** [GroupVersion.Identifier], of group and version *)
  GroupVersion_Identifier : string -> string -> string
}.

(** [schema.GroupVersionKind.String] *)
Definition GVK_String (k : GroupVersionKind) : string :=
  gvk_Group k +:+ "/" +:+ gvk_Version k +:+ ", Kind=" +:+ gvk_Kind k.

Record NamespacedName := { nn_Namespace : string; nn_Name : string }.

#[export] Instance NamespacedName_eq_dec : EqDecision NamespacedName.
Proof. solve_decision. Defined.

#[export] Instance NamespacedName_countable : Countable NamespacedName.
Proof.
  refine (inj_countable' (fun n => (nn_Namespace n, nn_Name n))
            (fun '(a, b) => {| nn_Namespace := a; nn_Name := b |}) _).
  by intros [].
Defined.

(** ** Core types *)
Section core.
Context `{K8sTypes}.

Record EnvVar := {
  ev_Name : string;
  ev_Value : string;
  ev_ValueFrom : option EnvVarSource
}.

Record ContainerPort := { cp_ContainerPort : Z; cp_rest : ContainerPortRest }.

(** [intstr.IntOrString]: [ios_Type] 0 is an integer. *)
Record IntOrString := { ios_Type : Z; ios_IntVal : Z; ios_StrVal : string }.

Record HTTPGetAction := { hg_Path : string; hg_Port : IntOrString; hg_rest : HTTPGetRest }.

Record Probe := {
  pr_HTTPGet : option HTTPGetAction;
  pr_PeriodSeconds : Z;
  pr_rest : ProbeRest
}.

Record ResourceRequirements := {
  rr_Limits : gmap string Quantity;
  rr_Requests : gmap string Quantity;
  rr_rest : ResourcesRest
}.

Definition ResourceRequirements_zero : ResourceRequirements :=
  {| rr_Limits := ∅; rr_Requests := ∅; rr_rest := ResourcesRest_zero |}.

Record Container := {
  c_Name : string;
  c_Image : string;
  c_ImagePullPolicy : string;
  c_Args : list string;
  c_Ports : list ContainerPort;
  c_Env : list EnvVar;
  c_Resources : ResourceRequirements;
  c_StartupProbe : option Probe;
  c_ReadinessProbe : option Probe;
  c_LivenessProbe : option Probe;
  c_rest : ContainerRest
}.

(** [corev1.Container{}] *)
Definition Container_zero : Container := {|
  c_Name := ""; c_Image := ""; c_ImagePullPolicy := ""; c_Args := []; c_Ports := [];
  c_Env := []; c_Resources := ResourceRequirements_zero; c_StartupProbe := None;
  c_ReadinessProbe := None; c_LivenessProbe := None; c_rest := ContainerRest_zero |}.

Record PodSpec := { ps_Containers : list Container; ps_rest : PodSpecRest }.

Definition PodSpec_zero : PodSpec := {| ps_Containers := []; ps_rest := PodSpecRest_zero |}.

Record OwnerReference := { or_APIVersion : string; or_Kind : string; or_Name : string }.

Record ObjectMeta := {
  om_Name : string;
  om_Namespace : string;
  om_Generation : Z;
  om_ResourceVersion : string;
  om_Labels : gmap string string;
  om_Annotations : gmap string string;
  om_DeletionTimestamp : option Time;
  om_Finalizers : list string;
  om_OwnerReferences : list OwnerReference;
  om_rest : ObjectMetaRest
}.

Definition ObjectMeta_zero : ObjectMeta := {|
  om_Name := ""; om_Namespace := ""; om_Generation := 0; om_ResourceVersion := "";
  om_Labels := ∅; om_Annotations := ∅; om_DeletionTimestamp := None; om_Finalizers := [];
  om_OwnerReferences := []; om_rest := ObjectMetaRest_zero |}.

(** What [client.Object] gives access to. *)
Record Object := { o_GVK : GroupVersionKind; o_Meta : ObjectMeta }.

Definition GetKind (o : Object) : string := gvk_Kind (o_GVK o).
Definition GetName (o : Object) : string := om_Name (o_Meta o).
Definition GetNamespace (o : Object) : string := om_Namespace (o_Meta o).
Definition GetLabels (o : Object) : gmap string string := om_Labels (o_Meta o).
Definition GetOwnerReferences (o : Object) : list OwnerReference := om_OwnerReferences (o_Meta o).

(** [metav1.Condition] *)
Record Condition := {
  cond_Type : string;
  cond_Status : string;
  cond_ObservedGeneration : Z;
  cond_LastTransitionTime : Time;
  cond_Reason : string;
  cond_Message : string
}.

End core.

Definition ConditionTrue : string := "True".
Definition ConditionFalse : string := "False".

(** ** k8s.io/apimachinery/pkg/labels and metav1.LabelSelector *)
Class LabelsPkg := {
  LabelSelector : Type;
  Selector : Type;
  (** [labels.NewSelector]: the selector without requirements *)
  NewSelector : Selector;
  Selector_Empty : Selector -> bool;
  Selector_Matches : Selector -> gmap string string -> bool;
  NewSelector_Empty : Selector_Empty NewSelector = true;
  LabelSelectorAsSelector : LabelSelector -> Res Selector
}.

(** ** The custom resource *)
Section v1alpha1.
Context `{K8sTypes} `{LabelsPkg}.

Record WorkloadSelectorSpec := {
  ws_Selector : option LabelSelector;
  ws_Kind : string;
  ws_Name : string
}.

Definition LabelsSelector (s : WorkloadSelectorSpec) : Res Selector :=
  match ws_Selector s with
  | None => OK NewSelector
  | Some sel => LabelSelectorAsSelector sel
  end.

Record AuthProxyContainerSpec := {
  ac_Container : option Container;
  ac_Resources : option ResourceRequirements;
  ac_MaxConnections : option Z;
  ac_MaxSigtermDelay : option Z;
  ac_SQLAdminAPIEndpoint : string;
  ac_Image : string
}.

Record InstanceSpec := {
  is_ConnectionString : string;
  is_Port : option Z;
  is_AutoIAMAuthN : option bool;
  is_PrivateIP : option bool;
  is_PortEnvName : string;
  is_HostEnvName : string
}.

Record AuthProxyWorkloadSpec := {
  sp_Workload : WorkloadSelectorSpec;
  sp_AuthProxyContainer : option AuthProxyContainerSpec;
  sp_Instances : list InstanceSpec
}.

Record WorkloadStatus := {
  st_Kind : string;
  st_Version : string;
  st_Namespace : string;
  st_Name : string;
  st_Conditions : list Condition
}.

Record AuthProxyWorkloadStatus := {
  status_Conditions : list Condition;
  status_WorkloadStatus : list WorkloadStatus
}.

Record AuthProxyWorkload := {
  apw_GVK : GroupVersionKind;
  apw_ObjectMeta : ObjectMeta;
  apw_Spec : AuthProxyWorkloadSpec;
  apw_Status : AuthProxyWorkloadStatus
}.

Definition apw_Name (p : AuthProxyWorkload) : string := om_Name (apw_ObjectMeta p).
Definition apw_Namespace (p : AuthProxyWorkload) : string := om_Namespace (apw_ObjectMeta p).
Definition apw_NamespacedName (p : AuthProxyWorkload) : NamespacedName :=
  {| nn_Namespace := apw_Namespace p; nn_Name := apw_Name p |}.

(** The proxy container the resource asks for verbatim
    ([p.Spec.AuthProxyContainer.Container] when neither pointer is nil). *)
Definition apw_override (p : AuthProxyWorkload) : option Container :=
  match sp_AuthProxyContainer (apw_Spec p) with
  | Some ac => ac_Container ac
  | None => None
  end.

End v1alpha1.

(** ** Constants of the API package *)
Definition ErrorCodePortConflict : string := "PortConflict".
Definition ErrorCodeEnvConflict : string := "EnvVarConflict".
Definition AnnotationPrefix : string := "cloudsql.cloud.google.com".
Definition ConditionUpToDate : string := "UpToDate".
Definition ReasonStartedReconcile : string := "StartedReconcile".
Definition ReasonFinishedReconcile : string := "FinishedReconcile".
Definition ReasonNoWorkloadsFound : string := "NoWorkloadsFound".
Definition ConditionWorkloadUpToDate : string := "WorkloadUpToDate".
Definition ReasonUpToDate : string := "UpToDate".
