(* ===== verification/Concrete.v ===== *)
(** * Concrete instances of the external interfaces

    The classes of [GoStd] and [Api] stand for code that is not part of the
    repository.  These instances are used only to evaluate the model on
    concrete inputs: they show that the laws of the classes can hold. *)

From S2P Require Import Prelude GoStd Api.
From Stdlib Require Import Ascii.
#[local] Open Scope Z_scope.

(** No name in the examples has a byte above 127. *)
Definition ascii_tables : UnicodeTables := {| map_to_lower := fun s => s |}.

Definition in_order : MapRange := {|
  range_order := fun _ l => l;
  range_order_perm := fun _ l => Permutation_refl l |}.

(** Times are seconds, 0 is the zero time. *)
Definition concrete_time_IsZero (t : option Z) : bool :=
  match t with Some s => s =? 0 | None => true end.

Definition concrete_k8s : K8sTypes := {|
  Quantity := string; MustParse := fun s => s;
  Time := Z; Time_zero := 0; Time_IsZero := concrete_time_IsZero;
  Time_IsZero_nil := eq_refl; Time_IsZero_zero := eq_refl;
  EnvVarSource := unit; Volume := unit; VolumeMount := unit;
  ProbeRest := unit; ProbeRest_zero := tt;
  HTTPGetRest := unit; HTTPGetRest_zero := tt;
  ResourcesRest := unit; ResourcesRest_zero := tt;
  ContainerPortRest := unit; ContainerRest := unit; ContainerRest_zero := tt;
  PodSpecRest := unit; PodSpecRest_zero := tt;
  ObjectMetaRest := unit; ObjectMetaRest_zero := tt;
  ObjectRest := unit; ObjectRest_zero := tt |}.

(** Split at the first dot. *)
Fixpoint split_dot (s : string) : string * string :=
  match s with
  | EmptyString => ("", "")
  | String c s => if (c =? ".")%char then ("", s)
                  else let '(k, r) := split_dot s in (String c k, r)
  end.

Definition concrete_ParseKindArg (s : string) : option GroupVersionKind * GroupKind :=
  let '(k, r) := split_dot s in (None, {| gk_Group := r; gk_Kind := k |}).

Lemma concrete_ParseKindArg_plain k :
  string_forall (fun c => negb (c =? ".")%char) k = true ->
  (concrete_ParseKindArg k).2 = {| gk_Group := ""; gk_Kind := k |}.
Proof.
  intros H. unfold concrete_ParseKindArg. assert (split_dot k = (k, "")) as ->; [|done].
  induction k as [|c k IH]; [done|]. cbn in *. destruct (c =? ".")%char; [done|].
  by rewrite IH.
Qed.

Lemma concrete_ParseKindArg_dotted k rest :
  string_forall (fun c => negb (c =? ".")%char) k = true ->
  (concrete_ParseKindArg (k +:+ "." +:+ rest)).2 = {| gk_Group := rest; gk_Kind := k |}.
Proof.
  intros H. unfold concrete_ParseKindArg.
  assert (split_dot (k +:+ "." +:+ rest) = (k, rest)) as ->; [|done].
  induction k as [|c k IH]; [done|]. rewrite string_app_cons. cbn in *.
  destruct (c =? ".")%char; [done|]. by rewrite IH.
Qed.

Definition concrete_schema : SchemaPkg := {|
  ParseKindArg := concrete_ParseKindArg;
  ParseKindArg_plain := concrete_ParseKindArg_plain;
  ParseKindArg_dotted := concrete_ParseKindArg_dotted;
  GroupVersion_Identifier := fun g v => if bool_decide (g = "") then v else g +:+ "/" +:+ v |}.

(** Selectors with [matchLabels] only; the label set that maps a key to the
    empty string stands for an invalid selector. *)
Definition concrete_matches (sel labels : gmap string string) : bool :=
  bool_decide (map_Forall (fun k v => labels !! k = Some v) sel).

Definition concrete_as_selector (sel : gmap string string) : Res (gmap string string) :=
  if bool_decide (map_Forall (fun _ v => v <> "") sel) then OK sel
  else Fail (ErrorString "invalid label selector").

Definition concrete_labels : LabelsPkg := {|
  LabelSelector := gmap string string;
  Selector := gmap string string;
  NewSelector := ∅;
  Selector_Empty := fun s => bool_decide (s = ∅);
  Selector_Matches := concrete_matches;
  NewSelector_Empty := eq_refl;
  LabelSelectorAsSelector := concrete_as_selector |}.

Module ConcreteInstances.
#[export] Existing Instances ascii_tables concrete_k8s concrete_labels concrete_schema.
End ConcreteInstances.

Import ConcreteInstances.

Definition mk_gvk (g v k : string) : GroupVersionKind :=
  {| gvk_Group := g; gvk_Version := v; gvk_Kind := k |}.

Definition mk_meta (ns name : string) (labels : gmap string string) : ObjectMeta := {|
  om_Name := name; om_Namespace := ns; om_Generation := 1; om_ResourceVersion := "1";
  om_Labels := labels; om_Annotations := ∅; om_DeletionTimestamp := None;
  om_Finalizers := []; om_OwnerReferences := []; om_rest := tt |}.

Definition mk_selector (kind name : string) (sel : option (gmap string string))
    : WorkloadSelectorSpec :=
  {| ws_Selector := sel; ws_Kind := kind; ws_Name := name |}.

Definition mk_instance (conn : string) (port : option Z) (portEnv hostEnv : string)
    : InstanceSpec := {|
  is_ConnectionString := conn; is_Port := port; is_AutoIAMAuthN := None;
  is_PrivateIP := None; is_PortEnvName := portEnv; is_HostEnvName := hostEnv |}.

Definition mk_apw (ns name : string) (ws : WorkloadSelectorSpec)
    (ac : option AuthProxyContainerSpec) (insts : list InstanceSpec) : AuthProxyWorkload := {|
  apw_GVK := mk_gvk AnnotationPrefix "v1alpha1" "AuthProxyWorkload";
  apw_ObjectMeta := mk_meta ns name ∅;
  apw_Spec := {| sp_Workload := ws; sp_AuthProxyContainer := ac; sp_Instances := insts |};
  apw_Status := {| status_Conditions := []; status_WorkloadStatus := [] |} |}.

Definition mk_container (name : string) (ports : list Z) (env : list (string * string))
    : Container := {|
  c_Name := name; c_Image := name; c_ImagePullPolicy := ""; c_Args := [];
  c_Ports := (fun p => {| cp_ContainerPort := p; cp_rest := tt |}) <$> ports;
  c_Env := (fun '(k, v) => {| ev_Name := k; ev_Value := v; ev_ValueFrom := None |}) <$> env;
  c_Resources := ResourceRequirements_zero; c_StartupProbe := None; c_ReadinessProbe := None;
  c_LivenessProbe := None; c_rest := tt |}.
