(* ===== verification/Names.v ===== *)
(** * Names of containers and volumes

    [src/internal/workload/names.go]: [SafePrefixedName] prefixes a name and
    shortens it to the 63 characters of a DNS label, keeping it unique with a
    32-bit FNV-1a checksum of the whole name.  The header comment of that file
    forbids changing the algorithm; the theorems below fix it: its length,
    its characters, when two names can collide, and the golden values. *)

From S2P Require Import Prelude GoStd Api Concrete.
From Stdlib Require Import Ascii.
From Stdlib Require String.
#[local] Open Scope Z_scope.

(** ** Definitions *)
Definition ContainerPrefix : string := "csql-".

Definition maxNameLen : Z := 63.

(** Panics when the hash cannot be computed, which [fnv_Write] never causes. *)
Definition mustHash (bytes : string) : Outcome Z :=
  let '(sum32, i, err) := fnv_Write fnv_offset32 bytes in
  match err with
  | Some _ => Panic "unable to calculate mustHash for bytes"
  | None => if i =? len bytes then Ret sum32
            else Panic "unable to calculate mustHash for bytes"
  end.

Section Names.
Context `{UnicodeTables}.

Definition SafePrefixedName (prefix instName : string) : Outcome string :=
  let containerPrefixLen := len prefix in
  if len instName + containerPrefixLen >? maxNameLen then
    checksum ← mustHash instName;
    let hashSuffix := "-" +:+ format_x checksum in
    let hashSuffixLen := len hashSuffix in
    let truncateLen := Z.quot (maxNameLen - hashSuffixLen - containerPrefixLen) 2 in
    namePrefix ← slice_to instName truncateLen;
    nameSuffix ← slice_from instName (len instName - truncateLen);
    mret (ToLower (Join [prefix; namePrefix; nameSuffix; hashSuffix] ""))
  else mret (ToLower (prefix +:+ instName)).

Definition ContainerNameFromNamespacedName (r : NamespacedName) : Outcome string :=
  SafePrefixedName ContainerPrefix (nn_Namespace r +:+ "-" +:+ nn_Name r).

Context `{K8sTypes} `{LabelsPkg}.

Definition ContainerName (r : AuthProxyWorkload) : Outcome string :=
  SafePrefixedName ContainerPrefix (apw_Namespace r +:+ "-" +:+ apw_Name r).

Definition VolumeName (r : AuthProxyWorkload) (inst : InstanceSpec) (mountType : string)
    : Outcome string :=
  let connName := ReplaceAll (ToLower (is_ConnectionString inst)) ":" "-" in
  SafePrefixedName ContainerPrefix
    (apw_Namespace r +:+ "-" +:+ apw_Name r +:+ "-" +:+ mountType +:+ "-" +:+ connName).

End Names.

(** ** DNS labels (RFC 1035/1123) *)
Definition is_alnum (c : ascii) : bool :=
  ((48 <=? N_of_ascii c)%N && (N_of_ascii c <=? 57)%N)
  || ((97 <=? N_of_ascii c)%N && (N_of_ascii c <=? 122)%N).
Definition is_label_char (c : ascii) : bool := is_alnum c || (c =? "-")%char.

Definition string_first (s : string) : option ascii :=
  match s with EmptyString => None | String c _ => Some c end.

Definition is_alnum_opt (c : option ascii) : bool :=
  match c with Some c => is_alnum c | None => false end.

Definition is_dns_label (s : string) : bool :=
  (1 <=? len s) && (len s <=? maxNameLen) && string_forall is_label_char s
  && is_alnum_opt (string_first s) && is_alnum_opt (string_last s).

(** The 32-bit FNV-1a sum of a string. *)
Definition fnv1a32 (s : string) : Z := (fnv_Write fnv_offset32 s).1.1.

(** How many characters of each end a shortened name keeps. *)
Definition kept (prefix instName : string) : nat :=
  Z.to_nat (Z.quot (maxNameLen - (1 + len (format_x (fnv1a32 instName))) - len prefix) 2).

Definition name_head (prefix s : string) : string := String.substring 0 (kept prefix s) s.
Definition name_tail (prefix s : string) : string :=
  String.substring (String.length s - kept prefix s) (kept prefix s) s.

Definition shortened (prefix s : string) : string :=
  prefix +:+ name_head prefix s +:+ name_tail prefix s +:+ "-" +:+ format_x (fnv1a32 s).

(** ** Helper lemmas *)
Lemma fnv1a32_range s : 0 <= fnv1a32 s < 2 ^ 32.
Proof.
  unfold fnv1a32. destruct (fnv_Write_ok fnv_offset32 s) as (h & -> & Hh).
  apply Hh. unfold fnv_offset32. lia.
Qed.

Lemma mustHash_Ret s : mustHash s = Ret (fnv1a32 s).
Proof.
  unfold mustHash, fnv1a32. destruct (fnv_Write_ok fnv_offset32 s) as (h & -> & _).
  by rewrite Z.eqb_refl.
Qed.

Lemma kept_bounds prefix s :
  len prefix <= 54 -> maxNameLen < len s + len prefix ->
  (kept prefix s <= String.length s)%nat
  /\ 2 * Z.of_nat (kept prefix s) + 1 + len (format_x (fnv1a32 s)) + len prefix <= maxNameLen
  /\ Z.of_nat (kept prefix s)
     = Z.quot (maxNameLen - (1 + len (format_x (fnv1a32 s))) - len prefix) 2.
Proof.
  intros Hp Hs. unfold kept, maxNameLen in *.
  pose proof (format_x_length (fnv1a32 s)). pose proof (len_nonneg prefix).
  set (n := 63 - (1 + len (format_x (fnv1a32 s))) - len prefix) in *.
  assert (0 <= n) by lia. rewrite Z.quot_div_nonneg by lia.
  pose proof (Z.div_mod n 2 ltac:(lia)). pose proof (Z.mod_pos_bound n 2 ltac:(lia)).
  unfold len in *. lia.
Qed.

Lemma shortened_len prefix s :
  len prefix <= 54 -> maxNameLen < len s + len prefix -> len (shortened prefix s) <= maxNameLen.
Proof.
  intros Hp Hs. destruct (kept_bounds prefix s Hp Hs) as (Hk & Hl & _).
  unfold shortened, name_head, name_tail. rewrite !len_app.
  unfold len at 2 3. rewrite !substring_length by lia.
  change (len "-") with 1. lia.
Qed.

Lemma shortened_forall P prefix s :
  string_forall P prefix = true -> string_forall P s = true -> P "-"%char = true ->
  (forall c, is_hex c = true -> P c = true) -> string_forall P (shortened prefix s) = true.
Proof.
  intros Hp Hs Hd Hx. unfold shortened, name_head, name_tail.
  rewrite !string_forall_app, Hp, !string_forall_substring by done. cbn.
  rewrite Hd. cbn. eapply string_forall_impl; [exact Hx|]. apply format_x_is_hex.
Qed.

Section lemmas.
Context `{UnicodeTables}.

Lemma SafePrefixedName_short prefix s :
  len s + len prefix <= maxNameLen -> SafePrefixedName prefix s = Ret (ToLower (prefix +:+ s)).
Proof. intros Hs. unfold SafePrefixedName. destruct (Z.gtb_spec (len s + len prefix) maxNameLen); [lia|done]. Qed.

Lemma SafePrefixedName_long prefix s :
  len prefix <= 54 -> maxNameLen < len s + len prefix ->
  SafePrefixedName prefix s = Ret (ToLower (shortened prefix s)).
Proof.
  intros Hp Hs. unfold SafePrefixedName.
  destruct (Z.gtb_spec (len s + len prefix) maxNameLen); [|lia].
  destruct (kept_bounds prefix s Hp Hs) as (Hk & _ & Hq).
  rewrite mustHash_Ret. unfold mbind, Outcome_bind.
  rewrite len_app. change (len "-") with 1. rewrite <-Hq.
  assert (Z.of_nat (kept prefix s) <= len s) by (unfold len; lia).
  rewrite slice_to_Ret, slice_from_Ret by lia. cbn [mret Outcome_ret].
  unfold Join, shortened, name_head, name_tail, len. cbn [String.concat].
  rewrite Nat2Z.id. repeat rewrite string_app_nil. change ("" +:+ ?x) with x.
  replace (Z.to_nat (Z.of_nat (String.length s) - Z.of_nat (kept prefix s)))
    with (String.length s - kept prefix s)%nat by lia.
  replace (Z.to_nat (Z.of_nat (String.length s)
    - (Z.of_nat (String.length s) - Z.of_nat (kept prefix s)))) with (kept prefix s) by lia.
  done.
Qed.

(** Both cases at once. *)
Lemma SafePrefixedName_cases prefix s :
  len prefix <= 54 ->
  exists r, SafePrefixedName prefix s = Ret (ToLower r) /\
    ((len s + len prefix <= maxNameLen /\ r = prefix +:+ s)
     \/ (maxNameLen < len s + len prefix /\ r = shortened prefix s)).
Proof.
  intros Hp. destruct (Z.le_gt_cases (len s + len prefix) maxNameLen).
  - eexists. split; [by apply SafePrefixedName_short|auto].
  - eexists. split; [by apply SafePrefixedName_long; [|lia]|]. right. split; [lia|done].
Qed.

End lemmas.

(** A string of lower-case label characters is not changed by [ToLower]. *)
Definition label_chars (s : string) : bool := string_forall is_label_char s.

Lemma label_char_lower c : is_label_char c = true -> is_ascii c && negb (is_upper c) = true.
Proof. revert c. by_bytes. Qed.

Lemma is_hex_label_char c : is_hex c = true -> is_label_char c = true.
Proof. revert c. by_bytes. Qed.

Lemma is_hex_alnum c : is_hex c = true -> is_alnum c = true.
Proof. revert c. by_bytes. Qed.

Lemma ToLower_label `{UnicodeTables} s : label_chars s = true -> ToLower s = s.
Proof. intros Hs. apply ToLower_id. eapply string_forall_impl; [exact label_char_lower|exact Hs]. Qed.

Lemma string_last_forall P s :
  string_forall P s = true -> s <> "" -> exists c, string_last s = Some c /\ P c = true.
Proof.
  induction s as [|c s IH]; [done|]. cbn. rewrite andb_true_iff. intros [Hc Hs] _.
  destruct s as [|d s]; [eauto|]. by apply IH.
Qed.

Lemma string_first_app s1 s2 c : string_first s1 = Some c -> string_first (s1 +:+ s2) = Some c.
Proof. by destruct s1. Qed.

Lemma is_alnum_opt_Some c : is_alnum_opt c = true -> exists d, c = Some d /\ is_alnum d = true.
Proof. destruct c; [eauto|done]. Qed.

Lemma is_dns_label_intro s c d :
  1 <= len s <= maxNameLen -> label_chars s = true ->
  string_first s = Some c -> is_alnum c = true ->
  string_last s = Some d -> is_alnum d = true -> is_dns_label s = true.
Proof.
  intros [H1 H2] H3 H4 H5 H6 H7. unfold is_dns_label. apply Z.leb_le in H1, H2.
  unfold label_chars in H3. by rewrite H1, H2, H3, H4, H6; cbn; rewrite H5, H7.
Qed.

Lemma SafePrefixedName_dns_label `{UnicodeTables} prefix s :
  1 <= len prefix <= 54 -> label_chars prefix = true -> is_alnum_opt (string_first prefix) = true ->
  label_chars s = true -> is_alnum_opt (string_last s) = true ->
  exists r, SafePrefixedName prefix s = Ret r /\ is_dns_label r = true
    /\ HasPrefix r prefix = true.
Proof.
  intros Hl Hp (c & Hc & Hca)%is_alnum_opt_Some Hs (d & Hd & Hda)%is_alnum_opt_Some.
  destruct (SafePrefixedName_cases prefix s) as (r & -> & Hr); [lia|].
  assert (label_chars r = true) as Hrc.
  { destruct Hr as [[_ ->]|[_ ->]]; unfold label_chars in *.
    - by rewrite string_forall_app, Hp, Hs.
    - apply shortened_forall; auto using is_hex_label_char. }
  rewrite ToLower_label by done. exists r. split; [done|].
  assert (exists t, r = prefix +:+ t) as [t Ht] by (destruct Hr as [[_ ->]|[_ ->]]; eauto).
  split; [|subst; apply HasPrefix_app].
  assert (exists e, string_last r = Some e /\ is_alnum e = true) as (e & He & Hea).
  { destruct Hr as [[_ ->]|[_ ->]].
    - exists d. split; [by apply string_last_app|done].
    - destruct (string_last_forall is_hex (format_x (fnv1a32 s))) as (e & He & Hea).
      + apply format_x_is_hex.
      + intros Hnil. pose proof (format_x_length (fnv1a32 s)) as Hfl. rewrite Hnil in Hfl.
        change (len "") with 0 in Hfl. lia.
      + exists e. split; [|by apply is_hex_alnum].
        unfold shortened. by repeat apply string_last_app. }
  apply is_dns_label_intro with c e; try done.
  - split; [subst; rewrite len_app; pose proof (len_nonneg t); lia|].
    destruct Hr as [[? ->]|[? ->]]; [rewrite len_app; lia|].
    apply shortened_len; lia.
  - subst. by apply string_first_app.
Qed.

(** Two strings split at their last dash. *)
Lemma last_dash_inj a b x y :
  string_forall is_hex x = true -> string_forall is_hex y = true ->
  a +:+ "-" +:+ x = b +:+ "-" +:+ y -> a = b /\ x = y.
Proof.
  assert (forall b x y, string_forall is_hex x = true -> x = b +:+ "-" +:+ y -> False) as Hno.
  { intros b' x' y' Hx ->. rewrite !string_forall_app, !andb_true_iff in Hx.
    destruct Hx as (_ & Hd & _). discriminate Hd. }
  intros Hx Hy. revert b. induction a as [|c a IH]; intros [|d b] H.
  - by injection H.
  - exfalso. rewrite string_app_cons in H. injection H as _ H. exact (Hno _ _ _ Hx H).
  - exfalso. rewrite string_app_cons in H. injection H as _ H. symmetry in H. exact (Hno _ _ _ Hy H).
  - rewrite !string_app_cons in H. injection H as -> H. by destruct (IH b H) as [-> ->].
Qed.

Lemma format_x_inj a b :
  0 <= a < 2 ^ 32 -> 0 <= b < 2 ^ 32 -> format_x a = format_x b -> a = b.
Proof. intros Ha Hb H. rewrite <-(format_x_value a), <-(format_x_value b) by done. by f_equal. Qed.

Lemma shortened_inj prefix a b :
  len prefix <= 54 -> maxNameLen < len a + len prefix -> maxNameLen < len b + len prefix ->
  shortened prefix a = shortened prefix b ->
  fnv1a32 a = fnv1a32 b /\ name_head prefix a = name_head prefix b
  /\ name_tail prefix a = name_tail prefix b.
Proof.
  intros Hp Ha Hb H. unfold shortened in H.
  rewrite <-(string_app_assoc (name_tail prefix a)), <-(string_app_assoc (name_tail prefix b)),
    <-(string_app_assoc (name_head prefix a)), <-(string_app_assoc (name_head prefix b)) in H.
  apply string_app_inj_l in H. rewrite !string_app_assoc in H.
  rewrite <-!(string_app_assoc (name_head prefix _)) in H.
  apply last_dash_inj in H as [H Hx]; [|apply format_x_is_hex..].
  apply format_x_inj in Hx; [|apply fnv1a32_range..].
  assert (kept prefix a = kept prefix b) as Hk by (unfold kept; by rewrite Hx).
  destruct (kept_bounds prefix a Hp Ha) as (? & _), (kept_bounds prefix b Hp Hb) as (? & _).
  split; [done|]. apply string_app_inj_len in H; [done|].
  unfold name_head. by rewrite !substring_length by lia.
Qed.

(** ** Theorems *)

(** C35: A generated name always fits the 63 characters of a Kubernetes name:
    for ASCII input and a prefix of at most 54 bytes, [SafePrefixedName]
    returns (no slice goes out of range, the checksum is always computed), and
    the name is at most 63 bytes long and has no upper-case letter. *)
Theorem SafePrefixedName_fits `{UnicodeTables} (prefix instName : string)
    (Hp : isASCII prefix = true) (Hn : isASCII instName = true) (Hl : len prefix <= 54) :
  exists r, SafePrefixedName prefix instName = Ret r /\ len r <= 63
    /\ string_forall (fun c => negb (is_upper c)) r = true.
Proof.
  destruct (SafePrefixedName_cases prefix instName Hl) as (r & -> & Hr).
  assert (isASCII r = true) as Ha.
  { destruct Hr as [[_ ->]|[_ ->]]; unfold isASCII in *.
    - by rewrite string_forall_app, Hp, Hn.
    - apply shortened_forall; try done. by_bytes. }
  exists (ToLower r). split_and!; [done| |].
  - rewrite ToLower_length by done. destruct Hr as [[? ->]|[? ->]].
    + rewrite len_app. unfold maxNameLen in *. lia.
    + by apply shortened_len.
  - rewrite ToLower_ascii, string_forall_map by done.
    eapply string_forall_impl; [|exact Ha]. intros c _. by rewrite lower_ascii_not_upper.
Qed.

(** C34: The name of a proxy container is a DNS label that starts with
    [ContainerPrefix] (the marker [update] recognises operator containers by),
    whatever the length of the namespace and name, when these use the
    characters of labels and the name ends in a letter or digit. *)
Theorem ContainerName_dns_label `{UnicodeTables} `{K8sTypes} `{LabelsPkg}
    (r : AuthProxyWorkload)
    (Hns : label_chars (apw_Namespace r) = true) (Hn : label_chars (apw_Name r) = true)
    (Hlast : is_alnum_opt (string_last (apw_Name r)) = true) :
  exists name, ContainerName r = Ret name /\ is_dns_label name = true
    /\ HasPrefix name ContainerPrefix = true.
Proof.
  apply SafePrefixedName_dns_label; try done.
  - unfold label_chars in *. by rewrite !string_forall_app, Hns, Hn.
  - apply is_alnum_opt_Some in Hlast as (d & Hd & ?).
    by rewrite (string_last_app _ _ d (string_last_app _ _ d Hd)).
Qed.

(** When two names of label characters get the same generated name, then
    they are equal; or both were shortened, and they agree on their checksum,
    on the characters kept from each end; or exactly one was shortened, and
    the other one is literally its shortened form. *)
Theorem SafePrefixedName_collision `{UnicodeTables} (prefix a b r : string)
    (Hl : len prefix <= 54) (Hp : label_chars prefix = true)
    (Ha : label_chars a = true) (Hb : label_chars b = true)
    (Era : SafePrefixedName prefix a = Ret r) (Erb : SafePrefixedName prefix b = Ret r) :
  a = b
  \/ (maxNameLen < len a + len prefix /\ maxNameLen < len b + len prefix
      /\ fnv1a32 a = fnv1a32 b /\ name_head prefix a = name_head prefix b
      /\ name_tail prefix a = name_tail prefix b)
  \/ (len a + len prefix <= maxNameLen < len b + len prefix /\ prefix +:+ a = shortened prefix b)
  \/ (len b + len prefix <= maxNameLen < len a + len prefix /\ prefix +:+ b = shortened prefix a).
Proof.
  assert (forall s, label_chars s = true -> label_chars (prefix +:+ s) = true) as Happ.
  { intros s Hs. unfold label_chars in *. by rewrite string_forall_app, Hp, Hs. }
  assert (forall s, label_chars s = true -> label_chars (shortened prefix s) = true) as Hsh.
  { intros s Hs. apply shortened_forall; auto using is_hex_label_char. }
  destruct (SafePrefixedName_cases prefix a Hl) as (ra & Ea & Hra),
    (SafePrefixedName_cases prefix b Hl) as (rb & Eb & Hrb).
  rewrite Era in Ea. rewrite Erb in Eb. injection Ea as Ea. injection Eb as Eb.
  assert (ra = rb) as Hab.
  { rewrite Ea in Eb. rewrite !ToLower_label in Eb; [done|..];
      [destruct Hrb as [[_ ->]|[_ ->]]|destruct Hra as [[_ ->]|[_ ->]]]; auto. }
  destruct Hra as [[Hla ->]|[Hla ->]], Hrb as [[Hlb ->]|[Hlb ->]].
  - left. by eapply string_app_inj_l.
  - right. right. left. done.
  - right. right. right. done.
  - right. left. destruct (shortened_inj prefix a b Hl Hla Hlb Hab) as (? & ? & ?). done.
Qed.

(** The names the operator generated before must not change.  The values
    are those [names_test.go] records for [SafePrefixedName], [ContainerName]
    and [VolumeName]. *)
Theorem generated_names_golden `{UnicodeTables} `{K8sTypes} `{LabelsPkg} :
  SafePrefixedName "csql-" "instance1" = Ret "csql-instance1"
  /\ SafePrefixedName "csql-"
       "twas-brillig-and-the-slithy-toves-did-gyre-and-gimble-in-the-wa"
     = Ret "csql-twas-brillig-and-the-sliyre-and-gimble-in-the-wa-e398b76e"
  /\ SafePrefixedName "csql-" "twas-brillig-and-the-slithy-toves-did-gyre-and-gimble-in-th"
     = Ret "csql-twas-brillig-and-the-sliid-gyre-and-gimble-in-th-78bfbd48"
  /\ SafePrefixedName "csql-" "twas-brillig-and-the-slithy-toves-did-gyre-and-gimble-in-t"
     = Ret "csql-twas-brillig-and-the-slithy-toves-did-gyre-and-gimble-in-t"
  /\ SafePrefixedName "csql-" "twas-brillig-and-the-slithy-toves-1111-did-gyre-and-gimble-in"
     = Ret "csql-twas-brillig-and-the-slit11-did-gyre-and-gimble-in-d0b9860"
  /\ SafePrefixedName "csql-" "twas-brillig-and-the-slithy-toves-2222-did-gyre-and-gimble-in"
     = Ret "csql-twas-brillig-and-the-sli2-did-gyre-and-gimble-in-34c209d4"
  /\ forall (p : AuthProxyWorkload) (inst : InstanceSpec),
       apw_Namespace p = "default" -> apw_Name p = "hello-world" ->
       is_ConnectionString inst = "proj:inst:db" ->
       ContainerName p = Ret "csql-default-hello-world"
       /\ VolumeName p inst "temp" = Ret "csql-default-hello-world-temp-proj-inst-db".
Proof.
  split_and!; [vm_compute; reflexivity..|].
  intros p inst Hns Hn Hc. unfold ContainerName, VolumeName. rewrite Hns, Hn, Hc.
  split; vm_compute; reflexivity.
Qed.

(** A resource name may be any DNS subdomain, so it may contain dots, and
    then the container name is not a DNS label (the comment on [ContainerName]
    says that it adheres to that format). *)
Theorem ContainerName_dotted `{UnicodeTables} `{K8sTypes} `{LabelsPkg} (p : AuthProxyWorkload)
    (Hns : apw_Namespace p = "default") (Hn : apw_Name p = "my.db") :
  ContainerName p = Ret "csql-default-my.db" /\ is_dns_label "csql-default-my.db" = false.
Proof. unfold ContainerName. rewrite Hns, Hn. split; vm_compute; reflexivity. Qed.

(** ** Witnesses *)
Section witnesses.
Import ConcreteInstances.

Definition witness_apw (name : string) : AuthProxyWorkload :=
  mk_apw "default" name (mk_selector "Pod" "" None) None [].

Lemma SafePrefixedName_fits_witness :
  exists r, SafePrefixedName "Csql-" "Instance-One" = Ret r /\ len r <= 63
    /\ string_forall (fun c => negb (is_upper c)) r = true.
Proof. apply (SafePrefixedName_fits "Csql-" "Instance-One"); [reflexivity..|cbv; congruence]. Defined.

Lemma ContainerName_dns_label_witness :
  exists name, ContainerName (witness_apw "hello-world-twas-brillig-and-the-slithy-toves-did-gyre-and-g") = Ret name
    /\ is_dns_label name = true /\ HasPrefix name ContainerPrefix = true.
Proof. apply (ContainerName_dns_label (witness_apw _)); vm_compute; reflexivity. Defined.

Lemma SafePrefixedName_collision_witness :
  let b := "twas-brillig-and-the-slithy-toves-did-gyre-and-gimble-in-the-wa" in
  let a := "twas-brillig-and-the-sliyre-and-gimble-in-the-wa-e398b76e" in
  a = b
  \/ (maxNameLen < len a + len "csql-" /\ maxNameLen < len b + len "csql-"
      /\ fnv1a32 a = fnv1a32 b /\ name_head "csql-" a = name_head "csql-" b
      /\ name_tail "csql-" a = name_tail "csql-" b)
  \/ (len a + len "csql-" <= maxNameLen < len b + len "csql-" /\ "csql-" +:+ a = shortened "csql-" b)
  \/ (len b + len "csql-" <= maxNameLen < len a + len "csql-" /\ "csql-" +:+ b = shortened "csql-" a).
Proof.
  intros b a.
  apply (SafePrefixedName_collision "csql-" a b
    "csql-twas-brillig-and-the-sliyre-and-gimble-in-the-wa-e398b76e");
    [cbv; congruence|vm_compute; reflexivity..].
Defined.

Lemma generated_names_golden_witness :
  ContainerName (witness_apw "hello-world") = Ret "csql-default-hello-world".
Proof.
  destruct generated_names_golden as (_ & _ & _ & _ & _ & _ & H).
  apply (H (witness_apw "hello-world") (mk_instance "proj:inst:db" None "" "")
           eq_refl eq_refl eq_refl).
Defined.

Lemma ContainerName_dotted_witness :
  ContainerName (witness_apw "my.db") = Ret "csql-default-my.db"
  /\ is_dns_label "csql-default-my.db" = false.
Proof. apply (ContainerName_dotted (witness_apw "my.db")); reflexivity. Defined.

End witnesses.
