(* ===== verification/Workload.v ===== *)
(** * Workloads

    [src/internal/workload/workload.go]: the interfaces [Workload] and
    [WithMutablePodTemplate] as type classes, the seven workload types, the
    factories [WorkloadForKind] and [WorkloadListForKind], and the matching of
    an object against a selector. *)

From S2P Require Import Prelude GoStd Api Concrete.
From Stdlib Require Import Ascii.
#[local] Open Scope Z_scope.

Section objects.
Context `{K8sTypes}.

(** The API objects, as far as the accessors below go into them. *)
Record PodTemplateSpec := {
  pt_Annotations : gmap string string;
  pt_Spec : PodSpec;
  pt_rest : ObjectRest
}.

(** Deployment, StatefulSet, DaemonSet, ReplicaSet and Job keep the template
    at [Spec.Template]. *)
Record Templated := {
  t_GVK : GroupVersionKind;
  t_Meta : ObjectMeta;
  t_Template : PodTemplateSpec;
  t_rest : ObjectRest
}.

Record Pod := {
  pod_GVK : GroupVersionKind;
  pod_Meta : ObjectMeta;
  pod_Spec : PodSpec;
  pod_rest : ObjectRest
}.

(** [Spec.JobTemplate.Spec.Template] *)
Record JobTemplateSpec := { jt_Template : PodTemplateSpec; jt_rest : ObjectRest }.
Record CronJob := {
  cj_GVK : GroupVersionKind;
  cj_Meta : ObjectMeta;
  cj_JobTemplate : JobTemplateSpec;
  cj_rest : ObjectRest
}.

Definition PodTemplateSpec_zero : PodTemplateSpec :=
  {| pt_Annotations := ∅; pt_Spec := PodSpec_zero; pt_rest := ObjectRest_zero |}.
Definition Templated_zero : Templated :=
  {| t_GVK := GVK_zero; t_Meta := ObjectMeta_zero; t_Template := PodTemplateSpec_zero;
     t_rest := ObjectRest_zero |}.
Definition Pod_zero : Pod :=
  {| pod_GVK := GVK_zero; pod_Meta := ObjectMeta_zero; pod_Spec := PodSpec_zero;
     pod_rest := ObjectRest_zero |}.
Definition CronJob_zero : CronJob :=
  {| cj_GVK := GVK_zero; cj_Meta := ObjectMeta_zero;
     cj_JobTemplate := {| jt_Template := PodTemplateSpec_zero; jt_rest := ObjectRest_zero |};
     cj_rest := ObjectRest_zero |}.

(** ** The interfaces *)
Class IsWorkload (W : Type) := {
  PodSpecOf : W -> PodSpec;
  PodTemplateAnnotations : W -> gmap string string;
  ObjectOf : W -> Object
}.

Class WithMutablePodTemplate (W : Type) := {
  SetPodSpec : PodSpec -> W -> W;
  SetPodTemplateAnnotations : gmap string string -> W -> W
}.

(** What the two interfaces promise to a client that rewrites the pod
    template. *)
Class MutablePodTemplateLaws (W : Type) `{IsWorkload W} `{WithMutablePodTemplate W} := {
  PodSpec_SetPodSpec : forall s w, PodSpecOf (SetPodSpec s w) = s;
  SetPodSpec_PodSpec : forall w, SetPodSpec (PodSpecOf w) w = w;
  SetPodSpec_SetPodSpec : forall s s' w, SetPodSpec s (SetPodSpec s' w) = SetPodSpec s w;
  Annotations_SetPodSpec : forall s w,
    PodTemplateAnnotations (SetPodSpec s w) = PodTemplateAnnotations w;
  Object_SetPodSpec : forall s w, ObjectOf (SetPodSpec s w) = ObjectOf w;
  Annotations_SetAnnotations : forall a w,
    PodTemplateAnnotations (SetPodTemplateAnnotations a w) = a;
  SetAnnotations_Annotations : forall w,
    SetPodTemplateAnnotations (PodTemplateAnnotations w) w = w;
  PodSpec_SetAnnotations : forall a w, PodSpecOf (SetPodTemplateAnnotations a w) = PodSpecOf w
}.

(** ** The seven workload types *)
Record DeploymentWorkload := { dw_Deployment : Templated }.
Record StatefulSetWorkload := { sw_StatefulSet : Templated }.
Record PodWorkload := { pw_Pod : Pod }.
Record JobWorkload := { jw_Job : Templated }.
Record CronJobWorkload := { cw_CronJob : CronJob }.
Record DaemonSetWorkload := { dsw_DaemonSet : Templated }.
Record ReplicaSetWorkload := { rsw_ReplicaSet : Templated }.

Definition t_Object (t : Templated) : Object := {| o_GVK := t_GVK t; o_Meta := t_Meta t |}.
Definition t_set_Spec (s : PodSpec) (t : Templated) : Templated :=
  {| t_GVK := t_GVK t; t_Meta := t_Meta t; t_rest := t_rest t;
     t_Template := {| pt_Annotations := pt_Annotations (t_Template t); pt_Spec := s;
                      pt_rest := pt_rest (t_Template t) |} |}.
Definition t_set_Annotations (a : gmap string string) (t : Templated) : Templated :=
  {| t_GVK := t_GVK t; t_Meta := t_Meta t; t_rest := t_rest t;
     t_Template := {| pt_Annotations := a; pt_Spec := pt_Spec (t_Template t);
                      pt_rest := pt_rest (t_Template t) |} |}.

#[export] Instance DeploymentWorkload_Workload : IsWorkload DeploymentWorkload := {|
  PodSpecOf d := pt_Spec (t_Template (dw_Deployment d));
  PodTemplateAnnotations d := pt_Annotations (t_Template (dw_Deployment d));
  ObjectOf d := t_Object (dw_Deployment d) |}.
#[export] Instance DeploymentWorkload_Mutable : WithMutablePodTemplate DeploymentWorkload := {|
  SetPodSpec s d := {| dw_Deployment := t_set_Spec s (dw_Deployment d) |};
  SetPodTemplateAnnotations a d :=
    {| dw_Deployment := t_set_Annotations a (dw_Deployment d) |} |}.

#[export] Instance StatefulSetWorkload_Workload : IsWorkload StatefulSetWorkload := {|
  PodSpecOf d := pt_Spec (t_Template (sw_StatefulSet d));
  PodTemplateAnnotations d := pt_Annotations (t_Template (sw_StatefulSet d));
  ObjectOf d := t_Object (sw_StatefulSet d) |}.
#[export] Instance StatefulSetWorkload_Mutable : WithMutablePodTemplate StatefulSetWorkload := {|
  SetPodSpec s d := {| sw_StatefulSet := t_set_Spec s (sw_StatefulSet d) |};
  SetPodTemplateAnnotations a d :=
    {| sw_StatefulSet := t_set_Annotations a (sw_StatefulSet d) |} |}.

Definition with_Annotations (a : gmap string string) (m : ObjectMeta) : ObjectMeta := {|
  om_Name := om_Name m; om_Namespace := om_Namespace m; om_Generation := om_Generation m;
  om_ResourceVersion := om_ResourceVersion m; om_Labels := om_Labels m; om_Annotations := a;
  om_DeletionTimestamp := om_DeletionTimestamp m; om_Finalizers := om_Finalizers m;
  om_OwnerReferences := om_OwnerReferences m; om_rest := om_rest m |}.

(** A pod is its own template: its annotations are the object's. *)
#[export] Instance PodWorkload_Workload : IsWorkload PodWorkload := {|
  PodSpecOf d := pod_Spec (pw_Pod d);
  PodTemplateAnnotations d := om_Annotations (pod_Meta (pw_Pod d));
  ObjectOf d := {| o_GVK := pod_GVK (pw_Pod d); o_Meta := pod_Meta (pw_Pod d) |} |}.
#[export] Instance PodWorkload_Mutable : WithMutablePodTemplate PodWorkload := {|
  SetPodSpec s d := {| pw_Pod := {|
    pod_GVK := pod_GVK (pw_Pod d); pod_Meta := pod_Meta (pw_Pod d); pod_Spec := s;
    pod_rest := pod_rest (pw_Pod d) |} |};
  SetPodTemplateAnnotations a d := {| pw_Pod := {|
    pod_GVK := pod_GVK (pw_Pod d); pod_Meta := with_Annotations a (pod_Meta (pw_Pod d));
    pod_Spec := pod_Spec (pw_Pod d); pod_rest := pod_rest (pw_Pod d) |} |} |}.

(** The pods of jobs cannot be changed: no [WithMutablePodTemplate]. *)
#[export] Instance JobWorkload_Workload : IsWorkload JobWorkload := {|
  PodSpecOf d := pt_Spec (t_Template (jw_Job d));
  PodTemplateAnnotations d := pt_Annotations (t_Template (jw_Job d));
  ObjectOf d := t_Object (jw_Job d) |}.

#[export] Instance CronJobWorkload_Workload : IsWorkload CronJobWorkload := {|
  PodSpecOf d := pt_Spec (jt_Template (cj_JobTemplate (cw_CronJob d)));
  PodTemplateAnnotations d := pt_Annotations (jt_Template (cj_JobTemplate (cw_CronJob d)));
  ObjectOf d := {| o_GVK := cj_GVK (cw_CronJob d); o_Meta := cj_Meta (cw_CronJob d) |} |}.

#[export] Instance DaemonSetWorkload_Workload : IsWorkload DaemonSetWorkload := {|
  PodSpecOf d := pt_Spec (t_Template (dsw_DaemonSet d));
  PodTemplateAnnotations d := pt_Annotations (t_Template (dsw_DaemonSet d));
  ObjectOf d := t_Object (dsw_DaemonSet d) |}.
#[export] Instance DaemonSetWorkload_Mutable : WithMutablePodTemplate DaemonSetWorkload := {|
  SetPodSpec s d := {| dsw_DaemonSet := t_set_Spec s (dsw_DaemonSet d) |};
  SetPodTemplateAnnotations a d :=
    {| dsw_DaemonSet := t_set_Annotations a (dsw_DaemonSet d) |} |}.

#[export] Instance ReplicaSetWorkload_Workload : IsWorkload ReplicaSetWorkload := {|
  PodSpecOf d := pt_Spec (t_Template (rsw_ReplicaSet d));
  PodTemplateAnnotations d := pt_Annotations (t_Template (rsw_ReplicaSet d));
  ObjectOf d := t_Object (rsw_ReplicaSet d) |}.
#[export] Instance ReplicaSetWorkload_Mutable : WithMutablePodTemplate ReplicaSetWorkload := {|
  SetPodSpec s d := {| rsw_ReplicaSet := t_set_Spec s (rsw_ReplicaSet d) |};
  SetPodTemplateAnnotations a d :=
    {| rsw_ReplicaSet := t_set_Annotations a (rsw_ReplicaSet d) |} |}.

(** A value of the interface type [Workload]. *)
Inductive Workload : Type :=
| WDeployment (w : DeploymentWorkload)
| WStatefulSet (w : StatefulSetWorkload)
| WPod (w : PodWorkload)
| WJob (w : JobWorkload)
| WCronJob (w : CronJobWorkload)
| WDaemonSet (w : DaemonSetWorkload)
| WReplicaSet (w : ReplicaSetWorkload).

#[export] Instance Workload_Workload : IsWorkload Workload := {|
  PodSpecOf w := match w with
    | WDeployment w => PodSpecOf w | WStatefulSet w => PodSpecOf w | WPod w => PodSpecOf w
    | WJob w => PodSpecOf w | WCronJob w => PodSpecOf w | WDaemonSet w => PodSpecOf w
    | WReplicaSet w => PodSpecOf w end;
  PodTemplateAnnotations w := match w with
    | WDeployment w => PodTemplateAnnotations w | WStatefulSet w => PodTemplateAnnotations w
    | WPod w => PodTemplateAnnotations w | WJob w => PodTemplateAnnotations w
    | WCronJob w => PodTemplateAnnotations w | WDaemonSet w => PodTemplateAnnotations w
    | WReplicaSet w => PodTemplateAnnotations w end;
  ObjectOf w := match w with
    | WDeployment w => ObjectOf w | WStatefulSet w => ObjectOf w | WPod w => ObjectOf w
    | WJob w => ObjectOf w | WCronJob w => ObjectOf w | WDaemonSet w => ObjectOf w
    | WReplicaSet w => ObjectOf w end |}.

(** ** Lists of workloads *)
Inductive ObjectList : Type :=
| DeploymentList (Items : list Templated)
| PodList (Items : list Pod)
| StatefulSetList (Items : list Templated)
| ReplicaSetList (Items : list Templated)
| JobList (Items : list Templated)
| CronJobList (Items : list CronJob)
| DaemonSetList (Items : list Templated).

Record WorkloadList := { objectList : ObjectList }.

(** [itemsAccessor] and [wlCreator] of each instance of [realWorkloadList]. *)
Definition Workloads (l : WorkloadList) : list Workload :=
  match objectList l with
  | DeploymentList items => (fun v => WDeployment {| dw_Deployment := v |}) <$> items
  | PodList items => (fun v => WPod {| pw_Pod := v |}) <$> items
  | StatefulSetList items => (fun v => WStatefulSet {| sw_StatefulSet := v |}) <$> items
  | ReplicaSetList items => (fun v => WReplicaSet {| rsw_ReplicaSet := v |}) <$> items
  | JobList items => (fun v => WJob {| jw_Job := v |}) <$> items
  | CronJobList items => (fun v => WCronJob {| cw_CronJob := v |}) <$> items
  | DaemonSetList items => (fun v => WDaemonSet {| dsw_DaemonSet := v |}) <$> items
  end.

Definition WorkloadListForKind (kind : string) : Res WorkloadList :=
  if decide (kind = "Deployment") then OK {| objectList := DeploymentList [] |}
  else if decide (kind = "Pod") then OK {| objectList := PodList [] |}
  else if decide (kind = "StatefulSet") then OK {| objectList := StatefulSetList [] |}
  else if decide (kind = "ReplicaSet") then OK {| objectList := ReplicaSetList [] |}
  else if decide (kind = "Job") then OK {| objectList := JobList [] |}
  else if decide (kind = "CronJob") then OK {| objectList := CronJobList [] |}
  else if decide (kind = "DaemonSet") then OK {| objectList := DaemonSetList [] |}
  else Fail (ErrorString ("unknown kind for pod workloadSelector: " +:+ kind)).

Definition WorkloadForKind `{SchemaPkg} (kind : string) : Res Workload :=
  let k := gk_Kind (ParseKindArg kind).2 in
  if decide (k = "Deployment") then OK (WDeployment {| dw_Deployment := Templated_zero |})
  else if decide (k = "Pod") then OK (WPod {| pw_Pod := Pod_zero |})
  else if decide (k = "StatefulSet") then OK (WStatefulSet {| sw_StatefulSet := Templated_zero |})
  else if decide (k = "Job") then OK (WJob {| jw_Job := Templated_zero |})
  else if decide (k = "CronJob") then OK (WCronJob {| cw_CronJob := CronJob_zero |})
  else if decide (k = "DaemonSet") then OK (WDaemonSet {| dsw_DaemonSet := Templated_zero |})
  else if decide (k = "ReplicaSet") then OK (WReplicaSet {| rsw_ReplicaSet := Templated_zero |})
  else Fail (ErrorString ("unknown kind " +:+ kind)).

(** ** Matching *)
Context `{LabelsPkg}.

Definition workloadMatches (wl : Object) (workloadSelector : WorkloadSelectorSpec) (ns : string)
    : bool :=
  if negb (bool_decide (ws_Kind workloadSelector = ""))
     && negb (bool_decide (GetKind wl = ws_Kind workloadSelector)) then false
  else if negb (bool_decide (ws_Name workloadSelector = ""))
     && negb (bool_decide (GetName wl = ws_Name workloadSelector)) then false
  else if negb (bool_decide (ns = "")) && negb (bool_decide (GetNamespace wl = ns)) then false
  else match LabelsSelector workloadSelector with
       | Fail _ => false
       | OK sel =>
           if negb (Selector_Empty sel) && negb (Selector_Matches sel (GetLabels wl)) then false
           else true
       end.

End objects.

#[export] Hint Mode IsWorkload - ! : typeclass_instances.
#[export] Hint Mode WithMutablePodTemplate - ! : typeclass_instances.

(** ** Laws of the interfaces *)
Section laws.
Context `{K8sTypes}.

#[export] Instance DeploymentWorkload_Laws : MutablePodTemplateLaws DeploymentWorkload.
Proof. split; repeat (intros ? [[? ? [] ?]] || intros [[? ? [] ?]] || intros ?); reflexivity. Qed.
#[export] Instance StatefulSetWorkload_Laws : MutablePodTemplateLaws StatefulSetWorkload.
Proof. split; repeat (intros ? [[? ? [] ?]] || intros [[? ? [] ?]] || intros ?); reflexivity. Qed.
#[export] Instance DaemonSetWorkload_Laws : MutablePodTemplateLaws DaemonSetWorkload.
Proof. split; repeat (intros ? [[? ? [] ?]] || intros [[? ? [] ?]] || intros ?); reflexivity. Qed.
#[export] Instance ReplicaSetWorkload_Laws : MutablePodTemplateLaws ReplicaSetWorkload.
Proof. split; repeat (intros ? [[? ? [] ?]] || intros [[? ? [] ?]] || intros ?); reflexivity. Qed.
#[export] Instance PodWorkload_Laws : MutablePodTemplateLaws PodWorkload.
Proof. split; repeat (intros ? [[? [] ? ?]] || intros [[? [] ? ?]] || intros ?); reflexivity. Qed.

End laws.

(** The kind a workload value, or a workload list, is for. *)
Definition workload_kind `{K8sTypes} (w : Workload) : string :=
  match w with
  | WDeployment _ => "Deployment" | WStatefulSet _ => "StatefulSet" | WPod _ => "Pod"
  | WJob _ => "Job" | WCronJob _ => "CronJob" | WDaemonSet _ => "DaemonSet"
  | WReplicaSet _ => "ReplicaSet"
  end.

Definition list_kind `{K8sTypes} (l : WorkloadList) : string :=
  match objectList l with
  | DeploymentList _ => "Deployment" | StatefulSetList _ => "StatefulSet" | PodList _ => "Pod"
  | JobList _ => "Job" | CronJobList _ => "CronJob" | DaemonSetList _ => "DaemonSet"
  | ReplicaSetList _ => "ReplicaSet"
  end.

Definition supported_kinds : list string :=
  ["Deployment"; "Pod"; "StatefulSet"; "ReplicaSet"; "Job"; "CronJob"; "DaemonSet"].

Section lemmas.
Context `{K8sTypes} `{LabelsPkg}.

Lemma WorkloadListForKind_cases kind :
  match WorkloadListForKind kind with
  | OK l => kind ∈ supported_kinds /\ list_kind l = kind /\ Workloads l = []
  | Fail _ => kind ∉ supported_kinds
  end.
Proof.
  unfold WorkloadListForKind. repeat case_decide; subst;
    try (split_and!; [by apply (bool_decide_eq_true_1 _)|done|done]).
  unfold supported_kinds. rewrite !not_elem_of_cons. split_and!; auto using not_elem_of_nil.
Qed.

Lemma WorkloadForKind_cases `{SchemaPkg} kind :
  match WorkloadForKind kind with
  | OK w => gk_Kind (ParseKindArg kind).2 ∈ supported_kinds
            /\ workload_kind w = gk_Kind (ParseKindArg kind).2
  | Fail _ => gk_Kind (ParseKindArg kind).2 ∉ supported_kinds
  end.
Proof.
  unfold WorkloadForKind. cbn zeta. generalize (gk_Kind (ParseKindArg kind).2). intros k.
  repeat case_decide; subst; try (split; [by apply (bool_decide_eq_true_1 _)|done]).
  unfold supported_kinds. rewrite !not_elem_of_cons. split_and!; auto using not_elem_of_nil.
Qed.

(** The selector part of matching. *)
Definition selector_accepts (s : WorkloadSelectorSpec) (labels : gmap string string) : Prop :=
  match ws_Selector s with
  | None => True
  | Some ls => exists sel, LabelSelectorAsSelector ls = OK sel
      /\ (Selector_Empty sel = true \/ Selector_Matches sel labels = true)
  end.

Lemma workloadMatches_true wl s ns :
  workloadMatches wl s ns = true <->
  (ws_Kind s = "" \/ GetKind wl = ws_Kind s) /\ (ws_Name s = "" \/ GetName wl = ws_Name s)
  /\ (ns = "" \/ GetNamespace wl = ns) /\ selector_accepts s (GetLabels wl).
Proof.
  unfold workloadMatches. rewrite !if_false_iff, !guard_false_iff.
  apply and_iff_compat_l, and_iff_compat_l, and_iff_compat_l.
  unfold selector_accepts, LabelsSelector. destruct (ws_Selector s) as [ls|].
  - destruct (LabelSelectorAsSelector ls) as [sel|e].
    + rewrite if_false_iff, negb_guard_false_iff. split; [eauto|].
      by intros (? & [= <-] & ?).
    + split; [done|by intros (? & ? & _)].
  - by rewrite NewSelector_Empty.
Qed.

End lemmas.

(** ** Theorems *)

(** The two factories support the same seven kinds: for every kind string,
    [WorkloadForKind] succeeds exactly when [WorkloadListForKind] succeeds on
    the parsed kind, both are then for that kind, and whatever the API server
    puts in a list of that kind, [Workloads] yields workloads of that kind, one
    per item, in order. *)
Theorem kinds_agree `{K8sTypes} `{LabelsPkg} `{SchemaPkg} (kind : string) :
  match WorkloadForKind kind, WorkloadListForKind (gk_Kind (ParseKindArg kind).2) with
  | OK w, OK l => gk_Kind (ParseKindArg kind).2 ∈ supported_kinds
      /\ workload_kind w = gk_Kind (ParseKindArg kind).2 /\ list_kind l = workload_kind w
      /\ forall filled, list_kind filled = list_kind l ->
           Forall (fun v => workload_kind v = workload_kind w) (Workloads filled)
  | Fail _, Fail _ => gk_Kind (ParseKindArg kind).2 ∉ supported_kinds
  | _, _ => False
  end.
Proof.
  pose proof (WorkloadForKind_cases kind) as Hw.
  pose proof (WorkloadListForKind_cases (gk_Kind (ParseKindArg kind).2)) as Hl.
  destruct (WorkloadForKind kind) as [w|], (WorkloadListForKind _) as [l|]; try done.
  - destruct Hw as [Hin Hw], Hl as (_ & Hl & _). split_and!; try done; [congruence|].
    intros filled Hf. rewrite Hl, <-Hw in Hf. rewrite <-Hf. unfold list_kind, Workloads.
    destruct (objectList filled); apply Forall_fmap, Forall_true; done.
  - by destruct Hw.
  - by destruct Hl.
Qed.

(** Rewriting a pod template through the interface obeys the lens laws and
    touches nothing else, for every workload type with a mutable template:
    [SetPodSpec] sets exactly the pod spec (it keeps the object's metadata and
    the template annotations), [SetPodTemplateAnnotations] exactly the
    annotations. *)
Theorem mutable_pod_templates_lawful `{K8sTypes} :
  MutablePodTemplateLaws DeploymentWorkload /\ MutablePodTemplateLaws StatefulSetWorkload
  /\ MutablePodTemplateLaws PodWorkload /\ MutablePodTemplateLaws DaemonSetWorkload
  /\ MutablePodTemplateLaws ReplicaSetWorkload.
Proof. split_and!; apply _. Qed.

(** C36: [workloadMatches] accepts an object exactly when kind, name and
    namespace agree with the ones given (an empty one accepts anything) and the
    label selector, if there is one, is valid and empty or matching.  In
    particular an invalid selector matches nothing, and an object of another
    namespace is never matched when a namespace is given. *)
Theorem workloadMatches_spec `{K8sTypes} `{LabelsPkg} (wl : Object)
    (s : WorkloadSelectorSpec) (ns : string) :
  workloadMatches wl s ns = true <->
  (ws_Kind s = "" \/ GetKind wl = ws_Kind s) /\ (ws_Name s = "" \/ GetName wl = ws_Name s)
  /\ (ns = "" \/ GetNamespace wl = ns)
  /\ match ws_Selector s with
     | None => True
     | Some ls => exists sel, LabelSelectorAsSelector ls = OK sel
         /\ (Selector_Empty sel = true \/ Selector_Matches sel (GetLabels wl) = true)
     end.
Proof. apply workloadMatches_true. Qed.

(** The API documents selector kinds of the form Deployment.v1.apps.  The
    reconciler's factories accept them, for every supported kind, but
    [workloadMatches] compares the whole string with the object's kind: it
    rejects every object of that kind. *)
Theorem qualified_kind_never_matches `{K8sTypes} `{LabelsPkg} `{SchemaPkg}
    (kind suffix ns : string) (wl : Object) (s : WorkloadSelectorSpec)
    (Hk : kind ∈ supported_kinds) (Hs : ws_Kind s = kind +:+ "." +:+ suffix)
    (Hwl : GetKind wl = kind) :
  (exists w, WorkloadForKind (ws_Kind s) = OK w /\ workload_kind w = kind)
  /\ (exists l, WorkloadListForKind (gk_Kind (ParseKindArg (ws_Kind s)).2) = OK l
                /\ list_kind l = kind)
  /\ workloadMatches wl s ns = false.
Proof.
  assert (string_forall (fun c => negb (c =? ".")%char) kind = true) as Hdot.
  { unfold supported_kinds in Hk. rewrite !elem_of_cons, elem_of_nil in Hk.
    repeat destruct Hk as [->|Hk]; done. }
  pose proof (ParseKindArg_dotted kind suffix Hdot) as Hparse. rewrite <-Hs in Hparse.
  pose proof (WorkloadForKind_cases (ws_Kind s)) as Hw.
  pose proof (WorkloadListForKind_cases (gk_Kind (ParseKindArg (ws_Kind s)).2)) as Hl.
  rewrite Hparse in *. cbn in *. split_and!.
  - destruct (WorkloadForKind (ws_Kind s)) as [w|]; [|done]. exists w. by destruct Hw.
  - destruct (WorkloadListForKind kind) as [l|]; [|done]. exists l. by destruct Hl as (_ & ? & _).
  - apply not_true_is_false. rewrite workloadMatches_true. intros ([E|E] & _).
    + rewrite Hs in E. by destruct kind.
    + rewrite Hwl, Hs in E.
      apply (f_equal String.length) in E. rewrite !string_length_app in E. cbn in E. lia.
Qed.

(** ** Witness *)
Section witnesses.
Import ConcreteInstances.

Lemma qualified_kind_never_matches_witness :
  workloadMatches {| o_GVK := mk_gvk "apps" "v1" "Deployment"; o_Meta := mk_meta "default" "web" ∅ |}
    (mk_selector "Deployment.v1.apps" "web" None) "default" = false.
Proof.
  apply (qualified_kind_never_matches "Deployment" "v1.apps" "default"
    {| o_GVK := mk_gvk "apps" "v1" "Deployment"; o_Meta := mk_meta "default" "web" ∅ |}
    (mk_selector "Deployment.v1.apps" "web" None)); [|reflexivity..].
  apply (bool_decide_eq_true_1 _). reflexivity.
Defined.

End witnesses.
