(* ===== verification/Fixtures.v ===== *)
(** * Sample inputs

    The pod and the resources the witnesses of the later files run the model
    on: a pod with a web server on port 8080, and resources in its
    namespace. *)

From S2P Require Import Prelude GoStd Api Concrete Workload.
From Stdlib Require Import Ascii.
Import ConcreteInstances.
#[local] Open Scope Z_scope.

Definition mk_pod (ns name : string) (labels : gmap string string) (cs : list Container)
    : PodWorkload := {|
  pw_Pod := {| pod_GVK := mk_gvk "" "v1" "Pod"; pod_Meta := mk_meta ns name labels;
               pod_Spec := {| ps_Containers := cs; ps_rest := tt |}; pod_rest := tt |} |}.

Definition web_pod : PodWorkload :=
  mk_pod "default" "web" (<["app" := "web"]> ∅)
    [mk_container "web" [8080; 5000] [("DB_HOST", "localhost"); ("LOG", "debug")]].

Definition any_pod : WorkloadSelectorSpec := mk_selector "Pod" "" None.

(** Two instances, one with a port of its own choice. *)
Definition orders_apw : AuthProxyWorkload :=
  mk_apw "default" "orders" any_pod None
    [mk_instance "proj:region:orders" None "DB_PORT" "DB_HOST";
     mk_instance "proj:region:audit" (Some 6000) "AUDIT_PORT" ""].

(** One instance on the first free port. *)
Definition users_apw : AuthProxyWorkload :=
  mk_apw "default" "users" any_pod None [mk_instance "proj:region:users" None "USERS_PORT" ""].

(** An instance that asks for the port of the web server. *)
Definition clash_apw : AuthProxyWorkload :=
  mk_apw "default" "clash" any_pod None [mk_instance "proj:region:clash" (Some 8080) "" ""].
