(* ===== verification/PodSpec.v ===== *)
(** * Applying proxies to a pod

    [src/internal/workload/podspec_updates.go] except the matching of
    resources (file [Matching]): the [updateState] a call of
    [ConfigureWorkload] works on, and its operations.  The methods that change
    the state run in the monad [Go updateState]; [*corev1.Container] arguments
    that are filled in become results. *)

From S2P Require Import Prelude GoStd Api Concrete Names Workload.
From Stdlib Require Import Ascii.
From Stdlib Require String.
#[local] Open Scope Z_scope.

Definition DefaultProxyImage : string := "gcr.io/cloud-sql-connectors/cloud-sql-proxy:2.0.0-preview.4".
Definition DefaultFirstPort : Z := 5000.
Definition DefaultHealthCheckPort : Z := 9801.

(** ** Data *)
Record Updater := { userAgent : string }.

Definition NewUpdater (ua : string) : Updater := {| userAgent := ua |}.

Record ConfigErrorDetail := {
  ced_ErrorCode : string;
  ced_Description : string;
  ced_AuthProxyName : string;
  ced_AuthProxyNamespace : string;
  ced_WorkloadKind : GroupVersionKind;
  ced_WorkloadName : string;
  ced_WorkloadNamespace : string
}.

Record ConfigError := {
  ce_workloadKind : GroupVersionKind;
  ce_workloadName : string;
  ce_workloadNamespace : string;
  ce_details : list ConfigErrorDetail
}.

Definition DetailedErrors (e : ConfigError) : list ConfigErrorDetail := ce_details e.

(** [fmt] prints a struct with %v as its fields between braces, calling
    [String] on the fields that have it. *)
Definition ced_format (d : ConfigErrorDetail) : string :=
  "{" +:+ ced_ErrorCode d +:+ " " +:+ ced_Description d +:+ " " +:+ ced_AuthProxyName d +:+ " "
  +:+ ced_AuthProxyNamespace d +:+ " " +:+ GVK_String (ced_WorkloadKind d) +:+ " "
  +:+ ced_WorkloadName d +:+ " " +:+ ced_WorkloadNamespace d +:+ "}".

Definition ConfigError_Error (e : ConfigError) : string :=
  "found " +:+ format_d (Z.of_nat (length (ce_details e))) +:+ " configuration errors on workload "
  +:+ GVK_String (ce_workloadKind e) +:+ " " +:+ ce_workloadNamespace e +:+ "/"
  +:+ ce_workloadName e +:+ ": [" +:+ Join (ced_format <$> ce_details e) " " +:+ "]".

Definition ConfigErrorDetail_Error (e : ConfigErrorDetail) : string :=
  "error " +:+ ced_ErrorCode e +:+ " " +:+ ced_Description e +:+ " while applying AuthProxyWorkload "
  +:+ ced_AuthProxyNamespace e +:+ "/" +:+ ced_AuthProxyName e +:+ " to workload  "
  +:+ GVK_String (ced_WorkloadKind e) +:+ " " +:+ ced_WorkloadNamespace e +:+ "/"
  +:+ ced_WorkloadName e.

Record dbInstance := { di_AuthProxyWorkload : NamespacedName; di_ConnectionString : string }.

#[export] Instance dbInstance_eq_dec : EqDecision dbInstance.
Proof. solve_decision. Defined.

Definition dbInst (namespace name connectionString : string) : dbInstance := {|
  di_AuthProxyWorkload := {| nn_Namespace := namespace; nn_Name := name |};
  di_ConnectionString := connectionString |}.

Record managedPort := {
  mp_Instance : dbInstance;
  mp_OriginalValues : gmap string Z;
  mp_Port : Z
}.

Section data.
Context `{K8sTypes}.

Record managedEnvVar := {
  me_Instance : dbInstance;
  me_OperatorManagedValue : EnvVar;
  me_OriginalValues : gmap string string
}.

Record managedVolume := {
  mv_Volume : Volume;
  mv_VolumeMount : VolumeMount;
  mv_Instance : dbInstance
}.

Record workloadMods := {
  wm_DBInstances : list dbInstance;
  wm_EnvVars : list managedEnvVar;
  wm_VolumeMounts : list managedVolume;
  wm_Ports : list managedPort
}.

Record updateState := {
  us_err : ConfigError;
  us_mods : workloadMods;
  us_nextDBPort : Z;
  us_updater : Updater
}.

Definition us_Ports (s : updateState) : list managedPort := wm_Ports (us_mods s).
Definition us_EnvVars (s : updateState) : list managedEnvVar := wm_EnvVars (us_mods s).
Definition us_details (s : updateState) : list ConfigErrorDetail := ce_details (us_err s).

Definition set_mods (m : workloadMods) (s : updateState) : updateState :=
  {| us_err := us_err s; us_mods := m; us_nextDBPort := us_nextDBPort s;
     us_updater := us_updater s |}.
Definition set_Ports (l : list managedPort) (s : updateState) : updateState :=
  set_mods {| wm_DBInstances := wm_DBInstances (us_mods s); wm_EnvVars := wm_EnvVars (us_mods s);
              wm_VolumeMounts := wm_VolumeMounts (us_mods s); wm_Ports := l |} s.
Definition set_EnvVars (l : list managedEnvVar) (s : updateState) : updateState :=
  set_mods {| wm_DBInstances := wm_DBInstances (us_mods s); wm_EnvVars := l;
              wm_VolumeMounts := wm_VolumeMounts (us_mods s); wm_Ports := wm_Ports (us_mods s) |} s.
Definition set_DBInstances (l : list dbInstance) (s : updateState) : updateState :=
  set_mods {| wm_DBInstances := l; wm_EnvVars := wm_EnvVars (us_mods s);
              wm_VolumeMounts := wm_VolumeMounts (us_mods s); wm_Ports := wm_Ports (us_mods s) |} s.
Definition set_nextDBPort (p : Z) (s : updateState) : updateState :=
  {| us_err := us_err s; us_mods := us_mods s; us_nextDBPort := p; us_updater := us_updater s |}.
Definition set_err (e : ConfigError) (s : updateState) : updateState :=
  {| us_err := e; us_mods := us_mods s; us_nextDBPort := us_nextDBPort s;
     us_updater := us_updater s |}.

End data.

(** Last element satisfying a test: a loop that overwrites its variable at each
    hit. *)
Fixpoint find_last_index {A} (p : A -> bool) (l : list A) : option (nat * A) :=
  match l with
  | [] => None
  | x :: l =>
      match find_last_index p l with
      | Some (i, y) => Some (S i, y)
      | None => if p x then Some (O, x) else None
      end
  end.

(** ** Operations *)
Section operations.
Context `{K8sTypes} `{LabelsPkg}.

(** [ConfigError.add] *)
Definition ConfigError_add (errorCode description : string) (p : AuthProxyWorkload)
    (e : ConfigError) : ConfigError := {|
  ce_workloadKind := ce_workloadKind e;
  ce_workloadName := ce_workloadName e;
  ce_workloadNamespace := ce_workloadNamespace e;
  ce_details := ce_details e ++ [{|
    ced_WorkloadKind := ce_workloadKind e;
    ced_WorkloadName := ce_workloadName e;
    ced_WorkloadNamespace := ce_workloadNamespace e;
    ced_AuthProxyNamespace := apw_Namespace p;
    ced_AuthProxyName := apw_Name p;
    ced_ErrorCode := errorCode;
    ced_Description := description |}] |}.

Definition addError (errorCode description : string) (p : AuthProxyWorkload)
    : Go updateState unit :=
  modify (fun s => set_err (ConfigError_add errorCode description p (us_err s)) s).

Definition defaultProxyImage : string := DefaultProxyImage.

Definition isPortInUse (s : updateState) (p : Z) : bool :=
  existsb (fun mp => p =? mp_Port mp) (us_Ports s).

Definition addPort (p : Z) (containerName : string) (n : NamespacedName)
    (connectionString : string) : Go updateState unit :=
  ports ← gets us_Ports;
  let '(ports, i, mp) :=
    match find_last_index (fun mp => mp_Port mp =? p) ports with
    | Some (i, mp) => (ports, i, mp)
    | None =>
        let mp := {| mp_Instance := dbInst (nn_Namespace n) (nn_Name n) connectionString;
                     mp_Port := p; mp_OriginalValues := ∅ |} in
        (ports ++ [mp], length ports, mp)
    end in
  let ports :=
    if negb (bool_decide (containerName = "")) && negb (HasPrefix containerName ContainerPrefix)
    then <[i := {| mp_Instance := mp_Instance mp; mp_Port := mp_Port mp;
                   mp_OriginalValues := <[containerName := p]> (mp_OriginalValues mp) |}]> ports
    else ports in
  modify (set_Ports ports).

Definition addInUsePort (p : Z) (containerName : string) : Go updateState unit :=
  addPort p containerName {| nn_Namespace := ""; nn_Name := "" |} "".

Definition port_conflict_text (port : Z) (conn : string) : string :=
  "proxy port " +:+ format_d port +:+ " for instance " +:+ conn +:+ " is already in use".

Definition useInstancePort (p : AuthProxyWorkload) (inst : InstanceSpec) : Go updateState Z :=
  let n := apw_NamespacedName p in
  s ← get;
  (* Does a managedPort already exist for this workload+instance? *)
  match find_index (fun mp => bool_decide (di_AuthProxyWorkload (mp_Instance mp) = n)
                      && bool_decide (di_ConnectionString (mp_Instance mp) = is_ConnectionString inst))
          (us_Ports s) with
  | Some (i, proxyPort) =>
      match is_Port inst with
      | Some q =>
          if negb (mp_Port proxyPort =? q) then
            _ ← (if isPortInUse s q
                 then addError ErrorCodePortConflict
                        (port_conflict_text q (is_ConnectionString inst)) p
                 else mret tt);
            _ ← modify (fun s => set_Ports
                  (<[i := {| mp_Instance := mp_Instance proxyPort; mp_Port := q;
                             mp_OriginalValues := mp_OriginalValues proxyPort |}]> (us_Ports s)) s);
            mret q
          else mret (mp_Port proxyPort)
      | None => mret (mp_Port proxyPort)
      end
  | None =>
      (* Since this is a new workload+instance, figure out the port number *)
      port ← match is_Port inst with
             | Some q => mret q
             | None =>
                 next ← lift_outcome
                   (bump (isPortInUse s) (length (us_Ports s)) (us_nextDBPort s));
                 _ ← modify (set_nextDBPort next);
                 mret next
             end;
      _ ← (if isPortInUse s port
           then addError ErrorCodePortConflict (port_conflict_text port (is_ConnectionString inst)) p
           else mret tt);
      _ ← addPort port "" n (is_ConnectionString inst);
      mret port
  end.

Definition addWorkloadEnvVar (p : AuthProxyWorkload) (inst : InstanceSpec) (ev : EnvVar)
    : Go updateState unit :=
  envs ← gets us_EnvVars;
  match find_index (fun me => bool_decide (ev_Name (me_OperatorManagedValue me) = ev_Name ev)) envs with
  | Some (i, me) =>
      let old := me_OperatorManagedValue me in
      _ ← modify (set_EnvVars
            (<[i := {| me_Instance := me_Instance me; me_OperatorManagedValue := ev;
                       me_OriginalValues := me_OriginalValues me |}]> envs));
      if negb (bool_decide (ev_Value old = ev_Value ev))
      then addError ErrorCodeEnvConflict
             ("environment variable named " +:+ ev_Name ev +:+ " already exists") p
      else mret tt
  | None =>
      modify (set_EnvVars (envs ++ [{|
        me_Instance := dbInst (apw_Namespace p) (apw_Name p) (is_ConnectionString inst);
        me_OriginalValues := ∅; me_OperatorManagedValue := ev |}]))
  end.

Definition initState (pl : list AuthProxyWorkload) : Go updateState unit :=
  modify (set_DBInstances
    (pl ≫= fun wl => (fun instance =>
       dbInst (apw_Namespace wl) (apw_Name wl) (is_ConnectionString instance))
         <$> sp_Instances (apw_Spec wl))).

(** *** The proxy container *)
Definition defaultContainerResources : ResourceRequirements := {|
  rr_Limits := ∅;
  rr_Requests := <["cpu" := MustParse "1.0"]> (<["memory" := MustParse "2Gi"]> ∅);
  rr_rest := ResourcesRest_zero |}.

Definition health_probe (port : Z) (path : string) : Probe := {|
  pr_HTTPGet := Some {| hg_Path := path;
                        hg_Port := {| ios_Type := 0; ios_IntVal := port; ios_StrVal := "" |};
                        hg_rest := HTTPGetRest_zero |};
  pr_PeriodSeconds := 30;
  pr_rest := ProbeRest_zero |}.

Definition addHealthCheck (c : Container) (cliArgs : list string)
    : Go updateState (Container * list string) :=
  s ← get;
  port ← lift_outcome (bump (isPortInUse s) (length (us_Ports s)) DefaultHealthCheckPort);
  mret ({| c_Name := c_Name c; c_Image := c_Image c; c_ImagePullPolicy := c_ImagePullPolicy c;
           c_Args := c_Args c; c_Ports := c_Ports c; c_Env := c_Env c;
           c_Resources := c_Resources c;
           c_StartupProbe := Some (health_probe port "/startup");
           c_ReadinessProbe := Some (health_probe port "/readiness");
           c_LivenessProbe := Some (health_probe port "/liveness");
           c_rest := c_rest c |},
        cliArgs ++ ["--http-port=" +:+ format_d port; "--http-address=0.0.0.0"; "--health-check";
                    "--structured-logs"]).

Definition set_Image_Resources (img : string) (r : ResourceRequirements) (c : Container)
    : Container := {|
  c_Name := c_Name c; c_Image := img; c_ImagePullPolicy := c_ImagePullPolicy c;
  c_Args := c_Args c; c_Ports := c_Ports c; c_Env := c_Env c; c_Resources := r;
  c_StartupProbe := c_StartupProbe c; c_ReadinessProbe := c_ReadinessProbe c;
  c_LivenessProbe := c_LivenessProbe c; c_rest := c_rest c |}.

(** A flag that is left out when the pointer is nil or the number is zero. *)
Definition number_flag (flag : string) (v : option Z) : list string :=
  match v with
  | Some n => if negb (n =? 0) then [flag +:+ format_d n] else []
  | None => []
  end.

Definition applyContainerSpec (p : AuthProxyWorkload) (c : Container) (cliArgs : list string)
    : Container * list string :=
  match sp_AuthProxyContainer (apw_Spec p) with
  | None => (set_Image_Resources defaultProxyImage defaultContainerResources c, cliArgs)
  | Some ac =>
      let img := if negb (bool_decide (ac_Image ac = "")) then ac_Image ac
                 else defaultProxyImage in
      let res := match ac_Resources ac with
                 | Some r => r
                 | None => defaultContainerResources
                 end in
      (set_Image_Resources img res c,
       cliArgs
       ++ (if negb (bool_decide (ac_SQLAdminAPIEndpoint ac = ""))
           then ["--sqladmin-api-endpoint=" +:+ ac_SQLAdminAPIEndpoint ac] else [])
       ++ number_flag "--max-connections=" (ac_MaxConnections ac)
       ++ number_flag "--max-sigterm-delay=" (ac_MaxSigtermDelay ac))
  end.

Definition format_bool (b : bool) : string := if b then "true" else "false".

(** [params[k] = "true" or "false"] when the pointer is not nil. *)
Definition bool_param (k : string) (v : option bool) (params : gmap string string)
    : gmap string string :=
  match v with Some b => <[k := format_bool b]> params | None => params end.

Definition instance_params (inst : InstanceSpec) (port : Z) : gmap string string :=
  bool_param "private-ip" (is_PrivateIP inst)
    (bool_param "auto-iam-authn" (is_AutoIAMAuthN inst)
      (<["port" := format_d port]> ∅)).

(** One element of the container's argument list. *)
Definition instance_arg `{MapRange} (inst : InstanceSpec) (port : Z) : string :=
  let instArgs := sort_Strings
    ((fun '(k, v) => k +:+ "=" +:+ v) <$> range_map (instance_params inst port)) in
  if (0 <? Z.of_nat (length instArgs))
  then is_ConnectionString inst +:+ "?" +:+ Join instArgs "&"
  else is_ConnectionString inst.

Definition env_value (name value : string) : EnvVar :=
  {| ev_Name := name; ev_Value := value; ev_ValueFrom := None |}.

(** The body of the loop over [p.Spec.Instances]. *)
Definition useInstance `{MapRange} (p : AuthProxyWorkload) (cliArgs : list string)
    (inst : InstanceSpec) : Go updateState (list string) :=
  port ← useInstancePort p inst;
  _ ← (if negb (bool_decide (is_HostEnvName inst = ""))
       then addWorkloadEnvVar p inst (env_value (is_HostEnvName inst) "127.0.0.1")
       else mret tt);
  _ ← (if negb (bool_decide (is_PortEnvName inst = ""))
       then addWorkloadEnvVar p inst (env_value (is_PortEnvName inst) (format_d port))
       else mret tt);
  mret (cliArgs ++ [instance_arg inst port]).

Definition set_Name (name : string) (c : Container) : Container := {|
  c_Name := name; c_Image := c_Image c; c_ImagePullPolicy := c_ImagePullPolicy c;
  c_Args := c_Args c; c_Ports := c_Ports c; c_Env := c_Env c; c_Resources := c_Resources c;
  c_StartupProbe := c_StartupProbe c; c_ReadinessProbe := c_ReadinessProbe c;
  c_LivenessProbe := c_LivenessProbe c; c_rest := c_rest c |}.

Definition set_PullPolicy (v : string) (c : Container) : Container := {|
  c_Name := c_Name c; c_Image := c_Image c; c_ImagePullPolicy := v;
  c_Args := c_Args c; c_Ports := c_Ports c; c_Env := c_Env c; c_Resources := c_Resources c;
  c_StartupProbe := c_StartupProbe c; c_ReadinessProbe := c_ReadinessProbe c;
  c_LivenessProbe := c_LivenessProbe c; c_rest := c_rest c |}.

Definition set_Args (args : list string) (c : Container) : Container := {|
  c_Name := c_Name c; c_Image := c_Image c; c_ImagePullPolicy := c_ImagePullPolicy c;
  c_Args := args; c_Ports := c_Ports c; c_Env := c_Env c; c_Resources := c_Resources c;
  c_StartupProbe := c_StartupProbe c; c_ReadinessProbe := c_ReadinessProbe c;
  c_LivenessProbe := c_LivenessProbe c; c_rest := c_rest c |}.

Definition set_Env (env : list EnvVar) (c : Container) : Container := {|
  c_Name := c_Name c; c_Image := c_Image c; c_ImagePullPolicy := c_ImagePullPolicy c;
  c_Args := c_Args c; c_Ports := c_Ports c; c_Env := env; c_Resources := c_Resources c;
  c_StartupProbe := c_StartupProbe c; c_ReadinessProbe := c_ReadinessProbe c;
  c_LivenessProbe := c_LivenessProbe c; c_rest := c_rest c |}.

Definition updateContainer `{UnicodeTables} `{MapRange} (p : AuthProxyWorkload) (c : Container)
    : Go updateState Container :=
  match apw_override p with
  | Some override =>
      name ← lift_outcome (ContainerName p);
      mret (set_Name name override)
  | None =>
      '(c, cliArgs) ← addHealthCheck c [];
      u ← gets us_updater;
      let cliArgs := cliArgs ++ ["--user-agent=" +:+ userAgent u] in
      name ← lift_outcome (ContainerName p);
      let c := set_PullPolicy "IfNotPresent" (set_Name name c) in
      let '(c, cliArgs) := applyContainerSpec p c cliArgs in
      cliArgs ← fold_range (useInstance p) cliArgs (sp_Instances (apw_Spec p));
      mret (set_Args cliArgs c)
  end.

(** [c.Env] after one operator variable: every entry of that name is
    overwritten; if there is none, one is appended. *)
Definition apply_env (env : list EnvVar) (operatorEnv : EnvVar) : list EnvVar :=
  let found := existsb (fun e => bool_decide (ev_Name operatorEnv = ev_Name e)) env in
  let env := (fun e => if bool_decide (ev_Name operatorEnv = ev_Name e)
                       then operatorEnv else e) <$> env in
  if found then env else env ++ [operatorEnv].

Definition updateContainerEnv (s : updateState) (c : Container) : Container :=
  set_Env (fold_left apply_env (me_OperatorManagedValue <$> us_EnvVars s) (c_Env c)) c.

(** The result of configuring a workload. *)
Inductive ConfigResult : Type :=
| Configured (wl : PodWorkload)
| ConfigFailed (e : ConfigError).

Definition update `{UnicodeTables} `{MapRange} (wl : PodWorkload)
    (matches : list AuthProxyWorkload) : Go updateState ConfigResult :=
  _ ← initState matches;
  let podSpec := PodSpecOf wl in
  let containers := ps_Containers podSpec in
  let nonAuthProxyContainers :=
    List.filter (fun c => negb (HasPrefix (c_Name c) ContainerPrefix)) containers in
  _ ← for_range (fun c =>
        for_range (fun port => addInUsePort (cp_ContainerPort port) (c_Name c)) (c_Ports c))
      nonAuthProxyContainers;
  containers ← fold_range (fun containers inst =>
                 newContainer ← updateContainer inst Container_zero;
                 mret (containers ++ [newContainer])) containers matches;
  s ← get;
  let containers := updateContainerEnv s <$> containers in
  if (0 <? Z.of_nat (length (us_details s))) then mret (ConfigFailed (us_err s))
  else mret (Configured (SetPodSpec {| ps_Containers := containers; ps_rest := ps_rest podSpec |} wl)).

(** The [updateState] a call starts from. *)
Definition initial_state (u : Updater) (wl : PodWorkload) : updateState := {|
  us_updater := u;
  us_nextDBPort := DefaultFirstPort;
  us_mods := {| wm_DBInstances := []; wm_EnvVars := []; wm_VolumeMounts := []; wm_Ports := [] |};
  us_err := {| ce_workloadKind := o_GVK (ObjectOf wl);
               ce_workloadName := GetName (ObjectOf wl);
               ce_workloadNamespace := GetNamespace (ObjectOf wl);
               ce_details := [] |} |}.

Definition ConfigureWorkload `{UnicodeTables} `{MapRange} (u : Updater) (wl : PodWorkload)
    (matches : list AuthProxyWorkload) : Outcome ConfigResult :=
  fst <$> update wl matches (initial_state u wl).

End operations.
