(* ===== verification/Allocation.v ===== *)
(** * What configuring a pod promises

    An abstract description of [ConfigureWorkload]: ports and environment
    variables are handed out by a pure allocator over the list of instances,
    without managed-port records, without the [nextDBPort] cache and without a
    mutable state, and a conflict stops it.  [Refinement] proves that the code
    of [PodSpec] implements it. *)

From S2P Require Import Prelude GoStd Api Concrete Names Workload PodSpec.
From Stdlib Require Import Ascii.
#[local] Open Scope Z_scope.

(** ** Ports *)

(** The least port from [from] on that is not in [used]: at most [length used]
    candidates are taken. *)
Fixpoint first_free_go (used : list Z) (fuel : nat) (from : Z) : Z :=
  match fuel with
  | O => from
  | S fuel => if bool_decide (from ∈ used) then first_free_go used fuel (from + 1) else from
  end.
Definition first_free (used : list Z) (from : Z) : Z := first_free_go used (length used) from.

(** [used] without the ports it already contains. *)
Definition add_port (used : list Z) (p : Z) : list Z :=
  if bool_decide (p ∈ used) then used else used ++ [p].

Section allocation.
Context `{K8sTypes} `{LabelsPkg}.

Definition choose_port (used : list Z) (inst : InstanceSpec) : Z :=
  match is_Port inst with
  | Some q => q
  | None => first_free used DefaultFirstPort
  end.

(** ** Environment variables *)
Definition put_env (ev : EnvVar) (env : list EnvVar) : option (list EnvVar) :=
  match List.find (fun e => bool_decide (ev_Name e = ev_Name ev)) env with
  | Some old => if bool_decide (ev_Value old = ev_Value ev) then Some env else None
  | None => Some (env ++ [ev])
  end.

Fixpoint put_envs (evs : list EnvVar) (env : list EnvVar) : option (list EnvVar) :=
  match evs with
  | [] => Some env
  | ev :: evs => env' ← put_env ev env; put_envs evs env'
  end.

(** The variables an instance asks for, given its port. *)
Definition instance_env (inst : InstanceSpec) (port : Z) : list EnvVar :=
  (if bool_decide (is_HostEnvName inst = "") then []
   else [env_value (is_HostEnvName inst) "127.0.0.1"])
  ++ (if bool_decide (is_PortEnvName inst = "") then []
      else [env_value (is_PortEnvName inst) (format_d port)]).

(** ** The allocator *)
Record alloc_state := { al_used : list Z; al_env : list EnvVar }.

Definition allocate_instance (st : alloc_state) (inst : InstanceSpec)
    : option (alloc_state * Z) :=
  let port := choose_port (al_used st) inst in
  if bool_decide (port ∈ al_used st) then None
  else env ← put_envs (instance_env inst port) (al_env st);
       Some ({| al_used := al_used st ++ [port]; al_env := env |}, port).

Fixpoint allocate_instances (st : alloc_state) (insts : list InstanceSpec)
    : option (alloc_state * list Z) :=
  match insts with
  | [] => Some (st, [])
  | inst :: insts =>
      '(st, port) ← allocate_instance st inst;
      '(st, ports) ← allocate_instances st insts;
      Some (st, port :: ports)
  end.

(** ** The proxy container *)
Definition container_name `{UnicodeTables} (p : AuthProxyWorkload) : string :=
  match ContainerName p with Ret name => name | _ => "" end.

Definition proxy_image (p : AuthProxyWorkload) : string :=
  match sp_AuthProxyContainer (apw_Spec p) with
  | Some ac => if bool_decide (ac_Image ac = "") then DefaultProxyImage else ac_Image ac
  | None => DefaultProxyImage
  end.

Definition proxy_resources (p : AuthProxyWorkload) : ResourceRequirements :=
  match sp_AuthProxyContainer (apw_Spec p) with
  | Some {| ac_Resources := Some r |} => r
  | _ => defaultContainerResources
  end.

Definition proxy_flags (p : AuthProxyWorkload) : list string :=
  match sp_AuthProxyContainer (apw_Spec p) with
  | Some ac =>
      (if bool_decide (ac_SQLAdminAPIEndpoint ac = "") then []
       else ["--sqladmin-api-endpoint=" +:+ ac_SQLAdminAPIEndpoint ac])
      ++ number_flag "--max-connections=" (ac_MaxConnections ac)
      ++ number_flag "--max-sigterm-delay=" (ac_MaxSigtermDelay ac)
  | None => []
  end.

Definition proxy_args `{MapRange} (u : Updater) (p : AuthProxyWorkload) (health : Z)
    (ports : list Z) : list string :=
  ["--http-port=" +:+ format_d health; "--http-address=0.0.0.0"; "--health-check";
   "--structured-logs"; "--user-agent=" +:+ userAgent u]
  ++ proxy_flags p ++ zip_with instance_arg (sp_Instances (apw_Spec p)) ports.

Definition proxy_container `{UnicodeTables} `{MapRange} (u : Updater) (p : AuthProxyWorkload)
    (health : Z) (ports : list Z) : Container := {|
  c_Name := container_name p;
  c_Image := proxy_image p;
  c_ImagePullPolicy := "IfNotPresent";
  c_Args := proxy_args u p health ports;
  c_Ports := [];
  c_Env := [];
  c_Resources := proxy_resources p;
  c_StartupProbe := Some (health_probe health "/startup");
  c_ReadinessProbe := Some (health_probe health "/readiness");
  c_LivenessProbe := Some (health_probe health "/liveness");
  c_rest := ContainerRest_zero |}.

Definition allocate_proxy `{UnicodeTables} `{MapRange} (u : Updater) (st : alloc_state)
    (p : AuthProxyWorkload) : option (alloc_state * Container) :=
  match apw_override p with
  | Some override => Some (st, set_Name (container_name p) override)
  | None =>
      let health := first_free (al_used st) DefaultHealthCheckPort in
      '(st, ports) ← allocate_instances st (sp_Instances (apw_Spec p));
      Some (st, proxy_container u p health ports)
  end.

Fixpoint allocate_proxies `{UnicodeTables} `{MapRange} (u : Updater) (st : alloc_state)
    (matches : list AuthProxyWorkload) : option (alloc_state * list Container) :=
  match matches with
  | [] => Some (st, [])
  | p :: matches =>
      '(st, c) ← allocate_proxy u st p;
      '(st, cs) ← allocate_proxies u st matches;
      Some (st, c :: cs)
  end.

(** ** The pod *)

(** The ports of the containers that are not the operator's. *)
Definition workload_ports (wl : PodWorkload) : list Z :=
  List.filter (fun c => negb (HasPrefix (c_Name c) ContainerPrefix)) (ps_Containers (PodSpecOf wl))
    ≫= fun c => cp_ContainerPort <$> c_Ports c.

Definition with_env (env : list EnvVar) (c : Container) : Container :=
  set_Env (fold_left apply_env env (c_Env c)) c.

Definition initial_alloc (wl : PodWorkload) : alloc_state :=
  {| al_used := fold_left add_port (workload_ports wl) []; al_env := [] |}.

Definition configure_spec `{UnicodeTables} `{MapRange} (u : Updater) (wl : PodWorkload)
    (matches : list AuthProxyWorkload) : option PodWorkload :=
  '(st, added) ← allocate_proxies u (initial_alloc wl) matches;
  Some (SetPodSpec {| ps_Containers := with_env (al_env st)
                        <$> (ps_Containers (PodSpecOf wl) ++ added);
                      ps_rest := ps_rest (PodSpecOf wl) |} wl).

(** ** Inputs the refinement is about

    Resources have distinct names (as [FindMatchingAuthProxyWorkloads]
    returns them), and no resource lists a connection string twice. *)
Definition instance_key (p : AuthProxyWorkload) (inst : InstanceSpec) : dbInstance :=
  dbInst (apw_Namespace p) (apw_Name p) (is_ConnectionString inst).

Definition well_formed (matches : list AuthProxyWorkload) : Prop :=
  NoDup (apw_NamespacedName <$> matches)
  /\ Forall (fun p => apw_Name p <> "" /\ NoDup (is_ConnectionString <$> sp_Instances (apw_Spec p)))
       matches.

#[export] Instance well_formed_dec matches : Decision (well_formed matches) := _.

(** Ports in use at most: a bound far above what fits in memory keeps the
    [int32] counters from wrapping around. *)
Definition port_demand (wl : PodWorkload) (matches : list AuthProxyWorkload) : Z :=
  Z.of_nat (length (workload_ports wl)
            + length (matches ≫= fun p => sp_Instances (apw_Spec p))).

Definition max_port_demand : Z := 2 ^ 29.

End allocation.

(** ** Lemmas on the allocator *)

Definition is_first_free (used : list Z) (from r : Z) : Prop :=
  from <= r /\ (r ∉ used) /\ forall q, from <= q < r -> q ∈ used.

Lemma is_first_free_unique used from r r' :
  is_first_free used from r -> is_first_free used from r' -> r = r'.
Proof.
  intros (? & Hr & Hb) (? & Hr' & Hb').
  destruct (Z.lt_trichotomy r r') as [?|[->|?]]; [|done|].
  - destruct Hr. apply Hb'. lia.
  - destruct Hr'. apply Hb. lia.
Qed.

(** A search may start later when everything before is taken. *)
Lemma is_first_free_from used from from' r :
  from <= from' -> (forall q, from <= q < from' -> q ∈ used) ->
  is_first_free used from' r -> is_first_free used from r.
Proof.
  intros Hle Hb (? & ? & Hb'). split_and!; [lia|done|]. intros q Hq.
  destruct (decide (q < from')); [apply Hb; lia|apply Hb'; lia].
Qed.

Lemma first_free_go_bump (L : list Z) used n from r :
  (forall p, used p = true <-> p ∈ L) -> - 2 ^ 31 <= from -> from + Z.of_nat n < 2 ^ 31 ->
  bump used n from = Ret r -> r = first_free_go L n from.
Proof.
  intros Hused. revert from. induction n as [|n IH]; intros from Hlo Hhi; cbn.
  - by destruct (used from) eqn:Hu; intros [= <-].
  - destruct (used from) eqn:Hu.
    + apply Hused in Hu. rewrite bool_decide_eq_true_2 by done.
      unfold int32_inc. rewrite wrap32_id by (unfold is_int32; lia).
      apply IH; lia.
    + intros [= <-]. rewrite bool_decide_eq_false_2; [done|].
      intros Hin%Hused. congruence.
Qed.

(** The loop of the code returns, with the least free port. *)
Lemma bump_Ret (L : list Z) used from :
  (forall p, used p = true <-> p ∈ L) -> - 2 ^ 31 <= from ->
  from + Z.of_nat (length L) < 2 ^ 31 -> Z.of_nat (length L) < 2 ^ 31 ->
  bump used (length L) from = Ret (first_free L from) /\ is_first_free L from (first_free L from).
Proof.
  intros Hused Hlo Hhi Hlen.
  assert (is_int32 from) as Hfrom by (unfold is_int32; lia).
  pose proof (bump_spec used (length L) from Hfrom) as Hb.
  destruct (bump used (length L) from) as [r| |] eqn:E; [|done|].
  - pose proof (first_free_go_bump L used _ _ _ Hused Hlo Hhi E) as ->.
    split; [done|]. unfold first_free. destruct Hb as (k & Hk & -> & Hfree & Hbefore).
    rewrite wrap32_id in * by (unfold is_int32; lia). split_and!; [lia| |].
    + intros Hin%Hused. congruence.
    + intros q Hq. apply Hused. specialize (Hbefore (Z.to_nat (q - from)) ltac:(lia)).
      rewrite Z2Nat.id, wrap32_id in Hbefore by (unfold is_int32; lia).
      by replace (from + (q - from)) with q in Hbefore by lia.
  - exfalso. pose proof (bump_diverges_all_used L used from Hused Hfrom E) as Hall.
    set (some_ports := (fun j => Z.of_nat j) <$> seq 0 (S (length L))).
    assert (length some_ports <= length L)%nat as Hle.
    { apply submseteq_length, NoDup_submseteq.
      - apply NoDup_fmap_2; [intros ?? ?; lia|apply NoDup_seq].
      - intros x (j & -> & [??]%elem_of_seq)%list_elem_of_fmap.
        apply Hall. unfold is_int32. lia. }
    unfold some_ports in Hle. rewrite length_fmap, length_seq in Hle. lia.
Qed.

Lemma first_free_spec (L : list Z) from :
  - 2 ^ 31 <= from -> from + Z.of_nat (length L) < 2 ^ 31 -> Z.of_nat (length L) < 2 ^ 31 ->
  is_first_free L from (first_free L from).
Proof.
  intros. apply (bump_Ret L (fun p => bool_decide (p ∈ L))); [|done..].
  intros p. by rewrite bool_decide_eq_true.
Qed.

Lemma add_ports_elem_of ps used q :
  q ∈ fold_left add_port ps used <-> q ∈ used \/ q ∈ ps.
Proof.
  revert used. induction ps as [|p ps IH]; intros used; cbn; [set_solver|].
  rewrite IH, elem_of_cons. unfold add_port. case_bool_decide; set_solver.
Qed.

Lemma add_ports_length ps used :
  (length (fold_left add_port ps used) <= length used + length ps)%nat.
Proof.
  revert used. induction ps as [|p ps IH]; intros used; cbn; [lia|].
  specialize (IH (add_port used p)). unfold add_port in *.
  case_bool_decide; [lia|]. rewrite length_app in IH. cbn in IH. lia.
Qed.
