(* ===== verification/Refinement.v ===== *)
(** * The code of [PodSpec] implements [Allocation]

    Three views of a run: what every operation does to the errors it collects
    ([extends]); that every operation returns as long as there are [int32]
    ports left ([budget]); and the simulation of the allocator ([sim]) up to
    the first conflict. *)

From S2P Require Import Prelude GoStd Api Concrete Names Workload Fixtures PodSpec Allocation.
From Stdlib Require Import Ascii.
#[local] Open Scope Z_scope.
#[local] Open Scope go_scope.

(** ** Ports and environment variables, as lists *)
Lemma find_last_index_Some {A} (p : A -> bool) l i x :
  find_last_index p l = Some (i, x) -> l !! i = Some x /\ p x = true.
Proof.
  revert i. induction l as [|y l IH]; intros i; cbn; [done|].
  destruct (find_last_index p l) as [[j z]|].
  - intros [= <- ->]. by apply IH.
  - destruct (p y) eqn:E; [|done]. by intros [= <- ->].
Qed.

Lemma find_last_index_None {A} (p : A -> bool) l :
  find_last_index p l = None -> Forall (fun x => p x = false) l.
Proof.
  induction l as [|y l IH]; cbn; [constructor|].
  destruct (find_last_index p l) as [[]|]; [done|]. destruct (p y) eqn:E; [done|].
  intros _. constructor; auto.
Qed.

Section refinement.
Context `{Hk8s : K8sTypes} `{Hlab : LabelsPkg}.

Definition ports_of (s : updateState) : list Z := mp_Port <$> us_Ports s.
Definition keys_of (s : updateState) : list dbInstance := mp_Instance <$> us_Ports s.
Definition env_of (s : updateState) : list EnvVar := me_OperatorManagedValue <$> us_EnvVars s.

Lemma isPortInUse_true s p : isPortInUse s p = true <-> p ∈ ports_of s.
Proof.
  unfold isPortInUse, ports_of. rewrite existsb_exists, list_elem_of_fmap.
  split.
  - intros (mp & Hin & ->%Z.eqb_eq). exists mp. by rewrite list_elem_of_In.
  - intros (mp & -> & Hin). exists mp. by rewrite Z.eqb_refl, <-list_elem_of_In.
Qed.

Lemma length_ports_of s : length (ports_of s) = length (us_Ports s).
Proof. apply length_fmap. Qed.

Lemma isPortInUse_false s p : isPortInUse s p = false <-> p ∉ ports_of s.
Proof. by rewrite <-isPortInUse_true, not_true_iff_false. Qed.

(** [addPort] in one step: the port is added unless it is there already. *)
Lemma addPort_Ret p name n conn s :
  exists ports, addPort p name n conn s = Ret (tt, set_Ports ports s)
  /\ mp_Port <$> ports = add_port (ports_of s) p
  /\ mp_Instance <$> ports
     = keys_of s ++ (if bool_decide (p ∈ ports_of s) then []
                     else [dbInst (nn_Namespace n) (nn_Name n) conn]).
Proof.
  unfold addPort, add_port, keys_of, ports_of.
  unfold mbind at 1, Go_bind at 1, gets at 1.
  destruct (find_last_index _ (us_Ports s)) as [[i mp]|] eqn:E.
  - apply find_last_index_Some in E as [Hi <-%Z.eqb_eq].
    rewrite (bool_decide_eq_true_2 (mp_Port mp ∈ _)), app_nil_r
      by (apply list_elem_of_fmap; eauto using list_elem_of_lookup_2).
    eexists. split; [reflexivity|].
    destruct (_ && _); [|done]. by rewrite !(fmap_insert_id _ _ _ _ _ Hi).
  - apply find_last_index_None in E.
    rewrite (bool_decide_eq_false_2 (p ∈ _)).
    2:{ intros (mp & -> & Hin)%list_elem_of_fmap. rewrite Forall_forall in E.
        specialize (E mp Hin). cbn in E. by rewrite Z.eqb_refl in E. }
    eexists. split; [reflexivity|].
    set (mp := {| mp_Instance := _; mp_OriginalValues := _; mp_Port := p |}).
    assert ((us_Ports s ++ [mp]) !! length (us_Ports s) = Some mp) as Hi.
    { by rewrite lookup_app_r, Nat.sub_diag. }
    destruct (_ && _); [rewrite !(fmap_insert_id _ _ _ _ _ Hi) by done|];
      by rewrite !fmap_app.
Qed.

(** ** Errors only accumulate, and are attributed *)
Definition attributed (e : ConfigError) (ps : list AuthProxyWorkload) (d : ConfigErrorDetail)
    : Prop :=
  ced_WorkloadKind d = ce_workloadKind e /\ ced_WorkloadName d = ce_workloadName e
  /\ ced_WorkloadNamespace d = ce_workloadNamespace e
  /\ (ced_ErrorCode d = ErrorCodePortConflict \/ ced_ErrorCode d = ErrorCodeEnvConflict)
  /\ exists p, p ∈ ps /\ ced_AuthProxyName d = apw_Name p
               /\ ced_AuthProxyNamespace d = apw_Namespace p.

Definition same_header (e e' : ConfigError) : Prop :=
  ce_workloadKind e' = ce_workloadKind e /\ ce_workloadName e' = ce_workloadName e
  /\ ce_workloadNamespace e' = ce_workloadNamespace e.

Definition extends (ps : list AuthProxyWorkload) (s s' : updateState) : Prop :=
  us_updater s' = us_updater s /\ same_header (us_err s) (us_err s')
  /\ exists ds, us_details s' = us_details s ++ ds /\ Forall (attributed (us_err s) ps) ds.

#[export] Instance extends_PreOrder ps : PreOrder (extends ps).
Proof.
  split.
  - intros s. split_and!; [done..|]. exists []. by rewrite app_nil_r.
  - intros s1 s2 s3 (U1 & (A1 & B1 & C1) & d1 & E1 & F1) (U2 & (A2 & B2 & C2) & d2 & E2 & F2).
    unfold extends, same_header. rewrite U2, A2, B2, C2. split_and!; [done..|].
    exists (d1 ++ d2). rewrite E2, E1, app_assoc. split; [done|]. apply Forall_app. split; [done|].
    eapply Forall_impl; [exact F2|]. intros d. unfold attributed. by rewrite A1, B1, C1.
Qed.

Lemma extends_same ps s s' : us_updater s' = us_updater s -> us_err s' = us_err s -> extends ps s s'.
Proof.
  intros HU HE. unfold extends, us_details. rewrite HU, HE. split_and!; [done..|].
  exists []. by rewrite app_nil_r.
Qed.

Lemma addError_extends ps code text p :
  p ∈ ps -> code = ErrorCodePortConflict \/ code = ErrorCodeEnvConflict ->
  along (extends ps) (addError code text p).
Proof.
  intros Hp Hc. apply along_modify. intros s. split_and!; [done..|].
  eexists. split; [reflexivity|]. apply Forall_singleton. split_and!; try done. eauto.
Qed.

Lemma modify_extends ps (f : updateState -> updateState) :
  (forall s, us_updater (f s) = us_updater s /\ us_err (f s) = us_err s) ->
  along (extends ps) (modify f).
Proof. intros Hf. apply along_modify. intros s. by apply extends_same; apply Hf. Qed.

Lemma addPort_extends ps p name n conn : along (extends ps) (addPort p name n conn).
Proof.
  intros s a s' E. destruct (addPort_Ret p name n conn s) as (ports & E' & _).
  rewrite E' in E. injection E as <- <-. by apply extends_same.
Qed.

(** Closes [along] goals for the code's control structure. *)
Ltac along_step :=
  repeat first
    [ apply along_bind; [exact _| |intros ?]
    | apply along_fold_range; [exact _|intros ? ?]
    | apply along_for_range; [exact _|intros ?]
    | apply along_ret; exact _ | apply along_get; exact _ | apply along_gets; exact _
    | apply along_lift; exact _
    | apply addPort_extends
    | apply addError_extends; [by auto|by auto]
    | apply modify_extends; by auto
    | case_match ].

Lemma useInstancePort_extends ps p inst : p ∈ ps -> along (extends ps) (useInstancePort p inst).
Proof. intros Hp. unfold useInstancePort. cbn zeta. along_step. Qed.

Lemma addWorkloadEnvVar_extends ps p inst ev :
  p ∈ ps -> along (extends ps) (addWorkloadEnvVar p inst ev).
Proof. intros Hp. unfold addWorkloadEnvVar. cbn zeta. along_step. Qed.

Lemma useInstance_extends `{MapRange} ps p args inst :
  p ∈ ps -> along (extends ps) (useInstance p args inst).
Proof.
  intros Hp. unfold useInstance. along_step;
    auto using useInstancePort_extends, addWorkloadEnvVar_extends.
Qed.

Lemma updateContainer_extends `{UnicodeTables} `{MapRange} ps p c :
  p ∈ ps -> along (extends ps) (updateContainer p c).
Proof.
  intros Hp. unfold updateContainer, addHealthCheck. cbn zeta.
  along_step; auto using useInstance_extends.
Qed.

(** ** Every operation returns *)

(** [n] more ports may be added before the [int32] space could be exhausted. *)
Definition budget (n : nat) (s : updateState) : Prop :=
  Z.of_nat (length (us_Ports s)) + Z.of_nat n < 2 ^ 31 /\ is_int32 (us_nextDBPort s).

Lemma budget_weaken n m s : (m <= n)%nat -> budget n s -> budget m s.
Proof. intros ? [? ?]. split; [lia|done]. Qed.

Lemma search_returns s from :
  budget 0 s -> is_int32 from ->
  exists r, bump (isPortInUse s) (length (us_Ports s)) from = Ret r /\ is_int32 r
            /\ r ∉ ports_of s.
Proof.
  intros [Hlen _] Hfrom.
  pose proof (bump_spec (isPortInUse s) (length (us_Ports s)) from Hfrom) as Hb.
  destruct (bump _ _ _) as [r| |] eqn:E; [|done|].
  - destruct Hb as (k & _ & -> & Hfree & _). eexists. split_and!; [done|apply wrap32_is_int32|].
    by apply isPortInUse_false.
  - exfalso. rewrite <-length_ports_of in E, Hlen.
    pose proof (bump_diverges_all_used _ _ _ (isPortInUse_true s) Hfrom E) as Hall.
    set (some_ports := (fun j => Z.of_nat j) <$> seq 0 (S (length (ports_of s)))).
    assert (length some_ports <= length (ports_of s))%nat as Hle.
    { apply submseteq_length, NoDup_submseteq.
      - apply NoDup_fmap_2; [intros ?? ?; lia|apply NoDup_seq].
      - intros x (j & -> & [??]%elem_of_seq)%list_elem_of_fmap. apply Hall. unfold is_int32. lia. }
    unfold some_ports in Hle. rewrite length_fmap, length_seq in Hle. lia.
Qed.

Lemma addError_budget n code text p :
  ⦃ budget n ⦄ addError code text p ⦃ fun _ => budget n ⦄.
Proof. unfold addError. auto with go. Qed.

#[local] Hint Resolve addError_budget : go.

Lemma addPort_budget n p name ns conn :
  ⦃ budget (S n) ⦄ addPort p name ns conn ⦃ fun _ => budget n ⦄.
Proof.
  intros s [Hlen Hnext]. destruct (addPort_Ret p name ns conn s) as (ports & E & Hports & _).
  exists tt, (set_Ports ports s). split; [done|]. split; [|done].
  apply (f_equal length) in Hports. rewrite length_fmap in Hports. unfold add_port in Hports.
  change (us_Ports (set_Ports ports s)) with ports. rewrite Hports.
  case_bool_decide; rewrite ?length_app, length_ports_of; cbn; lia.
Qed.

Lemma addWorkloadEnvVar_budget n p inst ev :
  ⦃ budget n ⦄ addWorkloadEnvVar p inst ev ⦃ fun _ => budget n ⦄.
Proof.
  unfold addWorkloadEnvVar. eapply triple_bind with (R := fun _ => budget n); [auto with go|].
  intros envs. destruct (find_index _ envs) as [[i me]|]; [|by auto with go].
  eapply triple_bind with (R := fun _ => budget n); [auto with go|].
  intros ?. case_match; auto with go.
Qed.

#[local] Hint Resolve addWorkloadEnvVar_budget : go.

Lemma useInstancePort_budget n p inst :
  ⦃ budget (S n) ⦄ useInstancePort p inst ⦃ fun _ => budget n ⦄.
Proof.
  unfold useInstancePort. cbn zeta. apply triple_get_bind. intros s Hs.
  destruct (find_index _ (us_Ports s)) as [[i mp]|].
  - assert (forall s', s' = s -> budget n s') as Hn.
    { intros ? ->. eapply budget_weaken; [|exact Hs]; lia. }
    destruct (is_Port inst) as [q|]; [|apply triple_ret; exact Hn].
    destruct (negb _); [|apply triple_ret; exact Hn].
    eapply triple_bind with (R := fun _ => budget n).
    { apply triple_conseq with (P' := budget n) (Q' := fun _ => budget n); [|exact Hn|done].
      destruct (isPortInUse s q); [apply addError_budget|by apply triple_ret]. }
    intros ?. eapply triple_bind with (R := fun _ => budget n); [|intros ?; by apply triple_ret].
    apply triple_modify. intros s' [? ?]. split; [|done].
    change (us_Ports (set_Ports ?l _)) with l. by rewrite length_insert.
  - eapply triple_bind with (R := fun _ => budget (S n)).
    { destruct (is_Port inst) as [q|]; [apply triple_ret; by intros ? ->|].
      destruct (search_returns s (us_nextDBPort s)) as (r & Er & Hr & _);
        [eapply budget_weaken; [|exact Hs]; lia|apply Hs|].
      eapply triple_bind;
        [apply triple_lift with (a := r) (Q := fun a s' => a = r /\ s' = s); auto|].
      intros a. apply triple_assume. intros ->.
      eapply triple_bind with (R := fun _ => budget (S n)); [|intros ?; by apply triple_ret].
      apply triple_modify. intros ? ->. split; [apply Hs|done]. }
    intros port. eapply triple_bind with (R := fun _ => budget (S n)).
    { case_match; [apply addError_budget|by apply triple_ret]. }
    intros ?. eapply triple_bind; [apply addPort_budget|]. intros ?. by apply triple_ret.
Qed.

Lemma useInstance_budget `{MapRange} n p args inst :
  ⦃ budget (S n) ⦄ useInstance p args inst ⦃ fun _ => budget n ⦄.
Proof.
  unfold useInstance. eapply triple_bind; [apply useInstancePort_budget|].
  intros port. cbn beta.
  do 2 (eapply triple_bind with (R := fun _ => budget n); [case_match; auto with go|intros ?]).
  auto with go.
Qed.

Lemma useInstances_budget `{MapRange} n p insts args :
  ⦃ budget (length insts + n) ⦄ fold_range (useInstance p) args insts ⦃ fun _ => budget n ⦄.
Proof.
  revert args. induction insts as [|inst insts IH]; intros args; cbn.
  - by apply triple_ret.
  - eapply triple_bind; [apply useInstance_budget|]. intros a. apply IH.
Qed.

Lemma ContainerName_Ret `{UnicodeTables} p : ContainerName p = Ret (container_name p).
Proof.
  unfold container_name, ContainerName. edestruct (SafePrefixedName_cases ContainerPrefix)
    as (r & -> & _); [cbv; congruence|done].
Qed.

Lemma updateContainer_budget `{UnicodeTables} `{MapRange} n p c :
  ⦃ budget (length (sp_Instances (apw_Spec p)) + n) ⦄ updateContainer p c ⦃ fun _ => budget n ⦄.
Proof.
  unfold updateContainer. rewrite ContainerName_Ret. set (m := (_ + n)%nat).
  destruct (apw_override p) as [o|].
  { eapply triple_bind with (R := fun _ => budget n); [|intros ?; by apply triple_ret].
    apply triple_lift with (a := container_name p); [done|].
    intros s. apply budget_weaken. unfold m. lia. }
  eapply triple_bind with (R := fun _ => budget m).
  - intros s Hs. unfold addHealthCheck, mbind at 1, Go_bind at 1, get.
    destruct (search_returns s DefaultHealthCheckPort) as (r & Er & _ & _);
      [eapply budget_weaken; [|exact Hs]; lia|done|].
    unfold mbind, Go_bind, lift_outcome. rewrite Er. eauto.
  - intros [c' args]. eapply triple_bind;
      [apply triple_gets with (Q := fun _ => budget m); auto|intros u].
    eapply triple_bind; [by apply triple_lift with (a := container_name p) (Q := fun _ => budget m)|intros name].
    destruct (applyContainerSpec _ _ _) as [c'' args'].
    eapply triple_bind; [apply useInstances_budget|]. intros a. by apply triple_ret.
Qed.

Lemma updateContainers_budget `{UnicodeTables} `{MapRange} n matches acc :
  triple (budget (length (matches ≫= fun p => sp_Instances (apw_Spec p)) + n))
    (fold_range (fun containers inst =>
       newContainer ← updateContainer inst Container_zero;
       mret (containers ++ [newContainer])) acc matches)
    (fun _ => budget n).
Proof.
  revert acc. induction matches as [|p matches IH]; intros acc; cbn.
  - by apply triple_ret.
  - rewrite length_app, <-Nat.add_assoc.
    eapply triple_bind; [|intros a; apply IH].
    eapply triple_bind; [apply updateContainer_budget|]. intros c. by apply triple_ret.
Qed.

(** ** Simulation of the allocator, up to the first conflict *)
Record sim (K : list dbInstance) (st : alloc_state) (s : updateState) : Prop := {
  sim_ports : ports_of s = al_used st;
  sim_keys : keys_of s ⊆ K;
  sim_env : env_of s = al_env st;
  sim_plain : Forall (fun e => ev_ValueFrom e = None) (al_env st);
  sim_next : DefaultFirstPort <= us_nextDBPort s
             <= DefaultFirstPort + Z.of_nat (length (al_used st));
  sim_taken : forall q, DefaultFirstPort <= q < us_nextDBPort s -> q ∈ al_used st
}.

Lemma sim_length K st s : sim K st s -> length (us_Ports s) = length (al_used st).
Proof. intros Hs. by rewrite <-(sim_ports _ _ _ Hs), length_ports_of. Qed.

Lemma sim_search K st s from :
  sim K st s -> 0 <= from -> from + Z.of_nat (length (al_used st)) < 2 ^ 31 ->
  bump (isPortInUse s) (length (us_Ports s)) from = Ret (first_free (al_used st) from)
  /\ is_first_free (al_used st) from (first_free (al_used st) from).
Proof.
  intros Hs Hlo Hhi. rewrite (sim_length K st s Hs).
  apply bump_Ret; [|lia..]. intros p. by rewrite isPortInUse_true, (sim_ports _ _ _ Hs).
Qed.

Lemma find_key_None K st s p inst :
  sim K st s -> instance_key p inst ∉ K ->
  find_index (fun mp => bool_decide (di_AuthProxyWorkload (mp_Instance mp) = apw_NamespacedName p)
      && bool_decide (di_ConnectionString (mp_Instance mp) = is_ConnectionString inst))
    (us_Ports s) = None.
Proof.
  intros Hs HK. apply find_index_None, Forall_forall. intros mp Hin.
  apply not_true_is_false. rewrite andb_true_iff, !bool_decide_eq_true. intros [E1 E2].
  destruct HK. apply (sim_keys _ _ _ Hs). apply list_elem_of_fmap. exists mp. split; [|done].
  destruct (mp_Instance mp). cbn in *. by subst.
Qed.

Lemma addError_run code text p s :
  addError code text p s = Ret (tt, set_err (ConfigError_add code text p (us_err s)) s).
Proof. done. Qed.

(** One more port in use. *)
Lemma addPort_sim K st s port n conn :
  sim K st s -> port ∉ al_used st ->
  exists ports, addPort port "" n conn s = Ret (tt, set_Ports ports s)
    /\ sim (K ++ [dbInst (nn_Namespace n) (nn_Name n) conn])
        {| al_used := al_used st ++ [port]; al_env := al_env st |} (set_Ports ports s).
Proof.
  intros Hs Hfree. destruct (addPort_Ret port "" n conn s) as (ports & E & Hp & Hk).
  exists ports. split; [done|].
  rewrite (sim_ports _ _ _ Hs) in Hp, Hk. unfold add_port in Hp.
  rewrite bool_decide_eq_false_2 in Hp, Hk by done.
  destruct Hs as [_ Hkeys He Hpl Hn Ht]. split; cbn; try done.
  - rewrite Hk. intros k [?|?]%elem_of_app; apply elem_of_app; auto.
  - rewrite length_app. cbn. lia.
  - intros q Hq. apply elem_of_app. left. by apply Ht.
Qed.

(** Running the code up to a known intermediate state. *)
Lemma Go_bind_run {S A B} (m : Go S A) (f : A -> Go S B) s a s' :
  m s = Ret (a, s') -> (a ← m; f a) s = f a s'.
Proof. intros E. unfold mbind, Go_bind. by rewrite E. Qed.

Lemma sim_set_next K st s next :
  sim K st s -> is_first_free (al_used st) DefaultFirstPort next ->
  next <= DefaultFirstPort + Z.of_nat (length (al_used st)) ->
  sim K st (set_nextDBPort next s).
Proof.
  intros [Hp Hk He Hpl Hn Ht] (? & _ & Hb) Hle. by split.
Qed.

Lemma choose_port_next K st s :
  sim K st s -> Z.of_nat (length (al_used st)) < max_port_demand ->
  bump (isPortInUse s) (length (us_Ports s)) (us_nextDBPort s)
    = Ret (first_free (al_used st) DefaultFirstPort)
  /\ is_first_free (al_used st) DefaultFirstPort (first_free (al_used st) DefaultFirstPort)
  /\ first_free (al_used st) DefaultFirstPort
     <= DefaultFirstPort + Z.of_nat (length (al_used st)).
Proof.
  intros Hs Hlen. unfold max_port_demand, DefaultFirstPort in *.
  pose proof (sim_next _ _ _ Hs) as Hn. unfold DefaultFirstPort in Hn.
  destruct (sim_search K st s (us_nextDBPort s) Hs) as [Eb Hff]; [lia|lia|].
  apply (is_first_free_from _ 5000) in Hff; [|lia|apply (sim_taken _ _ _ Hs)].
  pose proof (first_free_spec (al_used st) 5000 ltac:(lia) ltac:(lia) ltac:(lia)) as Hff'.
  rewrite Eb, (is_first_free_unique _ _ _ _ Hff Hff'). split; [done|split; [done|]].
  clear -Hlen. unfold first_free. generalize (al_used st) at 1. generalize 5000.
  induction (length (al_used st)) as [|n IH]; intros from l; cbn; [lia|].
  case_bool_decide; [|lia]. specialize (IH ltac:(lia) (from + 1) l). lia.
Qed.

Lemma useInstancePort_sim K st s p inst :
  sim K st s -> instance_key p inst ∉ K -> Z.of_nat (length (al_used st)) < max_port_demand ->
  let port := choose_port (al_used st) inst in
  exists s', useInstancePort p inst s = Ret (port, s')
    /\ (if bool_decide (port ∈ al_used st) then us_details s' <> []
        else us_details s' = us_details s
             /\ sim (K ++ [instance_key p inst])
                  {| al_used := al_used st ++ [port]; al_env := al_env st |} s').
Proof.
  intros Hs HK Hlen port. unfold useInstancePort. cbn zeta.
  rewrite (Go_bind_run get _ s s s) by done. rewrite (find_key_None K st s p inst) by done.
  (* the port *)
  assert (exists s1, (match is_Port inst with
      | Some q => mret q
      | None => next ← lift_outcome (bump (isPortInUse s) (length (us_Ports s)) (us_nextDBPort s));
                _ ← modify (set_nextDBPort next); mret next
      end : Go updateState Z) s = Ret (port, s1)
    /\ sim K st s1 /\ us_err s1 = us_err s) as (s1 & E1 & Hs1 & Herr).
  { unfold port, choose_port. destruct (is_Port inst) as [q|]; [by exists s|].
    destruct (choose_port_next K st s Hs Hlen) as (Eb & Hff & Hle).
    eexists. unfold mbind, Go_bind, lift_outcome. rewrite Eb. split_and!; [done| |done].
    by apply sim_set_next. }
  rewrite (Go_bind_run _ _ _ _ _ E1).
  assert (isPortInUse s port = bool_decide (port ∈ al_used st)) as ->.
  { apply eq_bool_prop_intro. rewrite bool_decide_spec, Is_true_true, isPortInUse_true.
    by rewrite (sim_ports _ _ _ Hs). }
  case_bool_decide as Hin.
  - rewrite (Go_bind_run _ _ _ _ _ (addError_run _ _ _ _)).
    destruct (addPort_Ret port "" (apw_NamespacedName p) (is_ConnectionString inst)
      (set_err (ConfigError_add ErrorCodePortConflict
         (port_conflict_text port (is_ConnectionString inst)) p (us_err s1)) s1))
      as (ports & E2 & _).
    rewrite (Go_bind_run _ _ _ _ _ E2). eexists. split; [done|].
    unfold us_details. cbn. by destruct (ce_details _).
  - rewrite (Go_bind_run (mret tt) _ s1 tt s1) by done.
    destruct (addPort_sim K st s1 port (apw_NamespacedName p) (is_ConnectionString inst) Hs1 Hin)
      as (ports & E2 & Hs2).
    rewrite (Go_bind_run _ _ _ _ _ E2). eexists. split; [done|].
    split; [|done]. unfold us_details. cbn. by rewrite Herr.
Qed.

(** *** Environment variables *)
Lemma find_fmap {A B} (f : A -> B) (p : B -> bool) l :
  List.find p (f <$> l) = (fun '(_, x) => f x) <$> find_index (fun x => p (f x)) l.
Proof.
  induction l as [|x l IH]; cbn; [done|]. destruct (p (f x)); [done|].
  rewrite IH. by destruct (find_index _ l) as [[]|].
Qed.

Lemma addWorkloadEnvVar_sim K st s p inst ev :
  sim K st s -> ev_ValueFrom ev = None ->
  exists s', addWorkloadEnvVar p inst ev s = Ret (tt, s')
    /\ match put_env ev (al_env st) with
       | Some env => us_details s' = us_details s
                     /\ sim K {| al_used := al_used st; al_env := env |} s'
       | None => us_details s' <> []
       end.
Proof.
  intros Hs Hev. unfold addWorkloadEnvVar, put_env.
  rewrite (Go_bind_run (gets us_EnvVars) _ s (us_EnvVars s) s) by done.
  rewrite <-(sim_env _ _ _ Hs). unfold env_of at 1. rewrite find_fmap.
  destruct (find_index _ (us_EnvVars s)) as [[i me]|] eqn:E; cbn [fmap option_fmap option_map].
  - apply find_index_Some in E as (Hi & Hname%bool_decide_eq_true & _).
    rewrite (Go_bind_run (modify _) _ s tt _ eq_refl).
    destruct (bool_decide (ev_Value _ = ev_Value ev)) eqn:Hval; cbn [negb].
    + apply bool_decide_eq_true in Hval. eexists. split; [done|]. split; [done|].
      assert (ev = me_OperatorManagedValue me) as Heq.
      { assert (ev_ValueFrom (me_OperatorManagedValue me) = None) as Hme.
        { pose proof (sim_plain _ _ _ Hs) as Hpl. rewrite <-(sim_env _ _ _ Hs) in Hpl.
          rewrite Forall_lookup in Hpl. apply (Hpl i).
          unfold env_of. by rewrite list_lookup_fmap, Hi. }
        destruct ev, (me_OperatorManagedValue me). cbn in *. by subst. }
      destruct Hs as [Hp Hk He Hpl Hn Ht]. split; cbn; try done.
      * unfold env_of. cbn. by rewrite (fmap_insert_id _ _ _ _ _ Hi) by done.
      * by rewrite He.
    + eexists. split; [done|]. unfold us_details. cbn. by destruct (ce_details _).
  - eexists. split; [done|]. split; [done|].
    destruct Hs as [Hp Hk He Hpl Hn Ht]. split; cbn; try done.
    + unfold env_of. cbn. by rewrite fmap_app.
    + rewrite He. apply Forall_app. split; [done|]. by apply Forall_singleton.
Qed.

(** *** One instance *)
Lemma sim_budget K st s n :
  sim K st s -> Z.of_nat (length (al_used st) + n) < max_port_demand -> budget n s.
Proof.
  intros Hs Hn. unfold budget, max_port_demand, is_int32 in *.
  rewrite (sim_length _ _ _ Hs). pose proof (sim_next _ _ _ Hs) as Hb.
  unfold DefaultFirstPort in Hb. lia.
Qed.

Lemma extends_details ps s s' : extends ps s s' -> us_details s <> [] -> us_details s' <> [].
Proof. intros (_ & _ & ds & -> & _) Hne. by destruct (us_details s). Qed.

(** After an error nothing clears it. *)
Lemma along_details {A} ps (m : Go updateState A) s a s' :
  along (extends ps) m -> m s = Ret (a, s') -> us_details s <> [] -> us_details s' <> [].
Proof. intros Hm E. by eapply extends_details, Hm. Qed.

Lemma put_envs_app l1 l2 env : put_envs (l1 ++ l2) env = put_envs l1 env ≫= put_envs l2.
Proof.
  revert env. induction l1 as [|ev l1 IH]; intros env; cbn; [done|].
  destruct (put_env ev env) as [env'|]; cbn; [apply IH|done].
Qed.

(** A variable that is only set when the instance names it. *)
Lemma named_env_sim K st s p inst name value :
  sim K st s ->
  exists s', (if negb (bool_decide (name = ""))
              then addWorkloadEnvVar p inst (env_value name value) else mret tt) s = Ret (tt, s')
    /\ match put_envs (if bool_decide (name = "") then [] else [env_value name value]) (al_env st) with
       | Some env => us_details s' = us_details s
                     /\ sim K {| al_used := al_used st; al_env := env |} s'
       | None => us_details s' <> []
       end.
Proof.
  intros Hs. case_bool_decide; cbn [negb].
  - exists s. split; [done|]. cbn. split; [done|]. by destruct st.
  - destruct (addWorkloadEnvVar_sim K st s p inst (env_value name value) Hs eq_refl)
      as (s' & E & Hs'). exists s'. split; [done|]. cbn.
    by destruct (put_env _ _).
Qed.

Lemma useInstance_sim `{MapRange} K st s p inst args :
  sim K st s -> instance_key p inst ∉ K ->
  Z.of_nat (length (al_used st) + 1) < max_port_demand ->
  match allocate_instance st inst with
  | Some (st', port) =>
      exists s', useInstance p args inst s = Ret (args ++ [instance_arg inst port], s')
        /\ us_details s' = us_details s /\ sim (K ++ [instance_key p inst]) st' s'
  | None => exists a s', useInstance p args inst s = Ret (a, s') /\ us_details s' <> []
  end.
Proof.
  intros Hs HK Hlen. assert (p ∈ [p]) as Hp by by apply list_elem_of_singleton.
  destruct (useInstance_budget 0 p args inst s) as (a & s' & E & _).
  { eapply sim_budget; [exact Hs|lia]. }
  destruct (useInstancePort_sim K st s p inst Hs HK ltac:(lia)) as (s1 & E1 & Hs1).
  pose proof E as Erun. unfold useInstance in E. rewrite (Go_bind_run _ _ _ _ _ E1) in E.
  unfold allocate_instance. set (port := choose_port _ _) in *. case_bool_decide.
  { exists a, s'. split; [done|]. eapply (along_details [p]); [|exact E|exact Hs1].
    along_step; auto using addWorkloadEnvVar_extends. }
  destruct Hs1 as [Hd1 Hs1].
  destruct (named_env_sim _ _ s1 p inst (is_HostEnvName inst) "127.0.0.1" Hs1)
    as (s2 & E2 & Hs2).
  rewrite (Go_bind_run _ _ _ _ _ E2) in E. unfold instance_env. rewrite put_envs_app.
  cbn [al_env al_used] in *. destruct (put_envs _ (al_env st)) as [env|]; cbn [mbind option_bind].
  2:{ exists a, s'. split; [done|]. eapply (along_details [p]); [|exact E|exact Hs2].
      along_step; auto using addWorkloadEnvVar_extends. }
  destruct Hs2 as [Hd2 Hs2].
  destruct (named_env_sim _ _ s2 p inst (is_PortEnvName inst) (format_d port) Hs2)
    as (s3 & E3 & Hs3).
  rewrite (Go_bind_run _ _ _ _ _ E3) in E. injection E as <- <-.
  cbn [al_env al_used] in *. destruct (put_envs _ env) as [env'|]; cbn [mbind option_bind].
  - exists s3. split; [done|]. destruct Hs3 as [Hd3 Hs3]. split; [congruence|done].
  - by exists (args ++ [instance_arg inst port]), s3.
Qed.

(** *** All instances of a resource, all resources *)
Definition fresh_keys (K l : list dbInstance) : Prop := NoDup l /\ forall k, k ∈ l -> k ∉ K.

Lemma fresh_keys_app K l1 l2 :
  fresh_keys K (l1 ++ l2) -> fresh_keys K l1 /\ fresh_keys (K ++ l1) l2.
Proof.
  intros [(? & Hd & ?)%NoDup_app Hf]. split; (split; [done|]).
  - intros k Hk. apply Hf. apply elem_of_app. by left.
  - intros k Hk [?|?]%elem_of_app; [|by eapply Hd]. eapply Hf; [|done]. apply elem_of_app. by right.
Qed.

Lemma allocate_instance_length st inst st' port :
  allocate_instance st inst = Some (st', port) -> al_used st' = al_used st ++ [port].
Proof.
  unfold allocate_instance. case_bool_decide; [done|]. cbn.
  destruct (put_envs _ _); [|done]. by intros [= <- <-].
Qed.

Lemma allocate_instances_used insts st st' ports :
  allocate_instances st insts = Some (st', ports) ->
  al_used st' = al_used st ++ ports /\ length ports = length insts.
Proof.
  revert st ports. induction insts as [|inst insts IH]; intros st ports; cbn.
  - intros [= <- <-]. by rewrite app_nil_r.
  - destruct (allocate_instance st inst) as [[st1 port]|] eqn:E1; [|done]. cbn.
    destruct (allocate_instances st1 insts) as [[st2 ports']|] eqn:E2; [|done]. cbn.
    intros [= <- <-]. destruct (IH _ _ E2) as [-> <-].
    by rewrite (allocate_instance_length _ _ _ _ E1), <-app_assoc.
Qed.

Lemma useInstances_extends `{MapRange} p insts args :
  along (extends [p]) (fold_range (useInstance p) args insts).
Proof.
  apply along_fold_range; [exact _|]. intros ? ?. apply useInstance_extends.
  by apply list_elem_of_singleton.
Qed.

Lemma useInstances_sim `{MapRange} p insts K st s args :
  sim K st s -> fresh_keys K (instance_key p <$> insts) ->
  Z.of_nat (length (al_used st) + length insts) < max_port_demand ->
  match allocate_instances st insts with
  | Some (st', ports) =>
      exists s', fold_range (useInstance p) args insts s
                 = Ret (args ++ zip_with instance_arg insts ports, s')
        /\ us_details s' = us_details s /\ sim (K ++ (instance_key p <$> insts)) st' s'
  | None => exists a s', fold_range (useInstance p) args insts s = Ret (a, s') /\ us_details s' <> []
  end.
Proof.
  revert K st s args. induction insts as [|inst insts IH]; intros K st s args Hs HK Hlen.
  - exists s. cbn. by rewrite !app_nil_r.
  - cbn [length] in Hlen.
    apply (fresh_keys_app K [instance_key p inst]) in HK as [[_ HK1] HK].
    pose proof (useInstance_sim K st s p inst args Hs ltac:(set_solver) ltac:(lia)) as H1.
    cbn [allocate_instances]. destruct (allocate_instance st inst) as [[st1 port]|] eqn:E1; cbn [mbind option_bind].
    + destruct H1 as (s1 & Erun1 & Hd1 & Hs1). cbn [fold_range].
      rewrite (Go_bind_run _ _ _ _ _ Erun1).
      specialize (IH _ _ _ (args ++ [instance_arg inst port]) Hs1 HK).
      rewrite (allocate_instance_length _ _ _ _ E1), length_app in IH.
      specialize (IH ltac:(cbn; lia)).
      destruct (allocate_instances st1 insts) as [[st2 ports]|]; cbn [mbind option_bind].
      * destruct IH as (s2 & Erun2 & Hd2 & Hs2). exists s2. cbn.
        rewrite Erun2, <-!app_assoc in *. split_and!; [done|congruence|done].
      * exact IH.
    + destruct H1 as (a & s1 & Erun1 & Hd1). cbn [fold_range].
      destruct (useInstances_budget 0 p (inst :: insts) args s) as (b & s2 & E & _).
      { eapply sim_budget; [exact Hs|]. cbn [length]. lia. }
      exists b, s2. split; [exact E|]. cbn [fold_range] in E.
      rewrite (Go_bind_run _ _ _ _ _ Erun1) in E.
      eapply along_details; [apply useInstances_extends|exact E|done].
Qed.

Lemma addHealthCheck_sim K st s :
  sim K st s -> Z.of_nat (length (al_used st)) < max_port_demand ->
  let port := first_free (al_used st) DefaultHealthCheckPort in
  forall c args, exists c', addHealthCheck c args s
    = Ret ((c', args ++ ["--http-port=" +:+ format_d port; "--http-address=0.0.0.0";
                         "--health-check"; "--structured-logs"]), s)
    /\ c' = {| c_Name := c_Name c; c_Image := c_Image c; c_ImagePullPolicy := c_ImagePullPolicy c;
               c_Args := c_Args c; c_Ports := c_Ports c; c_Env := c_Env c;
               c_Resources := c_Resources c;
               c_StartupProbe := Some (health_probe port "/startup");
               c_ReadinessProbe := Some (health_probe port "/readiness");
               c_LivenessProbe := Some (health_probe port "/liveness");
               c_rest := c_rest c |}.
Proof.
  intros Hs Hlen port c args. unfold addHealthCheck.
  rewrite (Go_bind_run get _ s s s) by done.
  destruct (sim_search K st s DefaultHealthCheckPort Hs) as [Eb _];
    [done|unfold max_port_demand, DefaultHealthCheckPort in *; lia|].
  rewrite (Go_bind_run _ _ s port s) by (unfold lift_outcome; by rewrite Eb).
  by eexists.
Qed.

Lemma applyContainerSpec_spec p c args :
  applyContainerSpec p c args
  = (set_Image_Resources (proxy_image p) (proxy_resources p) c, args ++ proxy_flags p).
Proof.
  unfold applyContainerSpec, proxy_image, proxy_resources, proxy_flags, defaultProxyImage.
  destruct (sp_AuthProxyContainer (apw_Spec p)) as [[]|]; cbn; [|by rewrite app_nil_r].
  repeat case_bool_decide; try done; cbn; case_match; done.
Qed.

Definition proxy_keys (p : AuthProxyWorkload) : list dbInstance :=
  instance_key p <$> sp_Instances (apw_Spec p).

Lemma sim_weaken K K' st s : K ⊆ K' -> sim K st s -> sim K' st s.
Proof. intros HK [? ? ? ? ? ?]. split; try done. by etransitivity. Qed.

Lemma updateContainer_sim `{UnicodeTables} `{MapRange} p K st s :
  sim K st s -> fresh_keys K (proxy_keys p) ->
  Z.of_nat (length (al_used st) + length (sp_Instances (apw_Spec p))) < max_port_demand ->
  match allocate_proxy (us_updater s) st p with
  | Some (st', c) =>
      exists s', updateContainer p Container_zero s = Ret (c, s')
        /\ us_details s' = us_details s /\ sim (K ++ proxy_keys p) st' s'
  | None => exists c s', updateContainer p Container_zero s = Ret (c, s') /\ us_details s' <> []
  end.
Proof.
  intros Hs HK Hlen. unfold updateContainer, allocate_proxy. rewrite ContainerName_Ret.
  destruct (apw_override p) as [o|].
  { exists s. split_and!; [done|done|]. eapply sim_weaken; [|exact Hs].
    intros k ?. apply elem_of_app. by left. }
  destruct (addHealthCheck_sim K st s Hs ltac:(lia) Container_zero []) as (c & E & Hc).
  rewrite (Go_bind_run _ _ _ _ _ E).
  rewrite (Go_bind_run (gets us_updater) _ s (us_updater s) s) by done.
  rewrite (Go_bind_run (lift_outcome _) _ s (container_name p) s) by done.
  rewrite applyContainerSpec_spec.
  match goal with |- context [fold_range (useInstance p) ?args _] =>
    pose proof (useInstances_sim p (sp_Instances (apw_Spec p)) K st s args Hs HK Hlen) as Hrun
  end.
  destruct (allocate_instances st _) as [[st' ports]|]; cbn [mbind option_bind].
  - destruct Hrun as (s' & Erun & Hd & Hs'). exists s'. rewrite (Go_bind_run _ _ _ _ _ Erun).
    split_and!; [|done|done]. subst c. unfold mret, Go_ret, proxy_container, proxy_args. cbn.
    done.
  - destruct Hrun as (a & s' & Erun & Hd). rewrite (Go_bind_run _ _ _ _ _ Erun).
    by eexists _, s'.
Qed.

Lemma allocate_proxy_length `{UnicodeTables} `{MapRange} u st p st' c :
  allocate_proxy u st p = Some (st', c) ->
  (length (al_used st') <= length (al_used st) + length (sp_Instances (apw_Spec p)))%nat.
Proof.
  unfold allocate_proxy. destruct (apw_override p); [intros [= <- <-]; lia|].
  destruct (allocate_instances _ _) as [[st1 ports]|] eqn:E; [|done].
  intros [= <- <-]. apply allocate_instances_used in E as [-> <-]. rewrite length_app. lia.
Qed.

Lemma updateContainers_extends `{UnicodeTables} `{MapRange} (matches : list AuthProxyWorkload)
    (ps : list AuthProxyWorkload) acc :
  matches ⊆ ps ->
  along (extends ps)
    (fold_range (fun containers inst =>
       newContainer ← updateContainer inst Container_zero;
       mret (containers ++ [newContainer])) acc matches).
Proof.
  revert acc. induction matches as [|p matches IH]; intros acc Hsub; cbn.
  - apply along_ret. exact _.
  - apply along_bind; [exact _| |].
    + apply along_bind; [exact _| |intros ?; apply along_ret; exact _].
      apply updateContainer_extends, Hsub. by left.
    + intros a. apply IH. intros x ?. apply Hsub. by right.
Qed.

Lemma updateContainers_sim `{UnicodeTables} `{MapRange} matches K st s acc :
  sim K st s -> fresh_keys K (matches ≫= proxy_keys) ->
  Z.of_nat (length (al_used st)
            + length (matches ≫= fun p => sp_Instances (apw_Spec p))) < max_port_demand ->
  let run := fold_range (fun containers inst =>
               newContainer ← updateContainer inst Container_zero;
               mret (containers ++ [newContainer])) acc matches s in
  match allocate_proxies (us_updater s) st matches with
  | Some (st', cs) => exists s', run = Ret (acc ++ cs, s')
        /\ us_details s' = us_details s /\ sim (K ++ (matches ≫= proxy_keys)) st' s'
  | None => exists cs s', run = Ret (cs, s') /\ us_details s' <> []
  end.
Proof.
  revert K st s acc. induction matches as [|p matches IH]; intros K st s acc Hs HK Hlen; cbn zeta.
  - exists s. cbn. by rewrite !app_nil_r.
  - cbn in HK, Hlen. rewrite length_app in Hlen. apply fresh_keys_app in HK as [HK1 HK].
    pose proof (updateContainer_sim p K st s Hs HK1 ltac:(lia)) as Hp.
    cbn [allocate_proxies].
    destruct (allocate_proxy _ st p) as [[st1 c]|] eqn:E1; cbn [mbind option_bind].
    + destruct Hp as (s1 & Erun1 & Hd1 & Hs1).
      assert (us_updater s1 = us_updater s) as Hu.
      { eapply (updateContainer_extends [p]); [|exact Erun1]. by apply list_elem_of_singleton. }
      specialize (IH _ st1 s1 (acc ++ [c]) Hs1 HK).
      pose proof (allocate_proxy_length _ _ _ _ _ E1). specialize (IH ltac:(lia)). cbn zeta in IH.
      rewrite Hu in IH. cbn [fold_range].
      rewrite (Go_bind_run _ _ s (acc ++ [c]) s1)
        by (rewrite (Go_bind_run _ _ _ _ _ Erun1); done).
      destruct (allocate_proxies _ st1 matches) as [[st2 cs]|]; cbn [mbind option_bind].
      * destruct IH as (s2 & Erun2 & Hd2 & Hs2). exists s2. cbn.
        rewrite Erun2, <-!app_assoc in *. split_and!; [done|congruence|done].
      * exact IH.
    + destruct Hp as (c & s1 & Erun1 & Hd1).
      destruct (updateContainers_budget 0 (p :: matches) acc s) as (b & s2 & E & _).
      { eapply sim_budget; [exact Hs|]. cbn. rewrite length_app. lia. }
      exists b, s2. split; [exact E|]. cbn [fold_range] in E.
      rewrite (Go_bind_run _ _ s (acc ++ [c]) s1) in E
        by (rewrite (Go_bind_run _ _ _ _ _ Erun1); done).
      eapply along_details; [by eapply updateContainers_extends|exact E|done].
Qed.

(** *** The ports of the workload's own containers *)
Definition no_proxy : dbInstance := dbInst "" "" "".

Lemma addInUsePorts_run cports name s :
  exists ports, for_range (fun port => addInUsePort (cp_ContainerPort port) name) cports s
                = Ret (tt, set_Ports ports s)
    /\ mp_Port <$> ports = fold_left add_port (cp_ContainerPort <$> cports) (ports_of s)
    /\ mp_Instance <$> ports ⊆ keys_of s ++ [no_proxy].
Proof.
  revert s. induction cports as [|cp cports IH]; intros s.
  - exists (us_Ports s). split_and!; [|done|intros k ?; apply elem_of_app; by left].
    by destruct s as [? [] ? ?].
  - destruct (addPort_Ret (cp_ContainerPort cp) name {| nn_Namespace := ""; nn_Name := "" |} "" s)
      as (ports1 & E1 & Hp1 & Hk1).
    destruct (IH (set_Ports ports1 s)) as (ports & E & Hp & Hk).
    exists ports. unfold for_range in *. cbn [fold_range].
    rewrite (Go_bind_run _ _ _ _ _ E1), E. split_and!; [done| |].
    + rewrite Hp. unfold ports_of at 1. cbn. by rewrite Hp1.
    + etransitivity; [exact Hk|]. unfold keys_of at 1. cbn [us_Ports set_Ports set_mods us_mods wm_Ports].
      rewrite Hk1. case_bool_decide; intros k; rewrite !elem_of_app; intros [[?|Hin]|?]; auto.
      by apply elem_of_nil in Hin.
Qed.

Lemma workload_ports_run cs s :
  exists ports, for_range (fun c =>
      for_range (fun port => addInUsePort (cp_ContainerPort port) (c_Name c)) (c_Ports c)) cs s
      = Ret (tt, set_Ports ports s)
    /\ mp_Port <$> ports
       = fold_left add_port (cs ≫= fun c => cp_ContainerPort <$> c_Ports c) (ports_of s)
    /\ mp_Instance <$> ports ⊆ keys_of s ++ [no_proxy].
Proof.
  revert s. induction cs as [|c cs IH]; intros s.
  - exists (us_Ports s). split_and!; [|done|intros k ?; apply elem_of_app; by left].
    by destruct s as [? [] ? ?].
  - destruct (addInUsePorts_run (c_Ports c) (c_Name c) s) as (ports1 & E1 & Hp1 & Hk1).
    destruct (IH (set_Ports ports1 s)) as (ports & E & Hp & Hk).
    exists ports. unfold for_range in *. cbn [fold_range].
    rewrite (Go_bind_run _ _ _ _ _ E1), E. split_and!; [done| |].
    + rewrite Hp. cbn. by rewrite fold_left_app, <-Hp1.
    + etransitivity; [exact Hk|]. intros k. rewrite elem_of_app. intros [Hin|Hin].
      * by apply Hk1.
      * apply elem_of_app. by right.
Qed.

(** The state after the loops over the workload's containers. *)
Definition after_scan (u : Updater) (wl : PodWorkload) (matches : list AuthProxyWorkload)
    (ports : list managedPort) (s : updateState) : Prop :=
  s = set_Ports ports (set_DBInstances
        (matches ≫= fun wl => (fun instance =>
           dbInst (apw_Namespace wl) (apw_Name wl) (is_ConnectionString instance))
             <$> sp_Instances (apw_Spec wl)) (initial_state u wl))
  /\ mp_Port <$> ports = fold_left add_port (workload_ports wl) []
  /\ mp_Instance <$> ports ⊆ [no_proxy].

Lemma update_run `{UnicodeTables} `{MapRange} u wl matches :
  exists ports s1, after_scan u wl matches ports s1 /\
  update wl matches (initial_state u wl)
  = (containers ← fold_range (fun containers inst =>
                    newContainer ← updateContainer inst Container_zero;
                    mret (containers ++ [newContainer])) (ps_Containers (PodSpecOf wl)) matches;
     s ← get;
     if (0 <? Z.of_nat (length (us_details s))) then mret (ConfigFailed (us_err s))
     else mret (Configured (SetPodSpec {| ps_Containers := updateContainerEnv s <$> containers;
                                          ps_rest := ps_rest (PodSpecOf wl) |} wl))) s1.
Proof.
  unfold update, initState. cbn zeta.
  rewrite (Go_bind_run (modify _) _ _ _ _ eq_refl).
  match goal with |- context [(_ ← for_range _ ?cs; _) ?s] =>
    destruct (workload_ports_run cs s) as (ports & E & Hp & Hk) end.
  rewrite (Go_bind_run _ _ _ _ _ E). exists ports. eexists. split; [|done].
  split; [done|]. by split.
Qed.

Lemma after_scan_sim u wl matches ports s :
  after_scan u wl matches ports s -> sim [no_proxy] (initial_alloc wl) s.
Proof.
  intros (-> & Hp & Hk). split; [exact Hp|exact Hk|done|constructor|..]; cbn.
  - unfold DefaultFirstPort. lia.
  - unfold DefaultFirstPort. lia.
Qed.

Lemma after_scan_extends u wl matches ports s :
  after_scan u wl matches ports s ->
  us_updater s = u /\ us_err s = us_err (initial_state u wl).
Proof. by intros (-> & _). Qed.

Lemma initial_alloc_length wl :
  (length (al_used (initial_alloc wl)) <= length (workload_ports wl))%nat.
Proof. pose proof (add_ports_length (workload_ports wl) []). cbn in *. lia. Qed.

(** *** From the resources to fresh keys *)
Lemma well_formed_fresh matches :
  well_formed matches -> fresh_keys [no_proxy] (matches ≫= proxy_keys).
Proof.
  intros [Hnd Hall]. split.
  - induction matches as [|p matches IH]; cbn; [constructor|].
    apply NoDup_cons in Hnd as [Hp Hnd]. apply Forall_cons in Hall as [[_ Hinst] Hall].
    apply NoDup_app. split_and!; [|intros k Hk Hk'|by apply IH].
    + apply (NoDup_fmap_1 di_ConnectionString). unfold proxy_keys.
      by rewrite <-list_fmap_compose.
    + apply Hp. apply list_elem_of_fmap in Hk as (i & -> & _).
      apply list_elem_of_bind in Hk' as (q & Hk' & Hq).
      apply list_elem_of_fmap in Hk' as (j & [= E1 E2 _] & _).
      apply list_elem_of_fmap. exists q. split; [|done].
      unfold apw_NamespacedName. by rewrite E1, E2.
  - intros k (q & Hk & Hq)%list_elem_of_bind ->%list_elem_of_singleton.
    apply list_elem_of_fmap in Hk as (i & [= _ E _] & _).
    rewrite Forall_forall in Hall. by destruct (Hall q Hq).
Qed.

(** The errors of a failed run: at least one, each attributed to the workload
    and to one of the resources. *)
Definition failed_with (wl : PodWorkload) (matches : list AuthProxyWorkload) (e : ConfigError)
    : Prop :=
  same_header (us_err (initial_state {| userAgent := "" |} wl)) e
  /\ ce_details e <> [] /\ Forall (attributed e matches) (ce_details e).

Lemma updateContainers_failed `{UnicodeTables} `{MapRange} u wl matches ports s1 cs s2 :
  after_scan u wl matches ports s1 ->
  fold_range (fun containers inst =>
    newContainer ← updateContainer inst Container_zero;
    mret (containers ++ [newContainer])) (ps_Containers (PodSpecOf wl)) matches s1 = Ret (cs, s2) ->
  us_details s2 <> [] -> failed_with wl matches (us_err s2).
Proof.
  intros Hscan E Hne. apply (updateContainers_extends matches matches) in E; [|done].
  destruct (after_scan_extends _ _ _ _ _ Hscan) as [_ Herr].
  destruct E as (_ & Hh & ds & Hds & Hatt). unfold us_details in *. rewrite Herr in *.
  split; [exact Hh|]. split; [done|]. rewrite Hds. cbn.
  destruct Hh as (Ek & En & Ens). eapply Forall_impl; [exact Hatt|].
  intros d. unfold attributed. by rewrite Ek, En, Ens.
Qed.

Lemma after_scan_no_details u wl matches ports s :
  after_scan u wl matches ports s -> us_details s = [].
Proof. by intros (-> & _). Qed.

Lemma details_guard s : (0 <? Z.of_nat (length (us_details s))) = false <-> us_details s = [].
Proof. rewrite Z.ltb_ge. destruct (us_details s); cbn; [done|]. split; [lia|done]. Qed.

Lemma updateContainerEnv_with_env s st K c :
  sim K st s -> updateContainerEnv s c = with_env (al_env st) c.
Proof. intros Hs. unfold updateContainerEnv, with_env. by rewrite <-(sim_env _ _ _ Hs). Qed.

Lemma ConfigureWorkload_Ret `{UnicodeTables} `{MapRange} u wl matches r s :
  update wl matches (initial_state u wl) = Ret (r, s) ->
  ConfigureWorkload u wl matches = Ret r.
Proof. unfold ConfigureWorkload. by intros ->. Qed.

Lemma updateContainer_name `{UnicodeTables} `{MapRange} p c s c' s' :
  updateContainer p c s = Ret (c', s') -> c_Name c' = container_name p.
Proof.
  unfold updateContainer. rewrite ContainerName_Ret.
  destruct (apw_override p); intros E.
  - by injection E as <- <-.
  - apply Go_bind_Ret in E as ([c1 args] & s1 & _ & E).
    apply Go_bind_Ret in E as (u & s2 & _ & E).
    apply Go_bind_Ret in E as (name & s3 & [= <- <-] & E).
    rewrite applyContainerSpec_spec in E.
    apply Go_bind_Ret in E as (args' & s4 & _ & E). by injection E as <- <-.
Qed.

Lemma updateContainers_names `{UnicodeTables} `{MapRange} matches acc s cs s' :
  fold_range (fun containers inst =>
    newContainer ← updateContainer inst Container_zero;
    mret (containers ++ [newContainer])) acc matches s = Ret (cs, s') ->
  exists added, cs = acc ++ added /\ c_Name <$> added = container_name <$> matches.
Proof.
  revert acc s. induction matches as [|p matches IH]; intros acc s E; cbn [fold_range] in E.
  - injection E as <- <-. exists []. by rewrite app_nil_r.
  - apply Go_bind_Ret in E as (acc1 & s1 & E1 & E2).
    apply Go_bind_Ret in E1 as (c & s1' & E1 & E3). injection E3 as <- <-.
    apply IH in E2 as (added & -> & Hn). exists (c :: added).
    rewrite <-app_assoc. cbn. by rewrite Hn, (updateContainer_name _ _ _ _ _ E1).
Qed.

Lemma ConfigureWorkload_shape `{UnicodeTables} `{MapRange} u wl matches :
  port_demand wl matches < 2 ^ 31 ->
  exists r, ConfigureWorkload u wl matches = Ret r
    /\ match r with
       | Configured wl' =>
           exists env added,
             wl' = SetPodSpec {| ps_Containers := with_env env
                                   <$> (ps_Containers (PodSpecOf wl) ++ added);
                                 ps_rest := ps_rest (PodSpecOf wl) |} wl
             /\ c_Name <$> added = container_name <$> matches
       | ConfigFailed e => failed_with wl matches e
       end.
Proof.
  intros Hdemand. destruct (update_run u wl matches) as (ports & s1 & Hscan & Erun).
  destruct (updateContainers_budget 0 matches (ps_Containers (PodSpecOf wl)) s1)
    as (cs & s2 & E2 & _).
  { pose proof (initial_alloc_length wl). unfold port_demand in Hdemand.
    split; [|by destruct Hscan as (-> & _)].
    rewrite (sim_length _ _ _ (after_scan_sim _ _ _ _ _ Hscan)). lia. }
  rewrite (Go_bind_run _ _ _ _ _ E2) in Erun.
  rewrite (Go_bind_run get _ s2 s2 s2) in Erun by done.
  destruct (0 <? _) eqn:Hg in Erun;
    (eexists; split; [by eapply ConfigureWorkload_Ret|]; cbn).
  - eapply updateContainers_failed; [exact Hscan|exact E2|].
    intros Hd%details_guard. congruence.
  - apply updateContainers_names in E2 as (added & -> & Hnames).
    by exists (env_of s2), added.
Qed.

(** The simulation, for the whole run. *)
Lemma ConfigureWorkload_spec `{UnicodeTables} `{MapRange} u wl matches :
  well_formed matches -> port_demand wl matches < max_port_demand ->
  match configure_spec u wl matches with
  | Some wl' => ConfigureWorkload u wl matches = Ret (Configured wl')
  | None => exists e, ConfigureWorkload u wl matches = Ret (ConfigFailed e)
                      /\ failed_with wl matches e
  end.
Proof.
  intros Hwf Hdemand. destruct (update_run u wl matches) as (ports & s1 & Hscan & Erun).
  pose proof (updateContainers_sim matches _ _ _ (ps_Containers (PodSpecOf wl))
    (after_scan_sim _ _ _ _ _ Hscan) (well_formed_fresh _ Hwf)) as Hsim.
  pose proof (initial_alloc_length wl). unfold port_demand in Hdemand.
  specialize (Hsim ltac:(lia)). cbn zeta in Hsim.
  destruct (after_scan_extends _ _ _ _ _ Hscan) as [Hu _]. rewrite Hu in Hsim.
  unfold configure_spec. destruct (allocate_proxies u _ matches) as [[st cs]|]; cbn [mbind option_bind].
  - destruct Hsim as (s2 & E2 & Hd & Hs2). rewrite (Go_bind_run _ _ _ _ _ E2) in Erun.
    rewrite (Go_bind_run get _ s2 s2 s2) in Erun by done.
    rewrite (after_scan_no_details _ _ _ _ _ Hscan) in Hd.
    apply details_guard in Hd. rewrite Hd in Erun.
    erewrite (ConfigureWorkload_Ret _ _ _ _ _ Erun). do 3 f_equal. f_equal.
    apply list_fmap_ext. intros i c _. by eapply updateContainerEnv_with_env.
  - destruct Hsim as (cs & s2 & E2 & Hd). rewrite (Go_bind_run _ _ _ _ _ E2) in Erun.
    rewrite (Go_bind_run get _ s2 s2 s2) in Erun by done.
    destruct (0 <? _) eqn:Hg in Erun; [|by apply details_guard in Hg].
    exists (us_err s2). split; [by eapply ConfigureWorkload_Ret|].
    by eapply updateContainers_failed.
Qed.

End refinement.

(** ** Theorems *)
Section theorems.
Context `{Hk8s : K8sTypes} `{Hlab : LabelsPkg} `{Htab : UnicodeTables} `{Hrange : MapRange}.

(** C1: [ConfigureWorkload] implements the abstract allocator: for resources
    with distinct names that list each instance once, it fails exactly when
    the allocator meets a port or variable conflict, with errors about this
    workload and these resources, and otherwise produces exactly the
    allocator's pod. *)
Theorem ConfigureWorkload_refines u wl matches :
  well_formed matches -> port_demand wl matches < max_port_demand ->
  match configure_spec u wl matches with
  | Some wl' => ConfigureWorkload u wl matches = Ret (Configured wl')
  | None => exists e, ConfigureWorkload u wl matches = Ret (ConfigFailed e)
                      /\ failed_with wl matches e
  end.
Proof. apply ConfigureWorkload_spec. Qed.

(** C28: Whatever the resources, [ConfigureWorkload] neither panics nor loops
    for ever while there are ports left.  When it fails it says why: the
    error names the workload, is not empty, and each detail names a resource
    of the list and the PortConflict or the EnvConflict code.  When it
    succeeds, the pod keeps everything but the environment of its containers,
    and gets one more container per resource, in order, under the names that
    belong to these resources. *)
Theorem ConfigureWorkload_returns u wl matches :
  port_demand wl matches < 2 ^ 31 ->
  exists r, ConfigureWorkload u wl matches = Ret r
    /\ match r with
       | Configured wl' =>
           exists env added,
             wl' = SetPodSpec {| ps_Containers := with_env env
                                   <$> (ps_Containers (PodSpecOf wl) ++ added);
                                 ps_rest := ps_rest (PodSpecOf wl) |} wl
             /\ c_Name <$> added = container_name <$> matches
       | ConfigFailed e => failed_with wl matches e
       end.
Proof. apply ConfigureWorkload_shape. Qed.

End theorems.

(** ** Witnesses *)
Section witnesses.
Import ConcreteInstances.
#[local] Existing Instance in_order.

Definition ua : Updater := NewUpdater "cloud-sql-proxy-operator/test".

Lemma ConfigureWorkload_refines_witness :
  match configure_spec ua web_pod [orders_apw; users_apw] with
  | Some wl' => ConfigureWorkload ua web_pod [orders_apw; users_apw] = Ret (Configured wl')
  | None => False
  end
  /\ match configure_spec ua web_pod [orders_apw; clash_apw] with
     | Some _ => False
     | None => exists e, ConfigureWorkload ua web_pod [orders_apw; clash_apw] = Ret (ConfigFailed e)
                         /\ failed_with web_pod [orders_apw; clash_apw] e
     end.
Proof.
  split.
  - pose proof (ConfigureWorkload_refines ua web_pod [orders_apw; users_apw]
      ltac:(by_evaluation) eq_refl) as Href.
    destruct (configure_spec _ _ _) eqn:E; [exact Href|vm_compute in E; discriminate E].
  - pose proof (ConfigureWorkload_refines ua web_pod [orders_apw; clash_apw]
      ltac:(by_evaluation) eq_refl) as Href.
    destruct (configure_spec _ _ _) eqn:E; [vm_compute in E; discriminate E|exact Href].
Defined.

Lemma ConfigureWorkload_returns_witness :
  exists r, ConfigureWorkload ua web_pod [orders_apw; clash_apw] = Ret r
    /\ match r with
       | Configured wl' =>
           exists env added,
             wl' = SetPodSpec {| ps_Containers := with_env env
                                   <$> (ps_Containers (PodSpecOf web_pod) ++ added);
                                 ps_rest := ps_rest (PodSpecOf web_pod) |} web_pod
             /\ c_Name <$> added = container_name <$> [orders_apw; clash_apw]
       | ConfigFailed e => failed_with web_pod [orders_apw; clash_apw] e
       end.
Proof. apply (ConfigureWorkload_returns ua web_pod [orders_apw; clash_apw]). reflexivity. Defined.

End witnesses.
