(* ===== verification/Configure.v ===== *)
(** * Properties of a configured pod

    What a successful [ConfigureWorkload] guarantees about ports, environment
    variables and containers; proved of the allocator and carried to the code
    by [ConfigureWorkload_spec]. *)

From S2P Require Import Prelude GoStd Api Concrete Names Workload Fixtures PodSpec Allocation.
From S2P Require Import Refinement.
From Stdlib Require Import Ascii.
#[local] Open Scope Z_scope.

Section placements.
Context `{Hk8s : K8sTypes} `{Hlab : LabelsPkg} `{Htab : UnicodeTables} `{Hrange : MapRange}.

(** ** Where the instances ended up *)

(** One resource, the health-check port of its container and the ports of its
    instances. *)
Record placement := {
  pl_proxy : AuthProxyWorkload;
  pl_health : Z;
  pl_ports : list Z
}.

Definition placed_container (u : Updater) (a : placement) : Container :=
  match apw_override (pl_proxy a) with
  | Some override => set_Name (container_name (pl_proxy a)) override
  | None => proxy_container u (pl_proxy a) (pl_health a) (pl_ports a)
  end.

(** The instances of a resource with their ports; an overridden container
    places none. *)
Definition placed_instances (a : placement) : list (InstanceSpec * Z) :=
  match apw_override (pl_proxy a) with
  | Some _ => []
  | None => zip (sp_Instances (apw_Spec (pl_proxy a))) (pl_ports a)
  end.

(** Ports are handed out in the order of the list [insts], given the ports in
    use before: never one in use; the port the instance asks for, or else the
    first one free from [DefaultFirstPort]. *)
Fixpoint port_rule (used : list Z) (insts : list (InstanceSpec * Z)) : Prop :=
  match insts with
  | [] => True
  | (inst, port) :: insts =>
      (port ∉ used)
      /\ match is_Port inst with
         | Some q => port = q
         | None => is_first_free used DefaultFirstPort port
         end
      /\ port_rule (used ++ [port]) insts
  end.

Lemma port_rule_app used l1 l2 :
  port_rule used (l1 ++ l2) <-> port_rule used l1 /\ port_rule (used ++ (l1.*2)) l2.
Proof.
  revert used. induction l1 as [|[inst port] l1 IH]; intros used; cbn.
  - rewrite app_nil_r. tauto.
  - rewrite IH, <-app_assoc. cbn. tauto.
Qed.

Lemma port_rule_NoDup used l :
  port_rule used l -> NoDup (l.*2) /\ (forall p, p ∈ l.*2 -> p ∉ used).
Proof.
  revert used. induction l as [|[inst port] l IH]; intros used; cbn.
  - intros _. split; [constructor|]. intros p Hp. by apply elem_of_nil in Hp.
  - intros (Hp & _ & Hr). destruct (IH _ Hr) as [Hnd Hdis]. split.
    + apply NoDup_cons. split; [|done]. intros Hin. destruct (Hdis _ Hin).
      apply elem_of_app. right. by apply list_elem_of_singleton.
    + intros q [->|Hq]%elem_of_cons; [done|]. intros Hu. destruct (Hdis q Hq).
      apply elem_of_app. by left.
Qed.

Lemma port_rule_elem used used' l :
  (forall q, q ∈ used <-> q ∈ used') -> port_rule used l -> port_rule used' l.
Proof.
  revert used used'. induction l as [|[inst port] l IH]; intros used used' Heq; cbn; [done|].
  intros (Hp & Hport & Hr). split_and!.
  - by rewrite <-Heq.
  - destruct (is_Port inst); [done|]. destruct Hport as (? & ? & Hb).
    split_and!; [done|by rewrite <-Heq|]. intros q Hq. apply Heq. by apply Hb.
  - eapply IH; [|exact Hr]. intros q. by rewrite !elem_of_app, Heq.
Qed.

(** ** What the allocator guarantees about ports *)
Lemma allocate_instance_rule st inst st' port :
  Z.of_nat (length (al_used st)) < max_port_demand ->
  allocate_instance st inst = Some (st', port) ->
  al_used st' = al_used st ++ [port] /\ port_rule (al_used st) [(inst, port)].
Proof.
  intros Hlen E. split; [by eapply allocate_instance_length|].
  unfold allocate_instance in E. case_bool_decide as Hin; [done|]. cbn in E.
  destruct (put_envs _ _); [|done]. injection E as <- <-. cbn. split_and!; [done| |done].
  unfold choose_port in *. destruct (is_Port inst); [done|].
  unfold max_port_demand, DefaultFirstPort in *. apply first_free_spec; lia.
Qed.

Lemma allocate_instances_rule insts st st' ports :
  Z.of_nat (length (al_used st) + length insts) < max_port_demand ->
  allocate_instances st insts = Some (st', ports) ->
  port_rule (al_used st) (zip insts ports).
Proof.
  revert st ports. induction insts as [|inst insts IH]; intros st ports Hlen; cbn.
  - by intros [= <- <-].
  - destruct (allocate_instance st inst) as [[st1 port]|] eqn:E1; [|done].
    cbn in *. destruct (allocate_instances st1 insts) as [[st2 ports']|] eqn:E2; [|done].
    cbn. intros [= <- <-].
    apply allocate_instance_rule in E1 as [Hu (Hp & Hport & _)]; [|lia].
    split; [done|]. split; [done|]. rewrite <-Hu. eapply IH; [|exact E2].
    rewrite Hu, length_app. cbn. lia.
Qed.

(** ** What the allocator guarantees about the environment *)
Definition plain (ev : EnvVar) : Prop := ev_ValueFrom ev = None.

Lemma instance_env_plain inst port : Forall plain (instance_env inst port).
Proof. unfold instance_env. repeat case_bool_decide; repeat constructor. Qed.

Lemma put_env_spec ev env env' :
  plain ev -> Forall plain env -> put_env ev env = Some env' ->
  Forall plain env' /\ (forall e, e ∈ env' <-> e = ev \/ e ∈ env)
  /\ (NoDup (ev_Name <$> env) -> NoDup (ev_Name <$> env')).
Proof.
  intros Hev Henv. unfold put_env. destruct (List.find _ env) as [old|] eqn:E.
  - case_bool_decide as Hv; [|done]. intros [= <-].
    apply find_some in E as [Hin%list_elem_of_In Hn%bool_decide_eq_true].
    assert (old = ev) as ->.
    { rewrite Forall_forall in Henv. specialize (Henv _ Hin).
      destruct old, ev. cbv [plain] in *. cbn in *. by subst. }
    split_and!; [done| |done]. intros e. split; [by right|]. by intros [->|].
  - intros [= <-]. split_and!.
    + apply Forall_app. split; [done|]. by apply Forall_singleton.
    + intros e. rewrite elem_of_app, list_elem_of_singleton. tauto.
    + intros Hnd. rewrite fmap_app. apply NoDup_app. split_and!; [done| |apply NoDup_singleton].
      intros n Hn ->%list_elem_of_singleton. apply list_elem_of_fmap in Hn as (e & Hn & He).
      apply list_elem_of_In, (find_none _ _ E), bool_decide_eq_false in He. congruence.
Qed.

Lemma put_envs_spec evs env env' :
  Forall plain evs -> Forall plain env -> put_envs evs env = Some env' ->
  Forall plain env' /\ (forall e, e ∈ env' <-> e ∈ evs \/ e ∈ env)
  /\ (NoDup (ev_Name <$> env) -> NoDup (ev_Name <$> env')).
Proof.
  revert env. induction evs as [|ev evs IH]; intros env Hevs Henv; cbn.
  - intros [= <-]. split_and!; [done| |done]. intros e. split; [by right|].
    intros [He|]; [by apply elem_of_nil in He|done].
  - apply Forall_cons in Hevs as [Hev Hevs].
    destruct (put_env ev env) as [env1|] eqn:E1; [|done]. cbn. intros E2.
    apply put_env_spec in E1 as (Hp1 & He1 & Hn1); [|done..].
    apply IH in E2 as (Hp2 & He2 & Hn2); [|done..].
    split_and!; [done| |tauto]. intros e. rewrite He2, He1, elem_of_cons. tauto.
Qed.

Lemma allocate_instances_env insts st st' ports :
  allocate_instances st insts = Some (st', ports) ->
  put_envs (zip insts ports ≫= uncurry instance_env) (al_env st) = Some (al_env st').
Proof.
  revert st ports. induction insts as [|inst insts IH]; intros st ports; cbn.
  - by intros [= <- <-].
  - destruct (allocate_instance st inst) as [[st1 port]|] eqn:E1; [|done]. cbn.
    destruct (allocate_instances st1 insts) as [[st2 ports']|] eqn:E2; [|done].
    intros [= <- <-]. cbn. rewrite put_envs_app.
    unfold allocate_instance in E1. case_bool_decide; [done|]. cbn in E1.
    destruct (put_envs _ (al_env st)) eqn:E3; [|done]. injection E1 as <- <-.
    rewrite E3. by apply IH in E2.
Qed.

(** The variables the operator manages in the pod. *)
Definition managed_env (allocs : list placement) : list EnvVar :=
  (allocs ≫= placed_instances) ≫= uncurry instance_env.

Lemma managed_env_plain allocs : Forall plain (managed_env allocs).
Proof.
  apply Forall_forall. intros e ([inst port] & He & _)%list_elem_of_bind.
  pose proof (instance_env_plain inst port) as Hp. rewrite Forall_forall in Hp. by apply Hp.
Qed.

(** Every instance of the resource has a port. *)
Definition all_placed (a : placement) : Prop :=
  (placed_instances a).*1 = match apw_override (pl_proxy a) with
                            | Some _ => []
                            | None => sp_Instances (apw_Spec (pl_proxy a))
                            end.

Lemma allocate_proxy_placed u st p st' c :
  Z.of_nat (length (al_used st) + length (sp_Instances (apw_Spec p))) < max_port_demand ->
  allocate_proxy u st p = Some (st', c) ->
  exists a, pl_proxy a = p /\ c = placed_container u a /\ all_placed a
    /\ al_used st' = al_used st ++ ((placed_instances a).*2)
    /\ port_rule (al_used st) (placed_instances a)
    /\ is_first_free (al_used st) DefaultHealthCheckPort (pl_health a)
    /\ put_envs (placed_instances a ≫= uncurry instance_env) (al_env st) = Some (al_env st').
Proof.
  intros Hlen E. set (health := first_free (al_used st) DefaultHealthCheckPort).
  assert (is_first_free (al_used st) DefaultHealthCheckPort health) as Hhealth.
  { unfold max_port_demand, DefaultHealthCheckPort in *. apply first_free_spec; lia. }
  unfold allocate_proxy in E. destruct (apw_override p) as [o|] eqn:Eo.
  - injection E as <- <-. exists {| pl_proxy := p; pl_health := health; pl_ports := [] |}.
    unfold all_placed, placed_container, placed_instances. cbn. by rewrite Eo, app_nil_r.
  - destruct (allocate_instances st _) as [[st1 ports]|] eqn:Ei; [|done].
    injection E as <- <-.
    exists {| pl_proxy := p; pl_health := health; pl_ports := ports |}.
    destruct (allocate_instances_used _ _ _ _ Ei) as [Hused Hports].
    unfold all_placed, placed_container, placed_instances. cbn. rewrite Eo.
    rewrite fst_zip, snd_zip by lia. split_and!; [done..| |done|].
    + eapply allocate_instances_rule; [|exact Ei]. lia.
    + by apply allocate_instances_env in Ei.
Qed.

(** The health-check port of a container is the first one from
    [DefaultHealthCheckPort] that is free when the container is built: only
    the ports of the workload and of the instances placed before count. *)
Fixpoint health_rule (used : list Z) (allocs : list placement) : Prop :=
  match allocs with
  | [] => True
  | a :: allocs =>
      is_first_free used DefaultHealthCheckPort (pl_health a)
      /\ health_rule (used ++ ((placed_instances a).*2)) allocs
  end.

Lemma is_first_free_elem used used' from r :
  (forall q, q ∈ used <-> q ∈ used') -> is_first_free used from r -> is_first_free used' from r.
Proof.
  intros Heq (? & ? & Hb). split_and!; [done|by rewrite <-Heq|]. intros q Hq. apply Heq. by apply Hb.
Qed.

Lemma health_rule_elem used used' allocs :
  (forall q, q ∈ used <-> q ∈ used') -> health_rule used allocs -> health_rule used' allocs.
Proof.
  revert used used'. induction allocs as [|a allocs IH]; intros used used' Heq; cbn; [done|].
  intros [Ha Hr]. split; [by eapply is_first_free_elem|].
  eapply IH; [|exact Hr]. intros q. by rewrite !elem_of_app, Heq.
Qed.

Lemma allocate_proxies_placed u matches st st' cs :
  Z.of_nat (length (al_used st)
            + length (matches ≫= fun p => sp_Instances (apw_Spec p))) < max_port_demand ->
  allocate_proxies u st matches = Some (st', cs) ->
  exists allocs, pl_proxy <$> allocs = matches /\ cs = placed_container u <$> allocs
    /\ Forall all_placed allocs
    /\ port_rule (al_used st) (allocs ≫= placed_instances)
    /\ health_rule (al_used st) allocs
    /\ put_envs (managed_env allocs) (al_env st) = Some (al_env st').
Proof.
  revert st cs. induction matches as [|p matches IH]; intros st cs Hlen.
  - intros [= <- <-]. exists []. split_and!; try done; constructor.
  - cbn [allocate_proxies]. destruct (allocate_proxy u st p) as [[st1 c]|] eqn:E1; [|done].
    cbn [mbind option_bind].
    destruct (allocate_proxies u st1 matches) as [[st2 cs']|] eqn:E2; [|done].
    intros [= <- <-]. cbn in Hlen. rewrite length_app in Hlen.
    pose proof (allocate_proxy_length _ _ _ _ _ E1) as Hl1.
    destruct (IH st1 cs') as (allocs & Hm & Hcs & Hall & Hr & Hh & Henv); [lia|exact E2|].
    apply allocate_proxy_placed in E1 as (a & Hp & Hc & Ha & Hu & Hr1 & Hh1 & Henv1); [|lia].
    exists (a :: allocs). cbn. split_and!; [by f_equal|by f_equal|by constructor| |done| |].
    + apply port_rule_app. by rewrite <-Hu.
    + by rewrite <-Hu.
    + unfold managed_env. cbn. rewrite bind_app, put_envs_app, Henv1. exact Henv.
Qed.

(** [wl'] is [wl] with the containers of [allocs] added at the end, up to the
    environment of the containers. *)
Definition placed_in (u : Updater) (wl : PodWorkload) (matches : list AuthProxyWorkload)
    (allocs : list placement) (wl' : PodWorkload) : Prop :=
  pl_proxy <$> allocs = matches /\ Forall all_placed allocs
  /\ exists env, wl' = SetPodSpec {|
       ps_Containers := with_env env
         <$> (ps_Containers (PodSpecOf wl) ++ (placed_container u <$> allocs));
       ps_rest := ps_rest (PodSpecOf wl) |} wl
  /\ NoDup (ev_Name <$> env)
  /\ forall e, e ∈ env <-> e ∈ managed_env allocs.

(** The [i]-th resource and its container. *)
Lemma placed_in_lookup u wl matches allocs wl' i p :
  placed_in u wl matches allocs wl' -> matches !! i = Some p ->
  exists a env, allocs !! i = Some a /\ pl_proxy a = p /\ all_placed a
    /\ ps_Containers (PodSpecOf wl') !! (length (ps_Containers (PodSpecOf wl)) + i)%nat
       = Some (with_env env (placed_container u a)).
Proof.
  intros (<- & Hall & env & -> & _). rewrite list_lookup_fmap.
  destruct (allocs !! i) as [a|] eqn:Ha; [|done]. intros [= <-]. exists a, env.
  rewrite Forall_lookup in Hall. rewrite PodSpec_SetPodSpec. cbn [ps_Containers].
  rewrite list_lookup_fmap, lookup_app_r, Nat.add_sub', list_lookup_fmap, Ha by lia.
  split_and!; [done|done|by eapply Hall|done].
Qed.

Lemma ConfigureWorkload_placed u wl matches wl' :
  well_formed matches -> port_demand wl matches < max_port_demand ->
  ConfigureWorkload u wl matches = Ret (Configured wl') ->
  exists allocs, placed_in u wl matches allocs wl'
    /\ port_rule (workload_ports wl) (allocs ≫= placed_instances)
    /\ health_rule (workload_ports wl) allocs.
Proof.
  intros Hwf Hdemand E. pose proof (ConfigureWorkload_spec u wl matches Hwf Hdemand) as Href.
  unfold configure_spec in Href.
  destruct (allocate_proxies u (initial_alloc wl) matches) as [[st cs]|] eqn:Ea;
    cbn [mbind option_bind] in Href.
  2:{ destruct Href as (e & E' & _). congruence. }
  rewrite Href in E. injection E as <-.
  apply allocate_proxies_placed in Ea as (allocs & Hm & -> & Hall & Hr & Hh & Henv).
  2:{ pose proof (initial_alloc_length wl). unfold port_demand in Hdemand. lia. }
  apply put_envs_spec in Henv as (_ & Hin & Hnd); [|apply managed_env_plain|constructor].
  exists allocs. split.
  - split; [done|]. split; [done|]. exists (al_env st). split; [done|].
    split; [apply Hnd; constructor|]. intros e. rewrite Hin, elem_of_nil. tauto.
  - assert (forall q, q ∈ al_used (initial_alloc wl) <-> q ∈ workload_ports wl) as Hports.
    { intros q. cbn. rewrite add_ports_elem_of, elem_of_nil. tauto. }
    split; [by eapply port_rule_elem|by eapply health_rule_elem].
Qed.

(** ** Environment of a container *)
Lemma apply_env_elem env ev e :
  e ∈ apply_env env ev <-> e = ev \/ (e ∈ env /\ ev_Name e <> ev_Name ev).
Proof.
  unfold apply_env. set (f := fun e => if bool_decide _ then _ else _).
  assert (forall e, e ∈ f <$> env <->
            (e = ev /\ exists x, x ∈ env /\ ev_Name x = ev_Name ev)
            \/ (e ∈ env /\ ev_Name e <> ev_Name ev)) as Hf.
  { intros x. rewrite list_elem_of_fmap. unfold f. split.
    - intros (y & -> & Hy). case_bool_decide as Hn; [left; eauto|right; auto].
    - intros [(-> & y & Hy & Hn)|[Hx Hn]].
      + exists y. by rewrite bool_decide_eq_true_2.
      + exists x. by rewrite bool_decide_eq_false_2 by auto. }
  destruct (existsb _ env) eqn:E.
  - apply existsb_exists in E as (x & Hx%list_elem_of_In & Hn%bool_decide_eq_true).
    rewrite Hf. naive_solver.
  - rewrite elem_of_app, Hf, list_elem_of_singleton. split; [|naive_solver].
    intros [[(-> & x & Hx & Hn)|?]|?]; auto.
Qed.

Lemma apply_envs_elem evs env e :
  NoDup (ev_Name <$> evs) ->
  e ∈ fold_left apply_env evs env <-> e ∈ evs \/ (e ∈ env /\ ev_Name e ∉ ev_Name <$> evs).
Proof.
  revert env. induction evs as [|ev evs IH]; intros env; cbn.
  - intros _. rewrite !elem_of_nil. tauto.
  - intros [Hev Hnd]%NoDup_cons. rewrite IH, apply_env_elem, !elem_of_cons by done.
    split; [|naive_solver]. intros [?|[[->|[? ?]] ?]]; [tauto..|]. right. split; [done|].
    by intros [?|?].
Qed.

(** Other variables keep their places. *)
Definition unmanaged (names : list string) (env : list EnvVar) : list EnvVar :=
  filter (fun e => ev_Name e ∉ names) env.

Lemma apply_env_unmanaged names env ev :
  ev_Name ev ∈ names -> unmanaged names (apply_env env ev) = unmanaged names env.
Proof.
  intros Hev. unfold apply_env, unmanaged.
  set (f := fun e => if bool_decide _ then _ else _).
  assert (filter (fun e => ev_Name e ∉ names) (f <$> env)
          = filter (fun e => ev_Name e ∉ names) env) as Hf.
  { induction env as [|e env IH]; [done|]. rewrite fmap_cons, !filter_cons, IH. unfold f.
    destruct (bool_decide _) eqn:E; [|done]. apply bool_decide_eq_true in E.
    by rewrite !decide_False by (rewrite <-?E; tauto). }
  destruct (existsb _ env); [done|].
  rewrite filter_app, Hf, filter_cons_False, filter_nil, app_nil_r; [done|tauto].
Qed.

Lemma apply_envs_unmanaged names evs env :
  ev_Name <$> evs ⊆ names -> unmanaged names (fold_left apply_env evs env) = unmanaged names env.
Proof.
  revert env. induction evs as [|ev evs IH]; intros env Hsub; [done|]. cbn [fold_left].
  rewrite IH by (intros x ?; apply Hsub; by right).
  apply apply_env_unmanaged, Hsub. by left.
Qed.

End placements.

(** ** Automatic ports *)
Section automatic.
Context `{Hk8s : K8sTypes} `{Hlab : LabelsPkg} `{Htab : UnicodeTables} `{Hrange : MapRange}.

(** The names of the variables an instance asks for. *)
Definition env_names (inst : InstanceSpec) : list string :=
  (if bool_decide (is_HostEnvName inst = "") then [] else [is_HostEnvName inst])
  ++ (if bool_decide (is_PortEnvName inst = "") then [] else [is_PortEnvName inst]).

Lemma instance_env_names inst port : ev_Name <$> instance_env inst port = env_names inst.
Proof. unfold instance_env, env_names. by repeat case_bool_decide. Qed.

Lemma put_envs_fresh evs env :
  NoDup ((ev_Name <$> env) ++ (ev_Name <$> evs)) -> put_envs evs env = Some (env ++ evs).
Proof.
  revert env. induction evs as [|ev evs IH]; intros env; cbn; [intros _; by rewrite app_nil_r|].
  intros Hnd. unfold put_env. destruct (List.find _ env) as [old|] eqn:E; cbn.
  - apply find_some in E as [Hin%list_elem_of_In Hn%bool_decide_eq_true].
    apply NoDup_app in Hnd as (_ & Hdis & _). destruct (Hdis (ev_Name ev)); [|by left].
    apply list_elem_of_fmap. by exists old.
  - rewrite IH; [by rewrite <-app_assoc|]. by rewrite fmap_app, <-app_assoc.
Qed.

Lemma allocate_instances_auto insts st names :
  Z.of_nat (length (al_used st) + length insts) < max_port_demand ->
  Forall (fun inst => is_Port inst = None) insts ->
  NoDup ((ev_Name <$> al_env st) ++ (insts ≫= env_names) ++ names) ->
  exists st' ports, allocate_instances st insts = Some (st', ports)
    /\ NoDup ((ev_Name <$> al_env st') ++ names).
Proof.
  revert st. induction insts as [|inst insts IH]; intros st Hlen Hauto Hnd.
  - by exists st, [].
  - apply Forall_cons in Hauto as [Hport Hauto]. cbn in Hnd, Hlen.
    rewrite <-app_assoc in Hnd.
    set (port := first_free (al_used st) DefaultFirstPort).
    assert (allocate_instance st inst
            = Some ({| al_used := al_used st ++ [port];
                       al_env := al_env st ++ instance_env inst port |}, port)) as E.
    { unfold allocate_instance, choose_port. rewrite Hport. fold port.
      destruct (first_free_spec (al_used st) DefaultFirstPort) as (_ & Hfree & _);
        [unfold max_port_demand, DefaultFirstPort in *; lia..|].
      rewrite bool_decide_eq_false_2 by exact Hfree. rewrite put_envs_fresh; [done|].
      rewrite instance_env_names. rewrite app_assoc in Hnd. by apply NoDup_app in Hnd as (? & _). }
    destruct (IH {| al_used := al_used st ++ [port];
                    al_env := al_env st ++ instance_env inst port |}) as (st' & ports & E' & Hnd').
    + cbn. rewrite length_app. cbn. lia.
    + done.
    + cbn. by rewrite fmap_app, instance_env_names, <-app_assoc.
    + exists st', (port :: ports). cbn. rewrite E. cbn. by rewrite E'.
Qed.

Lemma allocate_proxies_auto u matches st :
  Z.of_nat (length (al_used st)
            + length (matches ≫= fun p => sp_Instances (apw_Spec p))) < max_port_demand ->
  Forall (fun inst => is_Port inst = None) (matches ≫= fun p => sp_Instances (apw_Spec p)) ->
  NoDup ((ev_Name <$> al_env st)
         ++ ((matches ≫= fun p => sp_Instances (apw_Spec p)) ≫= env_names)) ->
  exists st' cs, allocate_proxies u st matches = Some (st', cs).
Proof.
  revert st. induction matches as [|p matches IH]; intros st Hlen Hauto Hnd.
  - by exists st, [].
  - cbn in Hlen, Hauto, Hnd. rewrite length_app in Hlen.
    apply Forall_app in Hauto as [Hauto1 Hauto2]. rewrite bind_app in Hnd.
    assert (exists st1 c, allocate_proxy u st p = Some (st1, c)
              /\ NoDup ((ev_Name <$> al_env st1)
                   ++ ((matches ≫= fun p => sp_Instances (apw_Spec p)) ≫= env_names)))
      as (st1 & c & E & Hnd1).
    { unfold allocate_proxy. destruct (apw_override p) as [o|].
      - eexists _, _. split; [done|]. apply NoDup_app in Hnd as (? & Hdis & Hnd').
        apply NoDup_app in Hnd' as (_ & _ & ?). apply NoDup_app. split_and!; [done| |done].
        intros x Hx Hx'. apply (Hdis x Hx). apply elem_of_app. by right.
      - edestruct (allocate_instances_auto (sp_Instances (apw_Spec p)) st)
          as (st1 & ports & E & Hnd'); [lia|done|exact Hnd|].
        rewrite E. by eexists _, _. }
    pose proof (allocate_proxy_length _ _ _ _ _ E).
    destruct (IH st1) as (st2 & cs & E2); [lia|done|done|].
    exists st2, (c :: cs). cbn [allocate_proxies]. rewrite E. cbn. by rewrite E2.
Qed.

End automatic.

(** ** Bounds on automatic ports *)
Lemma is_first_free_bound used from r :
  is_first_free used from r -> r <= from + Z.of_nat (length used).
Proof.
  intros (Hle & _ & Hb).
  set (l := (fun j => from + Z.of_nat j) <$> seq 0 (Z.to_nat (r - from))).
  assert (length l <= length used)%nat as Hl.
  { apply submseteq_length, NoDup_submseteq.
    - apply NoDup_fmap_2; [intros ?? ?; lia|apply NoDup_seq].
    - intros q (k & -> & [??]%elem_of_seq)%list_elem_of_fmap. apply Hb. lia. }
  unfold l in Hl. rewrite length_fmap, length_seq in Hl. lia.
Qed.

Lemma is_first_free_here used r : r ∉ used -> is_first_free used r r.
Proof. intros Hr. split_and!; [lia|done|lia]. Qed.

Lemma first_free_here used r : r ∉ used -> first_free used r = r.
Proof.
  intros Hr. unfold first_free. destruct (length used); cbn; [done|].
  by rewrite bool_decide_eq_false_2.
Qed.

Lemma port_rule_avoids used l q :
  port_rule used l -> Forall (fun '(inst, _) => is_Port inst <> Some q) l ->
  DefaultFirstPort + Z.of_nat (length used + length l) <= q -> q ∉ l.*2.
Proof.
  revert used. induction l as [|[inst port] l IH]; intros used; cbn.
  - intros _ _ _ Hin. by apply elem_of_nil in Hin.
  - intros (_ & Hport & Hr) [Hq Hall]%Forall_cons Hlen [->|Hin]%elem_of_cons.
    + destruct (is_Port inst); [congruence|]. apply is_first_free_bound in Hport. lia.
    + eapply IH; [exact Hr|done| |exact Hin]. rewrite length_app. cbn. lia.
Qed.

Lemma placed_elem_used `{K8sTypes} `{LabelsPkg} (allocs : list placement) used :
  health_rule used allocs ->
  (DefaultHealthCheckPort ∉ used) -> DefaultHealthCheckPort ∉ (allocs ≫= placed_instances).*2 ->
  Forall (fun a => pl_health a = DefaultHealthCheckPort) allocs.
Proof.
  revert used. induction allocs as [|a allocs IH]; intros used; cbn; [constructor|].
  intros [Ha Hr] Hused Hplaced. rewrite fmap_app, not_elem_of_app in Hplaced.
  constructor.
  - eapply is_first_free_unique; [exact Ha|by apply is_first_free_here].
  - eapply IH; [exact Hr| |apply Hplaced]. rewrite not_elem_of_app; tauto.
Qed.

Lemma all_placed_instances `{K8sTypes} `{LabelsPkg} (allocs : list placement) :
  Forall all_placed allocs ->
  (allocs ≫= placed_instances).*1
  `sublist_of` ((pl_proxy <$> allocs) ≫= fun p => sp_Instances (apw_Spec p)).
Proof.
  induction 1 as [|a allocs Ha Hall IH]; cbn; [constructor|].
  rewrite fmap_app. apply sublist_app; [|exact IH].
  rewrite Ha. destruct (apw_override (pl_proxy a)); [apply sublist_nil_l|done].
Qed.

(** ** Names and flags of containers *)
Definition container_names `{K8sTypes} (wl : PodWorkload) : list string :=
  c_Name <$> ps_Containers (PodSpecOf wl).

Definition http_port_flag (port : Z) : string := "--http-port=" +:+ format_d port.

(** ** Two instances of one resource *)
Section two_instances.
Context `{Hk8s : K8sTypes} `{Hlab : LabelsPkg} `{Htab : UnicodeTables} `{Hrange : MapRange}.

Definition set_Instances (insts : list InstanceSpec) (p : AuthProxyWorkload)
    : AuthProxyWorkload := {|
  apw_GVK := apw_GVK p; apw_ObjectMeta := apw_ObjectMeta p; apw_Status := apw_Status p;
  apw_Spec := {| sp_Workload := sp_Workload (apw_Spec p);
                 sp_AuthProxyContainer := sp_AuthProxyContainer (apw_Spec p);
                 sp_Instances := insts |} |}.

Lemma allocate_conflict st auto explicit :
  is_Port auto = None -> is_Port explicit = Some DefaultFirstPort ->
  DefaultFirstPort ∉ al_used st -> allocate_instances st [auto; explicit] = None.
Proof.
  intros Ha He Hu. cbn [allocate_instances].
  destruct (allocate_instance st auto) as [[st1 port]|] eqn:E; [|done]. cbn [mbind option_bind].
  assert (port = DefaultFirstPort) as ->.
  { unfold allocate_instance, choose_port in E. rewrite Ha, first_free_here in E by done.
    case_bool_decide; [done|]. cbn in E. by destruct (put_envs _ _); [injection E as <- <-|]. }
  apply allocate_instance_length in E.
  assert (allocate_instance st1 explicit = None) as ->; [|done].
  unfold allocate_instance, choose_port. rewrite He, E, bool_decide_eq_true_2; [done|].
  apply elem_of_app. right. by apply list_elem_of_singleton.
Qed.

Lemma allocate_explicit_first st explicit auto :
  is_Port explicit = Some DefaultFirstPort -> is_Port auto = None ->
  DefaultFirstPort ∉ al_used st ->
  NoDup ((ev_Name <$> al_env st) ++ env_names explicit ++ env_names auto) ->
  Z.of_nat (length (al_used st)) + 2 < max_port_demand ->
  exists st' ports, allocate_instances st [explicit; auto] = Some (st', ports).
Proof.
  intros He Ha Hu Hnd Hlen.
  set (st1 := {| al_used := al_used st ++ [DefaultFirstPort];
                 al_env := al_env st ++ instance_env explicit DefaultFirstPort |}).
  assert (allocate_instance st explicit = Some (st1, DefaultFirstPort)) as E.
  { unfold allocate_instance, choose_port. rewrite He, bool_decide_eq_false_2 by done.
    rewrite put_envs_fresh; [done|]. rewrite instance_env_names.
    rewrite app_assoc in Hnd. by apply NoDup_app in Hnd as (? & _). }
  destruct (allocate_instances_auto [auto] st1 []) as (st' & ports & E' & _).
  - unfold st1. cbn. rewrite length_app. cbn. lia.
  - by apply Forall_singleton.
  - unfold st1. cbn. by rewrite fmap_app, instance_env_names, !app_nil_r, <-app_assoc.
  - exists st', (DefaultFirstPort :: ports). cbn in *. rewrite E. cbn. by rewrite E'.
Qed.

Lemma ConfigureWorkload_adds u wl matches wl' :
  port_demand wl matches < 2 ^ 31 ->
  ConfigureWorkload u wl matches = Ret (Configured wl') ->
  container_names wl' = container_names wl ++ (container_name <$> matches).
Proof.
  intros Hd E. destruct (ConfigureWorkload_shape u wl matches Hd) as (r & E' & Hr).
  rewrite E in E'. injection E' as <-. destruct Hr as (env & added & -> & Hn).
  unfold container_names. rewrite PodSpec_SetPodSpec. cbn [ps_Containers].
  by rewrite <-list_fmap_compose, fmap_app, <-Hn.
Qed.

End two_instances.

(** ** The command line *)
Section command_line.
Context `{Hk8s : K8sTypes} `{Hlab : LabelsPkg}.

Definition bool_entry (k : string) (v : option bool) : list string :=
  match v with Some b => [k +:+ "=" +:+ format_bool b] | None => [] end.

(** The parameters of an instance, in alphabetic order. *)
Definition canonical_params (inst : InstanceSpec) (port : Z) : list string :=
  bool_entry "auto-iam-authn" (is_AutoIAMAuthN inst)
  ++ ["port=" +:+ format_d port] ++ bool_entry "private-ip" (is_PrivateIP inst).

Definition key_value : string * string -> string := fun '(k, v) => k +:+ "=" +:+ v.

Lemma bool_param_entries k v m :
  m !! k = None ->
  key_value <$> map_to_list (bool_param k v m) ≡ₚ bool_entry k v ++ (key_value <$> map_to_list m).
Proof.
  intros Hk. unfold bool_param, bool_entry. destruct v as [b|]; [|done].
  by rewrite map_to_list_insert.
Qed.

Lemma instance_params_entries inst port :
  key_value <$> map_to_list (instance_params inst port) ≡ₚ canonical_params inst port.
Proof.
  unfold instance_params, canonical_params.
  rewrite !bool_param_entries.
  - rewrite insert_empty, map_to_list_singleton. cbn [fmap list_fmap key_value].
    rewrite (Permutation_app_comm (bool_entry "private-ip" _)), <-app_assoc. done.
  - done.
  - unfold bool_param. by destruct (is_AutoIAMAuthN inst).
Qed.

Lemma canonical_params_sorted inst port : Sorted String.le (canonical_params inst port).
Proof.
  unfold canonical_params, bool_entry.
  destruct (is_AutoIAMAuthN inst), (is_PrivateIP inst); cbn; repeat constructor.
Qed.

Lemma instance_arg_canonical `{MapRange} inst port :
  instance_arg inst port
  = is_ConnectionString inst +:+ "?" +:+ Join (canonical_params inst port) "&".
Proof.
  unfold instance_arg. change (fun '(k, v) => k +:+ "=" +:+ v) with key_value.
  assert (sort_Strings (key_value <$> range_map (instance_params inst port))
          = canonical_params inst port) as ->.
  { apply (Sorted_unique String.le); [|apply canonical_params_sorted|].
    - apply Sorted_merge_sort; apply _.
    - by rewrite sort_Strings_perm, range_map_perm, instance_params_entries. }
  unfold canonical_params. rewrite !length_app. cbn [length].
  destruct (0 <? _) eqn:E; [done|]. apply Z.ltb_ge in E. lia.
Qed.

(** Two iteration orders give the same run. *)
Lemma fold_range_ext {S A X} (f g : A -> X -> Go S A) l acc s :
  (forall acc x s, f acc x s = g acc x s) -> fold_range f acc l s = fold_range g acc l s.
Proof.
  intros Hfg. revert acc s. induction l as [|x l IH]; intros acc s; cbn; [done|].
  unfold mbind, Go_bind. rewrite Hfg. destruct (g acc x s) as [[a s']| |]; [|done..]. apply IH.
Qed.

Lemma Go_bind_ext {S A B} (m m' : Go S A) (f g : A -> Go S B) s :
  m s = m' s -> (forall a s', f a s' = g a s') -> (a ← m; f a) s = (a ← m'; g a) s.
Proof.
  intros Hm Hf. unfold mbind, Go_bind. rewrite Hm.
  destruct (m' s) as [[a s']| |]; [apply Hf|done..].
Qed.

Lemma updateContainer_order_irrelevant `{UnicodeTables} (r1 r2 : MapRange) p c s :
  @updateContainer _ _ _ r1 p c s = @updateContainer _ _ _ r2 p c s.
Proof.
  unfold updateContainer. destruct (apw_override p); [done|].
  repeat first [apply Go_bind_ext; [|intros ? ?]|done|case_match].
  apply fold_range_ext. intros args inst s1. unfold useInstance.
  repeat first [apply Go_bind_ext; [done|intros ? ?]].
  by rewrite !instance_arg_canonical.
Qed.

Lemma update_order_irrelevant `{UnicodeTables} (r1 r2 : MapRange) wl matches s :
  @update _ _ _ r1 wl matches s = @update _ _ _ r2 wl matches s.
Proof.
  unfold update. do 2 (apply Go_bind_ext; [done|intros ? ?]).
  apply Go_bind_ext; [|done]. apply fold_range_ext. intros cs p s1.
  apply Go_bind_ext; [|done]. apply updateContainer_order_irrelevant.
Qed.

End command_line.

(** ** Theorems *)
Section theorems.
Context `{Hk8s : K8sTypes} `{Hlab : LabelsPkg} `{Htab : UnicodeTables} `{Hrange : MapRange}.

(** C6: As long as no resource lists a connection twice, no two listeners of a
    pod that has been configured collide.  The condition is a part of
    [well_formed], and nothing in the code enforces it: an entry that repeats
    a connection may be given the port of the first one ([Repeated]).  Also
    assumed are resources with distinct names, as
    [FindMatchingAuthProxyWorkloads] returns them, and fewer than 2^29 ports.
    Then every instance of every resource has a port (explicit ports are
    honoured, the others are the least free ports from 5000 on, in order), the
    ports are pairwise distinct, and none is a port of the workload's own
    containers.  The added containers are the proxy containers started with
    these ports; the health-check port of each is free of the workload's ports
    and of those of the instances placed before. *)
Theorem ConfigureWorkload_ports u wl matches wl'
    (Hwf : well_formed matches) (Hdemand : port_demand wl matches < max_port_demand)
    (Hrun : ConfigureWorkload u wl matches = Ret (Configured wl')) :
  exists allocs, placed_in u wl matches allocs wl'
    /\ port_rule (workload_ports wl) (allocs ≫= placed_instances)
    /\ health_rule (workload_ports wl) allocs
    /\ NoDup ((allocs ≫= placed_instances).*2)
    /\ (forall port, port ∈ (allocs ≫= placed_instances).*2 -> port ∉ workload_ports wl).
Proof.
  destruct (ConfigureWorkload_placed u wl matches wl' Hwf Hdemand Hrun) as (allocs & Hp & Hr & Hh).
  exists allocs. split_and!; [done|done|done|apply (port_rule_NoDup _ _ Hr)..].
Qed.

(** C7: Every container of a configured pod, the workload's and the operator's,
    finds the connection settings of every instance in its environment: the
    operator's variables are there with exactly one value, the other variables
    of the container are unchanged and keep their order, and nothing else in
    the container changes. *)
Theorem ConfigureWorkload_env u wl matches wl'
    (Hwf : well_formed matches) (Hdemand : port_demand wl matches < max_port_demand)
    (Hrun : ConfigureWorkload u wl matches = Ret (Configured wl')) :
  exists allocs, placed_in u wl matches allocs wl'
    /\ Forall2 (fun c c' =>
         (forall e, e ∈ c_Env c' <->
            e ∈ managed_env allocs
            \/ (e ∈ c_Env c /\ ev_Name e ∉ ev_Name <$> managed_env allocs))
         /\ unmanaged (ev_Name <$> managed_env allocs) (c_Env c')
            = unmanaged (ev_Name <$> managed_env allocs) (c_Env c)
         /\ set_Env [] c' = set_Env [] c)
       (ps_Containers (PodSpecOf wl) ++ (placed_container u <$> allocs))
       (ps_Containers (PodSpecOf wl')).
Proof.
  destruct (ConfigureWorkload_placed u wl matches wl' Hwf Hdemand Hrun) as (allocs & Hp & _).
  exists allocs. split; [done|]. destruct Hp as (_ & _ & env & -> & Hnd & Hin).
  rewrite PodSpec_SetPodSpec. cbn [ps_Containers]. apply Forall2_fmap_r, Forall_Forall2_diag.
  assert (forall n, n ∈ ev_Name <$> env <-> n ∈ ev_Name <$> managed_env allocs) as Hnames.
  { intros n. rewrite !list_elem_of_fmap. by setoid_rewrite Hin. }
  apply Forall_forall. intros c _. split_and!; [|unfold with_env; cbn [c_Env set_Env]|done].
  - intros e. unfold with_env. cbn [c_Env set_Env].
    by rewrite apply_envs_elem, Hnames, Hin by done.
  - apply apply_envs_unmanaged. intros n. by rewrite Hnames.
Qed.

(** C33: The result does not depend on the order in which Go iterates over the
    parameter maps: pods of the same workload get the same command lines, with
    the parameters of each instance in alphabetic order. *)
Theorem ConfigureWorkload_deterministic (r1 r2 : MapRange) u wl matches :
  @ConfigureWorkload _ _ _ r1 u wl matches = @ConfigureWorkload _ _ _ r2 u wl matches
  /\ (forall inst port, @instance_arg r1 inst port
        = is_ConnectionString inst +:+ "?" +:+ Join (canonical_params inst port) "&").
Proof.
  split; [|intros inst port; apply instance_arg_canonical].
  unfold ConfigureWorkload. by rewrite update_order_irrelevant with (r2 := r2).
Qed.

(** C32: Ports the operator chooses itself never conflict: resources that ask for
    no explicit port, and name pairwise distinct environment variables, can
    always be applied together. *)
Theorem automatic_ports_never_conflict u wl matches
    (Hwf : well_formed matches) (Hdemand : port_demand wl matches < max_port_demand)
    (Hauto : Forall (fun inst => is_Port inst = None)
               (matches ≫= fun p => sp_Instances (apw_Spec p)))
    (Henv : NoDup ((matches ≫= fun p => sp_Instances (apw_Spec p)) ≫= env_names)) :
  exists wl', ConfigureWorkload u wl matches = Ret (Configured wl').
Proof.
  pose proof (ConfigureWorkload_spec u wl matches Hwf Hdemand) as Href.
  unfold configure_spec in Href.
  destruct (allocate_proxies_auto u matches (initial_alloc wl)) as (st & cs & E); try done.
  { pose proof (initial_alloc_length wl). unfold port_demand in Hdemand. lia. }
  rewrite E in Href. eexists. exact Href.
Qed.

(** All proxy containers of a pod listen on the same health-check port: the
    port that [addHealthCheck] finds is not recorded, so unless the workload or
    an instance uses port 9801, every container is started with
    --http-port=9801, however many there are (containers of a pod share one
    network). *)
Theorem http_port_shared u wl matches wl'
    (Hwf : well_formed matches) (Hdemand : port_demand wl matches <= 4801)
    (Hrun : ConfigureWorkload u wl matches = Ret (Configured wl'))
    (Hwl : DefaultHealthCheckPort ∉ workload_ports wl)
    (Hinst : Forall (fun inst => is_Port inst <> Some DefaultHealthCheckPort)
               (matches ≫= fun p => sp_Instances (apw_Spec p))) i p
    (Hp : matches !! i = Some p) (Ho : apw_override p = None) :
  exists c, ps_Containers (PodSpecOf wl') !! (length (ps_Containers (PodSpecOf wl)) + i)%nat = Some c
    /\ c_Name c = container_name p /\ http_port_flag DefaultHealthCheckPort ∈ c_Args c.
Proof.
  destruct (ConfigureWorkload_placed u wl matches wl' Hwf) as (allocs & Hpl & Hr & Hh);
    [unfold max_port_demand; lia|done|].
  destruct (placed_in_lookup u wl matches allocs wl' i p Hpl Hp)
    as (a & env & Ha & Hap & _ & Hc).
  destruct Hpl as (Hm & Hall & _).
  pose proof (all_placed_instances allocs Hall) as Hsub. rewrite Hm in Hsub.
  apply placed_elem_used in Hh; [|done|].
  2:{ eapply port_rule_avoids; [exact Hr| |].
      - rewrite Forall_forall in Hinst. apply Forall_forall. intros [inst port] Hin.
        apply Hinst. eapply elem_of_submseteq; [|by apply sublist_submseteq].
        apply list_elem_of_fmap. by exists (inst, port).
      - apply sublist_length in Hsub. rewrite length_fmap in Hsub.
        unfold port_demand, DefaultFirstPort, DefaultHealthCheckPort in *. lia. }
  rewrite Forall_lookup in Hh. specialize (Hh _ _ Ha). rewrite Hc. eexists. split; [done|].
  unfold placed_container. rewrite Hap, Ho, Hh. split; [done|]. left.
Qed.

(** The operator does not look ahead when it chooses a port: an instance
    without a port that comes before one that asks for port 5000 takes that
    port, and the pod is refused with a conflict, although the same two
    instances in the other order can be applied. *)
Theorem automatic_port_takes_explicit u wl p auto explicit
    (Hp : apw_Name p <> "") (Ho : apw_override p = None)
    (Hauto : is_Port auto = None) (Hexp : is_Port explicit = Some DefaultFirstPort)
    (Hne : is_ConnectionString auto <> is_ConnectionString explicit)
    (Henv : NoDup (env_names explicit ++ env_names auto))
    (Hwl : DefaultFirstPort ∉ workload_ports wl)
    (Hlen : Z.of_nat (length (workload_ports wl)) + 2 < max_port_demand) :
  (exists e, ConfigureWorkload u wl [set_Instances [auto; explicit] p] = Ret (ConfigFailed e))
  /\ (exists wl', ConfigureWorkload u wl [set_Instances [explicit; auto] p]
                  = Ret (Configured wl')).
Proof.
  assert (DefaultFirstPort ∉ al_used (initial_alloc wl)) as Hused.
  { cbn. rewrite add_ports_elem_of, elem_of_nil. tauto. }
  assert (forall insts, NoDup (is_ConnectionString <$> insts) ->
            well_formed [set_Instances insts p]) as Hwf.
  { intros insts Hnd. split; [apply NoDup_singleton|]. by apply Forall_singleton. }
  assert (forall a b, port_demand wl [set_Instances [a; b] p] < max_port_demand) as Hdemand.
  { intros a b. unfold port_demand. cbn. lia. }
  split.
  - pose proof (ConfigureWorkload_spec u wl [set_Instances [auto; explicit] p]) as Href.
    unfold configure_spec, allocate_proxies, allocate_proxy in Href.
    change (apw_override (set_Instances [auto; explicit] p)) with (apw_override p) in Href.
    cbn [apw_Spec set_Instances sp_Instances] in Href.
    rewrite Ho, allocate_conflict in Href by done. cbn in Href.
    destruct Href as (e & E & _); [|done|by exists e].
    apply Hwf. apply NoDup_cons. split; [by intros ?%list_elem_of_singleton|apply NoDup_singleton].
  - pose proof (ConfigureWorkload_spec u wl [set_Instances [explicit; auto] p]) as Href.
    unfold configure_spec, allocate_proxies, allocate_proxy in Href.
    change (apw_override (set_Instances [explicit; auto] p)) with (apw_override p) in Href.
    destruct (allocate_explicit_first (initial_alloc wl) explicit auto) as (st & ports & E);
      [done..|by cbn|cbn; pose proof (initial_alloc_length wl); cbn in *; lia|].
    cbn [apw_Spec set_Instances sp_Instances] in Href. rewrite Ho, E in Href.
    eexists. apply Href; [|done]. apply Hwf. apply NoDup_cons.
    split; [by intros E'%list_elem_of_singleton|apply NoDup_singleton].
Qed.

(** Configuring a pod twice adds every proxy container twice: the containers
    of the earlier run are neither replaced nor removed. *)
Theorem reapplying_duplicates u wl matches wl1 wl2
    (Hdemand1 : port_demand wl matches < 2 ^ 31) (Hdemand2 : port_demand wl1 matches < 2 ^ 31)
    (Hrun1 : ConfigureWorkload u wl matches = Ret (Configured wl1))
    (Hrun2 : ConfigureWorkload u wl1 matches = Ret (Configured wl2)) :
  container_names wl2
  = container_names wl ++ (container_name <$> matches) ++ (container_name <$> matches).
Proof.
  assert (forall wl wl', port_demand wl matches < 2 ^ 31 ->
            ConfigureWorkload u wl matches = Ret (Configured wl') ->
            container_names wl' = container_names wl ++ (container_name <$> matches)) as Hadd.
  { intros w w' Hd E. by apply ConfigureWorkload_adds with (u := u). }
  by rewrite (Hadd _ _ Hdemand2 Hrun2), (Hadd _ _ Hdemand1 Hrun1), <-app_assoc.
Qed.

End theorems.

(** ** Witnesses *)
Section witnesses.
Import ConcreteInstances.
#[local] Existing Instance in_order.

(** [web_pod] with the proxies of two resources. *)
Definition web_pod_with (matches : list AuthProxyWorkload) : PodWorkload :=
  match ConfigureWorkload ua web_pod matches with
  | Ret (Configured wl') => wl'
  | _ => web_pod
  end.

Lemma ConfigureWorkload_ports_witness :
  exists allocs, placed_in ua web_pod [orders_apw; users_apw] allocs
                   (web_pod_with [orders_apw; users_apw])
    /\ port_rule (workload_ports web_pod) (allocs ≫= placed_instances)
    /\ health_rule (workload_ports web_pod) allocs
    /\ NoDup ((allocs ≫= placed_instances).*2)
    /\ (forall port, port ∈ (allocs ≫= placed_instances).*2 -> port ∉ workload_ports web_pod).
Proof.
  apply ConfigureWorkload_ports.
  - by_evaluation.
  - vm_compute. reflexivity.
  - vm_compute. reflexivity.
Defined.

Lemma ConfigureWorkload_env_witness :
  exists allocs, placed_in ua web_pod [orders_apw; users_apw] allocs
                   (web_pod_with [orders_apw; users_apw])
    /\ Forall2 (fun c c' =>
         (forall e, e ∈ c_Env c' <->
            e ∈ managed_env allocs
            \/ (e ∈ c_Env c /\ ev_Name e ∉ ev_Name <$> managed_env allocs))
         /\ unmanaged (ev_Name <$> managed_env allocs) (c_Env c')
            = unmanaged (ev_Name <$> managed_env allocs) (c_Env c)
         /\ set_Env [] c' = set_Env [] c)
       (ps_Containers (PodSpecOf web_pod) ++ (placed_container ua <$> allocs))
       (ps_Containers (PodSpecOf (web_pod_with [orders_apw; users_apw]))).
Proof.
  apply ConfigureWorkload_env.
  - by_evaluation.
  - vm_compute. reflexivity.
  - vm_compute. reflexivity.
Defined.

Lemma automatic_ports_never_conflict_witness :
  exists wl', ConfigureWorkload ua web_pod
    [users_apw; set_Instances [mk_instance "proj:region:logs" None "" "LOG_HOST"] orders_apw]
    = Ret (Configured wl').
Proof.
  apply automatic_ports_never_conflict.
  - by_evaluation.
  - vm_compute. reflexivity.
  - by_evaluation.
  - by_evaluation.
Defined.

Lemma http_port_shared_witness :
  exists c, ps_Containers (PodSpecOf (web_pod_with [orders_apw; users_apw])) !! 2%nat = Some c
    /\ c_Name c = container_name users_apw /\ http_port_flag DefaultHealthCheckPort ∈ c_Args c.
Proof.
  apply (http_port_shared ua web_pod [orders_apw; users_apw]) with (i := 1%nat).
  - by_evaluation.
  - vm_compute. discriminate.
  - vm_compute. reflexivity.
  - by_evaluation.
  - by_evaluation.
  - reflexivity.
  - reflexivity.
Defined.

Definition plain_pod : PodWorkload := mk_pod "default" "plain" ∅ [mk_container "main" [80] []].

Lemma automatic_port_takes_explicit_witness :
  (exists e, ConfigureWorkload ua plain_pod
     [set_Instances [mk_instance "a" None "A_PORT" ""; mk_instance "b" (Some 5000) "B_PORT" ""]
        orders_apw] = Ret (ConfigFailed e))
  /\ (exists wl', ConfigureWorkload ua plain_pod
     [set_Instances [mk_instance "b" (Some 5000) "B_PORT" ""; mk_instance "a" None "A_PORT" ""]
        orders_apw] = Ret (Configured wl')).
Proof.
  apply automatic_port_takes_explicit; try reflexivity; try discriminate.
  - by_evaluation.
  - by_evaluation.
Defined.

Lemma reapplying_duplicates_witness :
  container_names (
    match ConfigureWorkload ua (web_pod_with [users_apw]) [users_apw] with
    | Ret (Configured wl2) => wl2
    | _ => web_pod
    end)
  = ["web"; "csql-default-users"; "csql-default-users"].
Proof.
  erewrite (reapplying_duplicates ua web_pod [users_apw] (web_pod_with [users_apw]));
    vm_compute; reflexivity.
Defined.

End witnesses.
