(* ===== verification/ProxyArgs.v ===== *)
(** * The command line of a proxy container, read back

    The operator tells each proxy container what to do only through its
    argument list.  This file reads such a list again, as a reader of the
    documented format would ([--name=value] flags, and one
    [connection?key=value&...] argument per instance), and shows that the
    reader finds exactly what the resource asked for.

    The reader is a specification: it stands for no code under [src/], and it
    is written without looking at how [updateContainer] builds the list. *)

From S2P Require Import Prelude GoStd Api Concrete Names Workload Fixtures PodSpec Allocation.
From S2P Require Import Refinement Configure.
From Stdlib Require Import Ascii.
#[local] Open Scope Z_scope.
#[local] Arguments Ascii.eqb : simpl never.

(** ** Reading text *)

(** [c] does not occur in the text. *)
Definition free_of (c : ascii) (s : string) : bool := string_forall (fun d => negb (c =? d)%char) s.

(** What stands before and after the first [sep]. *)
Fixpoint cut (sep : ascii) (s : string) : option (string * string) :=
  match s with
  | EmptyString => None
  | String c s =>
      if (sep =? c)%char then Some ("", s)
      else '(before, after) ← cut sep s; Some (String c before, after)
  end.

(** The fields of a text separated by [sep]. *)
Fixpoint fields (sep : ascii) (s : string) : list string :=
  match s with
  | EmptyString => [""]
  | String c s =>
      match fields sep s with
      | [] => []
      | field :: rest => if (sep =? c)%char then "" :: field :: rest
                         else String c field :: rest
      end
  end.

Definition digit_value (c : ascii) : option Z :=
  let n := Z.of_N (N_of_ascii c) - 48 in
  if (0 <=? n) && (n <? 10) then Some n else None.

Fixpoint read_digits (acc : Z) (s : string) : option Z :=
  match s with
  | EmptyString => Some acc
  | String c s => d ← digit_value c; read_digits (10 * acc + d) s
  end.

Definition read_number (s : string) : option Z :=
  match s with
  | EmptyString => None
  | String "-"%char s => Z.opp <$> read_digits 0 s
  | s => read_digits 0 s
  end.

Definition read_bool (s : string) : option bool :=
  if bool_decide (s = "true") then Some true
  else if bool_decide (s = "false") then Some false else None.

Lemma free_of_app c s1 s2 : free_of c (s1 +:+ s2) = free_of c s1 && free_of c s2.
Proof. apply string_forall_app. Qed.

Lemma cut_app sep s1 s2 : free_of sep s1 = true -> cut sep (s1 +:+ String sep s2) = Some (s1, s2).
Proof.
  induction s1 as [|c s1 IH].
  - intros _. change (cut sep (String sep s2) = Some ("", s2)). cbn [cut]. by rewrite Ascii.eqb_refl.
  - rewrite string_app_cons. cbn. rewrite andb_true_iff, negb_true_iff.
    intros [-> Hs]. by rewrite IH.
Qed.

Lemma fields_cons sep s : exists field rest, fields sep s = field :: rest.
Proof.
  induction s as [|c s (field & rest & IH)]; cbn; [by eexists _, _|]. rewrite IH.
  destruct (sep =? c)%char; by eexists _, _.
Qed.

Lemma fields_free sep s : free_of sep s = true -> fields sep s = [s].
Proof.
  induction s as [|c s IH]; cbn; [done|].
  rewrite andb_true_iff, negb_true_iff. intros [-> Hs]. by rewrite IH.
Qed.

Lemma fields_app sep s1 s2 :
  free_of sep s1 = true -> fields sep (s1 +:+ String sep s2) = s1 :: fields sep s2.
Proof.
  destruct (fields_cons sep s2) as (f & r & E).
  induction s1 as [|c s1 IH].
  - intros _. change (fields sep (String sep s2) = "" :: fields sep s2).
    cbn [fields]. by rewrite E, Ascii.eqb_refl.
  - rewrite string_app_cons. cbn. rewrite andb_true_iff, negb_true_iff.
    intros [-> Hs]. by rewrite IH.
Qed.

Lemma fields_Join sep l :
  l <> [] -> Forall (fun s => free_of sep s = true) l ->
  fields sep (Join l (String sep "")) = l.
Proof.
  intros Hl Hf. induction Hf as [|s l Hs Hf IH]; [done|]. unfold Join in *. cbn [String.concat].
  destruct l as [|s' l]; [by apply fields_free|].
  change (String sep "" +:+ ?t) with (String sep t). by rewrite fields_app, IH.
Qed.

(** ** Numbers *)
Definition digit_or_sign (c : ascii) : bool := (c =? "-")%char || bool_decide (is_Some (digit_value c)).

Lemma pretty_N_char_value n :
  (n < 10)%N -> digit_value (pretty_N_char n) = Some (Z.of_N n).
Proof.
  intros Hn. destruct n as [|p]; [done|].
  do 4 (destruct p as [p|p|]; try done); lia.
Qed.

Lemma read_pretty_N_go n s :
  read_digits 0 (pretty_N_go n s) = read_digits (Z.of_N n) s.
Proof.
  revert s. induction (N.lt_wf_0 n) as [n _ IH]; intros s.
  destruct (decide (n = 0)%N) as [->|Hn]; [done|].
  rewrite pretty_N_go_step, IH by (try apply N.div_lt; lia). cbn [read_digits].
  rewrite pretty_N_char_value by (apply N.mod_lt; lia). cbn [mbind option_bind].
  f_equal. rewrite (N.div_mod n 10) at 3 by lia. lia.
Qed.

Lemma pretty_N_go_digits n s :
  string_forall digit_or_sign s = true -> string_forall digit_or_sign (pretty_N_go n s) = true.
Proof.
  revert s. induction (N.lt_wf_0 n) as [n _ IH]; intros s Hs.
  destruct (decide (n = 0)%N) as [->|Hn]; [done|].
  rewrite pretty_N_go_step by lia. apply IH; [apply N.div_lt; lia|]. cbn.
  unfold digit_or_sign at 1. rewrite pretty_N_char_value by (apply N.mod_lt; lia).
  by rewrite orb_true_r.
Qed.

Lemma read_number_pretty_pos p :
  read_digits 0 (pretty (N.pos p)) = Some (Zpos p)
  /\ string_forall digit_or_sign (pretty (N.pos p)) = true
  /\ (forall s, pretty (N.pos p) <> "-" +:+ s) /\ pretty (N.pos p) <> "".
Proof.
  unfold pretty, pretty_N. rewrite decide_False by done.
  rewrite read_pretty_N_go. split_and!.
  - done.
  - by apply pretty_N_go_digits.
  - intros s. by apply pretty_N_go_ne_dash.
  - intros E. pose proof (read_pretty_N_go (N.pos p) "") as R. rewrite E in R. done.
Qed.

Lemma read_number_plain s :
  s <> "" -> (forall s', s <> "-" +:+ s') -> read_number s = read_digits 0 s.
Proof.
  destruct s as [|c s]; [done|]. intros _ Hd. unfold read_number.
  destruct c as [[] [] [] [] [] [] [] []]; try reflexivity.
  destruct (Hd s). reflexivity.
Qed.

Lemma read_number_format_d z : read_number (format_d z) = Some z.
Proof.
  destruct z as [|p|p]; [done| |];
    destruct (read_number_pretty_pos p) as (Hr & _ & Hd & Hne).
  - rewrite <-Hr. change (format_d (Zpos p)) with (pretty (N.pos p)). by apply read_number_plain.
  - change (format_d (Zneg p)) with (String "-"%char (pretty (N.pos p))).
    cbn [read_number]. by rewrite Hr.
Qed.

Lemma format_d_chars z : string_forall digit_or_sign (format_d z) = true.
Proof.
  destruct z as [|p|p]; [done|apply (read_number_pretty_pos p)|].
  change (format_d (Zneg p)) with (String "-"%char (pretty (N.pos p))). cbn.
  apply (read_number_pretty_pos p).
Qed.

Lemma format_d_free c z : digit_or_sign c = false -> free_of c (format_d z) = true.
Proof.
  intros Hc. eapply string_forall_impl; [|apply format_d_chars]. intros d Hd. cbn in Hd.
  apply negb_true_iff, Ascii.eqb_neq. congruence.
Qed.

#[local] Arguments read_number : simpl never.
#[local] Arguments format_d : simpl never.

(** ** Reading the arguments of a proxy *)

Definition starts_with_dash (s : string) : bool :=
  match s with String c _ => (c =? "-")%char | EmptyString => false end.

(** What the proxy is asked to do for one instance. *)
Record ProxyInstance := {
  pi_connection : string;
  pi_port : option Z;
  pi_auto_iam_authn : option bool;
  pi_private_ip : option bool
}.

(** The value of the first parameter called [key]. *)
Definition named (key : string) (entry : string * string) : option string :=
  if bool_decide (entry.1 = key) then Some entry.2 else None.

Definition parameter (key : string) (params : list (string * string)) : option string :=
  head (omap (named key) params).

(** [connection?key=value&key=value] *)
Definition read_instance (arg : string) : option ProxyInstance :=
  '(connection, query) ← cut "?" arg;
  let params := omap (cut "=") (fields "&" query) in
  Some {| pi_connection := connection;
          pi_port := parameter "port" params ≫= read_number;
          pi_auto_iam_authn := parameter "auto-iam-authn" params ≫= read_bool;
          pi_private_ip := parameter "private-ip" params ≫= read_bool |}.

(** The value of [--name=value]. *)
Definition flag_value (name arg : string) : option string := cut "=" arg ≫= named ("--" +:+ name).

Definition flag (name : string) (args : list string) : option string :=
  head (omap (flag_value name) args).

(** What a proxy container is asked to do. *)
Record ProxyCommand := {
  pc_http_port : option Z;
  pc_user_agent : option string;
  pc_sqladmin_api_endpoint : option string;
  pc_max_connections : option Z;
  pc_max_sigterm_delay : option Z;
  pc_instances : list ProxyInstance
}.

Definition read_argument (arg : string) : option ProxyInstance :=
  if starts_with_dash arg then None else read_instance arg.

Definition read_command (args : list string) : ProxyCommand := {|
  pc_http_port := flag "http-port" args ≫= read_number;
  pc_user_agent := flag "user-agent" args;
  pc_sqladmin_api_endpoint := flag "sqladmin-api-endpoint" args;
  pc_max_connections := flag "max-connections" args ≫= read_number;
  pc_max_sigterm_delay := flag "max-sigterm-delay" args ≫= read_number;
  pc_instances := omap read_argument args |}.

(** ** What the resource asks for *)
Section requests.
Context `{Hk8s : K8sTypes} `{Hlab : LabelsPkg}.

Definition requested_instance (inst : InstanceSpec) (port : Z) : ProxyInstance := {|
  pi_connection := is_ConnectionString inst;
  pi_port := Some port;
  pi_auto_iam_authn := is_AutoIAMAuthN inst;
  pi_private_ip := is_PrivateIP inst |}.

(** A limit of zero and an empty endpoint mean that the proxy's own default is
    to be used. *)
Definition nonzero (n : Z) : option Z := if n =? 0 then None else Some n.
Definition nonempty (s : string) : option string := if bool_decide (s = "") then None else Some s.

Definition requested_command (u : Updater) (p : AuthProxyWorkload) (health : Z) (ports : list Z)
    : ProxyCommand :=
  let spec := sp_AuthProxyContainer (apw_Spec p) in {|
  pc_http_port := Some health;
  pc_user_agent := Some (userAgent u);
  pc_sqladmin_api_endpoint := ac ← spec; nonempty (ac_SQLAdminAPIEndpoint ac);
  pc_max_connections := ac ← spec; n ← ac_MaxConnections ac; nonzero n;
  pc_max_sigterm_delay := ac ← spec; n ← ac_MaxSigtermDelay ac; nonzero n;
  pc_instances := zip_with requested_instance (sp_Instances (apw_Spec p)) ports |}.

(** A connection name that cannot be mistaken for a flag or for one with
    parameters.  ([ConnectionString] has no format of its own in the schema of
    the resource.) *)
Definition plain_connection (inst : InstanceSpec) : bool :=
  free_of "?" (is_ConnectionString inst) && negb (starts_with_dash (is_ConnectionString inst)).

Definition plain_connections (p : AuthProxyWorkload) : bool :=
  forallb plain_connection (sp_Instances (apw_Spec p)).

(** ** One instance *)
Context `{Hrange : MapRange}.

Lemma canonical_params_fields inst port :
  fields "&" (Join (canonical_params inst port) "&") = canonical_params inst port.
Proof.
  apply fields_Join; unfold canonical_params, bool_entry.
  - destruct (is_AutoIAMAuthN inst); discriminate.
  - rewrite !Forall_app. split_and!.
    + destruct (is_AutoIAMAuthN inst) as [[]|]; repeat constructor.
    + constructor; [|constructor]. rewrite free_of_app. by rewrite format_d_free.
    + destruct (is_PrivateIP inst) as [[]|]; repeat constructor.
Qed.

Lemma cut_port port : cut "=" ("port=" +:+ format_d port) = Some ("port", format_d port).
Proof. reflexivity. Qed.

Lemma read_instance_arg inst port :
  plain_connection inst = true ->
  read_argument (instance_arg inst port) = Some (requested_instance inst port).
Proof.
  unfold plain_connection. rewrite andb_true_iff, negb_true_iff. intros [Hfree Hdash].
  rewrite instance_arg_canonical. unfold read_argument.
  assert (starts_with_dash (is_ConnectionString inst +:+ "?" +:+ Join (canonical_params inst port) "&")
          = false) as ->.
  { by destruct (is_ConnectionString inst). }
  unfold read_instance. change ("?" +:+ ?s) with (String "?" s). rewrite cut_app by done.
  cbn [mbind option_bind]. rewrite canonical_params_fields. unfold canonical_params, requested_instance.
  rewrite !omap_app. cbn [omap list_omap app]. rewrite cut_port, <-(read_number_format_d port).
  by destruct (is_AutoIAMAuthN inst) as [[]|], (is_PrivateIP inst) as [[]|].
Qed.

(** ** The whole command line *)
Lemma flag_value_no_dash name arg : starts_with_dash arg = false -> flag_value name arg = None.
Proof.
  destruct arg as [|c arg]; [done|]. cbn [starts_with_dash]. intros Hc.
  apply Ascii.eqb_neq in Hc. unfold flag_value. cbn [cut].
  destruct ("=" =? c)%char; [done|]. destruct (cut "=" arg) as [[before after]|]; [|done].
  cbn [mbind option_bind]. unfold named. rewrite bool_decide_eq_false_2; [done|].
  cbn. change ("--" +:+ name) with (String "-" (String "-" name)). congruence.
Qed.

Lemma instance_arg_no_dash inst port :
  plain_connection inst = true -> starts_with_dash (instance_arg inst port) = false.
Proof.
  unfold plain_connection. rewrite andb_true_iff, negb_true_iff. intros [_ Hdash].
  rewrite instance_arg_canonical. by destruct (is_ConnectionString inst).
Qed.

Lemma flags_of_instances name insts ports :
  forallb plain_connection insts = true ->
  omap (flag_value name) (zip_with instance_arg insts ports) = [].
Proof.
  revert ports. induction insts as [|inst insts IH]; intros [|port ports]; cbn; try done.
  rewrite andb_true_iff. intros [Hi Hs].
  by rewrite flag_value_no_dash, IH by (done || by apply instance_arg_no_dash).
Qed.

Lemma read_instances insts ports :
  forallb plain_connection insts = true ->
  omap read_argument (zip_with instance_arg insts ports) = zip_with requested_instance insts ports.
Proof.
  revert ports. induction insts as [|inst insts IH]; intros [|port ports]; cbn; try done.
  rewrite andb_true_iff. intros [Hi Hs]. by rewrite read_instance_arg, IH.
Qed.

Lemma read_flag_arguments u p health :
  omap read_argument (["--http-port=" +:+ format_d health; "--http-address=0.0.0.0";
    "--health-check"; "--structured-logs"; "--user-agent=" +:+ userAgent u] ++ proxy_flags p) = [].
Proof.
  unfold proxy_flags, number_flag. destruct (sp_AuthProxyContainer _) as [ac|]; [|done].
  repeat case_match; reflexivity.
Qed.

Lemma read_proxy_args u p health ports :
  plain_connections p = true ->
  read_command (proxy_args u p health ports) = requested_command u p health ports.
Proof.
  unfold plain_connections. intros Hplain. unfold read_command, requested_command, flag, proxy_args.
  pose proof (read_flag_arguments u p health) as Hfront. rewrite !app_assoc.
  set (front := _ ++ proxy_flags p) in *.
  rewrite !omap_app, !flags_of_instances, read_instances, Hfront, !app_nil_r by done.
  clear Hfront. subst front. unfold proxy_flags, number_flag, nonempty, nonzero.
  rewrite <-(read_number_format_d health).
  destruct (sp_AuthProxyContainer _) as [ac|]; [|done]. cbn [mbind option_bind].
  destruct (bool_decide _), (ac_MaxConnections ac) as [m|], (ac_MaxSigtermDelay ac) as [d|];
    cbn [mbind option_bind];
    rewrite <-?(read_number_format_d m), <-?(read_number_format_d d);
    try destruct (m =? 0); try destruct (d =? 0); reflexivity.
Qed.

End requests.

(** ** In a configured pod *)
Section configured.
Context `{Hk8s : K8sTypes} `{Hlab : LabelsPkg} `{Htab : UnicodeTables} `{Hrange : MapRange}.

(** Every container of the pod has the variables the operator manages. *)
Lemma placed_in_env u wl matches allocs wl' e c :
  placed_in u wl matches allocs wl' -> e ∈ managed_env allocs ->
  c ∈ ps_Containers (PodSpecOf wl') -> e ∈ c_Env c.
Proof.
  intros (_ & _ & env & -> & Hnd & Hin) He. rewrite PodSpec_SetPodSpec. cbn [ps_Containers].
  intros (c0 & -> & _)%list_elem_of_fmap. unfold with_env. cbn [c_Env set_Env].
  apply apply_envs_elem; [done|]. left. by apply Hin.
Qed.

Lemma port_rule_lookup used l k inst port :
  port_rule used l -> l !! k = Some (inst, port) ->
  (port ∉ used) /\ (forall q, is_Port inst = Some q -> port = q).
Proof.
  revert used k. induction l as [|[inst' port'] l IH]; intros used k; [done|].
  cbn [port_rule]. intros (Hp & Hq & Hr). destruct k as [|k]; cbn.
  - intros [= -> ->]. split; [done|]. intros q E. by rewrite E in Hq.
  - intros Hk. destruct (IH _ _ Hr Hk) as [Hu He]. rewrite not_elem_of_app in Hu. naive_solver.
Qed.

Lemma zip_with_take {A B C} (f : A -> B -> C) l k :
  zip_with f l (take (length l) k) = zip_with f l k.
Proof. revert k. induction l as [|x l IH]; intros [|y k]; cbn; f_equal; auto. Qed.

(** What is read back from the container of the [i]-th resource, and where its
    instances are among those placed. *)
Lemma placed_in_command u wl matches allocs wl' i p :
  placed_in u wl matches allocs wl' -> matches !! i = Some p -> apw_override p = None ->
  plain_connections p = true ->
  exists c health ports l1 l2,
    ps_Containers (PodSpecOf wl') !! (length (ps_Containers (PodSpecOf wl)) + i)%nat = Some c
    /\ c_Name c = container_name p
    /\ read_command (c_Args c) = requested_command u p health ports
    /\ length ports = length (sp_Instances (apw_Spec p))
    /\ allocs ≫= placed_instances = l1 ++ zip (sp_Instances (apw_Spec p)) ports ++ l2.
Proof.
  intros Hpl Hp Ho Hplain.
  destruct (placed_in_lookup u wl matches allocs wl' i p Hpl Hp) as (a & env & Ha & <- & Hall & Hc).
  set (insts := sp_Instances (apw_Spec (pl_proxy a))).
  assert (placed_instances a = zip insts (pl_ports a)) as Hinsts by (unfold placed_instances; by rewrite Ho).
  assert (length insts <= length (pl_ports a))%nat as Hlen.
  { unfold all_placed in Hall. rewrite Ho, Hinsts in Hall. apply (f_equal length) in Hall.
    rewrite length_fmap, length_zip_with in Hall. fold insts in Hall. lia. }
  exists (with_env env (placed_container u a)), (pl_health a), (take (length insts) (pl_ports a)),
    (take i allocs ≫= placed_instances), (drop (S i) allocs ≫= placed_instances).
  unfold placed_container in Hc |- *. rewrite Ho in Hc |- *. split_and!; [done|done| |rewrite length_take; lia|].
  - cbn [with_env set_Env c_Args proxy_container]. rewrite read_proxy_args by done.
    unfold requested_command. fold insts. by rewrite zip_with_take.
  - rewrite <-(take_drop_middle allocs i a Ha) at 1. rewrite bind_app. cbn [mbind list_bind].
    by rewrite zip_with_take, <-Hinsts.
Qed.

(** The container of a resource, as the applications of the pod find it. *)
Lemma placed_proxy u wl matches wl'
    (Hwf : well_formed matches) (Hdemand : port_demand wl matches < max_port_demand)
    (Hrun : ConfigureWorkload u wl matches = Ret (Configured wl')) i p
    (Hp : matches !! i = Some p) (Ho : apw_override p = None)
    (Hplain : plain_connections p = true) :
  exists c health ports,
    ps_Containers (PodSpecOf wl') !! (length (ps_Containers (PodSpecOf wl)) + i)%nat = Some c
    /\ c_Name c = container_name p
    /\ read_command (c_Args c) = requested_command u p health ports
    /\ length ports = length (sp_Instances (apw_Spec p)) /\ NoDup ports
    /\ forall k inst port, sp_Instances (apw_Spec p) !! k = Some inst -> ports !! k = Some port ->
         (port ∉ workload_ports wl) /\ (forall q, is_Port inst = Some q -> port = q)
         /\ forall c', c' ∈ ps_Containers (PodSpecOf wl') ->
              (is_HostEnvName inst <> "" ->
                 env_value (is_HostEnvName inst) "127.0.0.1" ∈ c_Env c')
              /\ (is_PortEnvName inst <> "" ->
                 exists v, env_value (is_PortEnvName inst) v ∈ c_Env c' /\ read_number v = Some port).
Proof.
  destruct (ConfigureWorkload_placed u wl matches wl' Hwf Hdemand Hrun) as (allocs & Hpl & Hr & _).
  destruct (placed_in_command u wl matches allocs wl' i p Hpl Hp Ho Hplain)
    as (c & health & ports & l1 & l2 & Hc & Hn & Hread & Hlen & Hplaced).
  exists c, health, ports. split_and!; [done..| |].
  - apply port_rule_NoDup in Hr as [Hnd _]. rewrite Hplaced, !fmap_app, snd_zip in Hnd by lia.
    by apply NoDup_app in Hnd as (_ & _ & (Hnd & _ & _)%NoDup_app).
  - intros k inst port Hinst Hport.
    assert ((inst, port) ∈ allocs ≫= placed_instances) as Hin.
    { rewrite Hplaced, !elem_of_app. right. left. apply (list_elem_of_lookup_2 _ k).
      apply lookup_zip_with_Some. by exists inst, port. }
    apply list_elem_of_lookup_1 in Hin as [j Hj].
    destruct (port_rule_lookup _ _ _ _ _ Hr Hj) as [Hfree Hq]. split_and!; [done|done|].
    intros c' Hc'.
    assert (forall e, e ∈ instance_env inst port -> e ∈ c_Env c') as Henv.
    { intros e He. eapply placed_in_env; [exact Hpl| |exact Hc']. apply list_elem_of_bind.
      exists (inst, port). split; [done|]. by eapply list_elem_of_lookup_2. }
    unfold instance_env in Henv. setoid_rewrite elem_of_app in Henv.
    split; intros Hne.
    + rewrite (bool_decide_eq_false_2 (is_HostEnvName inst = "")) in Henv by done.
      apply Henv. left. by apply list_elem_of_singleton.
    + rewrite (bool_decide_eq_false_2 (is_PortEnvName inst = "")) in Henv by done.
      exists (format_d port). split; [|apply read_number_format_d].
      apply Henv. right. by apply list_elem_of_singleton.
Qed.

End configured.

(** ** Theorems *)
Section theorems.
Context `{Hk8s : K8sTypes} `{Hlab : LabelsPkg} `{Htab : UnicodeTables} `{Hrange : MapRange}.

(** C30: Nothing of an instance is lost or confused on the way to the proxy: an
    argument built for an instance and a port reads back as the connection
    name, the port and the two optional settings, set or not, of the
    instance.  The connection name must not begin with a dash or contain a
    question mark, which nothing checks. *)
Theorem instance_arg_roundtrip inst port (Hplain : plain_connection inst = true) :
  read_argument (instance_arg inst port) = Some {|
    pi_connection := is_ConnectionString inst;
    pi_port := Some port;
    pi_auto_iam_authn := is_AutoIAMAuthN inst;
    pi_private_ip := is_PrivateIP inst |}.
Proof. by apply read_instance_arg. Qed.

(** C8: The applications and the proxies of a configured pod agree.  The
    container of every resource (without an override) is told, by an argument
    list that reads back as the resource's own settings, to open one port per
    instance; the ports are distinct, free of the workload's ports and the
    ones the resource fixed.  Every container of the pod finds the port of the
    instance, in decimal, and the local address under the names the resource
    gave them. *)
Theorem applications_find_proxies u wl matches wl'
    (Hwf : well_formed matches) (Hdemand : port_demand wl matches < max_port_demand)
    (Hrun : ConfigureWorkload u wl matches = Ret (Configured wl')) i p
    (Hp : matches !! i = Some p) (Ho : apw_override p = None)
    (Hplain : plain_connections p = true) :
  exists c health ports,
    ps_Containers (PodSpecOf wl') !! (length (ps_Containers (PodSpecOf wl)) + i)%nat = Some c
    /\ c_Name c = container_name p
    /\ read_command (c_Args c) = requested_command u p health ports
    /\ length ports = length (sp_Instances (apw_Spec p)) /\ NoDup ports
    /\ forall k inst port, sp_Instances (apw_Spec p) !! k = Some inst -> ports !! k = Some port ->
         (port ∉ workload_ports wl) /\ (forall q, is_Port inst = Some q -> port = q)
         /\ forall c', c' ∈ ps_Containers (PodSpecOf wl') ->
              (is_HostEnvName inst <> "" ->
                 env_value (is_HostEnvName inst) "127.0.0.1" ∈ c_Env c')
              /\ (is_PortEnvName inst <> "" ->
                 exists v, env_value (is_PortEnvName inst) v ∈ c_Env c' /\ read_number v = Some port).
Proof. by eapply placed_proxy. Qed.

End theorems.

(** ** Witnesses *)
Section witnesses.
Import ConcreteInstances.
#[local] Existing Instance in_order.

Lemma instance_arg_roundtrip_witness :
  read_argument (instance_arg (mk_instance "proj:region:audit" (Some 6000) "AUDIT_PORT" "") 6000)
  = Some {| pi_connection := "proj:region:audit"; pi_port := Some 6000;
            pi_auto_iam_authn := None; pi_private_ip := None |}.
Proof. apply (instance_arg_roundtrip (mk_instance "proj:region:audit" (Some 6000) "AUDIT_PORT" "")). reflexivity. Defined.

(** What a question mark in a connection name does: the port the operator
    chose cannot be read any more. *)
Example connection_with_parameters :
  read_argument (instance_arg (mk_instance "proj:region:db?port=1" None "DB_PORT" "") 5000)
  = Some {| pi_connection := "proj:region:db"; pi_port := None;
            pi_auto_iam_authn := None; pi_private_ip := None |}.
Proof. vm_compute. reflexivity. Qed.

Lemma applications_find_proxies_witness :
  exists c health ports,
    ps_Containers (PodSpecOf (web_pod_with [orders_apw; users_apw])) !! 1%nat = Some c
    /\ c_Name c = container_name orders_apw
    /\ read_command (c_Args c) = requested_command ua orders_apw health ports
    /\ length ports = 2%nat /\ NoDup ports
    /\ forall k inst port, sp_Instances (apw_Spec orders_apw) !! k = Some inst ->
         ports !! k = Some port ->
         (port ∉ workload_ports web_pod) /\ (forall q, is_Port inst = Some q -> port = q)
         /\ forall c', c' ∈ ps_Containers (PodSpecOf (web_pod_with [orders_apw; users_apw])) ->
              (is_HostEnvName inst <> "" ->
                 env_value (is_HostEnvName inst) "127.0.0.1" ∈ c_Env c')
              /\ (is_PortEnvName inst <> "" ->
                 exists v, env_value (is_PortEnvName inst) v ∈ c_Env c' /\ read_number v = Some port).
Proof.
  apply (applications_find_proxies ua web_pod [orders_apw; users_apw]) with (i := 0%nat).
  - by_evaluation.
  - vm_compute. reflexivity.
  - vm_compute. reflexivity.
  - reflexivity.
  - reflexivity.
  - reflexivity.
Defined.

End witnesses.
