(* ===== verification/Repeated.v ===== *)
(** * A connection that is listed twice

    The other files assume that a resource lists each connection once; nothing
    checks it.  [useInstancePort] keeps one port per connection, so the
    second entry of a connection gets, or replaces, the port of the first: a
    copy of an entry leaves the run as it is, but for one more argument. *)

From S2P Require Import Prelude GoStd Api Concrete Names Workload Fixtures PodSpec Allocation.
From S2P Require Import Refinement Configure.
From Stdlib Require Import Ascii.
#[local] Open Scope Z_scope.

(** ** Searching a list that grows *)
Lemma find_index_app {A} (p : A -> bool) l l' i x :
  find_index p l = Some (i, x) -> find_index p (l ++ l') = Some (i, x).
Proof.
  revert i. induction l as [|y l IH]; intros i; cbn; [done|]. destruct (p y); [done|].
  destruct (find_index p l) as [[j z]|]; [|done]. intros [= <- <-]. by rewrite (IH j).
Qed.

Lemma find_index_snoc {A} (p : A -> bool) l x :
  find_index p l = None -> p x = true -> find_index p (l ++ [x]) = Some (length l, x).
Proof.
  induction l as [|y l IH]; cbn; intros Hl Hx; [by rewrite Hx|]. destruct (p y); [done|].
  destruct (find_index p l) as [[]|]; [done|]. by rewrite (IH eq_refl Hx).
Qed.

(** Replacing an element by one that answers the test as it did. *)
Lemma find_index_insert {A} (p : A -> bool) l i x y j z :
  l !! i = Some x -> p y = p x -> find_index p l = Some (j, z) ->
  find_index p (<[i := y]> l) = Some (j, if decide (i = j) then y else z).
Proof.
  revert i j. induction l as [|w l IH]; intros [|i] j Hi Hy; cbn; try done.
  - injection Hi as ->. rewrite Hy. destruct (p x); [by intros [= <- <-]|].
    destruct (find_index p l) as [[k v]|]; [|done]. by intros [= <- <-].
  - destruct (p w); [by intros [= <- <-]|].
    destruct (find_index p l) as [[k v]|] eqn:E; [|done]. intros [= <- <-].
    etrans; [exact (f_equal (fmap (fun '(i, y) => (S i, y))) (IH i k Hi Hy eq_refl))|]. cbn.
    destruct (decide (i = k)) as [->|]; [by rewrite decide_True|by rewrite decide_False by congruence].
Qed.

Lemma fold_range_app {S A X} (f : A -> X -> Go S A) l1 l2 acc s :
  fold_range f acc (l1 ++ l2) s = (acc' ← fold_range f acc l1; fold_range f acc' l2) s.
Proof.
  revert acc s. induction l1 as [|x l1 IH]; intros acc s; [done|].
  cbn [fold_range app]. unfold mbind, Go_bind in *.
  destruct (f acc x s) as [[acc' s']| |]; [apply IH|done..].
Qed.

Section repeated.
Context `{Hk8s : K8sTypes} `{Hlab : LabelsPkg} `{Htab : UnicodeTables} `{Hrange : MapRange}.

(** The test of [useInstancePort]. *)
Definition has_key (p : AuthProxyWorkload) (conn : string) (mp : managedPort) : bool :=
  bool_decide (di_AuthProxyWorkload (mp_Instance mp) = apw_NamespacedName p)
  && bool_decide (di_ConnectionString (mp_Instance mp) = conn).

(** The port that is on record for a connection of [p]. *)
Definition recorded (p : AuthProxyWorkload) (conn : string) (s : updateState) (port : Z) : Prop :=
  exists i mp, find_index (has_key p conn) (us_Ports s) = Some (i, mp) /\ mp_Port mp = port.

Lemma addPort_fresh port n conn s :
  isPortInUse s port = false ->
  addPort port "" n conn s = Ret (tt, set_Ports (us_Ports s ++ [{|
    mp_Instance := dbInst (nn_Namespace n) (nn_Name n) conn; mp_Port := port;
    mp_OriginalValues := ∅ |}]) s).
Proof.
  intros Hfree. unfold addPort, mbind, Go_bind, gets.
  destruct (find_last_index _ (us_Ports s)) as [[i mp]|] eqn:E; [|done].
  apply find_last_index_Some in E as [Hi <-%Z.eqb_eq]. apply isPortInUse_false in Hfree.
  destruct Hfree. apply list_elem_of_fmap. eauto using list_elem_of_lookup_2.
Qed.

(** What a call without a conflict does to the ports on record. *)
Inductive port_step (p : AuthProxyWorkload) (inst : InstanceSpec) (s s' : updateState) (port : Z)
    : Prop :=
| port_known i mp :
    find_index (has_key p (is_ConnectionString inst)) (us_Ports s) = Some (i, mp) ->
    mp_Port mp = port -> us_Ports s' = us_Ports s -> port_step p inst s s' port
| port_moved i mp :
    find_index (has_key p (is_ConnectionString inst)) (us_Ports s) = Some (i, mp) ->
    is_Port inst = Some port -> mp_Port mp <> port -> isPortInUse s port = false ->
    us_Ports s' = <[i := {| mp_Instance := mp_Instance mp; mp_Port := port;
                            mp_OriginalValues := mp_OriginalValues mp |}]> (us_Ports s) ->
    port_step p inst s s' port
| port_new :
    find_index (has_key p (is_ConnectionString inst)) (us_Ports s) = None ->
    (forall q, is_Port inst = Some q -> port = q) -> isPortInUse s port = false ->
    us_Ports s' = us_Ports s ++ [{| mp_Instance := dbInst (apw_Namespace p) (apw_Name p)
                                      (is_ConnectionString inst);
                                    mp_Port := port; mp_OriginalValues := ∅ |}] ->
    port_step p inst s s' port.

Lemma addError_details code text p s :
  us_details (set_err (ConfigError_add code text p (us_err s)) s) <> us_details s.
Proof.
  unfold us_details. cbn. intros E. apply (f_equal length) in E. rewrite length_app in E. cbn in E. lia.
Qed.

Lemma useInstancePort_step p inst s port s' :
  useInstancePort p inst s = Ret (port, s') -> us_details s' = us_details s ->
  port_step p inst s s' port.
Proof.
  unfold useInstancePort. cbn zeta. rewrite (Go_bind_run get _ s s s) by done.
  fold (has_key p (is_ConnectionString inst)).
  destruct (find_index _ (us_Ports s)) as [[i mp]|] eqn:Ef.
  - destruct (is_Port inst) as [q|] eqn:Eq; [|intros [= <- <-] _; by eapply port_known].
    destruct (mp_Port mp =? q) eqn:Emp; cbn [negb]; [intros [= <- <-] _; by eapply port_known|].
    apply Z.eqb_neq in Emp. destruct (isPortInUse s q) eqn:Eu; intros E Hd.
    + rewrite (Go_bind_run _ _ _ _ _ (addError_run _ _ _ _)) in E. injection E as <- <-.
      by apply addError_details in Hd.
    + injection E as <- <-. by eapply port_moved.
  - intros (next & s1 & E1 & E)%Go_bind_Ret Hd.
    assert (us_Ports s1 = us_Ports s /\ us_err s1 = us_err s
      /\ forall q, is_Port inst = Some q -> next = q) as (Hp & He & Hq).
    { destruct (is_Port inst) as [q|]; [injection E1 as <- <-; naive_solver|].
      apply Go_bind_Ret in E1 as (b & s2 & Eb & E1). unfold lift_outcome in Eb.
      destruct (bump _ _ _); [|done..]. injection Eb as <- <-. by injection E1 as <- <-. }
    destruct (isPortInUse s next) eqn:Eu.
    + rewrite (Go_bind_run _ _ _ _ _ (addError_run _ _ _ _)) in E.
      apply Go_bind_Ret in E as ([] & s2 & E2 & [= <- <-]).
      destruct (addPort_Ret next "" (apw_NamespacedName p) (is_ConnectionString inst)
        (set_err (ConfigError_add ErrorCodePortConflict
           (port_conflict_text next (is_ConnectionString inst)) p (us_err s1)) s1)) as (ports & E3 & _).
      rewrite E3 in E2. injection E2 as <-. exfalso. revert Hd. unfold us_details. cbn. rewrite He.
      intros E2. apply (f_equal length) in E2. rewrite length_app in E2. cbn in E2. lia.
    + rewrite (Go_bind_run (mret tt) _ s1 tt s1) in E by done.
      assert (isPortInUse s1 next = false) as Eu1 by (unfold isPortInUse in *; by rewrite Hp).
      rewrite (Go_bind_run _ _ _ _ _ (addPort_fresh next _ _ s1 Eu1)) in E.
      injection E as <- <-. apply port_new; [done..|]. cbn. by rewrite Hp.
Qed.

Lemma port_step_recorded p inst s s' port :
  port_step p inst s s' port -> recorded p (is_ConnectionString inst) s' port.
Proof.
  unfold recorded. intros [i mp Hf Hp ->|i mp Hf _ _ _ ->|Hf _ _ ->].
  - by exists i, mp.
  - pose proof (find_index_Some _ _ _ _ Hf) as (Hi & _). eexists i, _. split.
    + erewrite find_index_insert; [|exact Hi| |exact Hf]; [by rewrite decide_True|done].
    + done.
  - eexists _, _. split; [apply find_index_snoc; [done|]|done].
    unfold has_key. cbn. by rewrite !bool_decide_eq_true_2.
Qed.

(** The record of a connection stays while others are used. *)
Lemma port_step_other p inst s s' port conn q :
  port_step p inst s s' port -> is_ConnectionString inst <> conn ->
  recorded p conn s q -> recorded p conn s' q.
Proof.
  intros Hstep Hne (j & z & Hz & Hq). unfold recorded. destruct Hstep as [i mp Hf Hp ->|i mp Hf _ _ _ ->|Hf _ _ ->].
  - by exists j, z.
  - pose proof (find_index_Some _ _ _ _ Hf) as (Hi & Hk & _).
    exists j, z. split; [|done]. erewrite find_index_insert; [|exact Hi|done|exact Hz].
    rewrite decide_False; [done|]. intros ->. apply find_index_Some in Hz as (Hj & Hkz & _).
    rewrite Hi in Hj. injection Hj as ->. unfold has_key in Hk, Hkz.
    apply andb_true_iff in Hk as [_ Hk%bool_decide_eq_true], Hkz as [_ Hkz%bool_decide_eq_true].
    congruence.
  - exists j, z. split; [by apply find_index_app|done].
Qed.

(** *** The loop over the instances *)
Definition same_ports (s s' : updateState) : Prop := us_Ports s' = us_Ports s.

#[local] Instance same_ports_PreOrder : PreOrder same_ports.
Proof. split; [by intros s|]. unfold same_ports. intros s1 s2 s3. congruence. Qed.

Lemma addWorkloadEnvVar_ports p inst ev : along same_ports (addWorkloadEnvVar p inst ev).
Proof.
  unfold addWorkloadEnvVar, addError. cbn zeta.
  repeat first [apply along_bind; [exact _| |intros ?] | apply along_ret; exact _
               | apply along_gets; exact _ | apply along_modify; by intros ? | case_match].
Qed.

Lemma no_details_before {A} ps (m : Go updateState A) s a s' :
  along (extends ps) m -> m s = Ret (a, s') -> us_details s' = [] -> us_details s = [].
Proof.
  intros Hm E Hs. destruct (us_details s) eqn:Es; [done|].
  destruct (along_details ps m s a s' Hm E); [by rewrite Es|done].
Qed.

Lemma useInstance_step p args inst s args' s' :
  useInstance p args inst s = Ret (args', s') -> us_details s' = [] ->
  exists port s1, port_step p inst s s1 port /\ us_Ports s' = us_Ports s1
    /\ args' = args ++ [instance_arg inst port].
Proof.
  unfold useInstance. intros (port & s1 & E1 & E)%Go_bind_Ret Hs'.
  assert (forall (b : bool) ev, along same_ports (if b then addWorkloadEnvVar p inst ev else mret tt))
    as Hports by (intros [] ev; [apply addWorkloadEnvVar_ports|apply along_ret; exact _]).
  assert (forall (b : bool) ev, along (extends [p]) (if b then addWorkloadEnvVar p inst ev else mret tt))
    as Hext by (intros [] ev; [apply addWorkloadEnvVar_extends; by left|apply along_ret; exact _]).
  apply Go_bind_Ret in E as ([] & s2 & E2 & E). apply Go_bind_Ret in E as ([] & s3 & E3 & [= <- <-]).
  assert (us_details s2 = []) as H2 by (eapply no_details_before; [apply Hext|exact E3|done]).
  assert (us_details s1 = []) as H1 by (eapply no_details_before; [apply Hext|exact E2|done]).
  assert (us_details s = []) as H0
    by (eapply (no_details_before [p]); [apply useInstancePort_extends; by left|exact E1|done]).
  exists port, s1. split_and!; [by apply useInstancePort_step; [|congruence]| |done].
  apply Hports in E2, E3. unfold same_ports in *. congruence.
Qed.

(** The ports on record for [conn] while other connections are used. *)
Lemma useInstances_other p l conn q args s args' s' :
  fold_range (useInstance p) args l s = Ret (args', s') -> us_details s' = [] ->
  (forall x, x ∈ l -> is_ConnectionString x <> conn) ->
  recorded p conn s q -> recorded p conn s' q.
Proof.
  revert args s. induction l as [|x l IH]; intros args s E Hs' Hl Hq; cbn [fold_range] in E.
  { by injection E as <- <-. }
  apply Go_bind_Ret in E as (args1 & s1 & E1 & E).
  pose proof (no_details_before [p] _ _ _ _ (useInstances_extends p l args1) E Hs') as Hs1.
  eapply IH; [exact E|done|intros y ?; apply Hl; by right|].
  apply useInstance_step in E1 as (port & s2 & Hstep & Hp & _); [|done].
  assert (recorded p conn s2 q) as Hr by (eapply port_step_other; [exact Hstep|apply Hl; by left|done]).
  unfold recorded in *. by rewrite Hp.
Qed.

Lemma useInstances_args p l args s args' s' :
  fold_range (useInstance p) args l s = Ret (args', s') -> us_details s' = [] ->
  exists more, args' = args ++ more.
Proof.
  revert args s. induction l as [|x l IH]; intros args s E Hs'; cbn [fold_range] in E.
  { injection E as <- <-. exists []. by rewrite app_nil_r. }
  apply Go_bind_Ret in E as (args1 & s1 & E1 & E).
  pose proof (no_details_before [p] _ _ _ _ (useInstances_extends p l args1) E Hs') as Hs1.
  apply useInstance_step in E1 as (port & s2 & _ & _ & ->); [|done].
  destruct (IH _ _ E Hs') as [more ->]. eexists. by rewrite <-app_assoc.
Qed.

Lemma useInstances_repeated p l1 inst l2 inst' l3 args s args' s' :
  fold_range (useInstance p) args (l1 ++ inst :: l2 ++ inst' :: l3) s = Ret (args', s') ->
  us_details s' = [] ->
  is_ConnectionString inst' = is_ConnectionString inst -> is_Port inst' = None ->
  (forall x, x ∈ l2 -> is_ConnectionString x <> is_ConnectionString inst) ->
  exists port, instance_arg inst port ∈ args' /\ instance_arg inst' port ∈ args'.
Proof.
  intros E Hs' Hsame Hno Hl2.
  rewrite fold_range_app in E. apply Go_bind_Ret in E as (a1 & s1 & _ & E).
  cbn [fold_range] in E. apply Go_bind_Ret in E as (a2 & s2 & E2 & E).
  rewrite fold_range_app in E. apply Go_bind_Ret in E as (a3 & s3 & E3 & E).
  cbn [fold_range] in E. apply Go_bind_Ret in E as (a4 & s4 & E4 & E5).
  pose proof (no_details_before [p] _ _ _ _ (useInstances_extends p l3 a4) E5 Hs') as H4.
  pose proof (no_details_before [p] _ _ _ _ (useInstance_extends [p] p a3 inst' ltac:(by left)) E4 H4) as H3.
  pose proof (no_details_before [p] _ _ _ _ (useInstances_extends p l2 a2) E3 H3) as H2.
  destruct (useInstances_args _ _ _ _ _ _ E5 Hs') as [m5 ->].
  apply useInstance_step in E2 as (port & t2 & Hst2 & Hp2 & ->); [|done].
  destruct (useInstances_args _ _ _ _ _ _ E3 H3) as [m3 ->].
  assert (recorded p (is_ConnectionString inst) s3 port) as Hrec.
  { eapply useInstances_other; [exact E3|done|done|].
    apply port_step_recorded in Hst2. unfold recorded in *. by rewrite Hp2. }
  apply useInstance_step in E4 as (port' & t4 & Hst4 & _ & ->); [|done].
  assert (port' = port) as ->.
  { destruct Hrec as (j & z & Hz & Hq). destruct Hst4 as [i mp Hf Hp _|i mp _ Hf|Hf];
      [rewrite Hsame in Hf|..|rewrite Hsame in Hf]; congruence. }
  exists port. rewrite !elem_of_app, !list_elem_of_singleton. auto 10.
Qed.

(** *** The whole pod *)
Lemma updateContainers_prefix matches acc s cs s' :
  fold_range (fun containers inst =>
    newContainer ← updateContainer inst Container_zero;
    mret (containers ++ [newContainer])) acc matches s = Ret (cs, s') ->
  exists more, cs = acc ++ more.
Proof. intros (more & -> & _)%updateContainers_names. by exists more. Qed.

Lemma updateContainer_args p c s c' s' :
  apw_override p = None -> updateContainer p c s = Ret (c', s') ->
  exists args s1, fold_range (useInstance p) args (sp_Instances (apw_Spec p)) s1 = Ret (c_Args c', s').
Proof.
  intros Ho. unfold updateContainer. rewrite Ho, ContainerName_Ret. intros E.
  apply Go_bind_Ret in E as ([c1 args] & s1 & _ & E).
  apply Go_bind_Ret in E as (u & s2 & _ & E).
  apply Go_bind_Ret in E as (name & s3 & [= <- <-] & E).
  rewrite applyContainerSpec_spec in E.
  apply Go_bind_Ret in E as (args' & s4 & E4 & E). injection E as <- <-. by eexists _, _.
Qed.

Lemma updateContainers_each matches p acc s cs s' :
  fold_range (fun containers inst =>
    newContainer ← updateContainer inst Container_zero;
    mret (containers ++ [newContainer])) acc matches s = Ret (cs, s') ->
  us_details s' = [] -> p ∈ matches ->
  exists c s1 s2, c ∈ cs /\ updateContainer p Container_zero s1 = Ret (c, s2) /\ us_details s2 = [].
Proof.
  intros E Hs' Hp. assert (forall c, c ∈ acc -> c ∈ cs) as Hacc.
  { apply updateContainers_prefix in E as [more ->]. intros c ?. apply elem_of_app. by left. }
  revert acc s E Hacc.
  induction matches as [|q matches IH]; intros acc s E Hacc; [by apply elem_of_nil in Hp|].
  cbn [fold_range] in E. apply Go_bind_Ret in E as (acc1 & s1 & E1 & E).
  pose proof (no_details_before (q :: matches) _ _ _ _
    (updateContainers_extends matches (q :: matches) acc1 ltac:(by right)) E Hs') as Hs1.
  apply Go_bind_Ret in E1 as (c & s2 & E1 & [= <- <-]).
  pose proof (updateContainers_prefix _ _ _ _ _ E) as [more Hcs].
  apply elem_of_cons in Hp as [->|Hp].
  - exists c, s, s2. split_and!; [|done|done]. rewrite Hcs, !elem_of_app. left. right. by left.
  - eapply IH; [done|exact E|]. rewrite Hcs. intros c'. rewrite !elem_of_app. auto.
Qed.

End repeated.

(** ** A run that meets a copy

    The copy of an entry finds the port and the variables of the first one,
    and changes nothing in the state. *)
Section copies.
Context `{Hk8s : K8sTypes} `{Hlab : LabelsPkg} `{Htab : UnicodeTables} `{Hrange : MapRange}.

Lemma allocate_instances_app st l1 l2 :
  allocate_instances st (l1 ++ l2)
  = '(st1, ports1) ← allocate_instances st l1;
    '(st2, ports2) ← allocate_instances st1 l2;
    Some (st2, ports1 ++ ports2).
Proof.
  revert st. induction l1 as [|i l1 IH]; intros st; cbn.
  - by destruct (allocate_instances st l2) as [[]|].
  - destruct (allocate_instance st i) as [[st1 port]|]; cbn; [|done]. rewrite IH.
    destruct (allocate_instances st1 l1) as [[st2 ports]|]; cbn; [|done].
    by destruct (allocate_instances st2 l2) as [[]|].
Qed.

Lemma allocate_proxies_app u st l1 l2 :
  allocate_proxies u st (l1 ++ l2)
  = '(st1, cs1) ← allocate_proxies u st l1;
    '(st2, cs2) ← allocate_proxies u st1 l2;
    Some (st2, cs1 ++ cs2).
Proof.
  revert st. induction l1 as [|p l1 IH]; intros st; cbn.
  - by destruct (allocate_proxies u st l2) as [[]|].
  - destruct (allocate_proxy u st p) as [[st1 c]|]; cbn; [|done]. rewrite IH.
    destruct (allocate_proxies u st1 l1) as [[st2 cs]|]; cbn; [|done].
    by destruct (allocate_proxies u st2 l2) as [[]|].
Qed.

Lemma allocate_proxies_length u st matches st' cs :
  allocate_proxies u st matches = Some (st', cs) ->
  (length (al_used st')
   <= length (al_used st) + length (matches ≫= fun p => sp_Instances (apw_Spec p)))%nat.
Proof.
  revert st cs. induction matches as [|p matches IH]; intros st cs; cbn; [intros [= <- <-]; lia|].
  destruct (allocate_proxy u st p) as [[st1 c]|] eqn:E1; cbn; [|done].
  destruct (allocate_proxies u st1 matches) as [[st2 cs']|] eqn:E2; cbn; [|done].
  intros [= <- <-]. apply allocate_proxy_length in E1. apply IH in E2.
  rewrite length_app. lia.
Qed.

(** One value for each variable. *)
Definition env_ok (env : list EnvVar) : Prop := Forall plain env /\ NoDup (ev_Name <$> env).

Lemma put_envs_ok evs env env' :
  Forall plain evs -> env_ok env -> put_envs evs env = Some env' ->
  env_ok env' /\ evs ⊆ env' /\ env ⊆ env'.
Proof.
  intros Hevs [Hpl Hnd] E. destruct (put_envs_spec _ _ _ Hevs Hpl E) as (? & He & Hn).
  split; [split; [done|by apply Hn]|]. split; intros e ?; apply He; auto.
Qed.

Lemma placed_plain insts ports : Forall plain (zip insts ports ≫= uncurry instance_env).
Proof.
  apply Forall_forall. intros e ([inst port] & He & _)%list_elem_of_bind.
  pose proof (instance_env_plain inst port) as Hp. rewrite Forall_forall in Hp. by apply Hp.
Qed.

Lemma allocate_instances_ok insts st st' ports :
  allocate_instances st insts = Some (st', ports) -> env_ok (al_env st) ->
  env_ok (al_env st') /\ (zip insts ports ≫= uncurry instance_env) ⊆ al_env st'.
Proof.
  intros E%allocate_instances_env Hok.
  destruct (put_envs_ok _ _ _ (placed_plain insts ports) Hok E) as (? & ? & _). done.
Qed.

Lemma allocate_proxies_ok u matches st st' cs :
  allocate_proxies u st matches = Some (st', cs) -> env_ok (al_env st) -> env_ok (al_env st').
Proof.
  revert st cs. induction matches as [|p matches IH]; intros st cs; cbn; [by intros [= <- <-]|].
  destruct (allocate_proxy u st p) as [[st1 c]|] eqn:E1; cbn; [|done].
  destruct (allocate_proxies u st1 matches) as [[st2 cs']|] eqn:E2; cbn; [|done].
  intros [= <- <-] Hok. eapply IH; [exact E2|]. unfold allocate_proxy in E1.
  destruct (apw_override p); [by injection E1 as <- <-|].
  destruct (allocate_instances st _) as [[st3 ports]|] eqn:E3; [|done].
  injection E1 as <- <-. by eapply allocate_instances_ok.
Qed.

Lemma put_env_present ev env : NoDup (ev_Name <$> env) -> ev ∈ env -> put_env ev env = Some env.
Proof.
  intros Hnd Hin. unfold put_env. destruct (List.find _ env) as [old|] eqn:E.
  - apply find_some in E as [Hold%list_elem_of_In Hn%bool_decide_eq_true].
    rewrite (NoDup_fmap_inj_elem ev_Name env old ev) by done. by rewrite bool_decide_eq_true_2.
  - apply list_elem_of_In in Hin. pose proof (find_none _ _ E _ Hin) as Hf.
    cbn in Hf. by rewrite bool_decide_eq_true_2 in Hf.
Qed.

(** [inst'] repeats [inst]: it opens the same connection, asks for no port of
    its own, and names no other variables than [inst]; the other settings may
    differ. *)
Record copy_of (inst inst' : InstanceSpec) : Prop := {
  copy_connection : is_ConnectionString inst' = is_ConnectionString inst;
  copy_port : is_Port inst' = None;
  copy_host_env : is_HostEnvName inst' = "" \/ is_HostEnvName inst' = is_HostEnvName inst;
  copy_port_env : is_PortEnvName inst' = "" \/ is_PortEnvName inst' = is_PortEnvName inst;
}.

(** A variable that is there already. *)
Lemma named_env_present K st s p inst name value :
  sim K st s -> env_ok (al_env st) -> name = "" \/ env_value name value ∈ al_env st ->
  exists s', (if negb (bool_decide (name = ""))
              then addWorkloadEnvVar p inst (env_value name value) else mret tt) s = Ret (tt, s')
    /\ us_details s' = us_details s /\ sim K st s'.
Proof.
  intros Hs [_ Hnd] Hin. destruct (named_env_sim K st s p inst name value Hs) as (s' & E & Hs').
  exists s'. split; [done|]. assert (put_envs (if bool_decide (name = "") then []
    else [env_value name value]) (al_env st) = Some (al_env st)) as Hput.
  { case_bool_decide; [done|]. destruct Hin as [|Hin]; [done|]. cbn. by rewrite put_env_present. }
  rewrite Hput in Hs'. by destruct st.
Qed.

Lemma useInstance_copy K st s p inst inst' port args :
  sim K st s -> env_ok (al_env st) -> copy_of inst inst' ->
  recorded p (is_ConnectionString inst) s port -> instance_env inst port ⊆ al_env st ->
  exists s', useInstance p args inst' s = Ret (args ++ [instance_arg inst' port], s')
    /\ us_details s' = us_details s /\ sim K st s'.
Proof.
  intros Hs Hok [Hconn Hport Hhenv Hpenv] (i & mp & Hf & Hmp) Hsub.
  assert (useInstancePort p inst' s = Ret (port, s)) as E1.
  { unfold useInstancePort. cbn zeta. rewrite (Go_bind_run get _ s s s) by done.
    fold (has_key p (is_ConnectionString inst')). by rewrite Hconn, Hf, Hport, Hmp. }
  unfold useInstance. rewrite (Go_bind_run _ _ _ _ _ E1).
  unfold instance_env in Hsub.
  destruct (named_env_present K st s p inst' (is_HostEnvName inst') "127.0.0.1" Hs Hok)
    as (s2 & E2 & Hd2 & Hs2).
  { destruct Hhenv as [|E]; [by left|]. destruct (decide (is_HostEnvName inst = "")); [left; congruence|].
    right. apply Hsub, elem_of_app. left. rewrite bool_decide_eq_false_2, E by done. by left. }
  rewrite (Go_bind_run _ _ _ _ _ E2).
  destruct (named_env_present K st s2 p inst' (is_PortEnvName inst') (format_d port) Hs2 Hok)
    as (s3 & E3 & Hd3 & Hs3).
  { destruct Hpenv as [|E]; [by left|]. destruct (decide (is_PortEnvName inst = "")); [left; congruence|].
    right. apply Hsub, elem_of_app. right. rewrite bool_decide_eq_false_2, E by done. by left. }
  rewrite (Go_bind_run _ _ _ _ _ E3). exists s3. split; [done|]. split; [congruence|done].
Qed.

(** The first entry of a connection leaves its port on record. *)
Lemma useInstance_records K st s p inst args st' port :
  sim K st s -> instance_key p inst ∉ K -> us_details s = [] ->
  Z.of_nat (length (al_used st) + 1) < max_port_demand ->
  allocate_instance st inst = Some (st', port) ->
  exists s', useInstance p args inst s = Ret (args ++ [instance_arg inst port], s')
    /\ us_details s' = [] /\ sim (K ++ [instance_key p inst]) st' s'
    /\ recorded p (is_ConnectionString inst) s' port.
Proof.
  intros Hs HK Hd Hlen E. pose proof (useInstance_sim K st s p inst args Hs HK Hlen) as Hsim.
  rewrite E in Hsim. destruct Hsim as (s' & Erun & Hd' & Hs'). rewrite Hd in Hd'.
  exists s'. split_and!; [done..|].
  destruct (useInstance_step _ _ _ _ _ _ Erun Hd') as (q & s1 & Hstep & Hports & _).
  assert (q = port) as ->.
  { apply allocate_instance_length in E. pose proof (sim_ports _ _ _ Hs') as Hp.
    rewrite E, <-(sim_ports _ _ _ Hs) in Hp. unfold ports_of in Hp. rewrite Hports in Hp.
    pose proof (find_key_None K st s p inst Hs HK) as Hnone.
    destruct Hstep as [i mp Hf|i mp Hf|_ _ _ Hnew]; [unfold has_key in Hf; congruence..|].
    rewrite Hnew, fmap_app in Hp. by apply app_inj_tail in Hp as [_ ?]. }
  apply port_step_recorded in Hstep. unfold recorded in *. by rewrite Hports.
Qed.

(** The allocator's run over a list that is split at one entry. *)
Lemma allocate_instances_split st l1 inst l2 l3 st' ports :
  allocate_instances st (l1 ++ inst :: l2 ++ l3) = Some (st', ports) ->
  exists st1 ports1 st2 port st3 ports2 ports3,
    allocate_instances st l1 = Some (st1, ports1)
    /\ allocate_instance st1 inst = Some (st2, port)
    /\ allocate_instances st2 l2 = Some (st3, ports2)
    /\ allocate_instances st3 l3 = Some (st', ports3)
    /\ ports = ports1 ++ port :: ports2 ++ ports3.
Proof.
  rewrite allocate_instances_app.
  destruct (allocate_instances st l1) as [[st1 ports1]|] eqn:E; cbn; [|done].
  destruct (allocate_instance st1 inst) as [[st2 port]|] eqn:E1; cbn; [|done].
  rewrite allocate_instances_app.
  destruct (allocate_instances st2 l2) as [[st3 ports2]|] eqn:E2; cbn; [|done].
  destruct (allocate_instances st3 l3) as [[st4 ports3]|] eqn:E3; cbn; [|done].
  intros [= <- <-]. by exists st1, ports1, st2, port, st3, ports2, ports3.
Qed.

(** The port that the allocator gave to an entry is on record after the entry
    and after those that follow it. *)
Lemma useInstances_first K st s p l1 inst l2 args st1 ports1 st2 port st3 ports2 :
  sim K st s -> us_details s = [] ->
  fresh_keys K (instance_key p <$> l1 ++ inst :: l2) ->
  Z.of_nat (length (al_used st) + length (l1 ++ inst :: l2)) < max_port_demand ->
  allocate_instances st l1 = Some (st1, ports1) -> allocate_instance st1 inst = Some (st2, port) ->
  allocate_instances st2 l2 = Some (st3, ports2) ->
  exists s', fold_range (useInstance p) args (l1 ++ inst :: l2) s
    = Ret (args ++ zip_with instance_arg (l1 ++ inst :: l2) (ports1 ++ port :: ports2), s')
    /\ us_details s' = [] /\ sim (K ++ (instance_key p <$> l1 ++ inst :: l2)) st3 s'
    /\ recorded p (is_ConnectionString inst) s' port.
Proof.
  intros Hs Hd HK Hlen E1 E2 E3.
  destruct (allocate_instances_used _ _ _ _ E1) as [Hu1 Hn1].
  pose proof (allocate_instance_length _ _ _ _ E2) as Hu2.
  assert (forall x, x ∈ l2 -> is_ConnectionString x <> is_ConnectionString inst) as Hl2.
  { intros x Hx Heq. destruct HK as [HK _]. rewrite fmap_app, fmap_cons in HK.
    apply NoDup_app in HK as (_ & _ & [HK _]%NoDup_cons). apply HK.
    apply list_elem_of_fmap. exists x. unfold instance_key. by rewrite Heq. }
  rewrite fmap_app, fmap_cons in *. apply fresh_keys_app in HK as [HK1 HK].
  apply (fresh_keys_app _ [_]) in HK as [HK2 HK3].
  rewrite length_app in Hlen. cbn [length] in Hlen.
  pose proof (useInstances_sim p l1 K st s args Hs HK1 ltac:(lia)) as Hsim. rewrite E1 in Hsim.
  destruct Hsim as (s1 & R1 & Hd1 & Hs1). rewrite fold_range_app, (Go_bind_run _ _ _ _ _ R1).
  destruct (useInstance_records _ st1 s1 p inst (args ++ zip_with instance_arg l1 ports1) st2 port Hs1)
    as (s2 & R2 & Hd2 & Hs2 & Hrec); [apply HK2; by left|congruence|rewrite Hu1, length_app; lia|done|].
  cbn [fold_range]. rewrite (Go_bind_run _ _ _ _ _ R2).
  pose proof (useInstances_sim p l2 _ st2 s2
    ((args ++ zip_with instance_arg l1 ports1) ++ [instance_arg inst port]) Hs2 HK3) as Hsim.
  rewrite Hu2, Hu1, !length_app in Hsim. specialize (Hsim ltac:(cbn; lia)). rewrite E3 in Hsim.
  destruct Hsim as (s3 & R3 & Hd3 & Hs3). rewrite Hd2 in Hd3. exists s3. split_and!; [|done| |].
  - etrans; [exact R3|]. rewrite zip_with_app by done. cbn. by rewrite <-!app_assoc.
  - by rewrite <-!app_assoc in Hs3.
  - by eapply useInstances_other.
Qed.

(** The instances of a resource, with a copy of one of them: one more
    argument, otherwise the same run. *)
Lemma useInstances_copy K st s p l1 inst l2 inst' l3 args st' ports :
  sim K st s -> us_details s = [] -> env_ok (al_env st) -> copy_of inst inst' ->
  fresh_keys K (instance_key p <$> (l1 ++ inst :: l2) ++ l3) ->
  Z.of_nat (length (al_used st) + length ((l1 ++ inst :: l2) ++ l3)) < max_port_demand ->
  allocate_instances st (l1 ++ inst :: l2 ++ l3) = Some (st', ports) ->
  exists port before after s', zip_with instance_arg (l1 ++ inst :: l2 ++ l3) ports = before ++ after
    /\ instance_arg inst port ∈ before
    /\ fold_range (useInstance p) args (l1 ++ inst :: l2 ++ inst' :: l3) s
       = Ret (args ++ before ++ instance_arg inst' port :: after, s')
    /\ us_details s' = []
    /\ sim (K ++ (instance_key p <$> (l1 ++ inst :: l2) ++ l3)) st' s'.
Proof.
  intros Hs Hd Hok Hcopy HK Hlen E.
  destruct (allocate_instances_split _ _ _ _ _ _ _ E)
    as (st1 & ports1 & st2 & port & st3 & ports2 & ports3 & E1 & E2 & E3 & E4 & ->).
  destruct (allocate_instances_used _ _ _ _ E1) as [Hu1 Hn1].
  pose proof (allocate_instance_length _ _ _ _ E2) as Hu2.
  destruct (allocate_instances_used _ _ _ _ E3) as [Hu3 Hn3].
  rewrite fmap_app in HK. apply fresh_keys_app in HK as [HK1 HK3].
  rewrite length_app in Hlen.
  destruct (useInstances_first K st s p l1 inst l2 args st1 ports1 st2 port st3 ports2 Hs Hd HK1)
    as (s3 & R3 & Hd3 & Hs3 & Hrec); [lia|done..|].
  destruct (allocate_instances_ok _ _ _ _ E1 Hok) as [Hok1 _].
  destruct (allocate_instances_ok [inst] st1 st2 [port]) as [Hok2 Henv2];
    [by cbn; rewrite E2|done|]. cbn in Henv2. rewrite app_nil_r in Henv2.
  destruct (put_envs_ok _ _ _ (placed_plain l2 ports2) Hok2 (allocate_instances_env _ _ _ _ E3))
    as (Hok3 & _ & Henv3).
  set (before := zip_with instance_arg (l1 ++ inst :: l2) (ports1 ++ port :: ports2)) in *.
  destruct (useInstance_copy _ st3 s3 p inst inst' port (args ++ before) Hs3 Hok3 Hcopy Hrec)
    as (s4 & R4 & Hd4 & Hs4); [by etransitivity|].
  pose proof (useInstances_sim p l3 _ st3 s4
    ((args ++ before) ++ [instance_arg inst' port]) Hs4 HK3) as Hsim.
  rewrite Hu3, Hu2, Hu1, !length_app in Hsim. rewrite length_app in Hlen. cbn [length] in *.
  specialize (Hsim ltac:(lia)). rewrite E4 in Hsim. destruct Hsim as (s5 & R5 & Hd5 & Hs5).
  assert (length (ports1 ++ port :: ports2) = length (l1 ++ inst :: l2)) as Hn
    by (rewrite !length_app; cbn; lia).
  exists port, before, (zip_with instance_arg l3 ports3), s5. split_and!; [| | |congruence|].
  - unfold before. rewrite <-zip_with_app by done. by rewrite <-!app_assoc.
  - unfold before. rewrite zip_with_app by done. apply elem_of_app. right. by left.
  - change (inst :: l2 ++ inst' :: l3) with ((inst :: l2) ++ inst' :: l3).
    rewrite app_assoc, fold_range_app, (Go_bind_run _ _ _ _ _ R3). cbn [fold_range].
    rewrite (Go_bind_run _ _ _ _ _ R4). etrans; [exact R5|]. by rewrite <-!app_assoc.
  - by rewrite fmap_app, app_assoc.
Qed.

(** The container of a resource with a copy. *)
Lemma updateContainer_copy K st s p l1 inst l2 inst' l3 st' c :
  let once := set_Instances (l1 ++ inst :: l2 ++ l3) p in
  let twice := set_Instances (l1 ++ inst :: l2 ++ inst' :: l3) p in
  apw_override p = None -> sim K st s -> us_details s = [] -> env_ok (al_env st) ->
  copy_of inst inst' -> fresh_keys K (proxy_keys once) ->
  Z.of_nat (length (al_used st) + length (sp_Instances (apw_Spec once))) < max_port_demand ->
  allocate_proxy (us_updater s) st once = Some (st', c) ->
  exists port before after s', c_Args c = before ++ after /\ instance_arg inst port ∈ before
    /\ updateContainer twice Container_zero s
       = Ret (set_Args (before ++ instance_arg inst' port :: after) c, s')
    /\ us_details s' = [] /\ sim (K ++ proxy_keys once) st' s'.
Proof.
  intros once twice Ho Hs Hd Hok Hcopy HK Hlen E.
  assert (sp_Instances (apw_Spec once) = (l1 ++ inst :: l2) ++ l3) as Hinsts
    by (unfold once; cbn; by rewrite <-app_assoc).
  unfold proxy_keys in *. rewrite Hinsts in HK, Hlen |- *.
  unfold allocate_proxy in E. change (apw_override once) with (apw_override p) in E.
  rewrite Ho in E. cbn [once set_Instances apw_Spec sp_Instances] in E.
  destruct (allocate_instances st _) as [[st1 ports]|] eqn:Ei; [|done]. injection E as <- <-.
  destruct (addHealthCheck_sim K st s Hs ltac:(lia) Container_zero []) as (c & Eh & ->).
  set (health := first_free (al_used st) DefaultHealthCheckPort) in *.
  set (flags := ["--http-port=" +:+ format_d health; "--http-address=0.0.0.0"; "--health-check";
     "--structured-logs"; "--user-agent=" +:+ userAgent (us_updater s)] ++ proxy_flags p).
  destruct (useInstances_copy K st s twice l1 inst l2 inst' l3 flags st1 ports Hs Hd Hok Hcopy HK Hlen Ei)
    as (port & before & after & s' & Hzip & Hin & R & Hd' & Hs').
  exists port, (flags ++ before), after, s'. split_and!; [| | |done|done].
  - cbn. rewrite Hzip. unfold flags. by rewrite <-!app_assoc.
  - apply elem_of_app. by right.
  - unfold updateContainer. change (apw_override twice) with (apw_override p).
    rewrite Ho, ContainerName_Ret, (Go_bind_run _ _ _ _ _ Eh).
    rewrite (Go_bind_run (gets us_updater) _ s (us_updater s) s) by done.
    rewrite (Go_bind_run (lift_outcome _) _ s (container_name twice) s) by done.
    rewrite applyContainerSpec_spec. etrans; [exact (Go_bind_run _ _ _ _ _ R)|].
    by rewrite <-app_assoc.
Qed.

Lemma updateContainers_updater matches acc s cs s' :
  fold_range (fun containers inst =>
    newContainer ← updateContainer inst Container_zero;
    mret (containers ++ [newContainer])) acc matches s = Ret (cs, s') ->
  us_updater s' = us_updater s.
Proof. intros E. by eapply (updateContainers_extends matches matches). Qed.

(** The loop over the resources, one of them with a copy. *)
Lemma updateContainers_copy K st s acc pre p post l1 inst l2 inst' l3 st' cs :
  let once := set_Instances (l1 ++ inst :: l2 ++ l3) p in
  let twice := set_Instances (l1 ++ inst :: l2 ++ inst' :: l3) p in
  apw_override p = None -> sim K st s -> us_details s = [] -> env_ok (al_env st) ->
  copy_of inst inst' -> fresh_keys K ((pre ++ once :: post) ≫= proxy_keys) ->
  Z.of_nat (length (al_used st)
    + length ((pre ++ once :: post) ≫= fun p => sp_Instances (apw_Spec p))) < max_port_demand ->
  allocate_proxies (us_updater s) st (pre ++ once :: post) = Some (st', cs) ->
  exists port cs1 c cs2 before after s', cs = cs1 ++ c :: cs2
    /\ c_Args c = before ++ after /\ instance_arg inst port ∈ before
    /\ fold_range (fun containers inst =>
         newContainer ← updateContainer inst Container_zero;
         mret (containers ++ [newContainer])) acc (pre ++ twice :: post) s
       = Ret (acc ++ cs1 ++ set_Args (before ++ instance_arg inst' port :: after) c :: cs2, s')
    /\ us_details s' = [] /\ env_of s' = al_env st'.
Proof.
  intros once twice Ho Hs Hd Hok Hcopy HK Hlen E.
  rewrite allocate_proxies_app in E.
  destruct (allocate_proxies _ st pre) as [[st1 cs1]|] eqn:E1; cbn in E; [|done].
  destruct (allocate_proxy _ st1 once) as [[st2 c]|] eqn:E2; cbn in E; [|done].
  destruct (allocate_proxies _ st2 post) as [[st3 cs2]|] eqn:E3; cbn in E; [|done].
  injection E as <- <-.
  rewrite bind_app in HK. rewrite bind_app in Hlen. cbn [mbind list_bind] in HK, Hlen.
  rewrite !length_app in Hlen.
  apply fresh_keys_app in HK as [HK1 HK]. apply fresh_keys_app in HK as [HK2 HK3].
  pose proof (allocate_proxies_length _ _ _ _ _ E1) as Hu1.
  pose proof (allocate_proxy_length _ _ _ _ _ E2) as Hu2.
  pose proof (updateContainers_sim pre K st s acc Hs HK1 ltac:(lia)) as Hsim. cbn zeta in Hsim.
  rewrite E1 in Hsim. destruct Hsim as (s1 & R1 & Hd1 & Hs1).
  pose proof (updateContainers_updater _ _ _ _ _ R1) as Hup1. rewrite <-Hup1 in E2, E3.
  destruct (updateContainer_copy _ st1 s1 p l1 inst l2 inst' l3 st2 c Ho Hs1)
    as (port & before & after & s2 & Hargs & Hin & R2 & Hd2 & Hs2);
    [congruence|by eapply allocate_proxies_ok|done|done|fold once; lia|done|].
  assert (us_updater s2 = us_updater s1) as Hup2
    by (eapply (updateContainer_extends [twice]); [|exact R2]; by left).
  set (c' := set_Args (before ++ instance_arg inst' port :: after) c) in *.
  pose proof (updateContainers_sim post _ st2 s2 ((acc ++ cs1) ++ [c']) Hs2 HK3 ltac:(lia)) as Hsim.
  cbn zeta in Hsim. rewrite Hup2, E3 in Hsim. destruct Hsim as (s3 & R3 & Hd3 & Hs3).
  exists port, cs1, c, cs2, before, after, s3. split_and!; [done..| |congruence|exact (sim_env _ _ _ Hs3)].
  rewrite fold_range_app, (Go_bind_run _ _ _ _ _ R1). cbn [fold_range].
  rewrite (Go_bind_run _ _ s1 ((acc ++ cs1) ++ [c']) s2)
    by (by rewrite (Go_bind_run _ _ _ _ _ R2)).
  etrans; [exact R3|]. by rewrite <-!app_assoc.
Qed.

(** A run starts from an empty allocator, and if its containers are built
    without an error, it gives a configured pod. *)
Lemma ConfigureWorkload_containers u wl matches :
  exists s1, sim [no_proxy] (initial_alloc wl) s1 /\ us_details s1 = [] /\ us_updater s1 = u
  /\ forall cs s2,
  fold_range (fun containers inst =>
    newContainer ← updateContainer inst Container_zero;
    mret (containers ++ [newContainer])) (ps_Containers (PodSpecOf wl)) matches s1 = Ret (cs, s2) ->
  us_details s2 = [] ->
  ConfigureWorkload u wl matches = Ret (Configured (SetPodSpec {|
    ps_Containers := with_env (env_of s2) <$> cs; ps_rest := ps_rest (PodSpecOf wl) |} wl)).
Proof.
  destruct (update_run u wl matches) as (ports & s1 & Hscan & Erun).
  exists s1. split_and!; [by eapply after_scan_sim|by eapply after_scan_no_details
                         |by eapply after_scan_extends|].
  intros cs s2 E2 Hd. rewrite (Go_bind_run _ _ _ _ _ E2) in Erun.
  rewrite (Go_bind_run get _ s2 s2 s2) in Erun by done.
  apply details_guard in Hd. rewrite Hd in Erun. by eapply ConfigureWorkload_Ret.
Qed.

End copies.

(** ** Theorems *)
Section theorems.
Context `{Hk8s : K8sTypes} `{Hlab : LabelsPkg} `{Htab : UnicodeTables} `{Hrange : MapRange}.

(** C38: A connection that a resource lists twice is opened twice on one port.
    Take any pod that is configured, and add to one of the resources (which
    does not replace the proxy container) a copy of one of its entries: an
    entry for the same connection, without a port of its own and without other
    variables; it may differ in the other settings.  The pod is configured
    again without an error, and all that changes is one more argument of the
    proxy container, which tells the proxy to listen for the copy on the port
    of the first entry, which it cannot. *)
Theorem repeated_connection_shares_port u wl pre p post l1 inst l2 inst' l3 wl0
    (Hwf : well_formed (pre ++ set_Instances (l1 ++ inst :: l2 ++ l3) p :: post))
    (Hdemand : port_demand wl (pre ++ set_Instances (l1 ++ inst :: l2 ++ l3) p :: post)
               < max_port_demand)
    (Hrun : ConfigureWorkload u wl (pre ++ set_Instances (l1 ++ inst :: l2 ++ l3) p :: post)
            = Ret (Configured wl0))
    (Ho : apw_override p = None) (Hcopy : copy_of inst inst') :
  exists port cs1 c cs2 before after,
    ps_Containers (PodSpecOf wl0) = cs1 ++ c :: cs2
    /\ c_Args c = before ++ after /\ instance_arg inst port ∈ before
    /\ ConfigureWorkload u wl (pre ++ set_Instances (l1 ++ inst :: l2 ++ inst' :: l3) p :: post)
       = Ret (Configured (SetPodSpec {|
           ps_Containers := cs1 ++ set_Args (before ++ instance_arg inst' port :: after) c :: cs2;
           ps_rest := ps_rest (PodSpecOf wl) |} wl)).
Proof.
  pose proof (ConfigureWorkload_spec u wl _ Hwf Hdemand) as Href. unfold configure_spec in Href.
  destruct (allocate_proxies u (initial_alloc wl) _) as [[st added]|] eqn:E;
    cbn [mbind option_bind] in Href.
  2:{ destruct Href as (e & E' & _). congruence. }
  rewrite Hrun in Href. injection Href as ->.
  set (twice := set_Instances (l1 ++ inst :: l2 ++ inst' :: l3) p).
  destruct (ConfigureWorkload_containers u wl (pre ++ twice :: post)) as (s1 & Hs & Hd1 & <- & Hend).
  destruct (updateContainers_copy [no_proxy] (initial_alloc wl) s1 (ps_Containers (PodSpecOf wl))
    pre p post l1 inst l2 inst' l3 st added Ho)
    as (port & cs1 & c & cs2 & before & after & s2 & -> & Hargs & Hin & R & Hd & Henv);
    [done|done|split; constructor|done|by apply well_formed_fresh| |done|].
  { pose proof (initial_alloc_length wl). unfold port_demand in Hdemand. lia. }
  exists port, (with_env (al_env st) <$> (ps_Containers (PodSpecOf wl) ++ cs1)),
    (with_env (al_env st) c), (with_env (al_env st) <$> cs2), before, after.
  split_and!; [|done|done|].
  - cbn [PodSpecOf pw_Pod pod_Spec ps_Containers]. by rewrite !fmap_app, <-app_assoc.
  - rewrite (Hend _ _ R Hd), Henv.
    by rewrite !fmap_app, <-app_assoc.
Qed.

(** More generally, whenever a pod is configured, an entry that lists a
    connection again and has no port of its own is opened on the port of the
    entry before. *)
Theorem repeated_connection_one_port u wl matches wl' p l1 inst l2 inst' l3
    (Hrun : ConfigureWorkload u wl matches = Ret (Configured wl'))
    (Hp : p ∈ matches) (Ho : apw_override p = None)
    (Hinsts : sp_Instances (apw_Spec p) = l1 ++ inst :: l2 ++ inst' :: l3)
    (Hsame : is_ConnectionString inst' = is_ConnectionString inst) (Hno : is_Port inst' = None)
    (Hbetween : forall x, x ∈ l2 -> is_ConnectionString x <> is_ConnectionString inst) :
  exists c port, c ∈ ps_Containers (PodSpecOf wl')
    /\ instance_arg inst port ∈ c_Args c /\ instance_arg inst' port ∈ c_Args c.
Proof.
  unfold ConfigureWorkload in Hrun.
  destruct (update wl matches (initial_state u wl)) as [[r s]| |] eqn:E; [|done..].
  injection Hrun as ->. unfold update in E.
  apply Go_bind_Ret in E as ([] & s1 & _ & E). apply Go_bind_Ret in E as ([] & s2 & _ & E).
  apply Go_bind_Ret in E as (cs & s3 & E3 & E).
  rewrite (Go_bind_run get _ s3 s3 s3) in E by done.
  destruct (0 <? _) eqn:Hg in E; [done|]. injection E as <- <-. apply details_guard in Hg.
  destruct (updateContainers_each _ p _ _ _ _ E3 Hg Hp) as (c & t1 & t2 & Hc & E1 & Ht2).
  destruct (updateContainer_args _ _ _ _ _ Ho E1) as (args & t3 & Eargs).
  rewrite Hinsts in Eargs.
  destruct (useInstances_repeated _ _ _ _ _ _ _ _ _ _ Eargs Ht2 Hsame Hno Hbetween)
    as (port & H1 & H2).
  exists (updateContainerEnv s3 c), port. split; [|done].
  exact (list_elem_of_fmap_2 (updateContainerEnv s3) _ _ Hc).
Qed.

(** And if the second entry has another port of its own, the port of the first
    counts as free again, although the proxy has been told to listen on it. *)
Theorem repeated_connection_frees_port p inst inst' s a s1 b s2
    (Hnew : find_index (has_key p (is_ConnectionString inst)) (us_Ports s) = None)
    (H1 : useInstancePort p inst s = Ret (a, s1)) (H2 : useInstancePort p inst' s1 = Ret (b, s2))
    (Hok : us_details s2 = [])
    (Hsame : is_ConnectionString inst' = is_ConnectionString inst)
    (Hport : is_Port inst' = Some b) (Hne : b <> a) :
  isPortInUse s1 a = true /\ isPortInUse s2 a = false.
Proof.
  assert (us_details s1 = []) as Hd1
    by (eapply (no_details_before [p]); [apply useInstancePort_extends; by left|exact H2|done]).
  assert (us_details s = []) as Hd
    by (eapply (no_details_before [p]); [apply useInstancePort_extends; by left|exact H1|done]).
  apply useInstancePort_step in H1; [|congruence]. apply useInstancePort_step in H2; [|congruence].
  destruct H1 as [i mp Hf|i mp Hf|_ _ Hfree Hs1]; [congruence..|].
  assert (find_index (has_key p (is_ConnectionString inst')) (us_Ports s1)
    = Some (length (us_Ports s), {| mp_Instance := dbInst (apw_Namespace p) (apw_Name p)
              (is_ConnectionString inst); mp_Port := a; mp_OriginalValues := ∅ |})) as Hf1.
  { rewrite Hs1, Hsame. apply find_index_snoc; [done|]. unfold has_key. cbn.
    by rewrite !bool_decide_eq_true_2. }
  split.
  - apply isPortInUse_true. unfold ports_of. rewrite Hs1, fmap_app, elem_of_app. right. by left.
  - apply isPortInUse_false in Hfree. apply isPortInUse_false.
    destruct H2 as [i mp Hf Hp _|i mp Hf _ _ _ Hs2|Hf]; [|rewrite Hf in Hf1; injection Hf1 as -> ->|].
    + rewrite Hf in Hf1. injection Hf1 as -> ->. cbn in Hp. congruence.
    + unfold ports_of. rewrite Hs2, Hs1, insert_app_r_alt, Nat.sub_diag by lia. cbn.
      rewrite fmap_app, elem_of_app. cbn. intros [?|?%list_elem_of_singleton]; [done|congruence].
    + congruence.
Qed.

End theorems.

(** ** Witnesses *)
Section witnesses.
Import ConcreteInstances.
#[local] Existing Instance in_order.

(** One connection with and without IAM authentication. *)
Definition twice_apw : AuthProxyWorkload :=
  mk_apw "default" "twice" any_pod None
    [mk_instance "proj:region:orders" None "" "";
     mk_instance "proj:region:users" None "" "";
     {| is_ConnectionString := "proj:region:orders"; is_Port := None;
        is_AutoIAMAuthN := Some true; is_PrivateIP := None;
        is_PortEnvName := ""; is_HostEnvName := "" |}].

Lemma repeated_connection_one_port_witness :
  exists c port, c ∈ ps_Containers (PodSpecOf (web_pod_with [twice_apw]))
    /\ instance_arg (mk_instance "proj:region:orders" None "" "") port ∈ c_Args c
    /\ instance_arg {| is_ConnectionString := "proj:region:orders"; is_Port := None;
          is_AutoIAMAuthN := Some true; is_PrivateIP := None;
          is_PortEnvName := ""; is_HostEnvName := "" |} port ∈ c_Args c.
Proof.
  eapply (repeated_connection_one_port ua web_pod [twice_apw] (web_pod_with [twice_apw]) twice_apw []
    _ [mk_instance "proj:region:users" None "" ""] _ []).
  - vm_compute. reflexivity.
  - by left.
  - reflexivity.
  - reflexivity.
  - reflexivity.
  - reflexivity.
  - intros x ->%list_elem_of_singleton. discriminate.
Defined.

(** An entry of [orders_apw] and its copy, which names one variable of the
    first one and asks for IAM authentication. *)
Definition orders_copy : InstanceSpec :=
  {| is_ConnectionString := "proj:region:orders"; is_Port := None;
     is_AutoIAMAuthN := Some true; is_PrivateIP := None;
     is_PortEnvName := "DB_PORT"; is_HostEnvName := "" |}.

Lemma repeated_connection_shares_port_witness :
  exists port cs1 c cs2 before after,
    ps_Containers (PodSpecOf (web_pod_with [users_apw; orders_apw])) = cs1 ++ c :: cs2
    /\ c_Args c = before ++ after
    /\ instance_arg (mk_instance "proj:region:orders" None "DB_PORT" "DB_HOST") port ∈ before
    /\ ConfigureWorkload ua web_pod ([users_apw] ++ set_Instances ([]
           ++ mk_instance "proj:region:orders" None "DB_PORT" "DB_HOST"
           :: [mk_instance "proj:region:audit" (Some 6000) "AUDIT_PORT" ""] ++ orders_copy :: [])
           orders_apw :: [])
       = Ret (Configured (SetPodSpec {|
           ps_Containers := cs1 ++ set_Args (before ++ instance_arg orders_copy port :: after) c :: cs2;
           ps_rest := ps_rest (PodSpecOf web_pod) |} web_pod)).
Proof.
  apply (repeated_connection_shares_port ua web_pod [users_apw] orders_apw [] []
    (mk_instance "proj:region:orders" None "DB_PORT" "DB_HOST")
    [mk_instance "proj:region:audit" (Some 6000) "AUDIT_PORT" ""] orders_copy []).
  - by_evaluation.
  - vm_compute. reflexivity.
  - vm_compute. reflexivity.
  - reflexivity.
  - split; [reflexivity|reflexivity|by left|by right].
Defined.

Lemma repeated_connection_frees_port_witness :
  exists s1 s2,
    useInstancePort twice_apw (mk_instance "proj:region:orders" (Some 5000) "" "")
      (initial_state ua plain_pod) = Ret (5000, s1)
    /\ useInstancePort twice_apw (mk_instance "proj:region:orders" (Some 6000) "" "") s1
       = Ret (6000, s2)
    /\ isPortInUse s1 5000 = true /\ isPortInUse s2 5000 = false.
Proof.
  eexists _, _. split; [reflexivity|]. split; [reflexivity|].
  apply (repeated_connection_frees_port twice_apw (mk_instance "proj:region:orders" (Some 5000) "" "")
    (mk_instance "proj:region:orders" (Some 6000) "" "") (initial_state ua plain_pod) 5000 _ 6000);
    [reflexivity..|discriminate].
Defined.

End witnesses.
