(* ===== verification/Matching.v ===== *)
(** * Which resources apply to a workload

    [filterMatchingInstances] and [FindMatchingAuthProxyWorkloads] of
    [src/internal/workload/podspec_updates.go].  Duplicates are removed with a
    Go map, so the result comes in the order of the iteration over that map. *)

From S2P Require Import Prelude GoStd Api Concrete Names Workload Fixtures PodSpec Allocation.
From S2P Require Import Refinement Configure.
From Stdlib Require Import Ascii.
#[local] Open Scope Z_scope.

Section matching.
Context `{Hk8s : K8sTypes} `{Hlab : LabelsPkg}.

Record AuthProxyWorkloadList := { apl_Items : list AuthProxyWorkload }.

(** [filterMatchingInstances]: the resources that select [wl] and are not
    being deleted. *)
Definition filterMatchingInstances (pl : AuthProxyWorkloadList) (wl : Object)
    : list AuthProxyWorkload :=
  List.filter (fun p =>
    if workloadMatches wl (sp_Workload (apw_Spec p)) (apw_Namespace p)
    then Time_IsZero (om_DeletionTimestamp (apw_ObjectMeta p))
    else false) (apl_Items pl).

(** The key of the map that removes duplicates. *)
Definition resource_key (w : AuthProxyWorkload) : string :=
  apw_Namespace w +:+ "/" +:+ apw_Name w.

(** [m[w.GetNamespace()+"/"+w.GetName()] = w], for each of [wls]. *)
Definition by_key (wls : list AuthProxyWorkload) (m : gmap string AuthProxyWorkload)
    : gmap string AuthProxyWorkload :=
  fold_left (fun m w => <[resource_key w := w]> m) wls m.

Definition FindMatchingAuthProxyWorkloads `{MapRange} (pl : AuthProxyWorkloadList)
    (wl : PodWorkload) (owners : list Workload) : list AuthProxyWorkload :=
  let wls := filterMatchingInstances pl (ObjectOf wl)
             ++ (owners ≫= fun owner => filterMatchingInstances pl (ObjectOf owner)) in
  (range_map (by_key wls ∅)).*2.

(** ** Specification *)
Definition being_deleted (p : AuthProxyWorkload) : Prop :=
  Time_IsZero (om_DeletionTimestamp (apw_ObjectMeta p)) = false.

Definition selects (p : AuthProxyWorkload) (o : Object) : Prop :=
  workloadMatches o (sp_Workload (apw_Spec p)) (apw_Namespace p) = true.

Lemma filterMatchingInstances_elem pl o p :
  p ∈ filterMatchingInstances pl o <-> p ∈ apl_Items pl /\ selects p o /\ ~ being_deleted p.
Proof.
  unfold filterMatchingInstances, selects, being_deleted.
  rewrite list_elem_of_In, filter_In, <-list_elem_of_In.
  destruct (workloadMatches _ _ _), (Time_IsZero _); intuition congruence.
Qed.

(** ** The map that removes duplicates *)
Lemma index_lookup (l : list AuthProxyWorkload) (m : gmap string AuthProxyWorkload) k :
  by_key l m !! k
  = match find_last_index (fun w => bool_decide (resource_key w = k)) l with
    | Some (_, w) => Some w
    | None => m !! k
    end.
Proof.
  revert m. induction l as [|w l IH]; intros m; cbn; [done|]. rewrite IH.
  destruct (find_last_index _ l) as [[i x]|]; [done|].
  case_bool_decide as E; [subst; by rewrite lookup_insert_eq|by rewrite lookup_insert_ne].
Qed.

(** Every entry is stored under its own key. *)
Definition keyed (m : gmap string AuthProxyWorkload) : Prop :=
  map_Forall (fun k w => resource_key w = k) m.

Lemma index_keyed (l : list AuthProxyWorkload) : keyed (by_key l ∅).
Proof.
  intros k w. rewrite index_lookup. destruct (find_last_index _ l) as [[i x]|] eqn:E; [|done].
  intros [= <-]. by apply find_last_index_Some in E as [_ E%bool_decide_eq_true].
Qed.

Lemma keyed_values m :
  keyed m -> resource_key <$> (map_to_list m).*2 = (map_to_list m).*1.
Proof.
  intros Hm. rewrite <-list_fmap_compose. apply list_fmap_ext. intros i [k w] Hi. cbn.
  apply Hm, elem_of_map_to_list. by eapply list_elem_of_lookup_2.
Qed.

Lemma FindMatching_perm `{MapRange} pl wl owners :
  FindMatchingAuthProxyWorkloads pl wl owners
  ≡ₚ (map_to_list (by_key (filterMatchingInstances pl (ObjectOf wl)
         ++ (owners ≫= fun owner => filterMatchingInstances pl (ObjectOf owner))) ∅)).*2.
Proof. unfold FindMatchingAuthProxyWorkloads. by rewrite range_map_perm. Qed.

Lemma FindMatching_keys_NoDup `{MapRange} pl wl owners :
  NoDup (resource_key <$> FindMatchingAuthProxyWorkloads pl wl owners).
Proof.
  rewrite FindMatching_perm, keyed_values by apply index_keyed. apply NoDup_fst_map_to_list.
Qed.

Lemma FindMatching_candidate `{MapRange} pl wl owners p :
  p ∈ FindMatchingAuthProxyWorkloads pl wl owners ->
  p ∈ apl_Items pl /\ ~ being_deleted p
  /\ exists o, o ∈ ObjectOf wl :: (ObjectOf <$> owners) /\ selects p o.
Proof.
  rewrite FindMatching_perm. intros ([k w] & -> & Hin)%list_elem_of_fmap. cbn.
  apply elem_of_map_to_list in Hin. rewrite index_lookup in Hin.
  destruct (find_last_index _ _) as [[i x]|] eqn:E; [|done]. injection Hin as ->.
  apply find_last_index_Some in E as [Hi%list_elem_of_lookup_2 _].
  apply elem_of_app in Hi as [Hi|(o & Hi & Ho)%list_elem_of_bind].
  - apply filterMatchingInstances_elem in Hi as (? & ? & ?).
    split_and!; [done..|]. exists (ObjectOf wl). split; [by left|done].
  - apply filterMatchingInstances_elem in Hi as (? & ? & ?).
    split_and!; [done..|]. exists (ObjectOf o). split; [|done].
    right. apply list_elem_of_fmap. by exists o.
Qed.

Lemma FindMatching_complete `{MapRange} pl wl owners p o :
  (forall q, q ∈ apl_Items pl -> resource_key q = resource_key p -> q = p) ->
  p ∈ apl_Items pl -> ~ being_deleted p ->
  o ∈ ObjectOf wl :: (ObjectOf <$> owners) -> selects p o ->
  p ∈ FindMatchingAuthProxyWorkloads pl wl owners.
Proof.
  intros Huniq Hp Hdel Ho Hsel. rewrite FindMatching_perm.
  apply list_elem_of_fmap. exists (resource_key p, p). split; [done|].
  apply elem_of_map_to_list. rewrite index_lookup.
  assert (p ∈ filterMatchingInstances pl (ObjectOf wl)
          ++ (owners ≫= fun owner => filterMatchingInstances pl (ObjectOf owner))) as Hin.
  { apply elem_of_app. apply elem_of_cons in Ho as [->|(w & -> & Hw)%list_elem_of_fmap].
    - left. by apply filterMatchingInstances_elem.
    - right. apply list_elem_of_bind. exists w. split; [|done].
      by apply filterMatchingInstances_elem. }
  destruct (find_last_index _ _) as [[i q]|] eqn:E.
  - apply find_last_index_Some in E as [Hq%list_elem_of_lookup_2 Hk%bool_decide_eq_true].
    f_equal. apply Huniq; [|done].
    apply elem_of_app in Hq as [Hq|(w & Hq & _)%list_elem_of_bind];
      by apply filterMatchingInstances_elem in Hq as (? & _).
  - apply find_last_index_None in E. rewrite Forall_forall in E.
    specialize (E p Hin). cbn in E. by rewrite bool_decide_eq_true_2 in E.
Qed.

Lemma well_formed_matches `{MapRange} pl wl owners
    (Hpl : Forall (fun p => apw_Name p <> ""
                    /\ NoDup (is_ConnectionString <$> sp_Instances (apw_Spec p))) (apl_Items pl)) :
  well_formed (FindMatchingAuthProxyWorkloads pl wl owners).
Proof.
  split.
  - apply (NoDup_fmap_1 (fun n => nn_Namespace n +:+ "/" +:+ nn_Name n)).
    rewrite <-list_fmap_compose. apply FindMatching_keys_NoDup.
  - apply Forall_forall. intros p (Hp & _)%FindMatching_candidate.
    rewrite Forall_forall in Hpl. by apply Hpl.
Qed.

End matching.

(** ** Theorems *)
Section theorems.
Context `{Hk8s : K8sTypes} `{Hlab : LabelsPkg} `{Hrange : MapRange}.

(** C16: When the resources of the list have distinct names,
    [FindMatchingAuthProxyWorkloads] returns, without duplicates, exactly
    those that are not being deleted and select the pod or one of its owners,
    in whatever order the map is iterated. *)
Theorem FindMatching_spec pl wl owners
    (Hkeys : NoDup (resource_key <$> apl_Items pl)) :
  NoDup (FindMatchingAuthProxyWorkloads pl wl owners)
  /\ forall p, p ∈ FindMatchingAuthProxyWorkloads pl wl owners <->
       p ∈ apl_Items pl /\ ~ being_deleted p
       /\ exists o, o ∈ ObjectOf wl :: (ObjectOf <$> owners) /\ selects p o.
Proof.
  split; [eapply NoDup_fmap_1, FindMatching_keys_NoDup|].
  intros p. split; [apply FindMatching_candidate|].
  intros (Hp & Hdel & o & Ho & Hsel). eapply FindMatching_complete; [|done..].
  intros q Hq Hk. by eapply NoDup_fmap_inj_elem.
Qed.

(** No escalation across namespaces: a resource of a (non-empty) namespace
    is only ever applied to a pod when the pod or one of its owners lives in
    that namespace. *)
Theorem FindMatching_same_namespace pl wl owners p
    (Hp : p ∈ FindMatchingAuthProxyWorkloads pl wl owners) (Hns : apw_Namespace p <> "") :
  exists o, o ∈ ObjectOf wl :: (ObjectOf <$> owners) /\ GetNamespace o = apw_Namespace p.
Proof.
  apply FindMatching_candidate in Hp as (_ & _ & o & Ho & Hsel). exists o. split; [done|].
  apply workloadMatches_true in Hsel as (_ & _ & [E|E] & _); [by rewrite E in Hns|done].
Qed.

(** What [FindMatchingAuthProxyWorkloads] returns is what
    [ConfigureWorkload] relies on: the resources have pairwise distinct names,
    whatever the list contains. *)
Theorem FindMatching_well_formed pl wl owners
    (Hpl : Forall (fun p => apw_Name p <> ""
                    /\ NoDup (is_ConnectionString <$> sp_Instances (apw_Spec p))) (apl_Items pl)) :
  well_formed (FindMatchingAuthProxyWorkloads pl wl owners).
Proof. by apply well_formed_matches. Qed.

End theorems.

(** ** One set of resources in two orders *)
Section order.
Context `{Hk8s : K8sTypes} `{Hlab : LabelsPkg} `{Htab : UnicodeTables}.

(** The map iteration that visits the entries in the opposite order. *)
Definition reversal (r : MapRange) : MapRange := {|
  range_order := fun _ l => reverse (@range_order r _ l);
  range_order_perm := fun _ l =>
    Permutation_trans (reverse_Permutation _) (@range_order_perm r _ l) |}.

Lemma FindMatching_reversal (r : MapRange) pl wl owners :
  @FindMatchingAuthProxyWorkloads _ _ (reversal r) pl wl owners
  = reverse (@FindMatchingAuthProxyWorkloads _ _ r pl wl owners).
Proof. unfold FindMatchingAuthProxyWorkloads, range_map. cbn. apply fmap_reverse. Qed.

(** The first instance of [auto] takes the first free port, [explicit] asks
    for that port. *)
Record port_rivals (used : list Z) (auto explicit : AuthProxyWorkload)
    (insts : list InstanceSpec) (j : InstanceSpec) (port : Z) : Prop := {
  rivals_override : apw_override auto = None /\ apw_override explicit = None;
  rivals_auto : sp_Instances (apw_Spec auto) = insts /\ insts <> []
                /\ Forall (fun i => is_Port i = None) insts;
  rivals_explicit : sp_Instances (apw_Spec explicit) = [j] /\ is_Port j = Some port;
  rivals_port : is_first_free used DefaultFirstPort port;
}.

Lemma first_instance_takes st i rest port st' ports :
  Z.of_nat (length (al_used st)) < max_port_demand ->
  is_Port i = None -> is_first_free (al_used st) DefaultFirstPort port ->
  allocate_instances st (i :: rest) = Some (st', ports) -> port ∈ al_used st'.
Proof.
  intros Hlen Hi Hport E. pose proof (allocate_instances_used _ _ _ _ E) as [-> _].
  cbn [allocate_instances] in E.
  destruct (allocate_instance st i) as [[st1 q]|] eqn:E1; [|done]. cbn in E.
  destruct (allocate_instances st1 rest) as [[st2 more]|]; [|done]. injection E as <- <-.
  apply allocate_instance_rule in E1 as (_ & _ & Hq & _); [|done]. rewrite Hi in Hq.
  rewrite (is_first_free_unique _ _ _ _ Hport Hq). apply elem_of_app. right. by left.
Qed.

Lemma taken_port_refused `{MapRange} u st p j port :
  apw_override p = None -> sp_Instances (apw_Spec p) = [j] -> is_Port j = Some port ->
  port ∈ al_used st -> allocate_proxy u st p = None.
Proof.
  intros Ho Hj Hport Hin. unfold allocate_proxy. rewrite Ho, Hj. cbn [allocate_instances].
  assert (allocate_instance st j = None) as ->; [|done].
  unfold allocate_instance, choose_port. by rewrite Hport, bool_decide_eq_true_2.
Qed.

Lemma rivals_auto_first `{MapRange} u st auto explicit insts j port :
  Z.of_nat (length (al_used st)) < max_port_demand ->
  port_rivals (al_used st) auto explicit insts j port ->
  allocate_proxies u st [auto; explicit] = None.
Proof.
  intros Hlen [[Ho1 Ho2] (Hi & Hne & Hauto) [Hj Hjp] Hport]. cbn [allocate_proxies].
  destruct (allocate_proxy u st auto) as [[st1 c]|] eqn:E; [|done]. cbn [mbind option_bind].
  rewrite (taken_port_refused u st1 explicit j port); [done..|].
  unfold allocate_proxy in E. rewrite Ho1, Hi in E. destruct insts as [|i rest]; [done|].
  apply Forall_cons in Hauto as [Hi1 _].
  destruct (allocate_instances st (i :: rest)) as [[st2 ports]|] eqn:E2; [|done].
  injection E as <- <-. by eapply first_instance_takes.
Qed.

Lemma rivals_explicit_first `{MapRange} u st auto explicit insts j port :
  Z.of_nat (length (al_used st) + S (length insts)) < max_port_demand ->
  port_rivals (al_used st) auto explicit insts j port ->
  al_env st = [] -> NoDup ((j :: insts) ≫= env_names) ->
  exists st' cs, allocate_proxies u st [explicit; auto] = Some (st', cs).
Proof.
  intros Hlen [[Ho1 Ho2] (Hi & _ & Hauto) [Hj Hjp] (_ & Hfree & _)] Henv Hnd.
  cbn [mbind list_bind] in Hnd.
  set (st1 := {| al_used := al_used st ++ [port]; al_env := instance_env j port |}).
  assert (allocate_instance st j = Some (st1, port)) as E.
  { unfold allocate_instance, choose_port. rewrite Hjp, bool_decide_eq_false_2 by done.
    rewrite put_envs_fresh, Henv; [done|]. rewrite Henv, instance_env_names.
    by apply NoDup_app in Hnd as (? & _). }
  destruct (allocate_instances_auto insts st1 []) as (st2 & ports & E2 & _).
  { unfold st1. cbn. rewrite length_app. cbn. lia. }
  { done. }
  { unfold st1. cbn [al_env]. by rewrite instance_env_names, app_nil_r. }
  cbn [allocate_proxies]. unfold allocate_proxy. rewrite Ho1, Ho2, Hi, Hj.
  cbn [allocate_instances]. rewrite E. cbn [mbind option_bind]. rewrite E2. cbn. by eexists _, _.
Qed.

Lemma port_demand_perm wl l l' : l ≡ₚ l' -> port_demand wl l = port_demand wl l'.
Proof. intros Hl. unfold port_demand. by rewrite (bind_Permutation _ _ _ Hl). Qed.

Lemma well_formed_perm l l' : l ≡ₚ l' -> well_formed l -> well_formed l'.
Proof. intros Hl. unfold well_formed. by rewrite Hl. Qed.

(** The two orders of a pair. *)
Lemma rivals_configured `{MapRange} u wl auto explicit insts j port
    (Hwf : well_formed [explicit; auto])
    (Hdemand : port_demand wl [explicit; auto] < max_port_demand)
    (Hrivals : port_rivals (al_used (initial_alloc wl)) auto explicit insts j port)
    (Henv : NoDup ((j :: insts) ≫= env_names)) :
  exists wl', ConfigureWorkload u wl [explicit; auto] = Ret (Configured wl').
Proof.
  pose proof (ConfigureWorkload_spec u wl _ Hwf Hdemand) as Href. unfold configure_spec in Href.
  destruct (rivals_explicit_first u (initial_alloc wl) auto explicit insts j port)
    as (st & cs & E); [|done..|].
  { destruct Hrivals as [_ (Hi & _) [Hj _] _]. pose proof (initial_alloc_length wl).
    unfold port_demand in Hdemand. cbn in Hdemand. rewrite Hi, Hj, app_nil_r in Hdemand.
    cbn in *. lia. }
  rewrite E in Href. eexists. exact Href.
Qed.

Lemma rivals_refused `{MapRange} u wl auto explicit insts j port
    (Hwf : well_formed [auto; explicit])
    (Hdemand : port_demand wl [auto; explicit] < max_port_demand)
    (Hrivals : port_rivals (al_used (initial_alloc wl)) auto explicit insts j port) :
  exists e, ConfigureWorkload u wl [auto; explicit] = Ret (ConfigFailed e).
Proof.
  pose proof (ConfigureWorkload_spec u wl _ Hwf Hdemand) as Href. unfold configure_spec in Href.
  rewrite (rivals_auto_first u _ auto explicit insts j port) in Href; [|..|done].
  - destruct Href as (e & E & _). by exists e.
  - pose proof (initial_alloc_length wl). unfold port_demand in Hdemand. lia.
Qed.

(** C40: Whether a pod is admitted may depend on the order in which Go iterates
    over the map of [FindMatchingAuthProxyWorkloads].  Take any workload to
    which exactly two resources apply, found by any iteration order: [auto],
    none of whose instances has a port of its own, and [explicit], whose one
    instance asks for the first port that is free in the workload (neither
    replaces the proxy container, and their variables have different names).
    Then one of that order and its reversal gives a configured pod, and the
    other one an error. *)
Theorem configuration_depends_on_map_order (r : MapRange) u pl wl owners auto explicit insts j port
    (Hfound : @FindMatchingAuthProxyWorkloads _ _ r pl wl owners ≡ₚ [auto; explicit])
    (Hpl : Forall (fun p => apw_Name p <> ""
                    /\ NoDup (is_ConnectionString <$> sp_Instances (apw_Spec p))) [auto; explicit])
    (Hdemand : port_demand wl [auto; explicit] < max_port_demand)
    (Hrivals : port_rivals (workload_ports wl) auto explicit insts j port)
    (Henv : NoDup ((j :: insts) ≫= env_names)) :
  exists r1 r2 : MapRange, ((r1 = r /\ r2 = reversal r) \/ (r1 = reversal r /\ r2 = r))
    /\ (exists wl', @ConfigureWorkload _ _ _ r1 u wl
          (@FindMatchingAuthProxyWorkloads _ _ r1 pl wl owners) = Ret (Configured wl'))
    /\ (exists e, @ConfigureWorkload _ _ _ r2 u wl
          (@FindMatchingAuthProxyWorkloads _ _ r2 pl wl owners) = Ret (ConfigFailed e)).
Proof.
  assert (well_formed [auto; explicit]) as Hwf.
  { split; [|done]. apply (NoDup_fmap_1 (fun n => nn_Namespace n +:+ "/" +:+ nn_Name n)).
    rewrite <-list_fmap_compose. pose proof (FindMatching_keys_NoDup (H := r) pl wl owners) as Hk.
    rewrite Hfound in Hk. exact Hk. }
  assert ([explicit; auto] ≡ₚ [auto; explicit]) as Hswap by apply Permutation_swap.
  assert (port_rivals (al_used (initial_alloc wl)) auto explicit insts j port) as Hr.
  { destruct Hrivals. split; [done..|]. eapply is_first_free_elem; [|done].
    intros q. cbn. rewrite add_ports_elem_of, elem_of_nil. tauto. }
  assert (forall r' : MapRange, exists wl',
            @ConfigureWorkload _ _ _ r' u wl [explicit; auto] = Ret (Configured wl')) as Hyes.
  { intros r'. eapply rivals_configured; [|by rewrite (port_demand_perm _ _ _ Hswap)|done..].
    by apply (well_formed_perm _ _ (symmetry Hswap)). }
  assert (forall r' : MapRange, exists e,
            @ConfigureWorkload _ _ _ r' u wl [auto; explicit] = Ret (ConfigFailed e)) as Hno
    by (intros r'; by eapply rivals_refused).
  pose proof (FindMatching_reversal r pl wl owners) as Hrev.
  symmetry in Hfound. apply Permutation_length_2_inv in Hfound as [E|E].
  - exists (reversal r), r. rewrite Hrev, E. split; [by right|]. split; [apply Hyes|apply Hno].
  - exists r, (reversal r). rewrite Hrev, E. split; [by left|]. split; [apply Hyes|apply Hno].
Qed.

End order.

(** ** Witnesses *)
Section witnesses.
Import ConcreteInstances.
#[local] Existing Instance in_order.

Definition sample_list : AuthProxyWorkloadList :=
  {| apl_Items := [orders_apw; users_apw; clash_apw] |}.

Lemma FindMatching_spec_witness :
  NoDup (FindMatchingAuthProxyWorkloads sample_list web_pod [])
  /\ forall p, p ∈ FindMatchingAuthProxyWorkloads sample_list web_pod [] <->
       p ∈ apl_Items sample_list /\ ~ being_deleted p
       /\ exists o, o ∈ ObjectOf web_pod :: (ObjectOf <$> ([] : list Workload)) /\ selects p o.
Proof. apply FindMatching_spec. by_evaluation. Defined.

Lemma FindMatching_same_namespace_witness :
  exists o, o ∈ ObjectOf web_pod :: (ObjectOf <$> ([] : list Workload))
            /\ GetNamespace o = apw_Namespace users_apw.
Proof.
  apply (FindMatching_same_namespace sample_list web_pod [] users_apw); [|discriminate].
  apply FindMatching_complete with (o := ObjectOf web_pod).
  - intros q Hq Hk. apply (NoDup_fmap_inj_elem resource_key (apl_Items sample_list)); try done.
    + by_evaluation.
    + by right; left.
  - by right; left.
  - by vm_compute.
  - by left.
  - reflexivity.
Defined.

Lemma FindMatching_well_formed_witness :
  well_formed (FindMatchingAuthProxyWorkloads sample_list web_pod []).
Proof. apply FindMatching_well_formed. by_evaluation. Defined.

Definition auto_apw : AuthProxyWorkload :=
  mk_apw "default" "auto" any_pod None
    [mk_instance "proj:region:a" None "A_PORT" ""; mk_instance "proj:region:c" None "" ""].
Definition explicit_apw : AuthProxyWorkload :=
  mk_apw "default" "explicit" any_pod None [mk_instance "proj:region:b" (Some 5000) "B_PORT" ""].

Lemma configuration_depends_on_map_order_witness :
  let pl := {| apl_Items := [auto_apw; explicit_apw] |} in
  exists r1 r2 : MapRange,
    ((r1 = in_order /\ r2 = reversal in_order) \/ (r1 = reversal in_order /\ r2 = in_order))
    /\ (exists wl', @ConfigureWorkload _ _ _ r1 ua plain_pod
          (@FindMatchingAuthProxyWorkloads _ _ r1 pl plain_pod []) = Ret (Configured wl'))
    /\ (exists e, @ConfigureWorkload _ _ _ r2 ua plain_pod
          (@FindMatchingAuthProxyWorkloads _ _ r2 pl plain_pod []) = Ret (ConfigFailed e)).
Proof.
  apply (configuration_depends_on_map_order in_order ua _ plain_pod [] auto_apw explicit_apw
    (sp_Instances (apw_Spec auto_apw)) (mk_instance "proj:region:b" (Some 5000) "B_PORT" "") 5000).
  - rewrite FindMatching_perm. cbn [mbind list_bind]. rewrite app_nil_r.
    assert (filterMatchingInstances {| apl_Items := [auto_apw; explicit_apw] |}
              (ObjectOf plain_pod) = [auto_apw; explicit_apw]) as -> by reflexivity.
    unfold by_key. cbn [fold_left]. rewrite map_to_list_insert by reflexivity.
    rewrite fmap_cons, insert_empty, map_to_list_singleton. apply Permutation_swap.
  - by_evaluation.
  - vm_compute. reflexivity.
  - split; [done| |done|].
    + split; [done|]. split; [discriminate|]. by_evaluation.
    + apply is_first_free_here. by_evaluation.
  - by_evaluation.
Defined.

End witnesses.
