(* ===== verification/Webhook.v ===== *)
(** * The pod admission webhook

    [src/internal/controller/pod_controller.go].  The API server the webhook
    reads from, and the admission package, are the classes [ClusterReader] and
    [AdmissionPkg]; a request is served from one snapshot of the cluster. *)

From S2P Require Import Prelude GoStd Api Concrete Names Workload Fixtures PodSpec Allocation.
From S2P Require Import Refinement Configure Matching.
From Stdlib Require Import Ascii.
#[local] Open Scope Z_scope.

(** ** External interfaces *)

(** The calls the webhook makes of [client.Client].  A Get fills in the object
    it is given, so its result is that object after the call, and the error. *)
Class ClusterReader `{K8sTypes} `{LabelsPkg} := {
  List_AuthProxyWorkload : string -> Res AuthProxyWorkloadList;
  Get_workload : NamespacedName -> Workload -> Workload * option error;
  (** into a [PartialObjectMetadata] with this API version and kind *)
  Get_metadata : NamespacedName -> string -> string -> Object * option error
}.

(** What the API server promises: the kinds of workloads are namespaced, and a
    Get returns an object of the namespace it names; an owner of another kind
    may be cluster-scoped and then has no namespace; a Get that finds nothing
    leaves its argument alone. *)
Class ClusterReaderLaws `{ClusterReader} := {
  Get_workload_namespace : forall key w w', Get_workload key w = (w', None) ->
    GetNamespace (ObjectOf w') = nn_Namespace key;
  Get_workload_NotFound : forall key w w' e, Get_workload key w = (w', Some e) ->
    IsNotFound e = true -> w' = w;
  Get_metadata_namespace : forall key v k o, Get_metadata key v k = (o, None) ->
    GetNamespace o = nn_Namespace key \/ GetNamespace o = ""
}.

(** sigs.k8s.io/controller-runtime/pkg/webhook/admission and
    k8s.io/apimachinery/pkg/util/json. *)
Class AdmissionPkg `{K8sTypes} := {
  Request : Type;
  Raw : Type;
  req_Raw : Request -> Raw;                 (* req.Object.Raw *)
  Decoder : Set;
  (** into a new Pod; without a decoder it may panic *)
  Decode : option Decoder -> Request -> Outcome (Res Pod);
  Marshal : Pod -> Res Raw;
  Response : Type;
  Errored : Z -> error -> Response;
  PatchResponseFromRaw : Raw -> Raw -> Response;
  Response_Allowed : Response -> bool;
  Response_Patches : Response -> nat;       (* how many patch operations *)
  Decode_returns : forall d req, exists r, Decode (Some d) req = Ret r;
  Errored_denied : forall code e, Response_Allowed (Errored code e) = false;
  PatchResponse_same : forall raw,
    Response_Allowed (PatchResponseFromRaw raw raw) = true
    /\ Response_Patches (PatchResponseFromRaw raw raw) = 0%nat
}.

(** The webhook; its client is [ClusterReader]. *)
Record PodAdmissionWebhook (Decoder : Set) := {
  decoder : option Decoder;               (* [None]: nil *)
  updater : Updater
}.
#[global] Arguments decoder {_} _.
#[global] Arguments updater {_} _.

(** [InjectDecoder], called by controller-runtime before the first request. *)
Definition InjectDecoder {Decoder : Set} (a : PodAdmissionWebhook Decoder) (d : Decoder)
    : PodAdmissionWebhook Decoder * option error :=
  ({| decoder := Some d; updater := updater a |}, None).

Definition StatusInternalServerError : Z := 500.

Section webhook.
Context `{Hk8s : K8sTypes} `{Hlab : LabelsPkg} `{Hschema : SchemaPkg}.
Context `{Hreader : !ClusterReader}.

(** ** Owners *)

(** The Get of one owner: the workload appended to [owners] if its kind is
    supported, the object for the recursion, and the error of the Get. *)
Definition fetch_owner (object : Object) (r : OwnerReference)
    : option Workload * Object * option error :=
  let key := {| nn_Namespace := GetNamespace object; nn_Name := or_Name r |} in
  match WorkloadForKind (or_Kind r) with
  | Fail _ => let '(owner, err) := Get_metadata key (or_APIVersion r) (or_Kind r) in
              (None, owner, err)
  | OK wl => let '(wl, err) := Get_workload key wl in (Some wl, ObjectOf wl, err)
  end.

(** The loop over the owner references, given the recursive call. *)
Fixpoint owners_loop (rec : Object -> Outcome (Res (list Workload))) (object : Object)
    (refs : list OwnerReference) (owners : list Workload) : Outcome (Res (list Workload)) :=
  match refs with
  | [] => Ret (OK owners)
  | r :: refs =>
      let '(wl, owner, err) := fetch_owner object r in
      let owners := owners ++ match wl with Some wl => [wl] | None => [] end in
      match err with
      | Some e => if IsNotFound e then owners_loop rec object refs owners else Ret (Fail e)
      | None =>
          ownerOwners ← rec owner;
          match ownerOwners with
          | Fail e => Ret (Fail e)
          | OK ownerOwners => owners_loop rec object refs (owners ++ ownerOwners)
          end
      end
  end.

(** [fuel] bounds the depth of the recursion: without a bound it may not end. *)
Fixpoint listOwners (fuel : nat) (object : Object) : Outcome (Res (list Workload)) :=
  match fuel with
  | O => Diverge
  | S fuel => owners_loop (listOwners fuel) object (GetOwnerReferences object) []
  end.

(** ** The handler *)

(** The end of [Handle]: the answer for a result of [ConfigureWorkload]. *)
Definition answer `{!AdmissionPkg} (req : Request) (result : ConfigResult) : Outcome Response :=
  match result with
  | ConfigFailed wlConfigErr => Ret (Errored StatusInternalServerError (ErrorString
      ("there is an AuthProxyWorkloadConfiguration error reconciling this workload "
       +:+ ConfigError_Error wlConfigErr)))
  | Configured wl =>
      match Marshal (pw_Pod wl) with
      | Fail _ => Ret (Errored StatusInternalServerError
                         (ErrorString "unable to marshal workload result"))
      | OK marshaledRes => Ret (PatchResponseFromRaw (req_Raw req) marshaledRes)
      end
  end.

Definition Handle `{!AdmissionPkg} `{UnicodeTables} `{MapRange} (fuel : nat)
    (a : PodAdmissionWebhook Decoder) (req : Request) : Outcome Response :=
  decoded ← Decode (decoder a) req;
  match decoded with
  | Fail err => Ret (Errored StatusInternalServerError err)
  | OK pod =>
      let wl := {| pw_Pod := pod |} in
      match List_AuthProxyWorkload (GetNamespace (ObjectOf wl)) with
      | Fail _ => Ret (Errored StatusInternalServerError
                         (ErrorString "unable to list CloudSqlClient resources"))
      | OK instList =>
          owners ← listOwners fuel (ObjectOf wl);
          match owners with
          | Fail err => Ret (Errored StatusInternalServerError (ErrorString
              ("there is an AuthProxyWorkloadConfiguration error reconciling this workload "
               +:+ Error_text err)))
          | OK owners =>
              let proxies := FindMatchingAuthProxyWorkloads instList wl owners in
              if (Z.of_nat (length proxies) =? 0)
              then Ret (PatchResponseFromRaw (req_Raw req) (req_Raw req))
              else
                result ← ConfigureWorkload (updater a) wl proxies;
                answer req result
          end
      end
  end.

(** ** Ownership *)

(** [owns o o']: a Get for one of the owner references of [o] finds [o']. *)
Definition owns (o o' : Object) : Prop :=
  exists r wl, r ∈ GetOwnerReferences o /\ fetch_owner o r = (wl, o', None).

(** The workloads [listOwners] is to find: the owners of supported kinds, at
    any distance, and what the Get of a missing owner leaves behind. *)
Inductive owner_workload : Object -> Workload -> Prop :=
| owner_direct o r wl o' :
    r ∈ GetOwnerReferences o -> fetch_owner o r = (Some wl, o', None) -> owner_workload o wl
| owner_missing o r wl o' e :
    r ∈ GetOwnerReferences o -> fetch_owner o r = (Some wl, o', Some e) ->
    IsNotFound e = true -> owner_workload o wl
| owner_indirect o o' wl : owns o o' -> owner_workload o' wl -> owner_workload o wl.

(** Fewer than [n] owners follow each other, starting from [o]. *)
Inductive owner_depth : nat -> Object -> Prop :=
| owner_depth_S n o : (forall o', owns o o' -> owner_depth n o') -> owner_depth (S n) o.

(** ** Lemmas on the loop *)
Lemma owners_loop_returns rec o refs acc :
  (forall r wl o', r ∈ refs -> fetch_owner o r = (wl, o', None) -> exists x, rec o' = Ret x) ->
  exists x, owners_loop rec o refs acc = Ret x.
Proof.
  revert acc. induction refs as [|r refs IH]; intros acc Hrec; cbn [owners_loop]; [by eexists|].
  destruct (fetch_owner o r) as [[wl o'] [e|]] eqn:E.
  - destruct (IsNotFound e); [|by eexists]. apply IH. intros r' ???. apply Hrec. by right.
  - destruct (Hrec r wl o') as (x & Hx); [by left|done|]. rewrite Hx. cbn [mbind Outcome_bind].
    destruct x as [oo|e]; [|by eexists]. apply IH. intros r' ???. apply Hrec. by right.
Qed.

(** What one owner reference contributes. *)
Definition found_at (rec : Object -> Outcome (Res (list Workload))) (o : Object)
    (r : OwnerReference) (w : Workload) : Prop :=
  exists wl o' err, fetch_owner o r = (wl, o', err)
    /\ match err with
       | Some e => IsNotFound e = true /\ wl = Some w
       | None => exists oo, rec o' = Ret (OK oo) /\ (wl = Some w \/ w ∈ oo)
       end.

Lemma elem_of_option_list (wl : option Workload) w :
  w ∈ match wl with Some wl => [wl] | None => [] end <-> wl = Some w.
Proof.
  destruct wl as [x|]; [rewrite list_elem_of_singleton|rewrite elem_of_nil]; intuition congruence.
Qed.

Lemma owners_loop_step rec o r refs acc owners :
  owners_loop rec o (r :: refs) acc = Ret (OK owners) ->
  exists found, owners_loop rec o refs (acc ++ found) = Ret (OK owners)
    /\ (forall w, w ∈ found <-> found_at rec o r w)
    /\ (forall wl o', fetch_owner o r = (wl, o', None) -> exists oo, rec o' = Ret (OK oo)).
Proof.
  cbn [owners_loop]. unfold found_at. destruct (fetch_owner o r) as [[wl o'] [e|]].
  - destruct (IsNotFound e) eqn:He; [|done]. intros E. eexists. split; [exact E|]. split; [|done].
    intros w. rewrite elem_of_option_list. split.
    + intros ->. by exists (Some w), o', (Some e).
    + by intros (? & ? & ? & [= <- <- <-] & _ & ->).
  - destruct (rec o') as [[oo|]| |] eqn:Er; cbn; [|done..]. rewrite <-app_assoc.
    intros E. eexists. split; [exact E|]. split; [|intros ? ? [= <- <-]; eauto].
    intros w. rewrite elem_of_app, elem_of_option_list. split.
    + intros Hw. exists wl, o', None. eauto.
    + intros (? & ? & ? & [= <- <- <-] & oo' & Er' & Hw). congruence.
Qed.

Lemma owners_loop_OK rec o refs acc owners :
  owners_loop rec o refs acc = Ret (OK owners) ->
  exists found, owners = acc ++ found
    /\ (forall w, w ∈ found <-> exists r, r ∈ refs /\ found_at rec o r w)
    /\ (forall r wl o', r ∈ refs -> fetch_owner o r = (wl, o', None) ->
          exists oo, rec o' = Ret (OK oo)).
Proof.
  revert acc. induction refs as [|r refs IH]; intros acc.
  - intros [= <-]. exists []. rewrite app_nil_r. split_and!; [done| |by intros ? ? ? ?%elem_of_nil].
    intros w. split; [by intros ?%elem_of_nil|]. by intros (r & ?%elem_of_nil & _).
  - intros (found1 & E & Hf1 & Hr1)%owners_loop_step.
    apply IH in E as (found & -> & Hf & Hr). exists (found1 ++ found).
    split_and!; [by rewrite <-app_assoc| |].
    + intros w. rewrite elem_of_app, Hf1, Hf. setoid_rewrite elem_of_cons. split.
      * intros [?|(r' & ? & ?)]; eauto.
      * intros (r' & [->|?] & ?); eauto.
    + intros r' wl o' [->|?]%elem_of_cons; eauto.
Qed.

Lemma listOwners_returns n o fuel :
  owner_depth n o -> (n <= fuel)%nat -> exists x, listOwners fuel o = Ret x.
Proof.
  intros Hd. revert fuel. induction Hd as [n o _ IH]; intros [|fuel] Hfuel; [lia|].
  cbn [listOwners]. apply owners_loop_returns.
  intros r wl o' Hr E. apply IH; [by exists r, wl|lia].
Qed.

Lemma listOwners_spec fuel o owners :
  listOwners fuel o = Ret (OK owners) -> forall w, w ∈ owners <-> owner_workload o w.
Proof.
  revert o owners. induction fuel as [|fuel IH]; intros o owners; [done|]. cbn [listOwners].
  intros (found & -> & Hf & Hrec)%owners_loop_OK w. cbn [app]. rewrite Hf. split.
  - intros (r & Hr & wl & o' & [e|] & E & Hw).
    + destruct Hw as [He ->]. by eapply owner_missing.
    + destruct Hw as (oo & Hoo & [->|Hw]); [by eapply owner_direct|].
      eapply owner_indirect; [by exists r, wl|]. by eapply IH.
  - unfold found_at. intros Hw. destruct Hw as [o r w o' Hr E|o r w o' e Hr E He|o o' w (r & wl & Hr & E) Hw].
    + destruct (Hrec _ _ _ Hr E) as (oo & Hoo). exists r. split; [done|].
      exists (Some w), o', None. eauto.
    + exists r. split; [done|]. by exists (Some w), o', (Some e).
    + destruct (Hrec _ _ _ Hr E) as (oo & Hoo). exists r. split; [done|].
      exists wl, o', None. split; [done|]. exists oo. split; [done|]. right. by eapply IH.
Qed.

End webhook.

Section lemmas.
Context `{Hk8s : K8sTypes} `{Hlab : LabelsPkg} `{Hschema : SchemaPkg}.
Context `{Hreader : !ClusterReader}.

(** An owner that is only missing is never an error. *)
Lemma owners_loop_Fail rec o refs acc e :
  (forall o' e, rec o' = Ret (Fail e) -> IsNotFound e = false) ->
  owners_loop rec o refs acc = Ret (Fail e) -> IsNotFound e = false.
Proof.
  intros Hrec. revert acc. induction refs as [|r refs IH]; intros acc; cbn [owners_loop]; [done|].
  destruct (fetch_owner o r) as [[wl o'] [e'|]].
  - destruct (IsNotFound e') eqn:He; [apply IH|congruence].
  - destruct (rec o') as [[oo|e']| |] eqn:Er; cbn; [apply IH| |done..].
    intros [= <-]. by eapply Hrec.
Qed.

Lemma listOwners_Fail fuel o e : listOwners fuel o = Ret (Fail e) -> IsNotFound e = false.
Proof.
  revert o e. induction fuel as [|fuel IH]; intros o e; [done|]. cbn [listOwners].
  apply owners_loop_Fail, IH.
Qed.

(** A new workload object has neither kind nor namespace. *)
Lemma WorkloadForKind_zero kind w :
  WorkloadForKind kind = OK w -> ObjectOf w = {| o_GVK := GVK_zero; o_Meta := ObjectMeta_zero |}.
Proof. unfold WorkloadForKind. repeat case_decide; intros [= <-]; reflexivity. Qed.

Context `{Hlaws : !ClusterReaderLaws}.

(** The pod's namespace, or that of cluster-scoped objects. *)
Definition in_scope (ns : string) (o : Object) : Prop := GetNamespace o = ns \/ GetNamespace o = "".

Lemma fetch_owner_namespace ns o r wl o' :
  in_scope ns o -> fetch_owner o r = (wl, o', None) ->
  in_scope ns o' /\ forall w, wl = Some w -> in_scope ns (ObjectOf w).
Proof.
  unfold fetch_owner, in_scope. intros Ho. destruct (WorkloadForKind (or_Kind r)) as [w|].
  - destruct (Get_workload _ w) as [w' [|]] eqn:E; [done|]. intros [= <- <-].
    apply Get_workload_namespace in E. cbn [nn_Namespace] in E. rewrite <-E in Ho.
    split; [exact Ho|]. by intros ? [= <-].
  - destruct (Get_metadata _ _ _) as [o'' [|]] eqn:E; [done|]. intros [= <- <-].
    apply Get_metadata_namespace in E as [->| ->]; (split; [|done]); [done|by right].
Qed.

Lemma fetch_owner_missing o r w o' e :
  fetch_owner o r = (Some w, o', Some e) -> IsNotFound e = true ->
  ObjectOf w = {| o_GVK := GVK_zero; o_Meta := ObjectMeta_zero |}.
Proof.
  unfold fetch_owner. destruct (WorkloadForKind (or_Kind r)) as [w0|] eqn:E0.
  - destruct (Get_workload _ w0) as [w' [e'|]] eqn:E; [|done]. intros [= <- <- <-] He.
    apply Get_workload_NotFound in E; [|done]. subst. by eapply WorkloadForKind_zero.
  - by destruct (Get_metadata _ _ _).
Qed.

Lemma owner_workload_namespace ns o w :
  owner_workload o w -> in_scope ns o -> in_scope ns (ObjectOf w).
Proof.
  induction 1 as [o r w o' Hr E|o r w o' e Hr E He|o o' w (r & wl & Hr & E) Hw IH]; intros Ho.
  - by apply (fetch_owner_namespace ns _ _ _ _ Ho E).
  - right. by rewrite (fetch_owner_missing _ _ _ _ _ E He).
  - apply IH. by apply (fetch_owner_namespace ns _ _ _ _ Ho E).
Qed.

End lemmas.

(** ** What the webhook reads *)
Section scope.
Context `{Hk8s : K8sTypes} `{Hlab : LabelsPkg} `{Hschema : SchemaPkg} `{Hrange : MapRange}.

(** The resources of namespace [ns]. *)
Definition resources_in (ns : string) (pl : AuthProxyWorkloadList) : list AuthProxyWorkload :=
  List.filter (fun p => bool_decide (apw_Namespace p = ns)) (apl_Items pl).

(** Resources are namespaced. *)
Definition all_namespaced (pl : AuthProxyWorkloadList) : Prop :=
  Forall (fun p => apw_Namespace p <> "") (apl_Items pl).

(** Two clusters with the same resources in [ns], and the same objects in [ns]
    and without a namespace.  They may differ in everything else; their lists
    may even contain resources of other namespaces. *)
Record same_namespace (ns : string) (R1 R2 : ClusterReader) : Prop := {
  same_List : match List_AuthProxyWorkload (ClusterReader := R1) ns,
                    List_AuthProxyWorkload (ClusterReader := R2) ns with
              | OK pl1, OK pl2 => resources_in ns pl1 = resources_in ns pl2
                                  /\ all_namespaced pl1 /\ all_namespaced pl2
              | Fail _, Fail _ => True
              | _, _ => False
              end;
  same_Get_workload : forall key w, nn_Namespace key = ns \/ nn_Namespace key = "" ->
    Get_workload (ClusterReader := R1) key w = Get_workload (ClusterReader := R2) key w;
  same_Get_metadata : forall key v k, nn_Namespace key = ns \/ nn_Namespace key = "" ->
    Get_metadata (ClusterReader := R1) key v k = Get_metadata (ClusterReader := R2) key v k
}.

(** An object in scope is only selected by resources of the namespace. *)
Lemma filter_in_scope ns pl o :
  all_namespaced pl -> in_scope ns o ->
  filterMatchingInstances pl o = filterMatchingInstances {| apl_Items := resources_in ns pl |} o.
Proof.
  intros Hns Ho. unfold filterMatchingInstances, resources_in. cbn [apl_Items].
  induction Hns as [|p l Hp _ IH]; [done|]. cbn [List.filter].
  destruct (workloadMatches o _ _) eqn:Hm; case_bool_decide as E; cbn [List.filter];
    rewrite ?Hm, IH; try done.
  apply workloadMatches_true in Hm as (_ & _ & [?|?] & _); [done|]. by destruct Ho; congruence.
Qed.

Lemma FindMatching_in_scope ns pl1 pl2 wl owners :
  resources_in ns pl1 = resources_in ns pl2 -> all_namespaced pl1 -> all_namespaced pl2 ->
  in_scope ns (ObjectOf wl) -> (forall w, w ∈ owners -> in_scope ns (ObjectOf w)) ->
  FindMatchingAuthProxyWorkloads pl1 wl owners = FindMatchingAuthProxyWorkloads pl2 wl owners.
Proof.
  intros E H1 H2 Hwl Hown. unfold FindMatchingAuthProxyWorkloads.
  assert (forall o, in_scope ns o -> filterMatchingInstances pl1 o = filterMatchingInstances pl2 o)
    as Hf.
  { intros o Ho. by rewrite (filter_in_scope ns pl1 o H1 Ho), (filter_in_scope ns pl2 o H2 Ho), E. }
  rewrite (Hf _ Hwl). do 4 f_equal. induction owners as [|w owners IH]; [done|]. cbn.
  rewrite Hf by (apply Hown; by left). f_equal. apply IH. intros w' ?. apply Hown. by right.
Qed.

Context (R1 R2 : ClusterReader) `{Hlaws : !ClusterReaderLaws (H1 := R1)}.

Lemma fetch_owner_same ns o r :
  same_namespace ns R1 R2 -> in_scope ns o ->
  fetch_owner (Hreader := R1) o r = fetch_owner (Hreader := R2) o r.
Proof.
  intros Hs Ho. unfold fetch_owner. destruct (WorkloadForKind (or_Kind r)).
  - by rewrite (same_Get_workload _ _ _ Hs).
  - by rewrite (same_Get_metadata _ _ _ Hs).
Qed.

Lemma owners_loop_same ns rec1 rec2 o refs acc :
  same_namespace ns R1 R2 -> in_scope ns o -> (forall o', in_scope ns o' -> rec1 o' = rec2 o') ->
  owners_loop (Hreader := R1) rec1 o refs acc = owners_loop (Hreader := R2) rec2 o refs acc.
Proof.
  intros Hs Ho Hrec. revert acc. induction refs as [|r refs IH]; intros acc; [done|].
  cbn [owners_loop]. rewrite <-(fetch_owner_same ns o r Hs Ho).
  destruct (fetch_owner o r) as [[wl o'] [e|]] eqn:E; [by destruct (IsNotFound e)|].
  rewrite Hrec by (by apply (fetch_owner_namespace ns _ _ _ _ Ho E)).
  destruct (rec2 o') as [[oo|e]| |]; [|done..]. apply IH.
Qed.

Lemma listOwners_same ns fuel o :
  same_namespace ns R1 R2 -> in_scope ns o ->
  listOwners (Hreader := R1) fuel o = listOwners (Hreader := R2) fuel o.
Proof.
  intros Hs. revert o. induction fuel as [|fuel IH]; intros o Ho; [done|]. cbn [listOwners].
  by apply (owners_loop_same ns).
Qed.

End scope.

Section decision.
Context `{Hk8s : K8sTypes} `{Hlab : LabelsPkg} `{Hrange : MapRange}.

Lemma FindMatching_demand pl wl owners n :
  port_demand wl (apl_Items pl) < n ->
  port_demand wl (FindMatchingAuthProxyWorkloads pl wl owners) < n.
Proof.
  unfold port_demand. intros Hn.
  assert (FindMatchingAuthProxyWorkloads pl wl owners ⊆+ apl_Items pl) as Hsub.
  { apply NoDup_submseteq; [eapply NoDup_fmap_1, FindMatching_keys_NoDup|].
    intros p Hp. by apply FindMatching_candidate in Hp as (? & _). }
  apply (bind_length_submseteq (fun p => sp_Instances (apw_Spec p))) in Hsub. lia.
Qed.

End decision.

(** ** The handler on a decoded request *)
Section handler.
Context `{Hk8s : K8sTypes} `{Hlab : LabelsPkg} `{Hschema : SchemaPkg} `{Htab : UnicodeTables}
  `{Hrange : MapRange}.
Context `{Hreader : !ClusterReader} `{Hadm : !AdmissionPkg}.

Lemma Handle_spec fuel a req pod pl owners
    (Hdec : Decode (decoder a) req = Ret (OK pod))
    (Hlist : List_AuthProxyWorkload (om_Namespace (pod_Meta pod)) = OK pl)
    (Howners : listOwners fuel (ObjectOf {| pw_Pod := pod |}) = Ret (OK owners))
    (Hpl : Forall (fun p => apw_Name p <> ""
                    /\ NoDup (is_ConnectionString <$> sp_Instances (apw_Spec p))) (apl_Items pl))
    (Hdemand : port_demand {| pw_Pod := pod |} (apl_Items pl) < max_port_demand) :
  let proxies := FindMatchingAuthProxyWorkloads pl {| pw_Pod := pod |} owners in
  if bool_decide (proxies = [])
  then Handle fuel a req = Ret (PatchResponseFromRaw (req_Raw req) (req_Raw req))
  else match configure_spec (updater a) {| pw_Pod := pod |} proxies with
       | None => exists msg, Handle fuel a req = Ret (Errored StatusInternalServerError msg)
       | Some wl' =>
           match Marshal (pw_Pod wl') with
           | OK raw => Handle fuel a req = Ret (PatchResponseFromRaw (req_Raw req) raw)
           | Fail _ => exists msg, Handle fuel a req = Ret (Errored StatusInternalServerError msg)
           end
       end.
Proof.
  intros proxies.
  assert (Handle fuel a req
          = if (Z.of_nat (length proxies) =? 0)
            then Ret (PatchResponseFromRaw (req_Raw req) (req_Raw req))
            else (result ← ConfigureWorkload (updater a) {| pw_Pod := pod |} proxies;
                  answer req result)) as ->.
  { unfold Handle. rewrite Hdec. cbn [mbind Outcome_bind].
    change (GetNamespace _) with (om_Namespace (pod_Meta pod)).
    rewrite Hlist, Howners. done. }
  case_bool_decide as Hempty; [by rewrite Hempty|].
  assert ((Z.of_nat (length proxies) =? 0) = false) as ->.
  { apply Z.eqb_neq. by destruct proxies. }
  pose proof (ConfigureWorkload_spec (updater a) {| pw_Pod := pod |} proxies) as Href.
  destruct (configure_spec _ _ _) as [wl'|].
  - rewrite Href; [|by apply well_formed_matches|by eapply FindMatching_demand].
    cbn. destruct (Marshal _); [done|by eexists].
  - destruct Href as (e & -> & _); [by apply well_formed_matches|by eapply FindMatching_demand|].
    by eexists.
Qed.

End handler.

(** ** Theorems *)
Section theorems.
Context `{Hk8s : K8sTypes} `{Hlab : LabelsPkg} `{Hschema : SchemaPkg} `{Htab : UnicodeTables}
  `{Hrange : MapRange}.
Context `{Hreader : !ClusterReader} `{Hadm : !AdmissionPkg}.

(** C37: [listOwners] ends when the ownership chains do (with more fuel than the
    length of the longest chain it returns).  An owner that is missing is
    never an error.  The result has exactly the workloads that can be fetched
    by following owner references from the object and, for each reference on
    the way whose owner is of a supported kind but missing, the blank workload
    that the failed Get leaves behind ([owner_missing]): the code appends it
    before it looks at the error. *)
Theorem listOwners_reachable fuel o n (Hd : owner_depth n o) (Hfuel : (n <= fuel)%nat) :
  exists r, listOwners fuel o = Ret r
    /\ match r with
       | OK owners => forall w, w ∈ owners <-> owner_workload o w
       | Fail e => IsNotFound e = false
       end.
Proof.
  destruct (listOwners_returns n o fuel Hd Hfuel) as (r & E). exists r. split; [done|].
  destruct r as [owners|e]; [by eapply listOwners_spec|by eapply listOwners_Fail].
Qed.

(** An ownership cycle makes the webhook recurse for ever: no depth is
    enough for an object that owns itself. *)
Theorem listOwners_cycle fuel o r wl
    (Hr : GetOwnerReferences o = [r]) (Hf : fetch_owner o r = (wl, o, None)) :
  listOwners fuel o = Diverge.
Proof.
  induction fuel as [|fuel IH]; [done|]. cbn [listOwners]. rewrite Hr. cbn [owners_loop].
  by rewrite Hf, IH.
Qed.

(** C17: The webhook is confined to the namespace of the pod: on two clusters that
    agree on the resources and objects of that namespace, and on objects that
    have no namespace (an owner may be one), [Handle] gives the same answer,
    whatever the other namespaces contain.  This holds although owners are
    followed through the cluster, and even if the list of resources contained
    those of other namespaces: they are never applied. *)
Theorem Handle_same_namespace (R1 R2 : ClusterReader) `{!ClusterReaderLaws (H1 := R1)} fuel a req
    (Hsame : forall pod, Decode (decoder a) req = Ret (OK pod) ->
       same_namespace (om_Namespace (pod_Meta pod)) R1 R2) :
  Handle (Hreader := R1) fuel a req = Handle (Hreader := R2) fuel a req.
Proof.
  unfold Handle. destruct (Decode (decoder a) req) as [[pod|e]| |]; [|done..].
  specialize (Hsame pod eq_refl). cbn [mbind Outcome_bind].
  change (GetNamespace _) with (om_Namespace (pod_Meta pod)).
  set (ns := om_Namespace (pod_Meta pod)) in *.
  assert (in_scope ns (ObjectOf {| pw_Pod := pod |})) as Hpod by by left.
  pose proof (same_List _ _ _ Hsame) as Hlist.
  destruct (List_AuthProxyWorkload (ClusterReader := R1) ns) as [pl1|e1],
    (List_AuthProxyWorkload (ClusterReader := R2) ns) as [pl2|e2]; [|done..].
  destruct Hlist as (E & H1 & H2). rewrite <-(listOwners_same R1 R2 ns fuel _ Hsame Hpod).
  destruct (listOwners _ _) as [[owners|e]| |] eqn:Eo; [|done..]. cbn [mbind Outcome_bind].
  rewrite (FindMatching_in_scope ns pl1 pl2 _ owners E H1 H2 Hpod); [done|].
  intros w Hw. apply (listOwners_spec _ _ _ Eo) in Hw. by eapply owner_workload_namespace.
Qed.


(** Errors fail closed: when the request cannot be decoded, or the resources
    or the owners cannot be read, the pod is not admitted. *)
Theorem Handle_fails_closed fuel a req
    (Herr : (exists e, Decode (decoder a) req = Ret (Fail e))
      \/ exists pod, Decode (decoder a) req = Ret (OK pod)
         /\ ((exists e, List_AuthProxyWorkload (om_Namespace (pod_Meta pod)) = Fail e)
             \/ exists pl e, List_AuthProxyWorkload (om_Namespace (pod_Meta pod)) = OK pl
                  /\ listOwners fuel (ObjectOf {| pw_Pod := pod |}) = Ret (Fail e))) :
  exists resp, Handle fuel a req = Ret resp /\ Response_Allowed resp = false.
Proof.
  unfold Handle. destruct Herr as [[e ->]|(pod & -> & [[e E]|(pl & e & E & Eo)])]; cbn [mbind Outcome_bind].
  - eexists. split; [done|]. apply Errored_denied.
  - change (GetNamespace _) with (om_Namespace (pod_Meta pod)). rewrite E.
    eexists. split; [done|]. apply Errored_denied.
  - change (GetNamespace _) with (om_Namespace (pod_Meta pod)). rewrite E, Eo.
    eexists. split; [done|]. apply Errored_denied.
Qed.

(** C29: The webhook always answers, once it has been given a decoder: when the pod's ownership chains are finite
    (and the resources of its namespace do not ask for 2^31 ports), [Handle]
    neither panics nor runs for ever, whatever the resources are; it answers
    with an error or with a patch of the request's own object. *)
Theorem Handle_answers fuel a0 d req n (Hfuel : (n <= fuel)%nat)
    (Hpod : forall pod, Decode (Some d) req = Ret (OK pod) ->
       owner_depth n (ObjectOf {| pw_Pod := pod |})
       /\ forall pl, List_AuthProxyWorkload (om_Namespace (pod_Meta pod)) = OK pl ->
            port_demand {| pw_Pod := pod |} (apl_Items pl) < 2 ^ 31) :
  exists resp, Handle fuel (InjectDecoder a0 d).1 req = Ret resp
    /\ ((exists code e, resp = Errored code e)
        \/ exists raw, resp = PatchResponseFromRaw (req_Raw req) raw).
Proof.
  unfold Handle. cbn [InjectDecoder fst decoder].
  destruct (Decode_returns d req) as ([pod|e] & Edec); rewrite Edec; cbn [mbind Outcome_bind]; [|by eauto 6].
  destruct (Hpod pod Edec) as [Hdepth Hdemand].
  change (GetNamespace _) with (om_Namespace (pod_Meta pod)).
  destruct (List_AuthProxyWorkload _) as [pl|e]; [|by eauto 6].
  destruct (listOwners_returns n _ fuel Hdepth Hfuel) as ([owners|e] & ->); cbn; [|by eauto 6].
  destruct (_ =? 0); [by eauto 6|].
  destruct (ConfigureWorkload_shape (updater a0) {| pw_Pod := pod |}
    (FindMatchingAuthProxyWorkloads pl {| pw_Pod := pod |} owners)) as ([wl'|e] & -> & _).
  { by apply FindMatching_demand, Hdemand. }
  - cbn. destruct (Marshal _); by eauto 6.
  - cbn. by eauto 6.
Qed.

End theorems.

(** ** Witnesses

    A cluster with a deployment, its replica set, and resources in two
    namespaces. *)
Section witnesses.
Import ConcreteInstances.
#[local] Existing Instance in_order.

Definition meta_owned (ns name : string) (refs : list OwnerReference) : ObjectMeta := {|
  om_Name := name; om_Namespace := ns; om_Generation := 1; om_ResourceVersion := "1";
  om_Labels := ∅; om_Annotations := ∅; om_DeletionTimestamp := None; om_Finalizers := [];
  om_OwnerReferences := refs; om_rest := tt |}.

Definition owner_ref (kind name : string) : OwnerReference :=
  {| or_APIVersion := "apps/v1"; or_Kind := kind; or_Name := name |}.

Definition mk_templated (kind ns name : string) (refs : list OwnerReference) : Templated := {|
  t_GVK := mk_gvk "apps" "v1" kind; t_Meta := meta_owned ns name refs;
  t_Template := PodTemplateSpec_zero; t_rest := tt |}.

Definition cluster_workloads : list Workload :=
  [WDeployment {| dw_Deployment := mk_templated "Deployment" "default" "web" [] |};
   WReplicaSet {| rsw_ReplicaSet := mk_templated "ReplicaSet" "default" "web-1"
                    [owner_ref "Deployment" "web"; owner_ref "Deployment" "gone"] |};
   WDeployment {| dw_Deployment := mk_templated "Deployment" "default" "loop"
                    [owner_ref "Deployment" "loop"] |}].

Definition shop_apw : AuthProxyWorkload :=
  mk_apw "default" "shop" (mk_selector "Deployment" "web" None) None
    [mk_instance "proj:region:shop" None "DB_PORT" ""].
Definition foreign_apw : AuthProxyWorkload :=
  mk_apw "other" "shop" (mk_selector "Deployment" "web" None) None
    [mk_instance "proj:region:other" None "DB_PORT" ""].

Definition find_workload (key : NamespacedName) (w : Workload) : Workload * option error :=
  match List.find (fun w' => bool_decide (workload_kind w' = workload_kind w)
                       && bool_decide (GetNamespace (ObjectOf w') = nn_Namespace key)
                       && bool_decide (GetName (ObjectOf w') = nn_Name key)) cluster_workloads with
  | Some w' => (w', None)
  | None => (w, Some (StatusError StatusReasonNotFound "not found"))
  end.

Definition cluster_resources (ns : string) : AuthProxyWorkloadList := {|
  apl_Items := List.filter (fun p => bool_decide (apw_Namespace p = ns)) [shop_apw; foreign_apw] |}.

#[local] Instance cluster_reader : ClusterReader := {|
  List_AuthProxyWorkload ns := OK (cluster_resources ns);
  Get_workload := find_workload;
  Get_metadata key v k := ({| o_GVK := GVK_zero; o_Meta := ObjectMeta_zero |},
                           Some (StatusError StatusReasonNotFound "not found")) |}.

#[local] Instance cluster_reader_laws : ClusterReaderLaws.
Proof.
  split.
  - intros key w w'. cbn. unfold find_workload. destruct (List.find _ _) eqn:E; [|done].
    intros [= <-]. apply find_some in E as [_ E]. rewrite !andb_true_iff, !bool_decide_eq_true in E.
    apply E.
  - intros key w w' e. cbn. unfold find_workload. by destruct (List.find _ _); intros [= <- <-].
  - done.
Qed.

(** The raw form of a pod is the list of its container names; a response
    records whether the pod is admitted and the number of patches. *)
Definition raw_pod (p : Pod) : string := Join (c_Name <$> ps_Containers (pod_Spec p)) ",".

Record TestResponse := { tr_Allowed : bool; tr_Patches : nat }.

#[local] Instance test_admission : AdmissionPkg.
Proof.
  refine {| Request := Pod; Raw := string; req_Raw := raw_pod; 
            Decoder := unit;
            Decode d p := match d, ps_Containers (pod_Spec p) with
                          | None, _ => Panic "nil pointer"
                          | Some _, [] => Ret (Fail (ErrorString "no containers"))
                          | Some _, _ => Ret (OK p)
                          end;
            Marshal p := OK (raw_pod p); Response := TestResponse;
            Errored _ _ := {| tr_Allowed := false; tr_Patches := 0 |};
            PatchResponseFromRaw a b :=
              {| tr_Allowed := true; tr_Patches := if decide (a = b) then 0 else 1 |};
            Response_Allowed := tr_Allowed; Response_Patches := tr_Patches |}.
  - intros [] p. destruct (ps_Containers (pod_Spec p)); by eexists.
  - done.
  - intros raw. cbn. by rewrite decide_True.
Defined.

(** The webhook as it is registered, and as it serves. *)
Definition new_wh : PodAdmissionWebhook unit := {| decoder := None; updater := ua |}.
Definition wh : PodAdmissionWebhook unit := (InjectDecoder new_wh tt).1.

Definition replica_pod : Pod := {|
  pod_GVK := mk_gvk "" "v1" "Pod"; pod_Meta := meta_owned "default" "" [owner_ref "ReplicaSet" "web-1"];
  pod_Spec := {| ps_Containers := [mk_container "web" [8080] []]; ps_rest := tt |};
  pod_rest := tt |}.

Lemma replica_pod_depth : owner_depth 4 (ObjectOf {| pw_Pod := replica_pod |}).
Proof.
  constructor. intros o' (r & wl & Hr & E).
  apply list_elem_of_singleton in Hr as ->. injection E as <- <-.
  constructor. intros o' (r & wl & Hr & E).
  apply elem_of_cons in Hr as [->|Hr]; [|by apply list_elem_of_singleton in Hr as ->].
  injection E as <- <-. constructor. intros o' (r & wl & Hr & E). by apply elem_of_nil in Hr.
Defined.

Lemma listOwners_reachable_witness :
  exists r, listOwners 5 (ObjectOf {| pw_Pod := replica_pod |}) = Ret r
    /\ match r with
       | OK owners => forall w, w ∈ owners <-> owner_workload (ObjectOf {| pw_Pod := replica_pod |}) w
       | Fail e => IsNotFound e = false
       end.
Proof.
  apply (listOwners_reachable 5 _ 4); [apply replica_pod_depth|].
  apply (bool_decide_eq_true_1 _). reflexivity.
Defined.

(** The owners of [replica_pod], and the resources for its pod. *)
Definition replica_owners : list Workload :=
  match listOwners 5 (ObjectOf {| pw_Pod := replica_pod |}) with Ret (OK l) => l | _ => [] end.

(** The same cluster, with resources of another namespace in every list, and
    other workloads in that namespace. *)
Definition crowded_reader : ClusterReader := {|
  List_AuthProxyWorkload ns :=
    OK {| apl_Items := [foreign_apw; shop_apw; mk_apw "other" "spy" any_pod None []] |};
  Get_workload key w := if bool_decide (nn_Namespace key = "other")
                        then (w, Some (ErrorString "forbidden")) else find_workload key w;
  Get_metadata := Get_metadata (ClusterReader := cluster_reader) |}.

Lemma crowded_same : same_namespace "default" cluster_reader crowded_reader.
Proof.
  split.
  - split; [reflexivity|]. split; repeat (apply Forall_cons; split; [discriminate|]); by apply Forall_nil.
  - intros key w Hk. cbn. rewrite bool_decide_eq_false_2; [done|]. by destruct Hk as [->| ->].
  - done.
Qed.

Lemma Handle_same_namespace_witness :
  Handle (Hreader := cluster_reader) 5 wh replica_pod = Handle (Hreader := crowded_reader) 5 wh replica_pod
  /\ Handle (Hreader := crowded_reader) 5 wh replica_pod
     = Ret ({| tr_Allowed := true; tr_Patches := 1 |} : TestResponse).
Proof.
  split.
  - apply (Handle_same_namespace cluster_reader crowded_reader). intros pod [= <-]. exact crowded_same.
  - vm_compute. reflexivity.
Defined.


Lemma Handle_answers_witness :
  exists resp, Handle 5 wh replica_pod = Ret resp
    /\ ((exists code e, resp = Errored code e)
        \/ exists raw, resp = PatchResponseFromRaw (raw_pod replica_pod) raw).
Proof.
  apply (Handle_answers (Hadm := test_admission) 5 new_wh tt replica_pod 4).
  - apply (bool_decide_eq_true_1 _). reflexivity.
  - intros pod [= <-]. split; [apply replica_pod_depth|]. intros pl [= <-]. reflexivity.
Defined.

Lemma listOwners_cycle_witness :
  listOwners 1000 (ObjectOf (WDeployment {| dw_Deployment :=
    mk_templated "Deployment" "default" "loop" [owner_ref "Deployment" "loop"] |})) = Diverge.
Proof. eapply listOwners_cycle; vm_compute; reflexivity. Defined.

Lemma Handle_fails_closed_witness :
  exists resp, Handle 5 wh {| pod_GVK := mk_gvk "" "v1" "Pod"; pod_Meta := meta_owned "default" "p" [];
                              pod_Spec := PodSpec_zero; pod_rest := tt |} = Ret resp
               /\ Response_Allowed resp = false.
Proof. apply Handle_fails_closed. left. eexists. reflexivity. Defined.

End witnesses.
