(* ===== verification/Admission.v ===== *)
(** * From the admission request to the proxies

    The whole path of a pod: the webhook reads the cluster ([Webhook]), finds
    the resources ([Matching]), allocates ports and writes containers
    ([Configure]) whose arguments the proxy reads ([ProxyArgs]). *)

From S2P Require Import Prelude GoStd Api Concrete Names Workload Fixtures PodSpec Allocation.
From S2P Require Import Refinement Configure ProxyArgs Matching Webhook.
From Stdlib Require Import Ascii.
#[local] Open Scope Z_scope.

Section admission.
Context `{Hk8s : K8sTypes} `{Hlab : LabelsPkg} `{Hschema : SchemaPkg} `{Htab : UnicodeTables}
  `{Hrange : MapRange}.
Context `{Hreader : !ClusterReader} `{Hadm : !AdmissionPkg}.

(** The live resource [p] of the pod's namespace selects the pod or one of its
    owners. *)
Definition applies_to (pod : Pod) (pl : AuthProxyWorkloadList) (p : AuthProxyWorkload) : Prop :=
  p ∈ apl_Items pl /\ ~ being_deleted p
  /\ (selects p (ObjectOf {| pw_Pod := pod |})
      \/ exists w, owner_workload (ObjectOf {| pw_Pod := pod |}) w /\ selects p (ObjectOf w)).

(** The resources of a namespace, as the API server stores them: under
    distinct names, without repeated connections, not asking for more ports
    than there are. *)
Record valid_list (pod : Pod) (pl : AuthProxyWorkloadList) : Prop := {
  valid_keys : NoDup (resource_key <$> apl_Items pl);
  valid_items : Forall (fun p => apw_Name p <> ""
                  /\ NoDup (is_ConnectionString <$> sp_Instances (apw_Spec p))) (apl_Items pl);
  valid_demand : port_demand {| pw_Pod := pod |} (apl_Items pl) < max_port_demand
}.

(** A pod is admitted only when the request, the resources and the owners could
    be read. *)
Lemma admitted_reads fuel a req resp :
  Handle fuel a req = Ret resp -> Response_Allowed resp = true ->
  exists pod pl owners, Decode (decoder a) req = Ret (OK pod)
    /\ List_AuthProxyWorkload (om_Namespace (pod_Meta pod)) = OK pl
    /\ listOwners fuel (ObjectOf {| pw_Pod := pod |}) = Ret (OK owners).
Proof.
  unfold Handle. intros E Hok. destruct (Decode (decoder a) req) as [[pod|e]| |]; [| |done..].
  2:{ injection E as <-. by rewrite Errored_denied in Hok. }
  cbn in E. change (GetNamespace _) with (om_Namespace (pod_Meta pod)) in E.
  destruct (List_AuthProxyWorkload _) as [pl|e] eqn:El.
  2:{ injection E as <-. by rewrite Errored_denied in Hok. }
  destruct (listOwners _ _) as [[owners|e]| |] eqn:Eo; cbn in E; [by exists pod, pl, owners| |done..].
  injection E as <-. by rewrite Errored_denied in Hok.
Qed.

(** The resources that the webhook finds are those that apply. *)
Lemma found_applies pod pl fuel owners p :
  NoDup (resource_key <$> apl_Items pl) ->
  listOwners fuel (ObjectOf {| pw_Pod := pod |}) = Ret (OK owners) ->
  p ∈ FindMatchingAuthProxyWorkloads pl {| pw_Pod := pod |} owners <-> applies_to pod pl p.
Proof.
  intros Hkeys Ho. pose proof (listOwners_spec _ _ _ Ho) as Hspec. unfold applies_to. split.
  - intros (Hp & Hd & o & Hin & Hs)%FindMatching_candidate. split_and!; [done..|].
    apply elem_of_cons in Hin as [->|(w & -> & Hw)%list_elem_of_fmap]; [by left|right].
    exists w. by rewrite <-Hspec.
  - intros (Hp & Hd & Hs).
    assert (forall q, q ∈ apl_Items pl -> resource_key q = resource_key p -> q = p) as Huniq.
    { intros q Hq Hk. by eapply NoDup_fmap_inj_elem. }
    destruct Hs as [Hs|(w & Hw%Hspec & Hs)].
    + by eapply FindMatching_complete; [done..|left|].
    + eapply FindMatching_complete; [done..| |exact Hs]. right. by apply list_elem_of_fmap_2.
Qed.

End admission.

(** ** Theorem *)
Section theorems.
Context `{Hk8s : K8sTypes} `{Hlab : LabelsPkg} `{Hschema : SchemaPkg} `{Htab : UnicodeTables}
  `{Hrange : MapRange}.
Context `{Hreader : !ClusterReader} `{Hadm : !AdmissionPkg}.

(** C2: No pod is admitted without its proxies.  When the webhook lets a pod in,
    either no resource applies to it and it is unchanged, or the answer is a
    patch to a pod in which every resource that applies (and does not replace
    the container by its own) has its container: the arguments of the container
    read back as the settings of the resource with one port per instance, free
    of the workload's ports and as fixed by the resource, and every container
    of the pod finds each instance's address and port under the names the
    resource gave. *)
Theorem admitted_pods_have_proxies fuel a req resp
    (Hrun : Handle fuel a req = Ret resp) (Hallowed : Response_Allowed resp = true)
    (Hvalid : forall pod pl, Decode (decoder a) req = Ret (OK pod) ->
       List_AuthProxyWorkload (om_Namespace (pod_Meta pod)) = OK pl -> valid_list pod pl) :
  exists pod pl, Decode (decoder a) req = Ret (OK pod)
  /\ List_AuthProxyWorkload (om_Namespace (pod_Meta pod)) = OK pl
  /\ (((forall p, ~ applies_to pod pl p) /\ resp = PatchResponseFromRaw (req_Raw req) (req_Raw req))
      \/ exists wl' raw, Marshal (pw_Pod wl') = OK raw
           /\ resp = PatchResponseFromRaw (req_Raw req) raw
           /\ forall p, applies_to pod pl p -> apw_override p = None -> plain_connections p = true ->
              exists c health ports, c ∈ ps_Containers (PodSpecOf wl')
                /\ c_Name c = container_name p
                /\ read_command (c_Args c) = requested_command (updater a) p health ports
                /\ length ports = length (sp_Instances (apw_Spec p)) /\ NoDup ports
                /\ forall k inst port, sp_Instances (apw_Spec p) !! k = Some inst ->
                     ports !! k = Some port ->
                     (port ∉ workload_ports {| pw_Pod := pod |})
                     /\ (forall q, is_Port inst = Some q -> port = q)
                     /\ forall c', c' ∈ ps_Containers (PodSpecOf wl') ->
                          (is_HostEnvName inst <> "" ->
                             env_value (is_HostEnvName inst) "127.0.0.1" ∈ c_Env c')
                          /\ (is_PortEnvName inst <> "" -> exists v,
                               env_value (is_PortEnvName inst) v ∈ c_Env c'
                               /\ read_number v = Some port)).
Proof.
  destruct (admitted_reads fuel a req resp Hrun Hallowed) as (pod & pl & owners & Hd & Hl & Ho).
  destruct (Hvalid pod pl Hd Hl) as [Hkeys Hitems Hdemand].
  pose proof (fun p => found_applies pod pl fuel owners p Hkeys Ho) as Hfound.
  exists pod, pl. split; [done|]. split; [done|].
  pose proof (Handle_spec fuel a req pod pl owners Hd Hl Ho Hitems Hdemand) as Hspec. cbv zeta in Hspec.
  set (proxies := FindMatchingAuthProxyWorkloads pl _ owners) in *.
  assert (well_formed proxies) as Hwf by by apply well_formed_matches.
  assert (port_demand {| pw_Pod := pod |} proxies < max_port_demand) as Hdem
    by by apply FindMatching_demand.
  pose proof (ConfigureWorkload_spec (updater a) {| pw_Pod := pod |} proxies Hwf Hdem) as Hconf.
  case_bool_decide as Hempty.
  { left. rewrite Hrun in Hspec. injection Hspec as ->. split; [|done].
    intros p Hp%Hfound. rewrite Hempty in Hp. by apply elem_of_nil in Hp. }
  assert (forall msg, Handle fuel a req <> Ret (Errored StatusInternalServerError msg)) as Hdenied.
  { intros msg E. rewrite Hrun in E. injection E as ->. by rewrite Errored_denied in Hallowed. }
  destruct (configure_spec _ _ _) as [wl'|]; [|by destruct Hspec as [msg ?%Hdenied]].
  destruct (Marshal _) as [raw|] eqn:Hm; [|by destruct Hspec as [msg ?%Hdenied]].
  right. exists wl', raw. split; [done|]. split; [congruence|].
  intros p Hp%Hfound Hover Hplain. apply list_elem_of_lookup_1 in Hp as [i Hi].
  destruct (placed_proxy (updater a) _ _ wl' Hwf Hdem Hconf i p Hi Hover Hplain)
    as (c & health & ports & Hc & Hrest).
  exists c, health, ports. split; [by eapply list_elem_of_lookup_2|exact Hrest].
Qed.

End theorems.

(** ** Witness

    The pod of a replica set, whose deployment a resource selects. *)
Section witnesses.
Import ConcreteInstances.
#[local] Existing Instance in_order.
#[local] Existing Instance cluster_reader.
#[local] Existing Instance test_admission.

Lemma shop_applies : applies_to replica_pod {| apl_Items := [shop_apw] |} shop_apw.
Proof.
  split; [by left|]. split; [by vm_compute|]. right.
  exists (WDeployment {| dw_Deployment := mk_templated "Deployment" "default" "web" [] |}).
  split; [|reflexivity].
  apply (listOwners_spec 5 _ replica_owners); [vm_compute; reflexivity|].
  vm_compute. right. by left.
Qed.

Lemma shop_list_valid : valid_list replica_pod {| apl_Items := [shop_apw] |}.
Proof. split; [apply NoDup_singleton|by_evaluation|vm_compute; reflexivity]. Qed.

Lemma admitted_pods_have_proxies_witness :
  exists (resp : TestResponse) (wl' : PodWorkload) c health ports,
    Handle 5 wh replica_pod = Ret resp /\ tr_Allowed resp = true
    /\ c ∈ ps_Containers (PodSpecOf wl') /\ c_Name c = container_name shop_apw
    /\ read_command (c_Args c) = requested_command ua shop_apw health ports
    /\ length ports = 1%nat.
Proof.
  assert (exists resp : TestResponse, Handle 5 wh replica_pod = Ret resp /\ tr_Allowed resp = true)
    as (resp & Hrun & Hok) by (eexists; split; vm_compute; reflexivity).
  destruct (admitted_pods_have_proxies (Hadm := test_admission) 5 wh replica_pod resp Hrun Hok)
    as (pod & pl & [= <-] & [= <-] & Hcase).
  - intros pod pl [= <-] [= <-]. exact shop_list_valid.
  - destruct Hcase as [[Hno _]|(wl' & raw & _ & _ & Hp)]; [by destruct (Hno _ shop_applies)|].
    destruct (Hp shop_apw shop_applies) as (c & health & ports & Hc & Hn & Hread & Hlen & _);
      [reflexivity|reflexivity|].
    exists resp, wl', c, health, ports.
    exact (conj Hrun (conj Hok (conj Hc (conj Hn (conj Hread Hlen))))).
Defined.

End witnesses.
