(* ===== verification/Status.v ===== *)
(** * Conditions and workload statuses

    The list operations of
    [src/internal/controller/authproxyworkload_controller.go] that keep
    [AuthProxyWorkload.Status]: [replaceStatus], [replaceCondition],
    [findCondition], [newStatus]; and the [recentlyDeletedCache].  Slices whose
    elements are replaced in place are results; [time.Now] is an argument, used
    where the code calls it. *)

From S2P Require Import Prelude GoStd Api Concrete Names Workload.
From Stdlib Require Import Ascii.
#[local] Open Scope Z_scope.

(** ** The cache of recently deleted resources

    The operations as functions; that they are atomic under the lock is shown
    in [Locking]. *)
Record recentlyDeletedCache := { values : option (gmap NamespacedName bool) }.

Definition cache_zero : recentlyDeletedCache := {| values := None |}.

Definition cache_set (k : NamespacedName) (deleted : bool) (c : recentlyDeletedCache)
    : recentlyDeletedCache :=
  let m := match values c with None => ∅ | Some m => m end in
  {| values := Some (<[k := deleted]> m) |}.

(** Reading a nil map finds nothing. *)
Definition cache_get (k : NamespacedName) (c : recentlyDeletedCache) : bool :=
  match values c with
  | None => false
  | Some m => match m !! k with None => false | Some deleted => deleted end
  end.

Section status.
Context `{Hk8s : K8sTypes}.

(** ** Workload statuses *)
Definition same_workload (s u : WorkloadStatus) : bool :=
  bool_decide (st_Name s = st_Name u) && bool_decide (st_Namespace s = st_Namespace u)
  && bool_decide (st_Kind s = st_Kind u) && bool_decide (st_Version s = st_Version u).

Definition replaceStatus (statuses : list WorkloadStatus) (updatedStatus : WorkloadStatus)
    : list WorkloadStatus :=
  let updated := existsb (fun s => same_workload s updatedStatus) statuses in
  let statuses := (fun s => if same_workload s updatedStatus then updatedStatus else s)
                    <$> statuses in
  if negb updated then statuses ++ [updatedStatus] else statuses.

Definition newStatus `{SchemaPkg} (wl : Workload) : WorkloadStatus := {|
  st_Kind := gvk_Kind (o_GVK (ObjectOf wl));
  st_Version := GroupVersion_Identifier (gvk_Group (o_GVK (ObjectOf wl)))
                  (gvk_Version (o_GVK (ObjectOf wl)));
  st_Namespace := GetNamespace (ObjectOf wl);
  st_Name := GetName (ObjectOf wl);
  st_Conditions := [] |}.

(** ** Conditions *)
Definition findCondition (conds : list Condition) (name : string) : option Condition :=
  List.find (fun c => bool_decide (cond_Type c = name)) conds.

Definition set_LastTransitionTime (t : Time) (c : Condition) : Condition := {|
  cond_Type := cond_Type c; cond_Status := cond_Status c;
  cond_ObservedGeneration := cond_ObservedGeneration c; cond_LastTransitionTime := t;
  cond_Reason := cond_Reason c; cond_Message := cond_Message c |}.

Fixpoint replaceCondition (now : Time) (conds : list Condition) (newC : Condition)
    : list Condition :=
  match conds with
  | [] => [set_LastTransitionTime now newC]
  | c :: conds =>
      if negb (bool_decide (cond_Type c = cond_Type newC))
      then c :: replaceCondition now conds newC
      else set_LastTransitionTime
             (if bool_decide (cond_Status c = cond_Status newC)
                 && negb (Time_IsZero (Some (cond_LastTransitionTime c)))
              then cond_LastTransitionTime c else now) newC :: conds
  end.

(** ** Specification *)

(** Workload statuses are kept per workload. *)
Definition status_key (s : WorkloadStatus) : string * string * string * string :=
  (st_Name s, st_Namespace s, st_Kind s, st_Version s).

Lemma same_workload_spec s u : same_workload s u = true <-> status_key s = status_key u.
Proof.
  unfold same_workload, status_key. rewrite !andb_true_iff, !bool_decide_eq_true.
  split; [by intros [[[-> ->] ->] ->]|by intros [= -> -> -> ->]].
Qed.

Lemma replaceStatus_keys l u :
  status_key <$> replaceStatus l u
  = (status_key <$> l) ++ (if bool_decide (status_key u ∈ status_key <$> l) then []
                           else [status_key u]).
Proof.
  unfold replaceStatus. set (f := fun s => if same_workload s u then u else s).
  assert (status_key <$> (f <$> l) = status_key <$> l) as Hf.
  { rewrite <-list_fmap_compose. apply list_fmap_ext. intros i s _. unfold f. cbn.
    destruct (same_workload s u) eqn:E; [|done]. by apply same_workload_spec in E. }
  destruct (existsb _ l) eqn:E; cbn [negb].
  - rewrite Hf, bool_decide_eq_true_2, app_nil_r; [done|].
    apply existsb_exists in E as (s & Hs%list_elem_of_In & E%same_workload_spec).
    apply list_elem_of_fmap. by exists s.
  - rewrite fmap_app, Hf, bool_decide_eq_false_2; [done|].
    intros (s & Hk & Hs)%list_elem_of_fmap. apply not_true_iff_false in E. apply E.
    apply existsb_exists. exists s. split; [by apply list_elem_of_In|].
    by apply same_workload_spec.
Qed.

Lemma replaceStatus_elem l u s :
  s ∈ replaceStatus l u <-> s = u \/ (s ∈ l /\ status_key s <> status_key u).
Proof.
  unfold replaceStatus. set (f := fun s => if same_workload s u then u else s).
  assert (forall x, x ∈ f <$> l <-> (x = u /\ exists y, y ∈ l /\ status_key y = status_key u)
            \/ (x ∈ l /\ status_key x <> status_key u)) as Hf.
  { intros x. rewrite list_elem_of_fmap. unfold f. split.
    - intros (y & -> & Hy). destruct (same_workload y u) eqn:E.
      + left. apply same_workload_spec in E. eauto.
      + right. split; [done|]. rewrite <-same_workload_spec. congruence.
    - intros [(-> & y & Hy & E%same_workload_spec)|[Hx E]].
      + exists y. by rewrite E.
      + exists x. rewrite <-same_workload_spec in E. by destruct (same_workload x u). }
  destruct (existsb _ l) eqn:E; cbn [negb].
  - apply existsb_exists in E as (y & Hy%list_elem_of_In & E%same_workload_spec).
    rewrite Hf. split; [intros [[]|]; auto|]. intros [->|]; [left; eauto|auto].
  - rewrite elem_of_app, Hf, list_elem_of_singleton.
    split; [intros [[[]|]|]; auto|]. intros [->|]; auto.
Qed.

(** The conditions of another type are kept, in place. *)
Lemma replaceCondition_others now conds newC ty :
  ty <> cond_Type newC ->
  filter (fun c => cond_Type c = ty) (replaceCondition now conds newC)
  = filter (fun c => cond_Type c = ty) conds.
Proof.
  intros Hty. induction conds as [|c conds IH]; cbn [replaceCondition].
  - by rewrite filter_cons_False.
  - destruct (bool_decide _) eqn:E; cbn [negb].
    + apply bool_decide_eq_true in E. rewrite !filter_cons_False by (cbn; congruence). done.
    + rewrite !filter_cons. by rewrite IH.
Qed.

(** The time a replaced condition gets. *)
Definition transition_time (now : Time) (old : option Condition) (newC : Condition) : Time :=
  match old with
  | Some c => if bool_decide (cond_Status c = cond_Status newC)
                 && negb (Time_IsZero (Some (cond_LastTransitionTime c)))
              then cond_LastTransitionTime c else now
  | None => now
  end.

Lemma replaceCondition_found now conds newC :
  findCondition (replaceCondition now conds newC) (cond_Type newC)
  = Some (set_LastTransitionTime
            (transition_time now (findCondition conds (cond_Type newC)) newC) newC).
Proof.
  unfold findCondition, transition_time. induction conds as [|c conds IH]; cbn.
  - by rewrite bool_decide_eq_true_2.
  - destruct (bool_decide (cond_Type c = cond_Type newC)) eqn:E; cbn; [|by rewrite E].
    by rewrite bool_decide_eq_true_2.
Qed.

Lemma replaceCondition_types now conds newC :
  cond_Type <$> replaceCondition now conds newC
  = (cond_Type <$> conds) ++ (if bool_decide (cond_Type newC ∈ cond_Type <$> conds) then []
                              else [cond_Type newC]).
Proof.
  induction conds as [|c conds IH]; cbn [replaceCondition]; [done|].
  destruct (bool_decide (cond_Type c = cond_Type newC)) eqn:E; cbn [negb].
  - apply bool_decide_eq_true in E. rewrite (bool_decide_eq_true_2 (cond_Type newC ∈ _)), app_nil_r
      by (rewrite <-E; by left).
    cbn. by rewrite E.
  - apply bool_decide_eq_false in E. cbn [fmap list_fmap]. rewrite IH. cbn. f_equal. f_equal.
    rewrite (bool_decide_ext _ (cond_Type newC ∈ cond_Type <$> c :: conds)); [done|].
    rewrite fmap_cons, elem_of_cons. split; [auto|]. by intros [?|?].
Qed.

End status.

(** ** Theorems *)
Section theorems.
Context `{Hk8s : K8sTypes}.

(** [replaceStatus] keeps one status per workload: it keeps the keys (name,
    namespace, kind, version) and their order, adds the key of a new workload
    at the end, so keys without duplicates stay without duplicates; the
    updated status is found under its key and all other statuses stay. *)
Theorem replaceStatus_upsert l u :
  status_key <$> replaceStatus l u
  = (status_key <$> l) ++ (if bool_decide (status_key u ∈ status_key <$> l) then []
                           else [status_key u])
  /\ (NoDup (status_key <$> l) -> NoDup (status_key <$> replaceStatus l u))
  /\ (forall s, s ∈ replaceStatus l u <-> s = u \/ (s ∈ l /\ status_key s <> status_key u)).
Proof.
  split; [apply replaceStatus_keys|]. split; [|apply replaceStatus_elem].
  intros Hnd. rewrite replaceStatus_keys. case_bool_decide as Hin; [by rewrite app_nil_r|].
  apply NoDup_app. split_and!; [done| |apply NoDup_singleton].
  intros k Hk ->%list_elem_of_singleton. done.
Qed.

(** [replaceCondition] keeps one condition per type: the new condition is
    found under its type, with the transition time of the old one when the
    status did not change (and that time was set), and with the current time
    otherwise; conditions of other types are kept in order; and types without
    duplicates stay without duplicates. *)
Theorem replaceCondition_upsert now conds newC :
  findCondition (replaceCondition now conds newC) (cond_Type newC)
  = Some (set_LastTransitionTime
            (transition_time now (findCondition conds (cond_Type newC)) newC) newC)
  /\ (forall ty, ty <> cond_Type newC ->
        filter (fun c => cond_Type c = ty) (replaceCondition now conds newC)
        = filter (fun c => cond_Type c = ty) conds)
  /\ (NoDup (cond_Type <$> conds) -> NoDup (cond_Type <$> replaceCondition now conds newC)).
Proof.
  split; [apply replaceCondition_found|]. split; [intros ty; apply replaceCondition_others|].
  intros Hnd. rewrite replaceCondition_types. case_bool_decide as Hin; [by rewrite app_nil_r|].
  apply NoDup_app. split_and!; [done| |apply NoDup_singleton].
  intros k Hk ->%list_elem_of_singleton. done.
Qed.

(** Reporting the same condition again, later, changes nothing, once its
    transition time is set. *)
Theorem replaceCondition_stable now now' conds newC
    (Hnow : Time_IsZero (Some now) = false) :
  replaceCondition now' (replaceCondition now conds newC) newC = replaceCondition now conds newC.
Proof.
  assert (forall t, Time_IsZero (Some t) = false -> forall l,
    replaceCondition now' (set_LastTransitionTime t newC :: l) newC
    = set_LastTransitionTime t newC :: l) as Hhead.
  { intros t Ht l. cbn. rewrite !bool_decide_eq_true_2 by done. cbn. by rewrite Ht. }
  induction conds as [|c conds IH]; [by apply (Hhead now Hnow [])|]. cbn [replaceCondition].
  destruct (bool_decide (cond_Type c = cond_Type newC)) eqn:E; cbn [negb].
  - apply Hhead. destruct (bool_decide (cond_Status c = cond_Status newC)); cbn [andb]; [|done].
    destruct (Time_IsZero (Some (cond_LastTransitionTime c))) eqn:Hz; cbn [negb]; congruence.
  - cbn [replaceCondition]. by rewrite E, IH.
Qed.

(** The cache of deleted resources behaves as a map from names to the last
    value set, and names never set read as not deleted. *)
Theorem cache_get_set k k' deleted c :
  cache_get k (cache_set k' deleted c) = (if bool_decide (k = k') then deleted else cache_get k c)
  /\ cache_get k cache_zero = false.
Proof.
  split; [|done]. unfold cache_get, cache_set. cbn.
  case_bool_decide as E; [subst; by rewrite lookup_insert_eq|].
  rewrite lookup_insert_ne by done. by destruct (values c).
Qed.

End theorems.

(** ** Witness *)
Section witnesses.
Import ConcreteInstances.

Lemma replaceCondition_stable_witness :
  let c := {| cond_Type := "UpToDate"; cond_Status := "True"; cond_ObservedGeneration := 1;
              cond_LastTransitionTime := 0; cond_Reason := ""; cond_Message := "" |} in
  replaceCondition 20 (replaceCondition 10 [] c) c = replaceCondition 10 [] c.
Proof. intros c. apply replaceCondition_stable. reflexivity. Defined.

End witnesses.
