(* ===== verification/Reconciler.v ===== *)
(** * The AuthProxyWorkload controller

    [Reconcile] of
    [src/internal/controller/authproxyworkload_controller.go] as a program
    that interacts with its environment: the API server, the clock and the
    cache of deleted resources ([Interaction]), so that theorems may quantify
    over every answer of the environment ([runs]), or run it against a server
    with a state ([exec]). *)

From S2P Require Import Prelude Interaction GoStd Api Concrete Names Workload Fixtures Status.
From Stdlib Require Import Ascii.
#[local] Open Scope Z_scope.

(** ** External interfaces *)

(** sigs.k8s.io/controller-runtime/pkg/controller/controllerutil, on the list
    of finalizers of an object. *)
Class ControllerUtil := {
  ContainsFinalizer : list string -> string -> bool;
  AddFinalizer : list string -> string -> list string;
  RemoveFinalizer : list string -> string -> list string;
  ContainsFinalizer_spec : forall l f, ContainsFinalizer l f = true <-> f ∈ l;
  AddFinalizer_spec : forall l f g, g ∈ AddFinalizer l f <-> g = f \/ g ∈ l;
  RemoveFinalizer_spec : forall l f g, g ∈ RemoveFinalizer l f <-> g ∈ l /\ g <> f
}.

Section calls.
Context `{Hk8s : K8sTypes} `{Hlab : LabelsPkg}.

(** The calls the controller makes. *)
Inductive Call : Type -> Type :=
| GetResource (key : NamespacedName) : Call (Res AuthProxyWorkload)
| GetWorkload (key : NamespacedName) (into : Workload) : Call (Res Workload)
| ListWorkloads (ns : string) (sel : Selector) (into : WorkloadList) : Call (Res WorkloadList)
| UpdateResource (r : AuthProxyWorkload) : Call (option error)
| PatchStatus (r orig : AuthProxyWorkload) : Call (option error)
| Now : Call Time
| CacheGet (key : NamespacedName) : Call bool
| CacheSet (key : NamespacedName) (deleted : bool) : Call unit.

(** ** Programs *)
#[local] Abbreviation Prog := (Interaction.Prog Call).
#[local] Abbreviation Event := (Interaction.Event Call).

(** *** Writes *)
Definition is_write (e : Event) : bool :=
  match e with
  | event (UpdateResource _) _ | event (PatchStatus _ _) _ => true
  | _ => false
  end.

Definition writes (es : list Event) : list Event := List.filter is_write es.

Lemma writes_app es1 es2 : writes (es1 ++ es2) = writes es1 ++ writes es2.
Proof. apply List.filter_app. Qed.

End calls.

(** Some answer to a call. *)
Definition some_answer `{Hk8s : K8sTypes} `{Hlab : LabelsPkg} X (c : Call X) : X :=
  match c in Call X return X with
  | GetResource _ => Fail (ErrorString "")
  | GetWorkload _ _ => Fail (ErrorString "")
  | ListWorkloads _ _ _ => Fail (ErrorString "")
  | UpdateResource _ => None
  | PatchStatus _ _ => None
  | Now => Time_zero
  | CacheGet _ => false
  | CacheSet _ _ => tt
  end.

Abbreviation Prog := (Interaction.Prog Call).
Abbreviation Event := (Interaction.Event Call).

(** ** The reconciler *)
Definition finalizerName : string := AnnotationPrefix +:+ "/AuthProxyWorkload-finalizer".

(** [ctrl.Result]; [RequeueAfter] in seconds. *)
Record Result := { Requeue : bool; RequeueAfter : Z }.
Definition Result_zero : Result := {| Requeue := false; RequeueAfter := 0 |}.
Definition requeueNow : Result := {| Requeue := true; RequeueAfter := 0 |}.
Definition requeueWithDelay : Result := {| Requeue := true; RequeueAfter := 30 |}.

Section reconciler.
Context `{Hk8s : K8sTypes} `{Hlab : LabelsPkg} `{Hschema : SchemaPkg} `{Hutil : ControllerUtil}.

Definition set_Finalizers (l : list string) (r : AuthProxyWorkload) : AuthProxyWorkload := {|
  apw_GVK := apw_GVK r; apw_Spec := apw_Spec r; apw_Status := apw_Status r;
  apw_ObjectMeta := {|
    om_Name := om_Name (apw_ObjectMeta r); om_Namespace := om_Namespace (apw_ObjectMeta r);
    om_Generation := om_Generation (apw_ObjectMeta r);
    om_ResourceVersion := om_ResourceVersion (apw_ObjectMeta r);
    om_Labels := om_Labels (apw_ObjectMeta r);
    om_Annotations := om_Annotations (apw_ObjectMeta r);
    om_DeletionTimestamp := om_DeletionTimestamp (apw_ObjectMeta r);
    om_Finalizers := l;
    om_OwnerReferences := om_OwnerReferences (apw_ObjectMeta r);
    om_rest := om_rest (apw_ObjectMeta r) |} |}.

Definition set_Status (s : AuthProxyWorkloadStatus) (r : AuthProxyWorkload)
    : AuthProxyWorkload := {|
  apw_GVK := apw_GVK r; apw_ObjectMeta := apw_ObjectMeta r; apw_Spec := apw_Spec r;
  apw_Status := s |}.

Definition apw_Finalizers (r : AuthProxyWorkload) : list string :=
  om_Finalizers (apw_ObjectMeta r).
Definition GetGeneration (r : AuthProxyWorkload) : Z := om_Generation (apw_ObjectMeta r).

Definition set_Conditions (l : list Condition) (r : AuthProxyWorkload) : AuthProxyWorkload :=
  set_Status {| status_Conditions := l;
                status_WorkloadStatus := status_WorkloadStatus (apw_Status r) |} r.
Definition set_WorkloadStatus (l : list WorkloadStatus) (r : AuthProxyWorkload)
    : AuthProxyWorkload :=
  set_Status {| status_Conditions := status_Conditions (apw_Status r);
                status_WorkloadStatus := l |} r.

(** [loadByName] *)
Definition loadByName (workloadSelector : WorkloadSelectorSpec) (ns : string)
    : Prog (Res (list Workload)) :=
  let key := {| nn_Namespace := ns; nn_Name := ws_Name workloadSelector |} in
  match WorkloadForKind (ws_Kind workloadSelector) with
  | Fail err => mret (Fail (ErrorString ("unable to load by name " +:+ nn_Namespace key +:+ "/"
                  +:+ nn_Name key +:+ ":  " +:+ Error_text err)))
  | OK wl =>
      res ← call (GetWorkload key wl);
      match res with
      | Fail err =>
          if IsNotFound err then mret (OK [])
          else mret (Fail (ErrorString ("unable to load resource by name " +:+ nn_Namespace key
                 +:+ "/" +:+ nn_Name key +:+ ":  " +:+ Error_text err)))
      | OK wl => mret (OK [wl])
      end
  end.

(** [loadByLabelSelector] *)
Definition loadByLabelSelector (workloadSelector : WorkloadSelectorSpec) (ns : string)
    : Prog (Res (list Workload)) :=
  match LabelsSelector workloadSelector with
  | Fail err => mret (Fail err)
  | OK sel =>
      match WorkloadListForKind (gk_Kind (ParseKindArg (ws_Kind workloadSelector)).2) with
      | Fail err => mret (Fail err)
      | OK wl =>
          res ← call (ListWorkloads ns sel wl);
          match res with
          | Fail err => mret (Fail err)
          | OK wl => mret (OK (Workloads wl))
          end
      end
  end.

Definition listWorkloads (workloadSelector : WorkloadSelectorSpec) (ns : string)
    : Prog (Res (list Workload)) :=
  if negb (bool_decide (ws_Name workloadSelector = ""))
  then loadByName workloadSelector ns
  else loadByLabelSelector workloadSelector ns.

(** The status of one matching workload.  [newStatus] starts from no
    conditions, so that [replaceCondition] always appends, and reads the
    clock once. *)
Definition workload_status (resource : AuthProxyWorkload) (wl : Workload) (now : Time)
    : WorkloadStatus :=
  let s := newStatus wl in
  {| st_Kind := st_Kind s; st_Version := st_Version s; st_Namespace := st_Namespace s;
     st_Name := st_Name s;
     st_Conditions := replaceCondition now (st_Conditions s) {|
       cond_Type := ConditionWorkloadUpToDate; cond_Status := ConditionTrue;
       cond_ObservedGeneration := GetGeneration resource; cond_LastTransitionTime := Time_zero;
       cond_Reason := ReasonUpToDate; cond_Message := "No update needed for this workload" |} |}.

(** The loop of [updateWorkloadStatus]. *)
Fixpoint update_statuses (resource : AuthProxyWorkload) (matching : list Workload)
    : Prog AuthProxyWorkload :=
  match matching with
  | [] => mret resource
  | wl :: matching =>
      now ← call Now;
      update_statuses
        (set_WorkloadStatus
           (replaceStatus (status_WorkloadStatus (apw_Status resource))
              (workload_status resource wl now)) resource)
        matching
  end.

(** The resource is changed in place: the result has it beside the matching
    workloads. *)
Definition updateWorkloadStatus (resource : AuthProxyWorkload)
    : Prog (Res (list Workload * AuthProxyWorkload)) :=
  matching ← listWorkloads (sp_Workload (apw_Spec resource)) (apw_Namespace resource);
  match matching with
  | Fail err => mret (Fail err)
  | OK matching =>
      resource ← update_statuses resource matching;
      mret (OK (matching, resource))
  end.

(** [patchAuthProxyWorkloadStatus] *)
Definition patchAuthProxyWorkloadStatus (resource orig : AuthProxyWorkload)
    : Prog (option error) :=
  err ← call (PatchStatus resource orig);
  match err with
  | Some err => mret (Some err)
  | None =>
      res ← call (GetResource (apw_NamespacedName resource));
      match res with Fail err => mret (Some err) | OK _ => mret None end
  end.

Definition upToDate_condition (resource : AuthProxyWorkload) (reason message : string)
    : Condition := {|
  cond_Type := ConditionUpToDate; cond_Status := ConditionTrue;
  cond_ObservedGeneration := GetGeneration resource; cond_LastTransitionTime := Time_zero;
  cond_Reason := reason; cond_Message := message |}.

(** [time.Now] is called exactly when [replaceCondition] uses it. *)
Definition needs_now (conds : list Condition) (newC : Condition) : bool :=
  match findCondition conds (cond_Type newC) with
  | Some c => negb (bool_decide (cond_Status c = cond_Status newC)
                    && negb (Time_IsZero (Some (cond_LastTransitionTime c))))
  | None => true
  end.

Definition reconcileResult (resource orig : AuthProxyWorkload) (reason message : string)
    : Prog (Result * option error) :=
  let conds := status_Conditions (apw_Status resource) in
  let newC := upToDate_condition resource reason message in
  now ← (if needs_now conds newC then call Now else mret Time_zero);
  let resource := set_Conditions (replaceCondition now conds newC) resource in
  err ← patchAuthProxyWorkloadStatus resource orig;
  match err with
  | Some err => mret (Result_zero, Some err)
  | None => mret (Result_zero, None)
  end.

Definition applyFinalizer (resource : AuthProxyWorkload) : Prog (Result * option error) :=
  let resource := set_Finalizers (AddFinalizer (apw_Finalizers resource) finalizerName) resource in
  err ← call (UpdateResource resource);
  match err with
  | Some err => mret (requeueNow, Some err)
  | None => mret (requeueNow, None)
  end.

Definition doCreateUpdate (resource : AuthProxyWorkload) : Prog (Result * option error) :=
  let orig := resource in
  if negb (ContainsFinalizer (apw_Finalizers resource) finalizerName)
  then applyFinalizer resource
  else
    res ← updateWorkloadStatus resource;
    match res with
    | Fail err => mret (requeueWithDelay, Some err)
    | OK (allWorkloads, resource) =>
        if (Z.of_nat (length allWorkloads) =? 0)
        then reconcileResult resource orig ReasonNoWorkloadsFound "No workload updates needed"
        else reconcileResult resource orig ReasonFinishedReconcile
               ("Reconciled " +:+ format_d (Z.of_nat (length allWorkloads))
                +:+ " matching workloads complete")
    end.

Definition doDelete (resource : AuthProxyWorkload) : Prog (Result * option error) :=
  res ← updateWorkloadStatus resource;
  match res with
  | Fail err => mret (requeueNow, Some err)
  | OK (_, resource) =>
      if ContainsFinalizer (apw_Finalizers resource) finalizerName
      then
        let resource :=
          set_Finalizers (RemoveFinalizer (apw_Finalizers resource) finalizerName) resource in
        err ← call (UpdateResource resource);
        match err with
        | Some err => mret (Result_zero, Some err)
        | None => mret (Result_zero, None)
        end
      else mret (Result_zero, None)
  end.

Definition Reconcile (req : NamespacedName) : Prog (Result * option error) :=
  res ← call (GetResource req);
  match res with
  | Fail err =>
      recentlyDeleted ← call (CacheGet req);
      if (recentlyDeleted : bool) then mret (Result_zero, None)
      else mret (requeueWithDelay, Some err)
  | OK resource =>
      if negb (Time_IsZero (om_DeletionTimestamp (apw_ObjectMeta resource)))
      then _ ← call (CacheSet req true); doDelete resource
      else _ ← call (CacheSet req false); doCreateUpdate resource
  end.

(** ** Listing and status loops only read *)
Lemma listWorkloads_reads sel ns es res :
  runs (listWorkloads sel ns) es res -> writes es = [].
Proof.
  unfold listWorkloads, loadByName, loadByLabelSelector. repeat case_match; try by intros [-> _].
  - rewrite runs_bind. intros (es1 & es2 & r & -> & ->%runs_call & Hr).
    repeat case_match; by destruct Hr as [-> _].
  - rewrite runs_bind. intros (es1 & es2 & r & -> & ->%runs_call & Hr).
    repeat case_match; by destruct Hr as [-> _].
Qed.

(** A resource that differs from [r0] at most in its status. *)
Definition status_only (r0 r : AuthProxyWorkload) : Prop := exists s, r = set_Status s r0.

Lemma status_only_refl r : status_only r r.
Proof. exists (apw_Status r). by destruct r. Qed.

Lemma status_only_set r0 r s : status_only r0 r -> status_only r0 (set_Status s r).
Proof. intros [s' ->]. by exists s. Qed.

Lemma update_statuses_run r0 r wls es r' :
  status_only r0 r -> runs (update_statuses r wls) es r' ->
  writes es = [] /\ status_only r0 r' /\ status_Conditions (apw_Status r') = status_Conditions (apw_Status r).
Proof.
  revert r es. induction wls as [|wl wls IH]; intros r es Hr; cbn [update_statuses].
  - by intros [-> ->].
  - rewrite runs_bind. intros (es1 & es2 & now & -> & ->%runs_call & Hrun).
    apply IH in Hrun as (Hw & Hs & Hc); [|by apply status_only_set].
    split_and!; [exact Hw|done|by rewrite Hc].
Qed.

Lemma updateWorkloadStatus_run r es res :
  runs (updateWorkloadStatus r) es res ->
  writes es = [] /\ exists es1 es2 listing, es = es1 ++ es2
    /\ runs (listWorkloads (sp_Workload (apw_Spec r)) (apw_Namespace r)) es1 listing
    /\ match res, listing with
       | Fail e, Fail e' => e = e' /\ es2 = []
       | OK (wls, r'), OK wls' => wls = wls' /\ status_only r r'
            /\ status_Conditions (apw_Status r') = status_Conditions (apw_Status r)
       | _, _ => False
       end.
Proof.
  unfold updateWorkloadStatus. rewrite runs_bind. intros (es1 & es2 & listing & -> & H1 & H2).
  pose proof (listWorkloads_reads _ _ _ _ H1) as Hw1. destruct listing as [wls|e].
  - apply runs_bind in H2 as (es3 & es4 & r' & -> & H3 & [-> ->]). rewrite app_nil_r.
    apply (update_statuses_run r) in H3 as (Hw & Hs & Hc); [|apply status_only_refl].
    split; [by rewrite writes_app, Hw1, Hw|]. by exists es1, es3, (OK wls).
  - destruct H2 as [-> ->]. rewrite app_nil_r. split; [done|]. exists es1, [], (Fail e).
    by rewrite app_nil_r.
Qed.

Lemma update_statuses_keeps r wls es r' s :
  runs (update_statuses r wls) es r' -> s ∈ status_WorkloadStatus (apw_Status r) ->
  (forall wl, wl ∈ wls -> status_key s <> status_key (newStatus wl)) ->
  s ∈ status_WorkloadStatus (apw_Status r').
Proof.
  revert r es. induction wls as [|wl wls IH]; intros r es Hrun Hs Hk; cbn [update_statuses] in Hrun.
  - by destruct Hrun as [_ ->].
  - apply runs_bind in Hrun as (es1 & es2 & now & -> & ->%runs_call & Hrun).
    eapply IH; [exact Hrun| |intros wl' ?; apply Hk; by right].
    apply replaceStatus_elem. right. split; [done|]. apply Hk. by left.
Qed.

(** The status that [reconcileResult] writes. *)
Definition reports (r : AuthProxyWorkload) (reason : string) (r' : AuthProxyWorkload) : Prop :=
  exists c, findCondition (status_Conditions (apw_Status r')) ConditionUpToDate = Some c
    /\ cond_Status c = ConditionTrue /\ cond_ObservedGeneration c = GetGeneration r
    /\ cond_Reason c = reason.

Lemma set_Conditions_reports r now conds reason message :
  reports r reason
    (set_Conditions (replaceCondition now conds (upToDate_condition r reason message)) r).
Proof. eexists. split; [apply replaceCondition_found|done]. Qed.

Lemma reconcileResult_run r orig reason message es res :
  runs (reconcileResult r orig reason message) es res ->
  Requeue res.1 = false
  /\ exists r' answer, writes es = [event (PatchStatus r' orig) answer]
       /\ status_only r r' /\ reports r reason r'
       /\ (res.2 = None -> answer = None).
Proof.
  unfold reconcileResult, patchAuthProxyWorkloadStatus. cbn zeta. rewrite runs_bind.
  intros (es1 & es2 & now & -> & H1 & H2).
  assert (writes es1 = []) as Hw1.
  { destruct (needs_now _ _); [by apply runs_call in H1 as ->|by destruct H1 as [-> _]]. }
  apply runs_bind in H2 as (es3 & es4 & err & -> & H3 & H4).
  apply runs_bind in H3 as (es5 & es6 & answer & -> & ->%runs_call & H6).
  set (r' := set_Conditions _ r) in *.
  assert (writes es6 = [] /\ (err = None -> answer = None)) as [Hw6 Herr].
  { destruct answer as [e|].
    - destruct H6 as [-> ->]. done.
    - apply runs_bind in H6 as (es7 & es8 & g & -> & ->%runs_call & H8).
      destruct g; by destruct H8 as [-> _]. }
  assert (es4 = [] /\ Requeue res.1 = false /\ res.2 = err) as (-> & Hq & Hres).
  { destruct err; by destruct H4 as [-> ->]. }
  split; [done|]. exists r', answer.
  rewrite !writes_app, Hw1, Hw6. split_and!; [done| |apply set_Conditions_reports|].
  - eexists. reflexivity.
  - by rewrite Hres.
Qed.

(** ** The state machine of [doCreateUpdate] *)

(** The states of the table in the comment on [doCreateUpdate]. *)
Inductive reconcile_state : Type :=
| needs_finalizer | cannot_list | no_workloads | workloads_reconciled.

Definition state_of (finalizer : bool) (listing : Res (list Workload)) : reconcile_state :=
  if finalizer then
    match listing with
    | Fail _ => cannot_list
    | OK [] => no_workloads
    | OK _ => workloads_reconciled
    end
  else needs_finalizer.

(** What the controller does in each state: its one write with the answer, and
    its result. *)
Definition state_outcome (r : AuthProxyWorkload) (listing : Res (list Workload))
    (st : reconcile_state) (ws : list Event) (res : Result * option error) : Prop :=
  match st with
  | needs_finalizer => exists answer,
      ws = [event (UpdateResource (set_Finalizers (AddFinalizer (apw_Finalizers r) finalizerName) r))
              answer]
      /\ res = (requeueNow, answer)
  | cannot_list => ws = [] /\ exists e, listing = Fail e /\ res = (requeueWithDelay, Some e)
  | no_workloads | workloads_reconciled => exists r' answer,
      ws = [event (PatchStatus r' r) answer] /\ status_only r r'
      /\ reports r (match st with no_workloads => ReasonNoWorkloadsFound
                                | _ => ReasonFinishedReconcile end) r'
      /\ Requeue res.1 = false /\ (res.2 = None -> answer = None)
  end.

Lemma status_only_trans r r' r'' : status_only r r' -> status_only r' r'' -> status_only r r''.
Proof. intros [s ->] [s' ->]. by exists s'. Qed.

Lemma reports_status_only r0 r reason r' :
  status_only r0 r -> reports r reason r' -> reports r0 reason r'.
Proof. by intros [s ->]. Qed.

Lemma doCreateUpdate_run r es res :
  runs (doCreateUpdate r) es res ->
  exists listing, state_outcome r listing
    (state_of (ContainsFinalizer (apw_Finalizers r) finalizerName) listing) (writes es) res
  /\ (ContainsFinalizer (apw_Finalizers r) finalizerName = true ->
      exists es1 es2, es = es1 ++ es2
        /\ runs (listWorkloads (sp_Workload (apw_Spec r)) (apw_Namespace r)) es1 listing).
Proof.
  unfold doCreateUpdate. cbn zeta. unfold state_of.
  destruct (ContainsFinalizer (apw_Finalizers r) finalizerName); cbn [negb].
  - rewrite runs_bind. intros (es1 & es2 & upd & -> & H1 & H2).
    apply updateWorkloadStatus_run in H1 as (Hw1 & ea & eb & listing & -> & Hlist & Hm).
    exists listing. split; [|intros _; exists ea, (eb ++ es2); by rewrite <-app_assoc].
    rewrite writes_app, Hw1. destruct upd as [[wls r']|e], listing as [wls'|e']; try done.
    + destruct Hm as (<- & Hs & _). destruct wls as [|wl wls]; cbn in H2 |- *;
        apply reconcileResult_run in H2 as (Hq & r'' & answer & Hw & Hs' & Hrep & Herr);
        exists r'', answer; split_and!; eauto using status_only_trans, reports_status_only.
    + destruct Hm as (<- & ->). destruct H2 as [-> ->]. cbn. eauto.
  - intros H1. exists (Fail (ErrorString "")). split; [|done]. unfold applyFinalizer in H1.
    apply runs_bind in H1 as (es1 & es2 & answer & -> & ->%runs_call & H2). cbn.
    exists answer. destruct answer; by destruct H2 as [-> ->].
Qed.

Lemma doDelete_run r es res :
  runs (doDelete r) es res ->
  exists listing es1 es2, es = es1 ++ es2
    /\ runs (listWorkloads (sp_Workload (apw_Spec r)) (apw_Namespace r)) es1 listing
    /\ match listing with
       | Fail e => writes es = [] /\ res = (requeueNow, Some e)
       | OK _ =>
           if ContainsFinalizer (apw_Finalizers r) finalizerName
           then exists r' answer,
             writes es = [event (UpdateResource
               (set_Finalizers (RemoveFinalizer (apw_Finalizers r) finalizerName) r')) answer]
             /\ status_only r r' /\ res = (Result_zero, answer)
           else writes es = [] /\ res = (Result_zero, None)
       end.
Proof.
  unfold doDelete. rewrite runs_bind. intros (es1 & es2 & upd & -> & H1 & H2).
  apply updateWorkloadStatus_run in H1 as (Hw1 & ea & eb & listing & -> & Hlist & Hm).
  exists listing, ea, (eb ++ es2). split; [by rewrite <-app_assoc|]. split; [done|].
  rewrite writes_app, Hw1. destruct upd as [[wls r']|e], listing as [wls'|e']; try done.
  - destruct Hm as (<- & [st ->] & _).
    change (apw_Finalizers (set_Status st r)) with (apw_Finalizers r) in H2.
    destruct (ContainsFinalizer _ _); [|by destruct H2 as [-> ->]].
    apply runs_bind in H2 as (es3 & es4 & answer & -> & ->%runs_call & H4).
    exists (set_Status st r), answer. destruct answer; destruct H4 as [-> ->];
      (split_and!; [done|by exists st|done]).
  - destruct Hm as (<- & ->). by destruct H2 as [-> ->].
Qed.

(** ** Safety of every write *)

(** A write of a run that read [r0]: it keeps the spec and the metadata of
    [r0] but for this controller's finalizer, which is added only to a live
    resource and removed only from one that is being deleted; and it patches
    only the status of a live resource, relative to what was read, with the
    condition UpToDate for its generation. *)
Definition safe_write (r0 : AuthProxyWorkload) (e : Event) : Prop :=
  match e with
  | event (UpdateResource r) _ =>
      exists r', status_only r0 r' /\
        r = set_Finalizers
              (if Time_IsZero (om_DeletionTimestamp (apw_ObjectMeta r0))
               then AddFinalizer (apw_Finalizers r0) finalizerName
               else RemoveFinalizer (apw_Finalizers r0) finalizerName) r'
  | event (PatchStatus r orig) _ =>
      orig = r0 /\ status_only r0 r
      /\ Time_IsZero (om_DeletionTimestamp (apw_ObjectMeta r0)) = true
      /\ ContainsFinalizer (apw_Finalizers r0) finalizerName = true
      /\ exists reason, reports r0 reason r
  | _ => True
  end.

Lemma state_outcome_writes r listing ws res :
  Time_IsZero (om_DeletionTimestamp (apw_ObjectMeta r)) = true ->
  state_outcome r listing
    (state_of (ContainsFinalizer (apw_Finalizers r) finalizerName) listing) ws res ->
  (length ws <= 1)%nat /\ Forall (safe_write r) ws.
Proof.
  intros Hlive. unfold state_of.
  destruct (ContainsFinalizer (apw_Finalizers r) finalizerName) eqn:Hf.
  - destruct listing as [[|wl wls]|e]; cbn.
    + intros (r' & answer & -> & Hs & Hrep & _). split; [done|].
      apply Forall_singleton. split_and!; eauto.
    + intros (r' & answer & -> & Hs & Hrep & _). split; [done|].
      apply Forall_singleton. split_and!; eauto.
    + intros (-> & _). split; [cbn; lia|constructor].
  - intros (answer & -> & _). split; [done|]. apply Forall_singleton.
    exists r. split; [apply status_only_refl|]. by rewrite Hlive.
Qed.

(** A run of [Reconcile] after the fetch. *)
Lemma Reconcile_fetched req es res :
  runs (Reconcile req) es res ->
  exists fetched es', es = event (GetResource req) fetched :: es' /\
    match fetched with
    | Fail e => writes es' = []
    | OK r0 =>
        if Time_IsZero (om_DeletionTimestamp (apw_ObjectMeta r0))
        then exists es'', es' = event (CacheSet req false) tt :: es'' /\ runs (doCreateUpdate r0) es'' res
        else exists es'', es' = event (CacheSet req true) tt :: es'' /\ runs (doDelete r0) es'' res
    end.
Proof.
  intros (es1 & es2 & fetched & -> & ->%runs_call & Hrun)%runs_bind.
  exists fetched, es2. split; [done|]. destruct fetched as [r0|e].
  - destruct (Time_IsZero _); cbn [negb] in Hrun;
      apply runs_bind in Hrun as (es3 & es4 & [] & -> & ->%runs_call & Hrun); by exists es4.
  - apply runs_bind in Hrun as (es3 & es4 & b & -> & ->%runs_call & Hrun).
    destruct b; by destruct Hrun as [-> _].
Qed.

Lemma Reconcile_run req es res :
  runs (Reconcile req) es res ->
  (exists e es', es = event (GetResource req) (Fail e) :: es' /\ writes es = [])
  \/ (exists r0 es', es = event (GetResource req) (OK r0) :: es'
        /\ (length (writes es) <= 1)%nat /\ Forall (safe_write r0) (writes es)).
Proof.
  intros ([r0|e] & es' & -> & Hrun)%Reconcile_fetched; [right|left; by exists e, es'].
  exists r0, es'. split; [done|].
  change (writes (event (GetResource req) (OK r0) :: es')) with (writes es').
  destruct (Time_IsZero _) eqn:Hlive; destruct Hrun as (es4 & -> & Hrun);
    change (writes (_ :: es4)) with (writes es4).
  - apply doCreateUpdate_run in Hrun as (listing & Hout & _). by eapply state_outcome_writes.
  - apply doDelete_run in Hrun as (listing & ea & eb & _ & _ & Hout).
    destruct listing as [wls|e]; [|by destruct Hout as [-> _]; split; [cbn; lia|constructor]].
    destruct (ContainsFinalizer _ _).
    + destruct Hout as (r' & answer & -> & Hs & _). split; [done|]. apply Forall_singleton.
      exists r'. split; [done|]. by rewrite Hlive.
    + destruct Hout as [-> _]. split; [cbn; lia|constructor].
Qed.

End reconciler.

(** ** Theorems *)
Section theorems.
Context `{Hk8s : K8sTypes} `{Hlab : LabelsPkg} `{Hschema : SchemaPkg} `{Hutil : ControllerUtil}.

(** C11: Whatever the environment answers, one run of [Reconcile] makes at most
    one write (the comment on [Reconcile] promises it), and the write is safe:
    it never touches the spec of the resource or the metadata of its user; it
    adds this controller's finalizer only to a live resource, removes it only
    from one being deleted, and patches the status only of a live resource
    that has the finalizer, with UpToDate for the generation that was read.  A
    run that cannot read the resource writes nothing. *)
Theorem Reconcile_writes req es res (Hrun : runs (Reconcile req) es res) :
  (exists e es', es = event (GetResource req) (Fail e) :: es' /\ writes es = [])
  \/ (exists r0 es', es = event (GetResource req) (OK r0) :: es'
        /\ (length (writes es) <= 1)%nat /\ Forall (safe_write r0) (writes es)).
Proof. by apply Reconcile_run in Hrun. Qed.

(** C27: [doCreateUpdate] implements the state machine of its comment: the
    presence of the finalizer and the outcome of listing the workloads decide
    the state, and in each state the one write and the result are those of the
    table (1.1 adds the finalizer and requeues, 1.2 requeues with a delay, 2.1
    and 3.1 report UpToDate for the generation that was read and end). *)
Theorem doCreateUpdate_state_machine r es res (Hrun : runs (doCreateUpdate r) es res) :
  exists listing, state_outcome r listing
    (state_of (ContainsFinalizer (apw_Finalizers r) finalizerName) listing) (writes es) res
  /\ (ContainsFinalizer (apw_Finalizers r) finalizerName = true ->
      exists es1 es2, es = es1 ++ es2
        /\ runs (listWorkloads (sp_Workload (apw_Spec r)) (apw_Namespace r)) es1 listing).
Proof. by apply doCreateUpdate_run. Qed.

(** A resource being deleted keeps its finalizer until its workloads could be
    listed: the finalizer is removed, in one update, only after a successful
    listing; a failed listing writes nothing and requeues; and without the
    finalizer nothing is written. *)
Theorem doDelete_after_listing r es res (Hrun : runs (doDelete r) es res) :
  exists listing es1 es2, es = es1 ++ es2
    /\ runs (listWorkloads (sp_Workload (apw_Spec r)) (apw_Namespace r)) es1 listing
    /\ match listing with
       | Fail e => writes es = [] /\ res = (requeueNow, Some e)
       | OK _ =>
           if ContainsFinalizer (apw_Finalizers r) finalizerName
           then exists r' answer,
             writes es = [event (UpdateResource
               (set_Finalizers (RemoveFinalizer (apw_Finalizers r) finalizerName) r')) answer]
             /\ status_only r r' /\ res = (Result_zero, answer)
           else writes es = [] /\ res = (Result_zero, None)
       end.
Proof. by apply doDelete_run. Qed.

(** The status of a matching workload never settles: [newStatus] starts
    without conditions, so each run records the current time as the transition
    time of the workload's condition, also when the same condition was
    recorded before (unlike the conditions of the resource, which keep
    theirs). *)
Theorem workload_status_time_moves r wl es r' (Hrun : runs (update_statuses r [wl]) es r') :
  exists now s c, es = [event Now now]
    /\ s ∈ status_WorkloadStatus (apw_Status r')
    /\ (forall s', s' ∈ status_WorkloadStatus (apw_Status r') ->
          status_key s' = status_key (newStatus wl) -> s' = s)
    /\ findCondition (st_Conditions s) ConditionWorkloadUpToDate = Some c
    /\ cond_Status c = ConditionTrue /\ cond_LastTransitionTime c = now.
Proof.
  cbn [update_statuses] in Hrun.
  apply runs_bind in Hrun as (es1 & es2 & now & -> & ->%runs_call & [-> ->]).
  eexists now, (workload_status r wl now), _. split; [done|].
  change (status_WorkloadStatus (apw_Status (set_WorkloadStatus ?l _))) with l.
  split_and!; [apply replaceStatus_elem; by left| |reflexivity|done|done].
  intros s' [->|[_ Hk]]%replaceStatus_elem Hs'; [done|]. by rewrite Hs' in Hk.
Qed.

(** Statuses of workloads that do not match any more stay: an entry whose
    workload is not in the listing is in the new status as it was in the old
    one. *)
Theorem stale_status_kept r es wls r' s
    (Hrun : runs (updateWorkloadStatus r) es (OK (wls, r')))
    (Hs : s ∈ status_WorkloadStatus (apw_Status r))
    (Hstale : forall wl, wl ∈ wls -> status_key s <> status_key (newStatus wl)) :
  s ∈ status_WorkloadStatus (apw_Status r').
Proof.
  unfold updateWorkloadStatus in Hrun.
  apply runs_bind in Hrun as (es1 & es2 & listing & -> & _ & Hrun).
  destruct listing as [wls'|]; [|by destruct Hrun].
  apply runs_bind in Hrun as (es3 & es4 & r1 & -> & Hrun & [-> [= -> ->]]).
  by eapply update_statuses_keeps.
Qed.

(** The status does not look at pods: the API documents UpToDate as "the proxy
    was successfully applied to all matching workloads", but for workloads that
    have the same metadata, whatever their pod templates are, the statuses
    are the same. *)
Theorem status_ignores_pods r wls wls' es r'
    (Hsame : Forall2 (fun w w' : Workload => ObjectOf w = ObjectOf w') wls wls')
    (Hrun : runs (update_statuses r wls) es r') :
  runs (update_statuses r wls') es r'.
Proof.
  revert r es Hrun. induction Hsame as [|w w' wls wls' E _ IH]; intros r es Hrun; [done|].
  cbn [update_statuses] in *. rewrite runs_bind in *.
  destruct Hrun as (es1 & es2 & now & -> & Hnow & Hrun). exists es1, es2, now.
  split; [done|]. split; [done|]. apply IH.
  assert (workload_status r w' now = workload_status r w now) as ->; [|done].
  unfold workload_status, newStatus. by rewrite E.
Qed.

End theorems.

(** ** Witnesses *)
Definition test_util : ControllerUtil.
Proof.
  refine {| ContainsFinalizer l f := bool_decide (f ∈ l);
            AddFinalizer l f := if decide (f ∈ l) then l else l ++ [f];
            RemoveFinalizer l f := filter (fun g => g <> f) l |}.
  - intros l f. apply bool_decide_eq_true.
  - intros l f g. destruct (decide (f ∈ l)) as [Hf|Hf].
    + split; [by right|]. by intros [->|?].
    + rewrite elem_of_app, list_elem_of_singleton. tauto.
  - intros l f g. rewrite list_elem_of_filter. tauto.
Defined.


Section witnesses.
Import ConcreteInstances.
#[local] Existing Instance test_util.

Definition new_apw : AuthProxyWorkload :=
  mk_apw "default" "orders" (mk_selector "Deployment" "" None) None
    [mk_instance "proj:region:orders" None "DB_PORT" ""].

(** The same resource, being deleted. *)
Definition deleted_apw : AuthProxyWorkload :=
  set_Finalizers [finalizerName] {|
    apw_GVK := apw_GVK new_apw; apw_Spec := apw_Spec new_apw; apw_Status := apw_Status new_apw;
    apw_ObjectMeta := {|
      om_Name := "orders"; om_Namespace := "default"; om_Generation := 1; om_ResourceVersion := "1";
      om_Labels := ∅; om_Annotations := ∅; om_DeletionTimestamp := Some 7; om_Finalizers := [];
      om_OwnerReferences := []; om_rest := tt |} |}.

Definition orders_key : NamespacedName := {| nn_Namespace := "default"; nn_Name := "orders" |}.

(** Two runs: one adds the finalizer, one removes it after listing. *)
Definition adding_run : list Event :=
  [event (UpdateResource (set_Finalizers [finalizerName] new_apw)) None].

Definition deleting_run : list Event :=
  [event (ListWorkloads "default" ∅ {| objectList := DeploymentList [] |})
     (OK {| objectList := DeploymentList [] |});
   event (UpdateResource (set_Finalizers [] deleted_apw)) None].

Ltac run_it := repeat first [eexists|split|reflexivity].

Lemma Reconcile_writes_witness :
  let es := event (GetResource orders_key) (OK new_apw)
            :: event (CacheSet orders_key false) tt :: adding_run in
  (exists e es', es = event (GetResource orders_key) (Fail e) :: es' /\ writes es = [])
  \/ (exists r0 es', es = event (GetResource orders_key) (OK r0) :: es'
        /\ (length (writes es) <= 1)%nat /\ Forall (safe_write r0) (writes es)).
Proof. intros es. apply (Reconcile_writes orders_key es (requeueNow, None)). run_it. Defined.

Lemma doCreateUpdate_state_machine_witness :
  exists listing, state_outcome new_apw listing
    (state_of (ContainsFinalizer (apw_Finalizers new_apw) finalizerName) listing)
    (writes adding_run) (requeueNow, None)
  /\ (ContainsFinalizer (apw_Finalizers new_apw) finalizerName = true ->
      exists es1 es2, adding_run = es1 ++ es2
        /\ runs (listWorkloads (sp_Workload (apw_Spec new_apw)) (apw_Namespace new_apw)) es1 listing).
Proof. apply doCreateUpdate_state_machine. run_it. Defined.

Lemma doDelete_after_listing_witness :
  exists listing es1 es2, deleting_run = es1 ++ es2
    /\ runs (listWorkloads (sp_Workload (apw_Spec deleted_apw)) (apw_Namespace deleted_apw))
         es1 listing
    /\ match listing with
       | Fail e => writes deleting_run = [] /\ (Result_zero, None) = (requeueNow, Some e)
       | OK _ =>
           if ContainsFinalizer (apw_Finalizers deleted_apw) finalizerName
           then exists r' answer,
             writes deleting_run = [event (UpdateResource (set_Finalizers
               (RemoveFinalizer (apw_Finalizers deleted_apw) finalizerName) r')) answer]
             /\ status_only deleted_apw r' /\ (Result_zero, None) = (Result_zero, answer)
           else writes deleting_run = [] /\ (Result_zero, None) = (Result_zero, None : option error)
       end.
Proof. apply doDelete_after_listing. run_it. Defined.

Lemma workload_status_time_moves_witness :
  let wl := WDeployment {| dw_Deployment := Templated_zero |} in
  let r' := set_WorkloadStatus [workload_status new_apw wl 42] new_apw in
  exists now s c, [event Now 42] = [event Now now]
    /\ s ∈ status_WorkloadStatus (apw_Status r')
    /\ (forall s', s' ∈ status_WorkloadStatus (apw_Status r') ->
          status_key s' = status_key (newStatus wl) -> s' = s)
    /\ findCondition (st_Conditions s) ConditionWorkloadUpToDate = Some c
    /\ cond_Status c = ConditionTrue /\ cond_LastTransitionTime c = now.
Proof.
  intros wl r'. apply (workload_status_time_moves new_apw wl).
  exists 42, []. split; [reflexivity|]. split; reflexivity.
Defined.

(** The deployment is gone, its status stays. *)
Lemma stale_status_kept_witness :
  let gone := newStatus (WDeployment {| dw_Deployment := Templated_zero |}) in
  let r := set_WorkloadStatus [gone] new_apw in
  gone ∈ status_WorkloadStatus (apw_Status r).
Proof.
  intros gone r.
  apply (stale_status_kept r
    [event (ListWorkloads "default" ∅ {| objectList := DeploymentList [] |})
       (OK {| objectList := DeploymentList [] |})] [] r).
  - eexists _, []. split; [reflexivity|]. split; reflexivity.
  - by left.
  - by intros wl ?%elem_of_nil.
Defined.

(** A deployment with a proxy in its template, and the same without. *)
Lemma status_ignores_pods_witness :
  let bare := WDeployment {| dw_Deployment := Templated_zero |} in
  let proxied := WDeployment {| dw_Deployment := t_set_Spec
    {| ps_Containers := [mk_container "csql-default-orders" [] []]; ps_rest := tt |} Templated_zero |} in
  runs (update_statuses new_apw [proxied]) [event Now 42]
    (set_WorkloadStatus [workload_status new_apw bare 42] new_apw).
Proof.
  intros bare proxied. apply (status_ignores_pods new_apw [bare] [proxied]).
  - by repeat constructor.
  - exists 42, []. split; [reflexivity|]. split; reflexivity.
Defined.

End witnesses.
