(* ===== verification/Locking.v ===== *)
(** * The cache of deleted resources under its lock

    [recentlyDeletedCache] of
    [src/internal/controller/authproxyworkload_controller.go], step by step:
    each of [set] and [get] is a program of calls to a [sync.RWMutex] and of
    accesses to the map.  The other files take the two as single steps
    ([cache_set], [cache_get] of [Status]); here this is proved: whatever
    programs share the cache, runs of [Reconcile] among them, and however
    their steps interleave, they run as if each operation were one step. *)

From S2P Require Import Prelude Interaction Liveness GoStd Api Concrete Names Workload Fixtures Status Reconciler.
From Stdlib Require Import Ascii.

Section locking.
Context `{Hk8s : K8sTypes} `{Hlab : LabelsPkg}.

(** ** The code *)

(** Calls of [sync.RWMutex], accesses to [c.values], and the calls of the
    reconciler that are not about the cache. *)
Inductive LockCall : Type -> Type :=
| Lock : LockCall unit
| Unlock : LockCall unit
| RLock : LockCall unit
| RUnlock : LockCall unit
| ValuesIsNil : LockCall bool
| MakeValues : LockCall unit
| StoreValue (k : NamespacedName) (deleted : bool) : LockCall unit
| LookupValue (k : NamespacedName) : LockCall (bool * bool)
| Other (X : Type) (c : Call X) : LockCall X.

(** [recentlyDeletedCache.set]; the deferred [Unlock] comes last. *)
Definition locked_set (k : NamespacedName) (deleted : bool) : Interaction.Prog LockCall unit :=
  _ ← call Lock;
  isNil ← call ValuesIsNil;
  _ ← (if (isNil : bool) then call MakeValues else mret tt);
  _ ← call (StoreValue k deleted);
  call Unlock.

(** [recentlyDeletedCache.get]; what it returns is known before [RUnlock]. *)
Definition locked_get (k : NamespacedName) : Interaction.Prog LockCall bool :=
  _ ← call RLock;
  r ← call (LookupValue k);
  let '(deleted, ok) := r in
  let result := if negb ok then false else deleted in
  _ ← call RUnlock;
  mret result.

(** A program of the reconciler with the code of the cache in it. *)
Definition lock_call {X} (c : Call X) : Interaction.Prog LockCall X :=
  match c in Call X return Interaction.Prog LockCall X with
  | CacheGet k => locked_get k
  | CacheSet k deleted => locked_set k deleted
  | GetResource key => call (Other _ (GetResource key))
  | GetWorkload key into => call (Other _ (GetWorkload key into))
  | ListWorkloads ns sel into => call (Other _ (ListWorkloads ns sel into))
  | UpdateResource r => call (Other _ (UpdateResource r))
  | PatchStatus r orig => call (Other _ (PatchStatus r orig))
  | Now => call (Other _ Now)
  end.

Fixpoint locked {A} (m : Prog A) : Interaction.Prog LockCall A :=
  match m with
  | Done a => Done a
  | Step c k => x ← lock_call c; locked (k x)
  end.

(** ** Memory and the lock *)
Record CacheMem := { writer : bool; readers : nat; cm_values : option (gmap NamespacedName bool) }.

Definition mem_zero : CacheMem := {| writer := false; readers := 0; cm_values := None |}.

Definition set_lock (w : bool) (r : nat) (m : CacheMem) : CacheMem :=
  {| writer := w; readers := r; cm_values := cm_values m |}.
Definition set_values (v : option (gmap NamespacedName bool)) (m : CacheMem) : CacheMem :=
  {| writer := writer m; readers := readers m; cm_values := v |}.

(** What a call does; [None]: it blocks.  A new reader may be refused while
    there is no writer yet ([refused]).  Unlocking what is not locked ends the
    process, like writing to a nil map. *)
Definition perform {X} (c : LockCall X) (refused : bool) (m : CacheMem)
    : option (Outcome (X * CacheMem)) :=
  match c in LockCall X return option (Outcome (X * CacheMem)) with
  | Lock => if writer m || negb (readers m =? 0) then None else Some (Ret (tt, set_lock true 0 m))
  | Unlock =>
      if writer m then Some (Ret (tt, set_lock false (readers m) m))
      else Some (Panic "sync: Unlock of unlocked RWMutex")
  | RLock => if writer m || refused then None else Some (Ret (tt, set_lock false (S (readers m)) m))
  | RUnlock =>
      match readers m with
      | O => Some (Panic "sync: RUnlock of unlocked RWMutex")
      | S n => Some (Ret (tt, set_lock (writer m) n m))
      end
  | ValuesIsNil => Some (Ret (bool_decide (cm_values m = None), m))
  | MakeValues => Some (Ret (tt, set_values (Some ∅) m))
  | StoreValue k deleted =>
      match cm_values m with
      | None => Some (Panic "assignment to entry in nil map")
      | Some vs => Some (Ret (tt, set_values (Some (<[k := deleted]> vs)) m))
      end
  | LookupValue k =>
      Some (Ret (match cm_values m with
                 | None => (false, false)
                 | Some vs => match vs !! k with Some b => (b, true) | None => (false, false) end
                 end, m))
  | Other _ _ => None
  end.

Definition locks (A : Type) (t : Interaction.Prog LockCall A) : Prop :=
  match t with Step Lock _ => True | _ => False end.

(** ** Executions *)
Context {Env : Type} (env : forall X, Call X -> X -> Env -> Env -> Prop) {A : Type}.

(** The scheduler of Go may refuse a reader because a writer waits. *)
Context (refuses : list (Interaction.Prog LockCall A) -> bool).

Record LockState := { ls_env : Env; ls_mem : CacheMem; ls_threads : list (Interaction.Prog LockCall A) }.

(** One call of a thread. *)
Definition thread_step (s : LockState) (t : Interaction.Prog LockCall A)
    (e' : Env) (m' : CacheMem) (t' : Interaction.Prog LockCall A) : Prop :=
  match t with
  | Done _ => False
  | Step c k => exists x, t' = k x /\
      match c in LockCall X return X -> Prop with
      | Other _ c => fun x => m' = ls_mem s /\ env _ c x (ls_env s) e'
      | c => fun x => e' = ls_env s
               /\ perform c (refuses (ls_threads s)) (ls_mem s) = Some (Ret (x, m'))
      end x
  end.

Definition lock_step (s s' : LockState) : Prop := exists i t t',
  ls_threads s !! i = Some t /\ thread_step s t (ls_env s') (ls_mem s') t'
  /\ ls_threads s' = <[i := t']> (ls_threads s).

Definition lock_initial (e : Env) (ms : list (Prog A)) : LockState :=
  {| ls_env := e; ls_mem := mem_zero; ls_threads := locked <$> ms |}.

(** The same programs, each operation of the cache one step. *)
Record AtomicState := { as_env : Env; as_cache : recentlyDeletedCache; as_threads : list (Prog A) }.

Definition atomic_thread_step (s : AtomicState) (t : Prog A)
    (e' : Env) (c' : recentlyDeletedCache) (t' : Prog A) : Prop :=
  match t with
  | Done _ => False
  | Step c k => exists x, t' = k x /\
      match c in Call X return X -> Prop with
      | CacheGet key => fun x => x = cache_get key (as_cache s) /\ c' = as_cache s /\ e' = as_env s
      | CacheSet key b => fun _ => c' = cache_set key b (as_cache s) /\ e' = as_env s
      | c => fun x => c' = as_cache s /\ env _ c x (as_env s) e'
      end x
  end.

Definition atomic_step (s s' : AtomicState) : Prop := exists i t t',
  as_threads s !! i = Some t /\ atomic_thread_step s t (as_env s') (as_cache s') t'
  /\ as_threads s' = <[i := t']> (as_threads s).

Definition atomic_initial (e : Env) (ms : list (Prog A)) : AtomicState :=
  {| as_env := e; as_cache := cache_zero; as_threads := ms |}.
End locking.

(** ** Where a thread is *)
Section simulation.
Context `{Hk8s : K8sTypes} `{Hlab : LabelsPkg} {A : Type}.

Inductive Role := Outside | Checking | Making | Storing | Unlocking | Reading.

#[export] Instance Role_eq_dec : EqDecision Role.
Proof. solve_decision. Defined.

Definition writing (r : Role) : Prop :=
  match r with Outside | Reading => False | _ => True end.

(** The thread is at [t] in the code, at [a] in the program of single steps:
    writers take effect at the store, readers at the lookup. *)
Inductive thread_at : Role -> Interaction.Prog LockCall A -> Prog A -> Prop :=
| at_outside a : thread_at Outside (locked a) a
| at_check key b k : thread_at Checking
    (x ← (isNil ← call ValuesIsNil; _ ← (if (isNil : bool) then call MakeValues else mret tt);
          _ ← call (StoreValue key b); call Unlock); locked (k x)) (Step (CacheSet key b) k)
| at_make key b k : thread_at Making
    (_ ← call MakeValues; _ ← call (StoreValue key b); x ← call Unlock; locked (k x))
    (Step (CacheSet key b) k)
| at_store key b k : thread_at Storing
    (_ ← call (StoreValue key b); x ← call Unlock; locked (k x)) (Step (CacheSet key b) k)
| at_unlock (k : unit -> Prog A) : thread_at Unlocking (x ← call Unlock; locked (k x)) (k tt)
| at_lookup key k : thread_at Reading
    (x ← (r ← call (LookupValue key); let '(deleted, ok) := r in
          let result := if negb ok then false else deleted in _ ← call RUnlock; mret result);
     locked (k x)) (Step (CacheGet key) k)
| at_runlock a : thread_at Reading (Step RUnlock (fun _ => locked a)) a.

(** How many of the roles satisfy [P]. *)
Definition count (P : Role -> Prop) `{forall r, Decision (P r)} (rs : list Role) : nat :=
  length (filter P rs).
#[local] Arguments count : simpl never.

Lemma count_cons P `{forall r, Decision (P r)} r rs :
  count P (r :: rs) = ((if decide (P r) then 1 else 0) + count P rs)%nat.
Proof. unfold count. rewrite filter_cons. by destruct (decide (P r)). Qed.

Lemma count_insert P `{forall r, Decision (P r)} rs i r r' :
  rs !! i = Some r ->
  (count P (<[i := r']> rs) + (if decide (P r) then 1 else 0)
   = count P rs + (if decide (P r') then 1 else 0))%nat.
Proof.
  revert i. induction rs as [|r0 rs IH]; intros [|i]; try done.
  - intros [= ->]. change (<[0%nat := r']> (r :: rs)) with (r' :: rs). rewrite !count_cons. lia.
  - intros Hi. change (<[S i := r']> (r0 :: rs)) with (r0 :: <[i := r']> rs).
    specialize (IH i Hi). rewrite !count_cons. lia.
Qed.

Lemma count_pos P `{forall r, Decision (P r)} rs :
  (0 < count P rs)%nat <-> exists i r, rs !! i = Some r /\ P r.
Proof.
  induction rs as [|r0 rs IH]; [split; [unfold count; cbn; lia|by intros (i & r & Hi & _)]|].
  rewrite count_cons. split.
  - destruct (decide (P r0)) as [Hr|Hr]; [intros _; by exists 0%nat, r0|].
    intros (i & r & Hi & HP)%IH. by exists (S i), r.
  - intros ([|i] & r & Hi & HP); [injection Hi as ->; rewrite decide_True by done; lia|].
    destruct (proj2 IH); [by exists i, r|lia..].
Qed.

(** The map in memory, given where a thread is, and the map of the cache. *)
Definition values_at (r : Role) (v va : option (gmap NamespacedName bool)) : Prop :=
  match r with
  | Storing => v = Some (default ∅ va)
  | Making => v = None /\ va = None
  | _ => v = va
  end.

(** At most thread [i] is a writer. *)
Definition sole (i : nat) (rs : list Role) : Prop := forall j r,
  rs !! j = Some r -> writing r -> j = i.

Context {Env : Type}.

Record related (s : LockState (Env := Env) (A := A)) (a : AtomicState (Env := Env) (A := A))
    (rs : list Role) : Prop := {
  rel_env : as_env a = ls_env s;
  rel_length : length rs = length (ls_threads s);
  rel_thread : forall i t, ls_threads s !! i = Some t -> exists r b,
    rs !! i = Some r /\ as_threads a !! i = Some b /\ thread_at r t b;
  rel_readers : readers (ls_mem s) = count (eq Reading) rs;
  rel_writer : writer (ls_mem s) = true <-> exists i r, rs !! i = Some r /\ writing r;
  rel_excl : writer (ls_mem s) = true -> readers (ls_mem s) = 0%nat;
  rel_sole : forall i r, rs !! i = Some r -> writing r ->
    sole i rs /\ values_at r (cm_values (ls_mem s)) (values (as_cache a));
  rel_values : writer (ls_mem s) = false -> cm_values (ls_mem s) = values (as_cache a)
}.

Lemma writing_writer s a rs i r : related s a rs -> rs !! i = Some r -> writing r ->
  writer (ls_mem s) = true.
Proof. intros Hr Hi Hw. apply (rel_writer _ _ _ Hr). by exists i, r. Qed.

Lemma no_writer_sole s a rs i : related s a rs -> writer (ls_mem s) = false -> sole i rs.
Proof.
  intros Hr Hw j r Hj Hwr. assert (writer (ls_mem s) = true) by (apply Hr; eauto). congruence.
Qed.

Lemma reading_no_writer s a rs i : related s a rs -> rs !! i = Some Reading ->
  writer (ls_mem s) = false /\ (0 < readers (ls_mem s))%nat.
Proof.
  intros Hr Hi. assert (0 < readers (ls_mem s))%nat as Hp.
  { rewrite (rel_readers _ _ _ Hr). apply count_pos. eauto. }
  split; [|done]. apply not_true_is_false. intros Hw. apply (rel_excl _ _ _ Hr) in Hw. lia.
Qed.

(** Thread [i] moves, and may change its role. *)
Lemma related_update s a rs i r b r' t' b' e' m' c' :
  related s a rs -> rs !! i = Some r -> as_threads a !! i = Some b ->
  thread_at r' t' b' -> sole i rs ->
  (writer m' = true <-> writing r') -> (writer m' = true -> readers m' = 0%nat) ->
  (readers m' + (if decide (Reading = r) then 1 else 0)
   = readers (ls_mem s) + (if decide (Reading = r') then 1 else 0))%nat ->
  values_at r' (cm_values m') (values c') ->
  related {| ls_env := e'; ls_mem := m'; ls_threads := <[i := t']> (ls_threads s) |}
          {| as_env := e'; as_cache := c'; as_threads := <[i := b']> (as_threads a) |}
          (<[i := r']> rs).
Proof.
  intros Hrel Hi Hb Ht Hsole Hw Hex Hrd Hv.
  pose proof (lookup_lt_Some _ _ _ Hi) as Hlt. pose proof (lookup_lt_Some _ _ _ Hb) as Hltb.
  assert (forall j rj, <[i := r']> rs !! j = Some rj -> writing rj -> j = i /\ rj = r') as Hin.
  { intros j rj. destruct (decide (j = i)) as [->|Hj].
    - rewrite list_lookup_insert_eq by done. by intros [= <-].
    - rewrite list_lookup_insert_ne by done. intros Hrj Hwj. by destruct Hj; eapply Hsole. }
  split; cbn.
  - done.
  - rewrite !length_insert. apply Hrel.
  - intros j tj. destruct (decide (j = i)) as [->|Hj].
    + intros Htj. pose proof (lookup_lt_Some _ _ _ Htj) as Hl. rewrite length_insert in Hl.
      rewrite list_lookup_insert_eq in Htj by done. injection Htj as <-.
      exists r', b'. by rewrite !list_lookup_insert_eq.
    + rewrite !list_lookup_insert_ne by done. apply Hrel.
  - pose proof (count_insert (eq Reading) rs i r r' Hi). rewrite (rel_readers _ _ _ Hrel) in Hrd. lia.
  - rewrite Hw. split.
    + intros Hr'. exists i, r'. by rewrite list_lookup_insert_eq.
    + intros (j & rj & Hrj & Hwj). by destruct (Hin _ _ Hrj Hwj) as [_ <-].
  - exact Hex.
  - intros j rj Hrj Hwj. destruct (Hin _ _ Hrj Hwj) as [-> ->]. split; [|done].
    intros k rk Hrk Hwk. by apply (Hin k rk).
  - intros Hf. destruct r'; cbn in *; try done; by rewrite (proj2 Hw I) in Hf.
Qed.

(** Thread [i] moves in its role, with memory as it was. *)
Lemma related_same s a rs i r b t' b' e' :
  related s a rs -> rs !! i = Some r -> as_threads a !! i = Some b -> thread_at r t' b' ->
  related {| ls_env := e'; ls_mem := ls_mem s; ls_threads := <[i := t']> (ls_threads s) |}
          {| as_env := e'; as_cache := as_cache a; as_threads := <[i := b']> (as_threads a) |} rs.
Proof.
  intros Hrel Hi Hb Ht. pose proof (lookup_lt_Some _ _ _ Hb) as Hltb.
  split; cbn; try apply Hrel; [done|by rewrite length_insert; apply Hrel|].
  intros j tj. destruct (decide (j = i)) as [->|Hj].
  - intros Htj. pose proof (lookup_lt_Some _ _ _ Htj) as Hl. rewrite length_insert in Hl.
    rewrite list_lookup_insert_eq in Htj by done. injection Htj as <-.
    exists r, b'. by rewrite list_lookup_insert_eq.
  - rewrite !list_lookup_insert_ne by done. apply Hrel.
Qed.

Lemma related_initial (e : Env) (ms : list (Prog A)) :
  related (lock_initial e ms) (atomic_initial e ms) (replicate (length ms) Outside).
Proof.
  assert (forall i r, replicate (length ms) Outside !! i = Some r -> r = Outside) as Hout
    by (by intros i r [-> _]%lookup_replicate).
  split; cbn; try done.
  - by rewrite length_replicate, length_fmap.
  - intros i t (a & -> & Ha)%list_lookup_fmap_Some. exists Outside, a.
    split_and!; [|done|apply at_outside]. apply lookup_replicate_2. by eapply lookup_lt_Some.
  - destruct (count (eq Reading) _) eqn:E; [done|]. destruct (proj1 (count_pos (eq Reading)
      (replicate (length ms) Outside)) ltac:(lia)) as (i & r & Hi & <-). by apply Hout in Hi.
  - split; [done|]. intros (i & r & Hi & Hw). by apply Hout in Hi as ->.
  - intros i r Hi Hw. by apply Hout in Hi as ->.
Qed.
End simulation.

Section refinement.
Context `{Hk8s : K8sTypes} `{Hlab : LabelsPkg} {A Env : Type}.
Context (env : forall X, Call X -> X -> Env -> Env -> Prop).
Context (refuses : list (Interaction.Prog LockCall A) -> bool).
Implicit Types (a : AtomicState (Env := Env) (A := A)) (s : LockState (Env := Env) (A := A)).

Lemma atomic_once a i b e' c' b' :
  as_threads a !! i = Some b -> atomic_thread_step env a b e' c' b' ->
  rtc (atomic_step env) a {| as_env := e'; as_cache := c'; as_threads := <[i := b']> (as_threads a) |}.
Proof. intros Hb Hs. apply rtc_once. by exists i, b, b'. Qed.

(** A step of a thread that does not take effect. *)
Lemma atomic_none a i b :
  as_threads a !! i = Some b ->
  {| as_env := as_env a; as_cache := as_cache a; as_threads := <[i := b]> (as_threads a) |} = a.
Proof. intros Hb. rewrite list_insert_id by done. by destruct a. Qed.

Ltac roles := repeat (case_decide; simplify_eq); cbn; lia.

Lemma outside_step s a rs i (p : Prog A) e' m' t' :
  related s a rs -> rs !! i = Some Outside -> as_threads a !! i = Some p ->
  thread_step env refuses s (locked p) e' m' t' ->
  exists a' rs', rtc (atomic_step env) a a'
    /\ related {| ls_env := e'; ls_mem := m'; ls_threads := <[i := t']> (ls_threads s) |} a' rs'.
Proof.
  intros Hrel Hr Hb. pose proof (rel_env _ _ _ Hrel) as He. destruct p as [v|X c k]; [done|].
  destruct c; intros (x & -> & Hs).
  1-6: destruct Hs as [-> Hs];
    exists {| as_env := e'; as_cache := as_cache a; as_threads := <[i := k x]> (as_threads a) |}, rs;
    (split; [|exact (related_same _ _ _ _ _ _ _ _ _ Hrel Hr Hb (at_outside (k x)))]);
    apply (atomic_once _ _ _ _ _ _ Hb); exists x; rewrite He; done.
  - destruct Hs as [-> Hs]. cbn in Hs. destruct (writer (ls_mem s)) eqn:Hw; [done|].
    destruct (refuses _); [done|]. injection Hs as <- <-.
    exists a, (<[i := Reading]> rs). split; [done|]. rewrite <-(atomic_none a i _ Hb), He.
    eapply related_update; [exact Hrel|exact Hr|exact Hb|exact (at_lookup key k)| |done|done| |].
    + by eapply no_writer_sole.
    + by roles.
    + by apply Hrel.
  - destruct Hs as [-> Hs]. cbn in Hs. destruct (writer (ls_mem s)) eqn:Hw; [done|].
    destruct (readers (ls_mem s)) eqn:Hrd; [|done]. injection Hs as <- <-.
    exists a, (<[i := Checking]> rs). split; [done|]. rewrite <-(atomic_none a i _ Hb), He.
    eapply related_update; [exact Hrel|exact Hr|exact Hb|exact (at_check key deleted k)| |done|done| |].
    + by eapply no_writer_sole.
    + by roles.
    + by apply Hrel.
Qed.

Lemma inside_step s a rs i r t b e' m' t' :
  related s a rs -> rs !! i = Some r -> as_threads a !! i = Some b ->
  thread_at r t b -> thread_step env refuses s t e' m' t' ->
  exists a' rs', rtc (atomic_step env) a a'
    /\ related {| ls_env := e'; ls_mem := m'; ls_threads := <[i := t']> (ls_threads s) |} a' rs'.
Proof.
  intros Hrel Hr Hb Hat Hs. pose proof (rel_env _ _ _ Hrel) as He.
  destruct Hat as [p|key v k|key v k|key v k|k|key k|p]; [by eapply outside_step|..];
    destruct Hs as (x & -> & -> & Hs); cbn in Hs.
  - injection Hs as <- <-. destruct (rel_sole _ _ _ Hrel _ _ Hr I) as [Hsole Hv].
    pose proof (writing_writer _ _ _ _ _ Hrel Hr I) as Hw.
    exists a. rewrite <-(atomic_none a i _ Hb), He. destruct (bool_decide _) eqn:E.
    + apply bool_decide_eq_true in E. exists (<[i := Making]> rs). split; [done|].
      eapply related_update; [exact Hrel|exact Hr|exact Hb|exact (at_make key v k)|done|done|apply Hrel|by roles|].
      cbn in *. by rewrite <-Hv.
    + apply bool_decide_eq_false in E. exists (<[i := Storing]> rs). split; [done|].
      eapply related_update; [exact Hrel|exact Hr|exact Hb|exact (at_store key v k)|done|done|apply Hrel|by roles|].
      cbn in *. rewrite Hv in *. by destruct (values (as_cache a)).
  - injection Hs as <- <-. destruct (rel_sole _ _ _ Hrel _ _ Hr I) as [Hsole [Hv Hva]].
    pose proof (writing_writer _ _ _ _ _ Hrel Hr I) as Hw.
    exists a, (<[i := Storing]> rs). rewrite <-(atomic_none a i _ Hb), He. split; [done|].
    eapply related_update; [exact Hrel|exact Hr|exact Hb|exact (at_store key v k)|done|done|apply Hrel|by roles|].
    cbn. by rewrite Hva.
  - destruct (rel_sole _ _ _ Hrel _ _ Hr I) as [Hsole Hv]. cbn in Hv. rewrite Hv in Hs.
    injection Hs as <- <-. pose proof (writing_writer _ _ _ _ _ Hrel Hr I) as Hw.
    eexists _, (<[i := Unlocking]> rs). split.
    + apply (atomic_once _ _ _ (ls_env s) (cache_set key v (as_cache a)) (k tt) Hb).
      exists tt. by rewrite He.
    + eapply related_update; [exact Hrel|exact Hr|exact Hb|exact (at_unlock k)|done|done|apply Hrel|by roles|].
      done.
  - destruct (rel_sole _ _ _ Hrel _ _ Hr I) as [Hsole Hv].
    pose proof (writing_writer _ _ _ _ _ Hrel Hr I) as Hw. rewrite Hw in Hs.
    injection Hs as <- <-. exists a, (<[i := Outside]> rs). rewrite <-(atomic_none a i _ Hb), He. split; [done|].
    eapply related_update; [exact Hrel|exact Hr|exact Hb|exact (at_outside (k tt))|done|done|done|by roles|done].
  - destruct (reading_no_writer _ _ _ _ Hrel Hr) as [Hw _].
    injection Hs as <- <-. rewrite (rel_values _ _ _ Hrel Hw).
    eexists _, rs. split.
    + apply (atomic_once _ _ _ (ls_env s) (as_cache a) (k (cache_get key (as_cache a))) Hb).
      exists (cache_get key (as_cache a)). by rewrite He.
    + rewrite <-He. unfold cache_get.
      destruct (values (as_cache a)) as [vs|]; [destruct (vs !! key)|];
        apply (related_same _ _ _ _ _ _ _ _ _ Hrel Hr Hb), at_runlock.
  - destruct (reading_no_writer _ _ _ _ Hrel Hr) as [Hw Hp].
    destruct (readers (ls_mem s)) as [|n] eqn:Hn; [lia|]. injection Hs as <- <-.
    exists a, (<[i := Outside]> rs). rewrite <-(atomic_none a i _ Hb), He. split; [done|].
    eapply related_update; [exact Hrel|exact Hr|exact Hb|exact (at_outside p)| | | | |].
    + by eapply no_writer_sole.
    + by rewrite Hw.
    + cbn. by rewrite Hw.
    + rewrite Hn. by roles.
    + by apply Hrel.
Qed.

Lemma lock_step_sim s a rs s' :
  related s a rs -> lock_step env refuses s s' ->
  exists a' rs', rtc (atomic_step env) a a' /\ related s' a' rs'.
Proof.
  intros Hrel (i & t & t' & Hi & Hs & Hts).
  destruct (rel_thread _ _ _ Hrel _ _ Hi) as (r & b & Hr & Hb & Hat).
  destruct (inside_step s a rs i r t b _ _ _ Hrel Hr Hb Hat Hs) as (a' & rs' & Ha & Hrel').
  exists a', rs'. split; [done|]. rewrite <-Hts in Hrel'. by destruct s'.
Qed.

Lemma lock_steps_sim s a rs s' :
  related s a rs -> rtc (lock_step env refuses) s s' ->
  exists a' rs', rtc (atomic_step env) a a' /\ related s' a' rs'.
Proof.
  intros Hrel Hs. revert a rs Hrel. induction Hs as [s|s s1 s2 H1 _ IH]; intros a rs Hrel.
  - by exists a, rs.
  - destruct (lock_step_sim _ _ _ _ Hrel H1) as (a1 & rs1 & Ha1 & Hrel1).
    destruct (IH _ _ Hrel1) as (a2 & rs2 & Ha2 & Hrel2). exists a2, rs2. split; [by etransitivity|done].
Qed.

Lemma locked_Done (p : Prog A) v : locked p = Done v -> p = Done v.
Proof. destruct p as [w|X c k]; [by intros [= ->]|]. by destruct c. Qed.

Lemma thread_at_Done r (p : Prog A) v : thread_at r (Done v) p -> p = Done v.
Proof.
  intros Hat. remember (Done v) as t eqn:E. destruct Hat; try done. by apply locked_Done.
Qed.

(** *** Accesses to the map *)

(** Whether the next call of a thread writes the map ([Some true]) or reads it. *)
Definition next_access (t : Interaction.Prog LockCall A) : option bool :=
  match t with
  | Step MakeValues _ | Step (StoreValue _ _) _ => Some true
  | Step ValuesIsNil _ | Step (LookupValue _) _ => Some false
  | _ => None
  end.

(** Two threads are about to access the map, one of them to write it. *)
Definition data_race s : Prop := exists i j ti tj,
  ls_threads s !! i = Some ti /\ ls_threads s !! j = Some tj /\ i <> j
  /\ next_access ti = Some true /\ next_access tj <> None.

(** The next call of a thread ends the process. *)
Definition next_panics s : Prop := exists i (t : Interaction.Prog LockCall A),
  ls_threads s !! i = Some t /\
  match t with
  | Step c _ => exists why, perform c (refuses (ls_threads s)) (ls_mem s) = Some (Panic why)
  | Done _ => False
  end.

Lemma thread_at_access r t (p : Prog A) :
  thread_at r t p ->
  (next_access t = Some true -> writing r) /\ (next_access t <> None -> writing r \/ r = Reading).
Proof.
  intros Hat. destruct Hat as [p|?|?|?|?|?|?]; [|cbn; split; [done|by auto]..].
  destruct p as [v|X c k]; [by split|]. by destruct c.
Qed.

Lemma related_no_race s a rs : related s a rs -> ~ data_race s.
Proof.
  intros Hrel (i & j & ti & tj & Hi & Hj & Hne & Hwi & Haj).
  destruct (rel_thread _ _ _ Hrel _ _ Hi) as (ri & bi & Hri & _ & Hati).
  destruct (rel_thread _ _ _ Hrel _ _ Hj) as (rj & bj & Hrj & _ & Hatj).
  apply thread_at_access in Hati as [Hwri _]. specialize (Hwri Hwi).
  apply thread_at_access in Hatj as [_ Hwrj]. destruct (Hwrj Haj) as [Hwr| ->].
  - destruct (rel_sole _ _ _ Hrel _ _ Hri Hwri) as [Hsole _]. destruct Hne. symmetry. by eapply Hsole.
  - destruct (reading_no_writer _ _ _ _ Hrel Hrj) as [Hw _].
    rewrite (writing_writer _ _ _ _ _ Hrel Hri Hwri) in Hw. done.
Qed.

Lemma related_no_panic s a rs : related s a rs -> ~ next_panics s.
Proof.
  intros Hrel (i & t & Hi & Hp). destruct (rel_thread _ _ _ Hrel _ _ Hi) as (r & b & Hr & _ & Hat).
  destruct Hat as [p|key v k|key v k|key v k|k|key k|p]; cbn in Hp.
  - destruct p as [v|X c k]; [done|]. destruct c; destruct Hp as [why Hp]; cbn in Hp; try done;
      by destruct (_ || _).
  - by destruct Hp.
  - by destruct Hp.
  - destruct (rel_sole _ _ _ Hrel _ _ Hr I) as [_ Hv]. cbn in Hv. rewrite Hv in Hp. by destruct Hp.
  - rewrite (writing_writer _ _ _ _ _ Hrel Hr I) in Hp. by destruct Hp.
  - by destruct Hp.
  - destruct (reading_no_writer _ _ _ _ Hrel Hr) as [_ Hpos].
    destruct (readers (ls_mem s)); [lia|]. by destruct Hp.
Qed.

(** *** Progress *)
Definition all_done s : Prop := Forall (fun t => exists v, t = Done v) (ls_threads s).

Definition is_done (t : Interaction.Prog LockCall A) : Prop :=
  match t with Done _ => True | _ => False end.

#[local] Instance is_done_dec t : Decision (is_done t).
Proof. destruct t; [by left|by right; intros []]. Defined.

#[local] Instance locks_dec t : Decision (locks A t).
Proof. destruct t as [v|X c k]; [by right; intros []|]. destruct c; (by left) || (by right; intros []). Defined.

Lemma all_done_or_not s : all_done s \/ ~ all_done s.
Proof.
  unfold all_done. destruct (decide (Forall is_done (ls_threads s))) as [Hd|Hd]; [left|right].
  - eapply Forall_impl; [exact Hd|]. intros [v|X c k] Hv; [by exists v|done].
  - intros Had. apply Hd. eapply Forall_impl; [exact Had|]. by intros ? [v ->].
Qed.

Lemma lock_step_intro s i t e' m' t' :
  ls_threads s !! i = Some t -> thread_step env refuses s t e' m' t' ->
  exists s', lock_step env refuses s s'.
Proof.
  intros Hi Hs. by exists {| ls_env := e'; ls_mem := m'; ls_threads := <[i := t']> (ls_threads s) |}, i, t, t'.
Qed.

Lemma inside_goes_on s a rs i r :
  related s a rs -> rs !! i = Some r -> r <> Outside -> exists s', lock_step env refuses s s'.
Proof.
  intros Hrel Hr Hne. pose proof (lookup_lt_Some _ _ _ Hr) as Hlt. rewrite (rel_length _ _ _ Hrel) in Hlt.
  destruct (lookup_lt_is_Some_2 _ _ Hlt) as [t Hi].
  destruct (rel_thread _ _ _ Hrel _ _ Hi) as (r' & b & Hr' & _ & Hat).
  rewrite Hr in Hr'. injection Hr' as <-.
  enough (exists e' m' t', thread_step env refuses s t e' m' t') as (e' & m' & t' & Hs)
    by by eapply lock_step_intro.
  exists (ls_env s). destruct Hat as [p|key v k|key v k|key v k|k|key k|p]; [done|..].
  - eexists _, _, _. split; [reflexivity|]. by split.
  - eexists _, _, tt. split; [reflexivity|]. by split.
  - destruct (rel_sole _ _ _ Hrel _ _ Hr I) as [_ Hv]. cbn in Hv.
    eexists _, _, tt. split; [reflexivity|]. split; [done|]. cbn. by rewrite Hv.
  - eexists _, _, tt. split; [reflexivity|]. split; [done|]. cbn.
    by rewrite (writing_writer _ _ _ _ _ Hrel Hr I).
  - eexists _, _, _. split; [reflexivity|]. by split.
  - destruct (reading_no_writer _ _ _ _ Hrel Hr) as [_ Hpos].
    destruct (readers (ls_mem s)) as [|n] eqn:E; [lia|].
    eexists _, _, tt. split; [reflexivity|]. split; [done|]. cbn. by rewrite E.
Qed.

Lemma advances_wf s : Acc (fun s' s => lock_step env refuses s s') s.
Proof.
  pose proof (interleaves_wf (ls_threads s)) as Hacc. remember (ls_threads s) as ts eqn:E.
  revert s E. induction Hacc as [ts _ IH]. intros s ->. constructor.
  intros s' (i & t & t' & Hi & Hs & Hts). apply (IH (ls_threads s')); [|done].
  exists i, t, t'. split_and!; [done| |done]. destruct t as [v|X c k]; [done|].
  destruct Hs as (x & -> & _). by exists x.
Qed.

(** The calls that are not about the cache are answered, and readers wait only
    for writers. *)
Context (env_total : forall X (c : Call X) e, exists x e', env X c x e e').
Context (refuses_spec : forall ts, refuses ts = true -> exists t, t ∈ ts /\ locks A t).

Lemma outside_goes_on s a rs :
  related s a rs -> writer (ls_mem s) = false -> readers (ls_mem s) = 0%nat ->
  (forall i r, rs !! i = Some r -> r = Outside) -> ~ all_done s -> exists s', lock_step env refuses s s'.
Proof.
  intros Hrel Hw Hrd Hout Hnd.
  assert (forall i t, ls_threads s !! i = Some t -> exists p, t = locked p) as Hat.
  { intros i t Hi. destruct (rel_thread _ _ _ Hrel _ _ Hi) as (r & b & Hr & _ & Hat).
    apply Hout in Hr as ->. remember Outside as r eqn:E. destruct Hat; try done. by eexists. }
  destruct (decide (Exists (locks A) (ls_threads s))) as [Hl|Hl].
  - apply Exists_exists in Hl as (t & [i Hi]%list_elem_of_lookup & Hlt).
    apply (lock_step_intro s i t (ls_env s) (set_lock true 0 (ls_mem s))
             (match t with Step Lock k => k tt | t => t end)); [done|].
    destruct t as [v|X c k]; [done|]. destruct c; try done. exists tt. cbn. by rewrite Hw, Hrd.
  - assert (refuses (ls_threads s) = false) as Hre.
    { apply not_true_is_false. intros (t & Ht & Hlt)%refuses_spec. apply Hl, Exists_exists. eauto. }
    apply not_Forall_Exists in Hnd; [|intros t; destruct t as [v|X c k]; [left; by exists v|right; by intros [v ?]]].
    apply Exists_exists in Hnd as (t & Ht & Hnt).
    apply list_elem_of_lookup in Ht as [i Hi]. destruct (Hat _ _ Hi) as [p ->].
    enough (exists e' m' t', thread_step env refuses s (locked p) e' m' t') as (e' & m' & t' & Hs)
      by by eapply lock_step_intro.
    destruct p as [v|X c k]; [destruct Hnt; by exists v|].
    assert (forall c' : Call X, lock_call c' = call (Other X c') -> exists e' m' t',
      thread_step env refuses s (x ← lock_call c'; locked (k x)) e' m' t') as Hother.
    { intros c' ->. destruct (env_total X c' (ls_env s)) as (x & e' & Hx).
      exists e', (ls_mem s), (locked (k x)), x. done. }
    destruct c; try (by apply Hother).
    + exists (ls_env s). eexists _, _, tt. split; [reflexivity|]. split; [done|]. cbn. by rewrite Hw, Hre.
    + destruct Hl. apply Exists_exists. eexists. split; [by eapply list_elem_of_lookup_2|done].
Qed.

Lemma related_goes_on s a rs : related s a rs -> ~ all_done s -> exists s', lock_step env refuses s s'.
Proof.
  intros Hrel Hnd. destruct (decide (Forall (eq Outside) rs)) as [Ho|Ho].
  - assert (forall i r, rs !! i = Some r -> r = Outside) as Hout
      by (intros i r Hr; by rewrite (Forall_lookup_1 _ _ _ _ Ho Hr)).
    apply (outside_goes_on s a rs); [done| | |done|done].
    + apply not_true_is_false. intros (i & r & Hr & Hwr)%(rel_writer _ _ _ Hrel).
      by apply Hout in Hr as ->.
    + rewrite (rel_readers _ _ _ Hrel). destruct (count _ _) eqn:E; [done|].
      destruct (proj1 (count_pos (eq Reading) rs) ltac:(lia)) as (i & r & Hr & <-). by apply Hout in Hr.
  - apply not_Forall_Exists in Ho; [|apply _]. apply Exists_exists in Ho as (r & [i Hi]%list_elem_of_lookup & Hr).
    by eapply inside_goes_on.
Qed.
End refinement.

(** ** Theorems *)
Section theorems.
Context `{Hk8s : K8sTypes} `{Hlab : LabelsPkg} {A Env : Type}.
Context (env : forall X, Call X -> X -> Env -> Env -> Prop).
Context (refuses : list (Interaction.Prog LockCall A) -> bool).

(** C12: The cache is linearizable: programs that share it, runs of [Reconcile] or
    any others, behave as if [set] and [get] were single steps.  Whatever
    happens when their steps on the lock and on the map interleave, also
    happens, with the same answers of the API server and the same results,
    when the operations are atomic; and when all programs are done the map is
    the one of the atomic run. *)
Theorem cache_operations_atomic e ms (s : LockState (Env := Env) (A := A))
    (Hs : rtc (lock_step env refuses) (lock_initial e ms) s) :
  exists a, rtc (atomic_step env) (atomic_initial e ms) a /\ as_env a = ls_env s
    /\ (forall i v, ls_threads s !! i = Some (Done v) -> as_threads a !! i = Some (Done v))
    /\ (all_done s -> cm_values (ls_mem s) = values (as_cache a)).
Proof.
  destruct (lock_steps_sim env refuses _ _ _ _ (related_initial e ms) Hs) as (a & rs & Ha & Hrel).
  exists a. split_and!; [done|apply Hrel| |].
  - intros i v Hi. destruct (rel_thread _ _ _ Hrel _ _ Hi) as (r & p & _ & Hp & Hat).
    by apply thread_at_Done in Hat as ->.
  - intros Hd. apply (rel_values _ _ _ Hrel). apply not_true_is_false.
    intros (i & r & Hr & Hw)%(rel_writer _ _ _ Hrel).
    pose proof (lookup_lt_Some _ _ _ Hr) as Hlt. rewrite (rel_length _ _ _ Hrel) in Hlt.
    destruct (lookup_lt_is_Some_2 _ _ Hlt) as [t Hi].
    destruct (rel_thread _ _ _ Hrel _ _ Hi) as (r' & p & Hr' & _ & Hat).
    rewrite Hr in Hr'. injection Hr' as <-.
    destruct (Forall_lookup_1 _ _ _ _ Hd Hi) as [v E]. by destruct Hat.
Qed.

(** C26: The lock does its work: no two programs ever access the map at the same
    time when one of them writes it, and no call ends the process: nothing is
    written to a nil map, and nothing unlocked that is not locked. *)
Theorem cache_race_free e ms (s : LockState (Env := Env) (A := A))
    (Hs : rtc (lock_step env refuses) (lock_initial e ms) s) :
  ~ data_race s /\ ~ next_panics refuses s.
Proof.
  destruct (lock_steps_sim env refuses _ _ _ _ (related_initial e ms) Hs) as (a & rs & Ha & Hrel).
  split; [by eapply related_no_race|by eapply related_no_panic].
Qed.

(** Nobody waits for ever: provided that the other calls of the programs are
    answered, and that new readers are refused only while a writer waits (as
    [sync.RWMutex] does), every execution goes on until all programs are
    done, after finitely many steps. *)
Theorem cache_calls_return e (ms : list (Prog A))
    (Henv : forall X (c : Call X) e, exists x e', env X c x e e')
    (Hrefuses : forall ts, refuses ts = true -> exists t, t ∈ ts /\ locks A t) :
  eventually (lock_step env refuses) all_done (lock_initial e ms).
Proof.
  apply (eventually_wf _ (fun s => exists a rs, related s a rs)).
  - apply advances_wf.
  - intros s s' (a & rs & Hrel) Hstep.
    destruct (lock_step_sim env refuses _ _ _ _ Hrel Hstep) as (a' & rs' & _ & Hrel'). eauto.
  - intros s (a & rs & Hrel). destruct (all_done_or_not s) as [Hd|Hd]; [by left|right].
    by eapply related_goes_on.
  - eexists _, _. apply related_initial.
Qed.

End theorems.

(** ** Witnesses

    A deletion is recorded while two other programs read the cache. *)
Section witnesses.
Import ConcreteInstances.
#[local] Existing Instance test_util.

Definition no_env : forall X, Call X -> X -> unit -> unit -> Prop := fun _ _ _ _ _ => True.

(** Writers first. *)
Definition is_locking (t : Interaction.Prog LockCall bool) : bool :=
  match t with Step Lock _ => true | _ => false end.
Definition writers_first (ts : list (Interaction.Prog LockCall bool)) : bool := existsb is_locking ts.

Definition sharing : list (Prog bool) :=
  [(_ ← call (CacheSet orders_key true); call (CacheGet orders_key)); call (CacheGet orders_key)].

(** One step of thread [i], and a schedule. *)
Definition schedule_step (i : nat) (s : LockState (Env := unit) (A := bool))
    : option (LockState (Env := unit) (A := bool)) :=
  match ls_threads s !! i with
  | Some (Step c k) =>
      match perform c (writers_first (ls_threads s)) (ls_mem s) with
      | Some (Ret (x, m)) => Some {| ls_env := ls_env s; ls_mem := m;
                                     ls_threads := <[i := k x]> (ls_threads s) |}
      | _ => None
      end
  | _ => None
  end.

Fixpoint schedule (turns : list nat) (s : LockState (Env := unit) (A := bool)) :=
  match turns with
  | [] => Some s
  | i :: turns => schedule_step i s ≫= schedule turns
  end.

Lemma schedule_run turns s s' : schedule turns s = Some s' -> rtc (lock_step no_env writers_first) s s'.
Proof.
  revert s. induction turns as [|i turns IH]; intros s; cbn; [by intros [= ->]|].
  intros (s1 & E & Hs1)%bind_Some. eapply rtc_l; [|by apply IH]. clear IH Hs1. unfold schedule_step in E.
  destruct (ls_threads s !! i) as [[v|X c k]|] eqn:Hi; [done| |done].
  destruct (perform c _ _) as [[[x m]| |]|] eqn:Ep; try done. injection E as <-.
  exists i, (Step c k), (k x). split_and!; [done| |done]. exists x. split; [done|].
  by destruct c.
Qed.

(** The state after one schedule: the second program waits while the first one
    writes. *)
Definition shared_end : LockState (Env := unit) (A := bool) := {|
  ls_env := tt;
  ls_mem := {| writer := false; readers := 0; cm_values := Some (<[orders_key := true]> ∅) |};
  ls_threads := [Done true; Done true] |}.

Lemma shared_run : rtc (lock_step no_env writers_first) (lock_initial tt sharing) shared_end.
Proof.
  apply (schedule_run [0; 0; 0; 0; 0; 1; 0; 0; 1; 0; 1]%nat). reflexivity.
Qed.

Lemma cache_operations_atomic_witness :
  exists a, rtc (atomic_step no_env) (atomic_initial tt sharing) a /\ as_env a = ls_env shared_end
    /\ (forall i v, ls_threads shared_end !! i = Some (Done v) -> as_threads a !! i = Some (Done v))
    /\ (all_done shared_end -> cm_values (ls_mem shared_end) = values (as_cache a)).
Proof. exact (cache_operations_atomic no_env writers_first tt sharing shared_end shared_run). Defined.

Lemma cache_race_free_witness : ~ data_race shared_end /\ ~ next_panics writers_first shared_end.
Proof. exact (cache_race_free no_env writers_first tt sharing shared_end shared_run). Defined.

Lemma cache_calls_return_witness :
  eventually (lock_step no_env writers_first) all_done (lock_initial tt sharing).
Proof.
  apply cache_calls_return.
  - intros X c e. by exists (some_answer X c), e.
  - intros ts (t & Ht%list_elem_of_In & Hl)%existsb_exists. exists t. split; [done|].
    destruct t as [v|X c k]; [done|]. by destruct c.
Defined.
End witnesses.
