(* ===== verification/Convergence.v ===== *)
(** * The controller against an API server

    Programs of [Reconciler] run against a server with a state and the cache
    of deleted resources ([exec]).  [APIServerLaws] states what a server
    without concurrent clients promises; under it, two runs of [Reconcile]
    bring a new resource to its final state. *)

From S2P Require Import Prelude Interaction GoStd Api Concrete Names Workload Fixtures Status Reconciler.
From Stdlib Require Import Ascii.
#[local] Open Scope Z_scope.

Class APIServer `{K8sTypes} `{LabelsPkg} := {
  Server : Type;
  serve : forall X, Call X -> Server -> X * Server
}.
Arguments serve {_ _ _ X} c s.

Section exec.
Context `{Hk8s : K8sTypes} `{Hlab : LabelsPkg} `{Hsrv : !APIServer}.

Definition World : Type := Server * recentlyDeletedCache.

(** The cache answers its own calls, the server the others. *)
Definition answer_call {X} (c : Call X) (w : World) : X * World :=
  match c in Call X return X * World with
  | CacheGet key => (cache_get key w.2, w)
  | CacheSet key deleted => (tt, (w.1, cache_set key deleted w.2))
  | GetResource key => let '(x, s) := serve (GetResource key) w.1 in (x, (s, w.2))
  | GetWorkload key into => let '(x, s) := serve (GetWorkload key into) w.1 in (x, (s, w.2))
  | ListWorkloads ns sel into =>
      let '(x, s) := serve (ListWorkloads ns sel into) w.1 in (x, (s, w.2))
  | UpdateResource r => let '(x, s) := serve (UpdateResource r) w.1 in (x, (s, w.2))
  | PatchStatus r orig => let '(x, s) := serve (PatchStatus r orig) w.1 in (x, (s, w.2))
  | Now => let '(x, s) := serve Now w.1 in (x, (s, w.2))
  end.

Fixpoint exec {A} (m : Prog A) (w : World) : A * World :=
  match m with
  | Done a => (a, w)
  | Step c k => let '(x, w) := answer_call c w in exec (k x) w
  end.

Lemma exec_bind {A B} (m : Prog A) (f : A -> Prog B) w :
  exec (x ← m; f x) w = let '(a, w') := exec m w in exec (f a) w'.
Proof.
  revert w. induction m as [a|X c k IH]; intros w; [done|]. cbn.
  destruct (answer_call c w) as [x w']. apply IH.
Qed.

Lemma exec_call {X} (c : Call X) w : exec (call c) w = answer_call c w.
Proof. cbn. by destruct (answer_call c w). Qed.

(** Every execution is a run. *)
Lemma exec_runs {A} (m : Prog A) w : exists es, runs m es (exec m w).1.
Proof.
  revert w. induction m as [a|X c k IH]; intros w; cbn; [by exists []|].
  destruct (answer_call c w) as [x w'] eqn:E. destruct (IH x w') as (es & Hes).
  by exists (event c x :: es), x, es.
Qed.

(** ** A server without other clients *)

(** The metadata and the spec that this controller leaves alone. *)
Definition same_resource (r r' : AuthProxyWorkload) : Prop :=
  apw_Spec r' = apw_Spec r /\ apw_NamespacedName r' = apw_NamespacedName r
  /\ GetGeneration r' = GetGeneration r
  /\ om_DeletionTimestamp (apw_ObjectMeta r') = om_DeletionTimestamp (apw_ObjectMeta r).

Definition same_version (r r' : AuthProxyWorkload) : Prop :=
  om_ResourceVersion (apw_ObjectMeta r') = om_ResourceVersion (apw_ObjectMeta r).

Class APIServerLaws := {
  Stored : Server -> NamespacedName -> option AuthProxyWorkload;
  (** reading changes nothing that is stored *)
  serve_GetResource : forall key s, Stored (serve (GetResource key) s).2 = Stored s
    /\ match Stored s key with
       | Some r => (serve (GetResource key) s).1 = OK r
       | None => exists e, (serve (GetResource key) s).1 = Fail e
       end;
  serve_GetWorkload : forall key into s, Stored (serve (GetWorkload key into) s).2 = Stored s;
  serve_ListWorkloads : forall ns sel into s,
    Stored (serve (ListWorkloads ns sel into) s).2 = Stored s;
  serve_Now : forall s, Stored (serve Now s).2 = Stored s;
  (** an update of the metadata is stored, the status is not part of it; an
      object being deleted is gone once it has no finalizers *)
  serve_Update : forall r r0 s, Stored s (apw_NamespacedName r) = Some r0 -> same_resource r0 r ->
    same_version r0 r ->
    (serve (UpdateResource r) s).1 = None
    /\ match Stored (serve (UpdateResource r) s).2 (apw_NamespacedName r) with
       | Some r' => same_resource r r' /\ apw_Finalizers r' = apw_Finalizers r
                    /\ apw_Status r' = apw_Status r0
       | None => Time_IsZero (om_DeletionTimestamp (apw_ObjectMeta r)) = false
                 /\ apw_Finalizers r = []
       end;
  (** an update of another version than the stored one is refused *)
  serve_Update_stale : forall r r0 s, Stored s (apw_NamespacedName r) = Some r0 ->
    ~ same_version r0 r ->
    (exists e, (serve (UpdateResource r) s).1 = Some e)
    /\ Stored (serve (UpdateResource r) s).2 = Stored s;
  (** a patch of the status stores the status *)
  serve_PatchStatus : forall r orig s, Stored s (apw_NamespacedName orig) = Some orig ->
    status_only orig r ->
    (serve (PatchStatus r orig) s).1 = None
    /\ exists r', Stored (serve (PatchStatus r orig) s).2 (apw_NamespacedName orig) = Some r'
       /\ same_resource orig r' /\ apw_Finalizers r' = apw_Finalizers orig
       /\ apw_Status r' = apw_Status r
}.

End exec.

Section convergence.
Context `{Hk8s : K8sTypes} `{Hlab : LabelsPkg} `{Hschema : SchemaPkg} `{Hutil : ControllerUtil}.
Context `{Hsrv : !APIServer} `{Hlaws : !APIServerLaws}.

Definition stored (w : World) : NamespacedName -> option AuthProxyWorkload := Stored w.1.

(** Nothing stored and nothing in the cache has changed. *)
Definition unchanged (w w' : World) : Prop := stored w' = stored w /\ w'.2 = w.2.

Lemma listWorkloads_stored sel ns w : unchanged w (exec (listWorkloads sel ns) w).2.
Proof.
  unfold listWorkloads, loadByName, loadByLabelSelector, unchanged, stored.
  repeat case_match; try done; rewrite exec_bind, exec_call; cbn [answer_call].
  - pose proof (serve_GetWorkload {| nn_Namespace := ns; nn_Name := ws_Name sel |} a w.1) as E.
    destruct (serve _ _) as [r s]. cbn in E. by destruct r; repeat case_match.
  - pose proof (serve_ListWorkloads ns a a0 w.1) as E.
    destruct (serve _ _) as [r s]. cbn in E. by destruct r.
Qed.

Lemma update_statuses_stored r wls w : unchanged w (exec (update_statuses r wls) w).2.
Proof.
  revert r w. induction wls as [|wl wls IH]; intros r w; [done|]. cbn [update_statuses].
  rewrite exec_bind, exec_call. cbn [answer_call]. pose proof (serve_Now w.1) as E.
  destruct (serve Now w.1) as [t s]. cbn in E.
  destruct (IH (set_WorkloadStatus (replaceStatus (status_WorkloadStatus (apw_Status r))
    (workload_status r wl t)) r) (s, w.2)) as [E1 E2].
  split; [rewrite E1; exact E|exact E2].
Qed.

Lemma updateWorkloadStatus_stored r w : unchanged w (exec (updateWorkloadStatus r) w).2.
Proof.
  unfold updateWorkloadStatus. rewrite exec_bind.
  pose proof (listWorkloads_stored (sp_Workload (apw_Spec r)) (apw_Namespace r) w) as E.
  destruct (exec (listWorkloads _ _) w) as [[wls|e] w1]; cbn in E; [|done].
  rewrite exec_bind. pose proof (update_statuses_stored r wls w1) as E2.
  destruct (exec (update_statuses r wls) w1) as [r' w2]. unfold unchanged in *. cbn in *.
  intuition congruence.
Qed.

(** The workloads that the resource selects can be listed. *)
Definition lists_workloads (r : AuthProxyWorkload) : Prop :=
  forall w, exists wls,
    (exec (listWorkloads (sp_Workload (apw_Spec r)) (apw_Namespace r)) w).1 = OK wls.

Lemma updateWorkloadStatus_OK r w :
  lists_workloads r ->
  exists wls r', (exec (updateWorkloadStatus r) w).1 = OK (wls, r') /\ status_only r r'.
Proof.
  intros Hl. destruct (exec_runs (updateWorkloadStatus r) w) as (es & Hrun).
  apply updateWorkloadStatus_run in Hrun as (_ & es1 & es2 & listing & _ & _ & Hm).
  destruct (Hl w) as (wls & E). unfold updateWorkloadStatus in *. rewrite exec_bind in *.
  destruct (exec (listWorkloads _ _) w) as [x w1]. cbn in E. subst x.
  rewrite exec_bind in *. destruct (exec (update_statuses r wls) w1) as [r' w2]. cbn in *.
  exists wls, r'. split; [done|]. destruct listing; [|done]. by destruct Hm as (_ & ? & _).
Qed.

(** Final state: the finalizer is there and the condition UpToDate is true for
    the generation. *)
Definition settled (r : AuthProxyWorkload) : Prop :=
  finalizerName ∈ apw_Finalizers r
  /\ exists c, findCondition (status_Conditions (apw_Status r)) ConditionUpToDate = Some c
       /\ cond_Status c = ConditionTrue /\ cond_ObservedGeneration c = GetGeneration r.

Lemma reconcileResult_exec r r1 reason message w :
  stored w (apw_NamespacedName r) = Some r -> status_only r r1 ->
  let '(res, w') := exec (reconcileResult r1 r reason message) w in
  res = (Result_zero, None)
  /\ exists r', stored w' (apw_NamespacedName r) = Some r' /\ same_resource r r'
       /\ apw_Finalizers r' = apw_Finalizers r
       /\ exists c, findCondition (status_Conditions (apw_Status r')) ConditionUpToDate = Some c
            /\ cond_Status c = ConditionTrue /\ cond_ObservedGeneration c = GetGeneration r.
Proof.
  intros Hst Hs. unfold reconcileResult, patchAuthProxyWorkloadStatus. cbn zeta.
  rewrite exec_bind.
  assert (exists now w1, exec (if needs_now (status_Conditions (apw_Status r1))
            (upToDate_condition r1 reason message) then call Now else mret Time_zero) w = (now, w1)
          /\ stored w1 = stored w) as (now & w1 & -> & Hw1).
  { destruct (needs_now _ _); [|by eexists _, w]. rewrite exec_call. cbn [answer_call].
    pose proof (serve_Now w.1) as E. destruct (serve Now w.1) as [t s]. by eexists _, _. }
  set (r2 := set_Conditions _ r1).
  assert (status_only r r2) as Hs2 by by apply status_only_set.
  rewrite !exec_bind, exec_call. cbn [answer_call].
  destruct (serve_PatchStatus r2 r w1.1) as (Ep & r3 & Hst3 & Hsame & Hfin & Hstatus);
    [by rewrite <-Hst, <-Hw1|done|].
  destruct (serve (PatchStatus r2 r) w1.1) as [err s2]. cbn in Ep, Hst3. subst err.
  rewrite exec_bind, exec_call. cbn [answer_call].
  replace (apw_NamespacedName r2) with (apw_NamespacedName r) by by destruct Hs2 as [st ->].
  destruct (serve_GetResource (apw_NamespacedName r) s2) as [Hrd Hget].
  rewrite Hst3 in Hget. cbn [fst snd].
  destruct (serve (GetResource _) s2) as [x s3]. cbn in Hrd, Hget. subst x. cbn.
  split; [done|]. exists r3. unfold stored. cbn. rewrite Hrd.
  split_and!; [done..|]. rewrite Hstatus.
  destruct (set_Conditions_reports r1 now (status_Conditions (apw_Status r1)) reason message)
    as (c & Hc & ? & Hgen & _).
  exists c. split; [exact Hc|]. split; [done|]. rewrite Hgen. by destruct Hs as [st ->].
Qed.

Lemma Reconcile_live_exec r w :
  stored w (apw_NamespacedName r) = Some r ->
  Time_IsZero (om_DeletionTimestamp (apw_ObjectMeta r)) = true ->
  exists w1, stored w1 = stored w
    /\ exec (Reconcile (apw_NamespacedName r)) w = exec (doCreateUpdate r) w1.
Proof.
  intros Hst Hlive. unfold Reconcile. rewrite exec_bind, exec_call. cbn [answer_call].
  destruct (serve_GetResource (apw_NamespacedName r) w.1) as [Hrd Hget].
  unfold stored in Hst. rewrite Hst in Hget. destruct (serve (GetResource _) w.1) as [x s].
  cbn in Hrd, Hget. subst x. cbn. rewrite Hlive. cbn. eexists. split; [|done]. exact Hrd.
Qed.

(** With the finalizer, one run settles the resource. *)
Lemma Reconcile_settles r w :
  stored w (apw_NamespacedName r) = Some r ->
  Time_IsZero (om_DeletionTimestamp (apw_ObjectMeta r)) = true ->
  finalizerName ∈ apw_Finalizers r -> lists_workloads r ->
  let '(res, w') := exec (Reconcile (apw_NamespacedName r)) w in
  res = (Result_zero, None)
  /\ exists r', stored w' (apw_NamespacedName r) = Some r' /\ same_resource r r' /\ settled r'.
Proof.
  intros Hst Hlive Hfin Hlist. destruct (Reconcile_live_exec r w Hst Hlive) as (w1 & Hw1 & ->).
  unfold doCreateUpdate. cbn zeta. rewrite (proj2 (ContainsFinalizer_spec _ _) Hfin). cbn [negb].
  rewrite exec_bind. destruct (updateWorkloadStatus_OK r w1 Hlist) as (wls & r1 & E & Hs).
  pose proof (updateWorkloadStatus_stored r w1) as [Hw2 _].
  destruct (exec (updateWorkloadStatus r) w1) as [x w2]. cbn in E, Hw2. subst x.
  assert (forall reason message, let '(res, w') := exec (reconcileResult r1 r reason message) w2 in
    res = (Result_zero, None)
    /\ exists r', stored w' (apw_NamespacedName r) = Some r' /\ same_resource r r' /\ settled r')
    as Hdone; [|destruct (_ =? 0); apply Hdone].
  intros reason message. pose proof (reconcileResult_exec r r1 reason message w2) as Hr.
  destruct (exec (reconcileResult _ _ _ _) w2) as [res w'].
  destruct Hr as (-> & r' & Hst' & Hsame & Hf & c & Hc & Ht & Hg); [by rewrite Hw2, Hw1|done|].
  split; [done|]. exists r'. split_and!; [done..|]. split; [by rewrite Hf|].
  exists c. split_and!; [done..|]. rewrite Hg. symmetry. apply Hsame.
Qed.

(** Without it, one run adds the finalizer and asks to be run again. *)
Lemma Reconcile_adds_finalizer r w :
  stored w (apw_NamespacedName r) = Some r ->
  Time_IsZero (om_DeletionTimestamp (apw_ObjectMeta r)) = true ->
  finalizerName ∉ apw_Finalizers r ->
  let '(res, w') := exec (Reconcile (apw_NamespacedName r)) w in
  res = (requeueNow, None)
  /\ exists r', stored w' (apw_NamespacedName r) = Some r' /\ same_resource r r'
       /\ finalizerName ∈ apw_Finalizers r'.
Proof.
  intros Hst Hlive Hfin. destruct (Reconcile_live_exec r w Hst Hlive) as (w1 & Hw1 & ->).
  unfold doCreateUpdate. cbn zeta.
  assert (ContainsFinalizer (apw_Finalizers r) finalizerName = false) as ->.
  { apply not_true_is_false. by rewrite ContainsFinalizer_spec. }
  cbn [negb]. unfold applyFinalizer. rewrite exec_bind, exec_call. cbn [answer_call].
  set (r1 := set_Finalizers _ r).
  destruct (serve_Update r1 r w1.1) as (Eu & Hput); [by rewrite <-Hst, <-Hw1|done|done|].
  destruct (serve (UpdateResource r1) w1.1) as [err s]. cbn [fst snd] in Eu, Hput. subst err. cbn.
  destruct (Stored s (apw_NamespacedName r1)) as [r'|] eqn:Hst'.
  2:{ destruct Hput as [Hdel _]. change (om_DeletionTimestamp (apw_ObjectMeta r1))
        with (om_DeletionTimestamp (apw_ObjectMeta r)) in Hdel. congruence. }
  destruct Hput as (Hsame & Hf & _).
  split; [done|]. exists r'. split_and!; [exact Hst'|exact Hsame|].
  rewrite Hf. apply AddFinalizer_spec. by left.
Qed.

(** A run for a resource that is being deleted. *)
Lemma Reconcile_deleting_exec r w :
  stored w (apw_NamespacedName r) = Some r ->
  Time_IsZero (om_DeletionTimestamp (apw_ObjectMeta r)) = false ->
  exists w1, stored w1 = stored w /\ cache_get (apw_NamespacedName r) w1.2 = true
    /\ exec (Reconcile (apw_NamespacedName r)) w = exec (doDelete r) w1.
Proof.
  intros Hst Hdel. unfold Reconcile. rewrite exec_bind, exec_call. cbn [answer_call].
  destruct (serve_GetResource (apw_NamespacedName r) w.1) as [Hrd Hget].
  unfold stored in Hst. rewrite Hst in Hget. destruct (serve (GetResource _) w.1) as [x s].
  cbn in Hrd, Hget. subst x. cbn. rewrite Hdel. cbn.
  exists (s, cache_set (apw_NamespacedName r) true w.2). split; [exact Hrd|]. split; [|done].
  unfold cache_get, cache_set. cbn. by rewrite lookup_insert_eq.
Qed.

Lemma doDelete_exec r w :
  stored w (apw_NamespacedName r) = Some r -> finalizerName ∈ apw_Finalizers r ->
  lists_workloads r ->
  let '(res, w') := exec (doDelete r) w in
  res = (Result_zero, None) /\ w'.2 = w.2
  /\ forall r', stored w' (apw_NamespacedName r) = Some r' ->
       same_resource r r' /\ finalizerName ∉ apw_Finalizers r'.
Proof.
  intros Hst Hfin Hlist. unfold doDelete. rewrite exec_bind.
  destruct (updateWorkloadStatus_OK r w Hlist) as (wls & r1 & E & st & ->).
  pose proof (updateWorkloadStatus_stored r w) as [Hw2 Hc].
  destruct (exec (updateWorkloadStatus r) w) as [x w2]. cbn in E, Hw2, Hc. subst x.
  change (apw_Finalizers (set_Status st r)) with (apw_Finalizers r).
  rewrite (proj2 (ContainsFinalizer_spec _ _) Hfin), exec_bind, exec_call. cbn [answer_call].
  set (r2 := set_Finalizers _ _).
  destruct (serve_Update r2 r w2.1) as (Eu & Hput); [by rewrite <-Hst, <-Hw2|done|done|].
  destruct (serve (UpdateResource r2) w2.1) as [err s]. cbn [fst snd] in Eu, Hput. subst err. cbn.
  split; [done|]. split; [done|]. intros r' Hst'. unfold stored in Hst'. cbn in Hst'.
  change (apw_NamespacedName r2) with (apw_NamespacedName r) in Hput. rewrite Hst' in Hput.
  destruct Hput as (Hsame & Hf & _). split; [exact Hsame|]. rewrite Hf.
  change (apw_Finalizers r2) with (RemoveFinalizer (apw_Finalizers r) finalizerName).
  rewrite RemoveFinalizer_spec. tauto.
Qed.

(** A missing resource that the cache has as deleted is not an error. *)
Lemma Reconcile_gone key w :
  stored w key = None -> cache_get key w.2 = true ->
  (exec (Reconcile key) w).1 = (Result_zero, None).
Proof.
  intros Hst Hc. unfold Reconcile. rewrite exec_bind, exec_call. cbn [answer_call].
  destruct (serve_GetResource key w.1) as [_ Hget]. unfold stored in Hst. rewrite Hst in Hget.
  destruct Hget as (e & Hget). destruct (serve (GetResource key) w.1) as [x s].
  cbn in Hget. subst x. rewrite exec_bind, exec_call. cbn. by rewrite Hc.
Qed.

Lemma same_resource_trans r1 r2 r3 : same_resource r1 r2 -> same_resource r2 r3 -> same_resource r1 r3.
Proof.
  intros (A1 & B1 & C1 & D1) (A2 & B2 & C2 & D2). split_and!; congruence.
Qed.

Lemma lists_workloads_same r r' : same_resource r r' -> lists_workloads r -> lists_workloads r'.
Proof.
  intros (E1 & E2 & _) Hl w. injection E2 as E2 _.
  rewrite E1, E2. apply Hl.
Qed.

End convergence.

(** ** Theorems *)
Section theorems.
Context `{Hk8s : K8sTypes} `{Hlab : LabelsPkg} `{Hschema : SchemaPkg} `{Hutil : ControllerUtil}.
Context `{Hsrv : !APIServer} `{Hlaws : !APIServerLaws}.

(** C15: The controller converges: against a server without other clients, at
    most two runs settle a live resource whose workloads can be listed.  The
    first adds the finalizer, if it is missing, and asks to be run again; the
    last ends without a requeue or an error, with the finalizer in place and
    the condition UpToDate true for the generation of the resource, whose spec
    and name are unchanged. *)
Theorem Reconcile_converges r w
    (Hst : stored w (apw_NamespacedName r) = Some r)
    (Hlive : Time_IsZero (om_DeletionTimestamp (apw_ObjectMeta r)) = true)
    (Hlist : lists_workloads r) :
  let '(res1, w1) := exec (Reconcile (apw_NamespacedName r)) w in
  let '(res2, w2) := exec (Reconcile (apw_NamespacedName r)) w1 in
  (res1 = (requeueNow, None) \/ res1 = (Result_zero, None)) /\ res2 = (Result_zero, None)
  /\ exists r2, stored w2 (apw_NamespacedName r) = Some r2 /\ same_resource r r2 /\ settled r2.
Proof.
  destruct (decide (finalizerName ∈ apw_Finalizers r)) as [Hf|Hf].
  - pose proof (Reconcile_settles r w Hst Hlive Hf Hlist) as H1.
    destruct (exec _ w) as [res1 w1]. destruct H1 as (-> & r1 & Hst1 & Hsame1 & Hset1).
    assert (apw_NamespacedName r1 = apw_NamespacedName r) as Hn by apply Hsame1.
    pose proof (Reconcile_settles r1 w1) as H2. rewrite Hn in H2.
    destruct (exec _ w1) as [res2 w2].
    destruct H2 as (-> & r2 & Hst2 & Hsame2 & Hset2);
      [done| |apply Hset1|by eapply lists_workloads_same|].
    { rewrite <-Hlive. f_equal. apply Hsame1. }
    split; [by right|]. split; [done|]. exists r2. eauto using same_resource_trans.
  - pose proof (Reconcile_adds_finalizer r w Hst Hlive Hf) as H1.
    destruct (exec _ w) as [res1 w1]. destruct H1 as (-> & r1 & Hst1 & Hsame1 & Hf1).
    assert (apw_NamespacedName r1 = apw_NamespacedName r) as Hn by apply Hsame1.
    pose proof (Reconcile_settles r1 w1) as H2. rewrite Hn in H2.
    destruct (exec _ w1) as [res2 w2].
    destruct H2 as (-> & r2 & Hst2 & Hsame2 & Hset2);
      [done| |done|by eapply lists_workloads_same|].
    { rewrite <-Hlive. f_equal. apply Hsame1. }
    split; [by left|]. split; [done|]. exists r2. eauto using same_resource_trans.
Qed.

(** Deletion completes: one run for a resource being deleted whose workloads
    can be listed removes this controller's finalizer and ends without a
    requeue; what is still stored has no such finalizer and is otherwise
    unchanged; and when the server has removed the resource, the next run ends
    quietly, because the cache has the name as deleted. *)
Theorem Reconcile_deletion r w
    (Hst : stored w (apw_NamespacedName r) = Some r)
    (Hdel : Time_IsZero (om_DeletionTimestamp (apw_ObjectMeta r)) = false)
    (Hfin : finalizerName ∈ apw_Finalizers r) (Hlist : lists_workloads r) :
  let '(res, w') := exec (Reconcile (apw_NamespacedName r)) w in
  res = (Result_zero, None)
  /\ (forall r', stored w' (apw_NamespacedName r) = Some r' ->
        same_resource r r' /\ finalizerName ∉ apw_Finalizers r')
  /\ (stored w' (apw_NamespacedName r) = None ->
        (exec (Reconcile (apw_NamespacedName r)) w').1 = (Result_zero, None)).
Proof.
  destruct (Reconcile_deleting_exec r w Hst Hdel) as (w1 & Hw1 & Hc & ->).
  pose proof (doDelete_exec r w1 ltac:(by rewrite Hw1) Hfin Hlist) as Hrun.
  destruct (exec (doDelete r) w1) as [res w']. destruct Hrun as (-> & Hc' & Hst').
  split_and!; [done|exact Hst'|]. intros Hgone. apply Reconcile_gone; [done|]. by rewrite Hc'.
Qed.

End theorems.

Section cache.
Context `{Hk8s : K8sTypes} `{Hlab : LabelsPkg} `{Hschema : SchemaPkg} `{Hutil : ControllerUtil}.
Context `{Hsrv : !APIServer}.

(** What happens when the resource cannot be read depends on the cache
    alone: the error is dropped, without a requeue, exactly when the cache has
    the name as deleted (so also an error that is not a missing resource);
    otherwise it is reported and the request is requeued with a delay. *)
Theorem Reconcile_unreadable key w e s
    (Hget : serve (GetResource key) w.1 = (Fail e, s)) :
  exec (Reconcile key) w
  = ((if cache_get key w.2 then (Result_zero, None) else (requeueWithDelay, Some e)), (s, w.2)).
Proof.
  unfold Reconcile. rewrite exec_bind, exec_call. cbn [answer_call]. rewrite Hget.
  rewrite exec_bind, exec_call. cbn [answer_call fst snd]. by destruct (cache_get key w.2).
Qed.

End cache.

(** ** A server in memory, and witnesses

    It stores one resource, lists no workloads, and its clock ticks. *)
Section witnesses.
Import ConcreteInstances.

#[local] Existing Instance test_util.

Record TestServer := { ts_resource : option AuthProxyWorkload; ts_clock : Z }.

Definition not_found : error := StatusError StatusReasonNotFound "not found".

Definition ts_find (s : TestServer) (key : NamespacedName) : option AuthProxyWorkload :=
  match ts_resource s with
  | Some r => if decide (apw_NamespacedName r = key) then Some r else None
  | None => None
  end.

Definition ts_put (s : TestServer) (r : AuthProxyWorkload) : TestServer :=
  {| ts_resource := Some r; ts_clock := ts_clock s |}.

Definition conflict : error := ErrorString "the object has been modified".

#[local] Instance same_version_dec r r' : Decision (same_version r r').
Proof. unfold same_version. exact _. Defined.

(** Each write gives the resource a new version. *)
Definition next_version (r : AuthProxyWorkload) : AuthProxyWorkload := {|
  apw_GVK := apw_GVK r; apw_Spec := apw_Spec r; apw_Status := apw_Status r;
  apw_ObjectMeta := {|
    om_Name := om_Name (apw_ObjectMeta r); om_Namespace := om_Namespace (apw_ObjectMeta r);
    om_Generation := om_Generation (apw_ObjectMeta r);
    om_ResourceVersion := om_ResourceVersion (apw_ObjectMeta r) +:+ "'";
    om_Labels := om_Labels (apw_ObjectMeta r);
    om_Annotations := om_Annotations (apw_ObjectMeta r);
    om_DeletionTimestamp := om_DeletionTimestamp (apw_ObjectMeta r);
    om_Finalizers := om_Finalizers (apw_ObjectMeta r);
    om_OwnerReferences := om_OwnerReferences (apw_ObjectMeta r);
    om_rest := om_rest (apw_ObjectMeta r) |} |}.

Definition ts_serve {X} (c : Call X) (s : TestServer) : X * TestServer :=
  match c in Call X return X * TestServer with
  | GetResource key => (match ts_find s key with Some r => OK r | None => Fail not_found end, s)
  | GetWorkload _ _ => (Fail not_found, s)
  | ListWorkloads _ _ l => (OK l, s)
  | UpdateResource r =>
      match ts_find s (apw_NamespacedName r) with
      | Some r0 =>
          if negb (bool_decide (same_version r0 r)) then (Some conflict, s)
          else if negb (Time_IsZero (om_DeletionTimestamp (apw_ObjectMeta r)))
             && bool_decide (apw_Finalizers r = [])
          then (None, {| ts_resource := None; ts_clock := ts_clock s |})
          else (None, ts_put s (next_version (set_Status (apw_Status r0) r)))
      | None => (Some not_found, s)
      end
  | PatchStatus r orig =>
      match ts_find s (apw_NamespacedName orig) with
      | Some r0 => (None, ts_put s (next_version (set_Status (apw_Status r) r0)))
      | None => (Some not_found, s)
      end
  | Now => (ts_clock s, {| ts_resource := ts_resource s; ts_clock := ts_clock s + 1 |})
  | CacheGet _ => (false, s)
  | CacheSet _ _ => (tt, s)
  end.

#[local] Instance test_server : APIServer := {| Server := TestServer; serve := @ts_serve |}.

Lemma ts_find_put s r key :
  apw_NamespacedName r = key -> ts_find (ts_put s r) key = Some r.
Proof. intros E. unfold ts_find. cbn. by rewrite decide_True. Qed.

#[local] Instance test_server_laws : APIServerLaws.
Proof.
  refine {| Stored := ts_find : Server -> _ |}; try done.
  - intros key s. cbn. split; [done|]. destruct (ts_find s key); [done|by eexists].
  - intros r r0 s Hst Hsame Hv. cbn -[Time_IsZero]. cbn in Hst. rewrite Hst.
    rewrite bool_decide_eq_true_2 by done. cbn [negb]. destruct (negb _ && _) eqn:E.
    + apply andb_true_iff in E as [E1%negb_true_iff E2%bool_decide_eq_true]. by repeat split.
    + split; [done|]. cbn [snd]. rewrite ts_find_put by done. by repeat split.
  - intros r r0 s Hst Hv. cbn -[Time_IsZero]. cbn in Hst. rewrite Hst.
    rewrite bool_decide_eq_false_2 by done. cbn. split; [by eexists|done].
  - intros r orig s Hst Hs. cbn. cbn in Hst. rewrite Hst. split; [done|].
    exists (next_version (set_Status (apw_Status r) orig)). split; [by apply ts_find_put|]. by repeat split.
Defined.

Definition new_world : World := ({| ts_resource := Some new_apw; ts_clock := 1 |}, cache_zero).

Lemma Reconcile_converges_witness :
  let '(res1, w1) := exec (Reconcile (apw_NamespacedName new_apw)) new_world in
  let '(res2, w2) := exec (Reconcile (apw_NamespacedName new_apw)) w1 in
  (res1 = (requeueNow, None) \/ res1 = (Result_zero, None)) /\ res2 = (Result_zero, None)
  /\ exists r2, stored w2 (apw_NamespacedName new_apw) = Some r2
       /\ same_resource new_apw r2 /\ settled r2.
Proof.
  apply Reconcile_converges; [reflexivity|reflexivity|].
  intros w. exists []. reflexivity.
Defined.

Definition deleting_world : World :=
  ({| ts_resource := Some deleted_apw; ts_clock := 1 |}, cache_zero).

Lemma Reconcile_deletion_witness :
  let '(res, w') := exec (Reconcile orders_key) deleting_world in
  res = (Result_zero, None)
  /\ (forall r', stored w' orders_key = Some r' ->
        same_resource deleted_apw r' /\ finalizerName ∉ apw_Finalizers r')
  /\ (stored w' orders_key = None -> (exec (Reconcile orders_key) w').1 = (Result_zero, None)).
Proof.
  apply (Reconcile_deletion deleted_apw deleting_world); [reflexivity|reflexivity|by left|].
  intros w. exists []. reflexivity.
Defined.

Lemma Reconcile_unreadable_witness :
  exec (Reconcile {| nn_Namespace := "default"; nn_Name := "gone" |}) new_world
  = ((requeueWithDelay, Some not_found), new_world).
Proof. apply (Reconcile_unreadable _ new_world not_found). reflexivity. Defined.

End witnesses.
