(* ===== verification/Heap.v ===== *)
(** * Go memory

    A store of typed blocks, for the statements about aliasing: pointers,
    slices with their capacity, and what a value in memory denotes.  A reader
    ([Rd]) follows pointers and collects the blocks it visits, its footprint;
    [Local] readers depend on nothing else, so a write outside the footprint
    leaves the value alone ([Local_frame]).  [Layout] gives the types of the
    blocks. *)

From S2P Require Import Prelude.

Definition loc : Type := positive.

(** The header of a slice that is not nil; the array is a block. *)
Record Slice := { sl_array : loc; sl_off : nat; sl_len : nat; sl_cap : nat }.

Class Layout := {
  ty : Type;
  #[global] ty_eq_dec :: EqDecision ty;
  mem : ty -> Type
}.

Section heap.
Context `{Hlayout : Layout}.

(** A variable made by [new(T)] is a block of one element, the array of a
    slice is a block of its elements. *)
Record Block := { b_ty : ty; b_data : list (mem b_ty) }.

#[local] Abbreviation Heap := (gmap loc Block).

Definition block_as (t : ty) (b : Block) : option (list (mem t)) :=
  match decide (b_ty b = t) with
  | left E => Some (eq_rect (b_ty b) (fun t => list (mem t)) (b_data b) t E)
  | right _ => None
  end.

Definition peek (t : ty) (h : Heap) (l : loc) : option (list (mem t)) :=
  h !! l ≫= block_as t.

Lemma block_as_same t xs : block_as t {| b_ty := t; b_data := xs |} = Some xs.
Proof.
  unfold block_as. cbn. destruct (decide (t = t)) as [E|]; [|done].
  by rewrite (proof_irrel E eq_refl).
Qed.

Lemma block_as_Some t b xs : block_as t b = Some xs -> b = {| b_ty := t; b_data := xs |}.
Proof.
  unfold block_as. destruct b as [t' ys]. cbn.
  destruct (decide (t' = t)) as [->|]; [|done]. by intros [= <-].
Qed.

Lemma peek_Some t h l xs : peek t h l = Some xs <-> h !! l = Some {| b_ty := t; b_data := xs |}.
Proof.
  unfold peek. split.
  - intros (b & Hb & E%block_as_Some)%bind_Some. by subst.
  - intros E. by rewrite E; cbn; rewrite block_as_same.
Qed.

Lemma peek_insert_eq t h l xs : peek t (<[l := {| b_ty := t; b_data := xs |}]> h) l = Some xs.
Proof. apply peek_Some, lookup_insert_eq. Qed.

Lemma peek_insert_ne t h l l' b : l <> l' -> peek t (<[l' := b]> h) l = peek t h l.
Proof. intros Hne. unfold peek. by rewrite lookup_insert_ne. Qed.

Lemma peek_insert_ne_rev t h l l' b xs ys :
  peek t h l = Some xs -> peek t (<[l' := b]> h) l = Some ys -> l <> l' -> ys = xs.
Proof. intros E1 E2 Hne. rewrite peek_insert_ne in E2 by done. congruence. Qed.

(** ** Operations *)
Definition alloc (t : ty) (xs : list (mem t)) : Go Heap loc := fun h =>
  let l := fresh (dom h) in Ret (l, <[l := {| b_ty := t; b_data := xs |}]> h).

Definition load_block (t : ty) (l : loc) : Go Heap (list (mem t)) := fun h =>
  match peek t h l with
  | Some xs => Ret (xs, h)
  | None => Panic "invalid memory address"
  end.

(** [*p], of a pointer made by [new(T)] *)
Definition load (t : ty) (p : option loc) : Go Heap (mem t) :=
  match p with
  | None => lift_outcome (Panic "nil pointer dereference")
  | Some l => xs ← load_block t l;
      match xs with
      | [x] => mret x
      | _ => lift_outcome (Panic "invalid memory address")
      end
  end.

(** [*p = x] *)
Definition store (t : ty) (p : option loc) (x : mem t) : Go Heap unit :=
  match p with
  | None => lift_outcome (Panic "nil pointer dereference")
  | Some l => _ ← load_block t l; modify (<[l := {| b_ty := t; b_data := [x] |}]>)
  end.

Definition slice_len (s : option Slice) : nat :=
  match s with None => 0 | Some s => sl_len s end.

(** [s[i]] *)
Definition slice_get (t : ty) (s : option Slice) (i : nat) : Go Heap (mem t) :=
  match s with
  | None => lift_outcome (Panic "index out of range")
  | Some s =>
      if decide (i < sl_len s) then
        xs ← load_block t (sl_array s);
        match xs !! (sl_off s + i) with
        | Some x => mret x
        | None => lift_outcome (Panic "index out of range")
        end
      else lift_outcome (Panic "index out of range")
  end.

(** [s[i] = x] *)
Definition slice_set (t : ty) (s : option Slice) (i : nat) (x : mem t) : Go Heap unit :=
  match s with
  | None => lift_outcome (Panic "index out of range")
  | Some s =>
      if decide (i < sl_len s) then
        xs ← load_block t (sl_array s);
        modify (<[sl_array s := {| b_ty := t; b_data := <[sl_off s + i := x]> xs |}]>)
      else lift_outcome (Panic "index out of range")
  end.

(** ** Readers *)
Definition Rd (A : Type) : Type := Heap -> option (A * gset loc).

#[export] Instance Rd_ret : MRet Rd := fun A a h => Some (a, ∅).
#[export] Instance Rd_bind : MBind Rd := fun A B f r h =>
  match r h with
  | Some (a, fp) => match f a h with Some (b, fp') => Some (b, fp ∪ fp') | None => None end
  | None => None
  end.

Definition rd_fail {A} : Rd A := fun h => None.

Definition rd_block (t : ty) (l : loc) : Rd (list (mem t)) := fun h =>
  match peek t h l with Some xs => Some (xs, {[ l ]}) | None => None end.

(** [r] reads allocated blocks only, and depends on nothing else. *)
Class Local {A} (r : Rd A) : Prop := local_reads : forall h v fp, r h = Some (v, fp) ->
  fp ⊆ dom h /\ forall h', (forall l, l ∈ fp -> h' !! l = h !! l) -> r h' = Some (v, fp).

Lemma Local_frame {A} (r : Rd A) `{!Local r} h h' v fp :
  r h = Some (v, fp) -> (forall l, l ∈ fp -> h' !! l = h !! l) -> r h' = Some (v, fp).
Proof. intros Hr. by apply local_reads. Qed.

Lemma Local_dom {A} (r : Rd A) `{!Local r} h v fp : r h = Some (v, fp) -> fp ⊆ dom h.
Proof. intros Hr. by apply local_reads in Hr as [? _]. Qed.

Lemma Local_mono {A} (r : Rd A) `{!Local r} h h' v fp :
  r h = Some (v, fp) -> h ⊆ h' -> r h' = Some (v, fp).
Proof.
  intros Hr Hsub. eapply Local_frame; [done..|]. intros l Hl.
  apply Local_dom in Hr; [|done]. apply Hr, elem_of_dom in Hl as [b Hb].
  rewrite Hb. by eapply lookup_weaken.
Qed.

(** A write outside the footprint. *)
Lemma Local_insert {A} (r : Rd A) `{!Local r} h l b v fp :
  r h = Some (v, fp) -> l ∉ fp -> r (<[l := b]> h) = Some (v, fp).
Proof.
  intros Hr Hl. eapply Local_frame; [done..|]. intros l' Hl'.
  apply lookup_insert_ne. congruence.
Qed.

Lemma Rd_bind_Some {A B} (r : Rd A) (f : A -> Rd B) h b fp :
  (a ← r; f a) h = Some (b, fp) <->
  exists a fp1 fp2, r h = Some (a, fp1) /\ f a h = Some (b, fp2) /\ fp = fp1 ∪ fp2.
Proof.
  unfold mbind, Rd_bind. split.
  - destruct (r h) as [[a fp1]|]; [|done]. destruct (f a h) as [[b' fp2]|] eqn:E; [|done].
    intros [= <- <-]. by exists a, fp1, fp2.
  - intros (a & fp1 & fp2 & -> & -> & ->). done.
Qed.

#[export] Instance Local_ret {A} (a : A) : Local (mret a).
Proof. intros h v fp [= <- <-]. split; [set_solver|done]. Qed.

#[export] Instance Local_fail {A} : Local (@rd_fail A).
Proof. by intros h v fp. Qed.

Lemma rd_block_Some t l h xs fp :
  rd_block t l h = Some (xs, fp) <-> peek t h l = Some xs /\ fp = {[ l ]}.
Proof.
  unfold rd_block. destruct (peek t h l) as [ys|]; [|by split; [|intros []]].
  split; [by intros [= -> <-]|by intros [[= ->] ->]].
Qed.

#[export] Instance Local_block t l : Local (rd_block t l).
Proof.
  intros h xs fp [E ->]%rd_block_Some. rewrite peek_Some in E. split.
  - apply (elem_of_dom_2 h) in E. set_solver.
  - intros h' Hh. apply rd_block_Some. split; [|done]. apply peek_Some.
    by rewrite Hh by set_solver.
Qed.

#[export] Instance Local_bind {A B} (r : Rd A) (f : A -> Rd B) :
  Local r -> (forall a, Local (f a)) -> Local (a ← r; f a).
Proof.
  intros Hr Hf h v fp (a & fp1 & fp2 & E1 & E2 & ->)%Rd_bind_Some.
  apply local_reads in E1 as [D1 F1]. apply local_reads in E2 as [D2 F2].
  split; [set_solver|]. intros h' Hh. apply Rd_bind_Some. exists a, fp1, fp2.
  split_and!; [apply F1|apply F2|done]; intros l Hl; apply Hh; set_solver.
Qed.

#[export] Instance Local_mapM {A B} (f : A -> Rd B) l :
  (forall a, Local (f a)) -> Local (mapM f l).
Proof. intros Hf. induction l as [|a l IH]; cbn; apply _. Qed.

(** ** What a value in memory denotes *)
Class Denotes (t : ty) (V : Type) := {
  denote : mem t -> Rd V;
  #[global] denote_local :: forall m, Local (denote m)
}.

#[global] Arguments denote t {V _} _.

(** A pointer denotes what it points to, nil denotes nothing. *)
Definition rd_ptr {V} (t : ty) (den : mem t -> Rd V) (p : option loc) : Rd (option V) :=
  match p with
  | None => mret None
  | Some l => xs ← rd_block t l;
      match xs with
      | [m] => v ← den m; mret (Some v)
      | _ => rd_fail
      end
  end.

(** The elements of a slice; the array is large enough for the capacity. *)
Definition slice_elems {A} (s : Slice) (xs : list A) : option (list A) :=
  if decide (sl_len s <= sl_cap s /\ sl_off s + sl_cap s <= length xs)%nat
  then Some (take (sl_len s) (drop (sl_off s) xs)) else None.

Definition rd_slice {V} (t : ty) (den : mem t -> Rd V) (s : option Slice)
    : Rd (option (list V)) :=
  match s with
  | None => mret None
  | Some s => xs ← rd_block t (sl_array s);
      match slice_elems s xs with
      | Some ys => vs ← mapM den ys; mret (Some vs)
      | None => rd_fail
      end
  end.

(** ** Copies *)

(** [f] copies: its result denotes the same value in memory that was not
    allocated before, and nothing that existed is written. *)
Definition copies {M V} (den : M -> Rd V) (f : M -> Go Heap M) : Prop :=
  forall m h v fp, den m h = Some (v, fp) ->
  exists m' h' fp', f m h = Ret (m', h') /\ h ⊆ h'
    /\ den m' h' = Some (v, fp') /\ fp' ## dom h.

(** A type with the method [DeepCopyInto(out *T)]; the result is what it writes
    to [*out]. *)
Class DeepCopier (t : ty) := DeepCopyInto : mem t -> Go Heap (mem t).
#[global] Arguments DeepCopyInto t {_} _.

Class DeepCopyLaw (t : ty) {V} `{!Denotes t V} `{!DeepCopier t} : Prop :=
  DeepCopyInto_copies : copies (denote t) (DeepCopyInto t).

(** [*out = new(T); ( *in ).DeepCopyInto( *out )]; also
    [out := new(T); in.DeepCopyInto(out); return out]. *)
Definition copy_ptr (t : ty) (f : mem t -> Go Heap (mem t)) (p : option loc)
    : Go Heap (option loc) :=
  match p with
  | None => mret None
  | Some _ =>
      m ← load t p; m' ← f m;
      l' ← alloc t [m']; mret (Some l')
  end.

(** [*out = make([]T, len( *in )); for i := range *in { ... }] *)
Definition copy_slice (t : ty) (f : mem t -> Go Heap (mem t)) (s : option Slice)
    : Go Heap (option Slice) :=
  match s with
  | None => mret None
  | Some s =>
      xs ← load_block t (sl_array s);
      match slice_elems s xs with
      | None => lift_outcome (Panic "index out of range")
      | Some ys =>
          ys' ← mapM f ys;
          a ← alloc t ys';
          mret (Some {| sl_array := a; sl_off := 0; sl_len := sl_len s; sl_cap := sl_len s |})
      end
  end.

Lemma copies_flat {M V} (g : M -> V) : copies (fun m => mret (g m)) mret.
Proof. intros m h v fp [= <- <-]. exists m, h, ∅. split_and!; [done..|set_solver]. Qed.

Lemma alloc_fresh (h : Heap) (b : Block) : h ⊆ <[fresh (dom h) := b]> h.
Proof. apply insert_subseteq, not_elem_of_dom, is_fresh. Qed.

(** The footprint of what was copied first stays fresh for what follows. *)
Lemma fresh_mono (h h' : Heap) (fp : gset loc) : h ⊆ h' -> fp ## dom h' -> fp ## dom h.
Proof. intros Hsub%subseteq_dom. set_solver. Qed.

Lemma fp_fresh_loc {A} (r : Rd A) `{!Local r} (h : Heap) v fp :
  r h = Some (v, fp) -> fresh (dom h) ∉ fp.
Proof. intros Hd%Local_dom; [|done]. pose proof (is_fresh (dom h)). set_solver. Qed.

Section copies.
Context {t : ty} {V : Type} (den : mem t -> Rd V).

Lemma rd_ptr_Some l h v fp :
  rd_ptr t den (Some l) h = Some (v, fp) <->
  exists m w fp', peek t h l = Some [m] /\ den m h = Some (w, fp') /\ v = Some w
    /\ fp = {[ l ]} ∪ fp'.
Proof.
  unfold rd_ptr. rewrite Rd_bind_Some. split.
  - intros (xs & fp1 & fp2 & [E ->]%rd_block_Some & E2 & ->). destruct xs as [|m []]; [done| |done].
    apply Rd_bind_Some in E2 as (w & fp3 & fp4 & E3 & [= <- <-] & ->).
    exists m, w, fp3. split_and!; [done..|set_solver].
  - intros (m & w & fp' & E & Ed & -> & ->). exists [m], {[ l ]}, (fp' ∪ ∅).
    split_and!; [by apply rd_block_Some| |set_solver].
    apply Rd_bind_Some. by exists w, fp', ∅.
Qed.

Lemma load_Some l m h : peek t h l = Some [m] -> load t (Some l) h = Ret (m, h).
Proof. intros E. unfold load, mbind, Go_bind, load_block. by rewrite E. Qed.

Lemma Rd_mapM_length (xs : list (mem t)) h vs fp :
  mapM den xs h = Some (vs, fp) -> length vs = length xs.
Proof.
  revert vs fp. induction xs as [|x xs IH]; intros vs fp; cbn [mapM].
  - by intros [= <- <-].
  - intros (v & fp1 & fp2 & E1 & E2 & ->)%Rd_bind_Some.
    apply Rd_bind_Some in E2 as (vs' & fp3 & fp4 & E3 & [= <- <-] & ->). cbn. f_equal. eauto.
Qed.

Lemma rd_slice_Some s h v fp :
  rd_slice t den (Some s) h = Some (v, fp) <->
  exists xs ys vs fp', peek t h (sl_array s) = Some xs /\ slice_elems s xs = Some ys
    /\ mapM den ys h = Some (vs, fp') /\ v = Some vs /\ fp = {[ sl_array s ]} ∪ fp'.
Proof.
  unfold rd_slice. rewrite Rd_bind_Some. split.
  - intros (xs & fp1 & fp2 & [E ->]%rd_block_Some & E2 & ->).
    destruct (slice_elems s xs) as [ys|] eqn:Es; [|done].
    apply Rd_bind_Some in E2 as (vs & fp3 & fp4 & E3 & [= <- <-] & ->).
    exists xs, ys, vs, fp3. split_and!; [done..|set_solver].
  - intros (xs & ys & vs & fp' & E & Es & Ed & -> & ->). exists xs, {[ sl_array s ]}, (fp' ∪ ∅).
    split_and!; [by apply rd_block_Some| |set_solver]. rewrite Es.
    apply Rd_bind_Some. by exists vs, fp', ∅.
Qed.

Lemma slice_elems_length {A} s (xs ys : list A) :
  slice_elems s xs = Some ys -> length ys = sl_len s.
Proof.
  unfold slice_elems. destruct (decide _) as [[? ?]|]; [|done]. intros [= <-].
  rewrite length_take, length_drop. lia.
Qed.

Lemma slice_elems_all {A} (a : loc) (xs : list A) n :
  length xs = n -> slice_elems {| sl_array := a; sl_off := 0; sl_len := n; sl_cap := n |} xs = Some xs.
Proof.
  intros <-. unfold slice_elems. cbn. rewrite decide_True by lia.
  by rewrite drop_0, take_ge by lia.
Qed.

Context `{!forall m, Local (den m)} (f : mem t -> Go Heap (mem t)) (Hf : copies den f).

Lemma copies_ptr : copies (rd_ptr t den) (copy_ptr t f).
Proof.
  intros [l|] h v fp; cbn [copy_ptr].
  - intros (m & w & fp1 & E & Ed & -> & ->)%rd_ptr_Some.
    destruct (Hf _ _ _ _ Ed) as (m' & h1 & fp' & Ef & Hsub & Ed' & Hfr).
    set (l' := fresh (dom h1)). set (h2 := <[l' := {| b_ty := t; b_data := [m'] |}]> h1).
    exists (Some l'), h2, ({[ l' ]} ∪ fp'). split_and!.
    + unfold mbind, Go_bind. by rewrite (load_Some _ _ _ E), Ef.
    + etransitivity; [exact Hsub|apply alloc_fresh].
    + apply rd_ptr_Some. exists m', w, fp'. split_and!; [apply peek_insert_eq| |done|done].
      apply Local_insert; [done..|]. by eapply fp_fresh_loc.
    + pose proof (is_fresh (dom h1)). apply subseteq_dom in Hsub. set_solver.
  - intros [= <- <-]. exists None, h, ∅. split_and!; [done..|set_solver].
Qed.

Lemma copies_mapM : copies (mapM den) (mapM f).
Proof.
  intros xs. induction xs as [|x xs IH]; intros h vs fp.
  - intros [= <- <-]. exists [], h, ∅. split_and!; [done..|set_solver].
  - cbn [mapM]. intros (v & fp1 & fp2 & E1 & E2 & ->)%Rd_bind_Some.
    apply Rd_bind_Some in E2 as (vs' & fp3 & fp4 & E3 & [= <- <-] & ->).
    destruct (Hf _ _ _ _ E1) as (x' & h1 & fp1' & Ef & Hsub & Ed & Hfr).
    destruct (IH h1 vs' fp3) as (xs' & h2 & fp3' & Ef2 & Hsub2 & Ed2 & Hfr2);
      [by eapply Local_mono; [apply _|..]|].
    exists (x' :: xs'), h2, (fp1' ∪ (fp3' ∪ ∅)). split_and!.
    + cbn. unfold mbind at 1, Go_bind at 1. rewrite Ef.
      unfold mbind at 1, Go_bind at 1. by rewrite Ef2.
    + by etransitivity.
    + apply Rd_bind_Some. exists v, fp1', (fp3' ∪ ∅).
      split_and!; [by eapply Local_mono; [apply _|..]| |done].
      apply Rd_bind_Some. by exists vs', fp3', ∅.
    + apply (fresh_mono h) in Hfr2; [|done]. set_solver.
Qed.

Lemma copies_slice : copies (rd_slice t den) (copy_slice t f).
Proof.
  intros [s|] h v fp; cbn [copy_slice].
  - intros (xs & ys & vs & fp1 & E & Es & Ed & -> & ->)%rd_slice_Some.
    destruct (copies_mapM _ _ _ _ Ed) as (ys' & h1 & fp' & Ef & Hsub & Ed' & Hfr).
    set (a := fresh (dom h1)). set (h2 := <[a := {| b_ty := t; b_data := ys' |}]> h1).
    exists (Some {| sl_array := a; sl_off := 0; sl_len := sl_len s; sl_cap := sl_len s |}), h2,
      ({[ a ]} ∪ fp'). split_and!.
    + unfold mbind at 1, Go_bind at 1, load_block. rewrite E, Es.
      unfold mbind at 1, Go_bind at 1. by rewrite Ef.
    + etransitivity; [exact Hsub|apply alloc_fresh].
    + apply rd_slice_Some. exists ys', ys', vs, fp'. cbn.
      split_and!; [apply peek_insert_eq| | |done|done].
      * apply slice_elems_all. rewrite <-(Rd_mapM_length _ _ _ _ Ed'), (Rd_mapM_length _ _ _ _ Ed).
        by eapply slice_elems_length.
      * apply Local_insert; [apply _|done|]. by eapply (fp_fresh_loc (mapM den ys')).
    + pose proof (is_fresh (dom h1)). apply subseteq_dom in Hsub. set_solver.
  - intros [= <- <-]. exists None, h, ∅. split_and!; [done..|set_solver].
Qed.

End copies.

End heap.

Abbreviation Heap := (gmap loc Block).
