(* ===== verification/Slices.v ===== *)
(** * Slices written in place

    Reading, writing and appending to slices in the memory of [Heap], with
    what they do to the values the slices denote.  [owned_step fp h h' fp']
    says that code that owns the blocks [fp] made [h'] of [h] and then owns
    [fp']: it wrote only to [fp], and [fp'] has only blocks of [fp] and new
    ones.  What others read elsewhere is unchanged ([owned_step_frame]). *)

From S2P Require Import Prelude Heap.

(** The Go runtime chooses the capacity when [append] needs a new array. *)
Class GoRuntime := {
  grow : nat -> nat;
  grow_gt : forall n, n < grow n
}.

Section slices.
Context `{Hlayout : Layout}.

(** ** Ownership *)
Record owned_step (fp : gset loc) (h h' : Heap) (fp' : gset loc) : Prop := {
  owned_dom : dom h ⊆ dom h';
  owned_frame : forall l, l ∈ dom h -> l ∉ fp -> h' !! l = h !! l;
  owned_fp : forall l, l ∈ fp' -> l ∈ dom h -> l ∈ fp
}.

Lemma owned_step_refl fp h : owned_step fp h h fp.
Proof. by split. Qed.

Lemma owned_step_trans fp1 h1 h2 fp2 h3 fp3 :
  owned_step fp1 h1 h2 fp2 -> owned_step fp2 h2 h3 fp3 -> owned_step fp1 h1 h3 fp3.
Proof.
  intros [D1 F1 P1] [D2 F2 P2]. split; [set_solver| |].
  - intros l Hl Hn. rewrite F2, F1; [done..|set_solver|]. intros Hl2. apply Hn. eauto.
  - intros l Hl Hd. apply P1; [|done]. apply P2; [done|set_solver].
Qed.

Lemma owned_step_weaken fp1 fp1' h h' fp2 fp2' :
  owned_step fp1 h h' fp2 -> fp1 ⊆ fp1' -> fp2' ⊆ fp2 -> owned_step fp1' h h' fp2'.
Proof. intros [D F P] H1 H2. split; [done| |]; set_solver. Qed.

Lemma owned_step_keep fp h h' fp' fp0 :
  owned_step fp h h' fp' -> fp0 ⊆ fp -> owned_step fp h h' (fp' ∪ fp0).
Proof. intros [D F P] H0. split; [done..|set_solver]. Qed.

Lemma owned_step_seq fpa h1 h2 fpb fpx h3 fpy :
  owned_step fpa h1 h2 fpb -> owned_step fpx h2 h3 fpy -> fpx ⊆ fpb ->
  owned_step fpa h1 h3 (fpy ∪ fpb).
Proof.
  intros St1 St2 Hsub. eapply owned_step_trans; [exact St1|].
  apply owned_step_keep; [|done]. by eapply owned_step_weaken.
Qed.

(** Code that owns less, run with more. *)
Lemma owned_step_add fp0 fp h h' fp' :
  fp0 ⊆ dom h -> owned_step fp h h' fp' -> owned_step (fp0 ∪ fp) h h' (fp0 ∪ fp').
Proof. intros Hd [D F P]. split; [done| |]; set_solver. Qed.

Lemma owned_step_frame {A} (r : Rd A) `{!Local r} fp h h' fp' v fpo :
  owned_step fp h h' fp' -> r h = Some (v, fpo) -> fpo ## fp ->
  r h' = Some (v, fpo) /\ fpo ## fp'.
Proof.
  intros [D F P] Hr Hdisj. pose proof (Local_dom _ _ _ _ Hr) as Hd. split.
  - eapply Local_frame; [done..|]. intros l Hl. apply F; set_solver.
  - set_solver.
Qed.

Lemma owned_step_peek t l fp h h' fp' xs :
  owned_step fp h h' fp' -> peek t h l = Some xs -> l ∉ fp -> peek t h' l = Some xs.
Proof.
  intros [D F P] E%peek_Some Hl. apply peek_Some. rewrite F; [done| |done].
  by eapply elem_of_dom_2.
Qed.

Lemma owned_alloc (h : Heap) b : owned_step ∅ h (<[fresh (dom h) := b]> h) {[ fresh (dom h) ]}.
Proof.
  pose proof (is_fresh (dom h)). split; [set_solver| |set_solver].
  intros l Hl _. apply lookup_insert_ne. set_solver.
Qed.

Lemma owned_write (h : Heap) l b fp :
  l ∈ fp -> l ∈ dom h -> owned_step fp h (<[l := b]> h) fp.
Proof.
  intros Hl Hd. split; [set_solver| |done]. intros l' _ Hl'. apply lookup_insert_ne. set_solver.
Qed.

(** ** Which types a reader visits *)
Definition visits {A} (P : ty -> Prop) (r : Rd A) : Prop := forall h v fp,
  r h = Some (v, fp) -> forall l, l ∈ fp -> exists b, h !! l = Some b /\ P (b_ty b).

Lemma visits_ret {A} P (a : A) : visits P (mret a).
Proof. intros h v fp [= <- <-]. set_solver. Qed.

Lemma visits_block (P : ty -> Prop) t l : P t -> visits P (rd_block t l).
Proof.
  intros HP h xs fp [E ->]%rd_block_Some l' ->%elem_of_singleton.
  apply peek_Some in E. eauto.
Qed.

Lemma visits_bind {A B} P (r : Rd A) (f : A -> Rd B) :
  visits P r -> (forall a, visits P (f a)) -> visits P (a ← r; f a).
Proof.
  intros Hr Hf h v fp (a & fp1 & fp2 & E1 & E2 & ->)%Rd_bind_Some l [Hl|Hl]%elem_of_union;
    [by eapply Hr|by eapply Hf].
Qed.

Lemma visits_mapM {A B} P (f : A -> Rd B) l : (forall a, visits P (f a)) -> visits P (mapM f l).
Proof.
  intros Hf. induction l as [|a l IH]; cbn [mapM]; [apply visits_ret|].
  apply visits_bind; [done|]. intros b. apply visits_bind; [done|]. intros bs. apply visits_ret.
Qed.

Lemma visits_ptr {V} (P : ty -> Prop) t (den : mem t -> Rd V) p :
  P t -> (forall m, visits P (den m)) -> visits P (rd_ptr t den p).
Proof.
  intros HP Hd. destruct p as [l|]; cbn [rd_ptr]; [|apply visits_ret].
  apply visits_bind; [by apply visits_block|].
  intros [|m []]; [by intros h v fp| |by intros h v fp].
  apply visits_bind; [done|]. intros v. apply visits_ret.
Qed.

Lemma visits_slice {V} (P : ty -> Prop) t (den : mem t -> Rd V) s :
  P t -> (forall m, visits P (den m)) -> visits P (rd_slice t den s).
Proof.
  intros HP Hd. destruct s as [s|]; cbn [rd_slice]; [|apply visits_ret].
  apply visits_bind; [by apply visits_block|].
  intros xs. destruct (slice_elems s xs); [|by intros h v fp].
  apply visits_bind; [by apply visits_mapM|]. intros vs. apply visits_ret.
Qed.

(** A write to a block of a type that the reader does not visit. *)
Lemma visits_write {A} (r : Rd A) `{!Local r} t h l xs ys v fp :
  visits (fun t' => t' <> t) r -> peek t h l = Some xs -> r h = Some (v, fp) ->
  (l ∉ fp) /\ r (<[l := {| b_ty := t; b_data := ys |}]> h) = Some (v, fp).
Proof.
  intros Hv E%peek_Some Hr.
  assert (l ∉ fp) as Hl.
  { intros Hl. destruct (Hv _ _ _ Hr l Hl) as (b & Eb & Hb). rewrite E in Eb.
    by injection Eb as <-. }
  split; [done|]. by apply Local_insert.
Qed.

(** ** What the elements denote *)
Section denoted.
Context {t : ty} {V : Type} (den : mem t -> Rd V).

Lemma Rd_mapM_lookup xs h vs fp i x :
  mapM den xs h = Some (vs, fp) -> xs !! i = Some x ->
  exists v fp', vs !! i = Some v /\ den x h = Some (v, fp') /\ fp' ⊆ fp.
Proof.
  revert vs fp i. induction xs as [|y xs IH]; intros vs fp i; [done|]. cbn [mapM].
  intros (v & fp1 & fp2 & E1 & E2 & ->)%Rd_bind_Some.
  apply Rd_bind_Some in E2 as (vs' & fp3 & fp4 & E3 & [= <- <-] & ->).
  destruct i as [|i]; cbn; intros Hi.
  - injection Hi as ->. exists v, fp1. split_and!; [done..|set_solver].
  - destruct (IH _ _ _ E3 Hi) as (w & fp' & ? & ? & ?). exists w, fp'. split_and!; [done..|set_solver].
Qed.

Lemma Rd_mapM_insert xs h vs fp i x v fpx :
  mapM den xs h = Some (vs, fp) -> den x h = Some (v, fpx) ->
  exists fp', mapM den (<[i := x]> xs) h = Some (<[i := v]> vs, fp') /\ fp' ⊆ fp ∪ fpx.
Proof.
  intros E Hx. revert vs fp i E. induction xs as [|y xs IH]; intros vs fp i; cbn [mapM].
  - intros [= <- <-]. exists ∅. split; [done|set_solver].
  - intros (w & fp1 & fp2 & E1 & E2 & ->)%Rd_bind_Some.
    apply Rd_bind_Some in E2 as (vs' & fp3 & fp4 & E3 & [= <- <-] & ->).
    destruct i as [|i]; cbn [insert list_insert mapM].
    + exists (fpx ∪ (fp3 ∪ ∅)). split; [|set_solver].
      apply Rd_bind_Some. exists v, fpx, (fp3 ∪ ∅). split_and!; [done| |done].
      apply Rd_bind_Some. by exists vs', fp3, ∅.
    + destruct (IH _ _ i E3) as (fp' & E' & Hsub). exists (fp1 ∪ (fp' ∪ ∅)). split; [|set_solver].
      apply Rd_bind_Some. exists w, fp1, (fp' ∪ ∅). split_and!; [done| |done].
      apply Rd_bind_Some. by exists (<[i := v]> vs'), fp', ∅.
Qed.

Lemma Rd_mapM_app xs h vs fp x v fpx :
  mapM den xs h = Some (vs, fp) -> den x h = Some (v, fpx) ->
  mapM den (xs ++ [x]) h = Some (vs ++ [v], fp ∪ fpx).
Proof.
  intros E Hx. revert vs fp E. induction xs as [|y xs IH]; intros vs fp; cbn [mapM app].
  - intros [= <- <-]. apply Rd_bind_Some. exists v, fpx, ∅. split_and!; [done|done|set_solver].
  - intros (w & fp1 & fp2 & E1 & E2 & ->)%Rd_bind_Some.
    apply Rd_bind_Some in E2 as (vs' & fp3 & fp4 & E3 & [= <- <-] & ->).
    apply Rd_bind_Some. exists w, fp1, (fp3 ∪ fpx). split_and!; [done| |set_solver].
    apply Rd_bind_Some. exists (vs' ++ [v]), (fp3 ∪ fpx), ∅.
    split_and!; [by apply IH|done|set_solver].
Qed.

(** ** Operations on slices *)
Lemma slice_elems_Some {A} s (xs ys : list A) :
  slice_elems s xs = Some ys <->
  (sl_len s <= sl_cap s /\ sl_off s + sl_cap s <= length xs)%nat
  /\ ys = take (sl_len s) (drop (sl_off s) xs).
Proof.
  unfold slice_elems. destruct (decide _) as [Hd|Hd]; [|by split; [|intros [? _]]].
  split; [by intros [= <-]|by intros [_ ->]].
Qed.

Lemma slice_elems_lookup {A} s (xs ys : list A) i :
  slice_elems s xs = Some ys -> (i < sl_len s)%nat -> ys !! i = xs !! (sl_off s + i).
Proof.
  intros [_ ->]%slice_elems_Some Hi. by rewrite lookup_take_lt, lookup_drop.
Qed.

Lemma slice_elems_insert {A} s (xs ys : list A) i x :
  slice_elems s xs = Some ys -> (i < sl_len s)%nat ->
  slice_elems s (<[sl_off s + i := x]> xs) = Some (<[i := x]> ys).
Proof.
  intros [[H1 H2] ->]%slice_elems_Some Hi. apply slice_elems_Some.
  rewrite length_insert. split; [done|].
  rewrite drop_insert_ge, take_insert_lt by lia. do 2 f_equal. lia.
Qed.

Lemma slice_get_spec s h vs fp i v :
  rd_slice t den (Some s) h = Some (Some vs, fp) -> vs !! i = Some v ->
  exists x fpx, slice_get t (Some s) i h = Ret (x, h) /\ den x h = Some (v, fpx) /\ fpx ⊆ fp.
Proof.
  intros (xs & ys & vs' & fp' & E & Es & Ed & [= <-] & ->)%rd_slice_Some Hi.
  assert (i < sl_len s)%nat as Hlen.
  { rewrite <-(slice_elems_length _ _ _ Es), <-(Rd_mapM_length _ _ _ _ _ Ed).
    by eapply lookup_lt_Some. }
  destruct (ys !! i) as [x|] eqn:Hx; [|apply lookup_ge_None in Hx;
    rewrite (slice_elems_length _ _ _ Es) in Hx; lia].
  destruct (Rd_mapM_lookup _ _ _ _ _ _ Ed Hx) as (v' & fpx & Hv & Hd & Hsub).
  exists x, fpx. split_and!; [|congruence|set_solver].
  unfold slice_get. rewrite decide_True by done. unfold mbind, Go_bind, load_block. rewrite E.
  by rewrite <-(slice_elems_lookup _ _ _ _ Es Hlen), Hx.
Qed.

Context `{!forall m, Local (den m)} (Hvisits : forall m, visits (fun t' => t' <> t) (den m)).

Lemma slice_set_spec s h vs fp i x v fpx :
  rd_slice t den (Some s) h = Some (Some vs, fp) -> (i < length vs)%nat ->
  den x h = Some (v, fpx) ->
  exists h' fp', slice_set t (Some s) i x h = Ret (tt, h')
    /\ rd_slice t den (Some s) h' = Some (Some (<[i := v]> vs), fp')
    /\ owned_step (fp ∪ fpx) h h' fp'
    /\ (forall A (r : Rd A), Local r -> visits (fun t' => t' <> t) r ->
         forall w fpw, r h = Some (w, fpw) -> r h' = Some (w, fpw)).
Proof.
  intros (xs & ys & vs' & fp1 & E & Es & Ed & [= <-] & ->)%rd_slice_Some Hi Hx.
  rewrite (Rd_mapM_length _ _ _ _ _ Ed), (slice_elems_length _ _ _ Es) in Hi.
  destruct (Rd_mapM_insert _ _ _ _ i _ _ _ Ed Hx) as (fp2 & Ed2 & Hsub).
  set (xs' := <[sl_off s + i := x]> xs).
  assert (visits (fun t' => t' <> t) (mapM den (<[i := x]> ys))) as Hv by by apply visits_mapM.
  destruct (visits_write _ _ _ _ _ xs' _ _ Hv E Ed2) as [Hn Ed3].
  eexists _, ({[ sl_array s ]} ∪ fp2). split_and!.
  - unfold slice_set. rewrite decide_True by done. unfold mbind, Go_bind, load_block. by rewrite E.
  - apply rd_slice_Some. exists xs', (<[i := x]> ys), (<[i := v]> vs), fp2.
    split_and!; [apply peek_insert_eq|by apply slice_elems_insert|done..].
  - apply peek_Some, (elem_of_dom_2 h) in E.
    eapply owned_step_weaken; [apply (owned_write _ _ _ ({[sl_array s]} ∪ fp1 ∪ fpx)); set_solver|
      set_solver|set_solver].
  - intros A r Hr Hvr w fpw Ew. by eapply (visits_write r _ _ _ xs xs').
Qed.

(** *** append *)
Context `{Hgo : GoRuntime} (zero : mem t).

(** [append(s, x)]: in place when the capacity allows, even if another slice
    shares the array; otherwise into a new array. *)
Definition append (s : option Slice) (x : mem t) : Go Heap (option Slice) :=
  match s with
  | None =>
      a ← alloc t (x :: replicate (grow 0 - 1) zero);
      mret (Some {| sl_array := a; sl_off := 0; sl_len := 1; sl_cap := grow 0 |})
  | Some s =>
      xs ← load_block t (sl_array s);
      if decide (sl_len s < sl_cap s)%nat then
        _ ← modify (<[sl_array s :=
              {| b_ty := t; b_data := <[sl_off s + sl_len s := x]> xs |}]>);
        mret (Some {| sl_array := sl_array s; sl_off := sl_off s; sl_len := S (sl_len s);
                      sl_cap := sl_cap s |})
      else
        a ← alloc t (take (sl_len s) (drop (sl_off s) xs)
                     ++ x :: replicate (grow (sl_len s) - S (sl_len s)) zero);
        mret (Some {| sl_array := a; sl_off := 0; sl_len := S (sl_len s);
                      sl_cap := grow (sl_len s) |})
  end.

Lemma slice_elems_grow {A} a (ys : list A) x z n k :
  length ys = n -> (n < k)%nat ->
  slice_elems {| sl_array := a; sl_off := 0; sl_len := S n; sl_cap := k |}
    (ys ++ x :: replicate (k - S n) z) = Some (ys ++ [x]).
Proof.
  intros Hn Hk. apply slice_elems_Some. cbn. rewrite length_app. cbn. rewrite length_replicate.
  split; [lia|]. rewrite drop_0.
  change (x :: replicate (k - S n) z) with ([x] ++ replicate (k - S n) z).
  rewrite app_assoc, take_app_length'; [done|]. rewrite length_app. cbn. lia.
Qed.

(** A new array of copied elements. *)
Lemma append_alloc h ys vs fp x v fpx n k :
  mapM den ys h = Some (vs, fp) -> den x h = Some (v, fpx) -> length ys = n -> (n < k)%nat ->
  let a := fresh (dom h) in
  let h' := <[a := {| b_ty := t; b_data := ys ++ x :: replicate (k - S n) zero |}]> h in
  exists fp',
    rd_slice t den (Some {| sl_array := a; sl_off := 0; sl_len := S n; sl_cap := k |}) h'
      = Some (Some (vs ++ [v]), fp')
    /\ owned_step (fp ∪ fpx) h h' fp'.
Proof.
  intros Ed Hx Hn Hk a h'. pose proof (Rd_mapM_app _ _ _ _ _ _ _ Ed Hx) as Ed2.
  exists ({[ a ]} ∪ (fp ∪ fpx)). split.
  - apply rd_slice_Some. eexists _, _, (vs ++ [v]), (fp ∪ fpx). split_and!;
      [apply peek_insert_eq|by apply slice_elems_grow| |done|done].
    apply Local_insert; [apply _|done|]. by apply (fp_fresh_loc (mapM den (ys ++ [x])) _ _ _ Ed2).
  - eapply owned_step_weaken;
      [apply (owned_step_add (fp ∪ fpx)); [by eapply (Local_dom (mapM den (ys ++ [x])))|
       apply owned_alloc]|set_solver|set_solver].
Qed.

Lemma append_spec s h vs fp x v fpx :
  rd_slice t den s h = Some (vs, fp) -> den x h = Some (v, fpx) ->
  exists s' h' fp', append s x h = Ret (Some s', h')
    /\ rd_slice t den (Some s') h' = Some (Some (default [] vs ++ [v]), fp')
    /\ owned_step (fp ∪ fpx) h h' fp'.
Proof.
  destruct s as [s|].
  - intros (xs & ys & vs' & fp1 & E & Es & Ed & -> & ->)%rd_slice_Some Hx. cbn [default].
    pose proof (slice_elems_length _ _ _ Es) as Hlen.
    pose proof (proj1 (slice_elems_Some _ _ _) Es) as [[H1 H2] Hys].
    unfold append, mbind at 1, Go_bind at 1, load_block. rewrite E.
    destruct (decide (sl_len s < sl_cap s)%nat) as [Hc|Hc].
    + pose proof (Rd_mapM_app _ _ _ _ _ _ _ Ed Hx) as Ed2.
      set (xs' := <[sl_off s + sl_len s := x]> xs).
      assert (visits (fun t' => t' <> t) (mapM den (ys ++ [x]))) as Hv by by apply visits_mapM.
      destruct (visits_write _ _ _ _ _ xs' _ _ Hv E Ed2) as [Hn Ed3].
      eexists _, _, ({[ sl_array s ]} ∪ (fp1 ∪ fpx)). split; [reflexivity|]. split.
      * apply rd_slice_Some. exists xs', (ys ++ [x]), (vs' ++ [v]), (fp1 ∪ fpx). cbn [sl_array].
        split_and!; [apply peek_insert_eq| |done..]. apply slice_elems_Some. cbn.
        unfold xs'. rewrite length_insert. split; [lia|].
        rewrite drop_insert_ge by lia.
        replace (sl_off s + sl_len s - sl_off s)%nat with (sl_len s) by lia.
        rewrite (take_S_r _ _ x) by (apply list_lookup_insert_eq; rewrite length_drop; lia).
        by rewrite take_insert_ge, <-Hys by lia.
      * apply peek_Some, (elem_of_dom_2 h) in E.
        eapply owned_step_weaken; [apply (owned_write _ _ _ ({[sl_array s]} ∪ fp1 ∪ fpx)); set_solver|
          set_solver|set_solver].
    + rewrite <-Hys.
      destruct (append_alloc h ys vs' fp1 x v fpx _ _ Ed Hx Hlen (grow_gt _)) as (fp' & Hrd & Hst).
      eexists _, _, fp'. split; [reflexivity|]. split; [exact Hrd|].
      eapply owned_step_weaken; [exact Hst|set_solver|done].
  - intros [= <- <-] Hx.
    destruct (append_alloc h [] [] ∅ x v fpx 0 _ eq_refl Hx eq_refl (grow_gt 0))
      as (fp' & Hrd & Hst).
    eexists _, _, fp'. split; [reflexivity|]. by split.
Qed.

End denoted.

(** ** The elements themselves

    For slices whose elements are looked at as they are in memory, and whose
    arrays may be shared by several headers. *)
Section elements.
Context (t : ty) `{Hgo : GoRuntime} (zero : mem t).

Definition elements (s : option Slice) (h : Heap) (ys : list (mem t)) : Prop :=
  match s with
  | None => ys = []
  | Some s => exists xs, peek t h (sl_array s) = Some xs /\ slice_elems s xs = Some ys
  end.

(** [s] is [s0], or longer in the same array. *)
Definition extends (s0 s : Slice) : Prop :=
  sl_array s = sl_array s0 /\ sl_off s = sl_off s0 /\ sl_cap s = sl_cap s0 /\ sl_len s0 <= sl_len s.

Lemma extends_refl s : extends s s.
Proof. by repeat split. Qed.

Lemma extends_trans s1 s2 s3 : extends s1 s2 -> extends s2 s3 -> extends s1 s3.
Proof. unfold extends. intros (-> & -> & -> & ?) (-> & -> & -> & ?). split_and!; [done..|lia]. Qed.

Lemma elements_length s h ys : elements s h ys -> slice_len s = length ys.
Proof.
  destruct s as [s|]; [|by intros ->]. intros (xs & _ & Es). symmetry. by eapply slice_elems_length.
Qed.

Lemma elements_dom s h ys : elements (Some s) h ys -> sl_array s ∈ dom h.
Proof. intros (xs & E%peek_Some & _). by eapply elem_of_dom_2. Qed.

Lemma elements_frame s h h' ys :
  elements s h ys -> (forall sl, s = Some sl -> h' !! sl_array sl = h !! sl_array sl) ->
  elements s h' ys.
Proof.
  destruct s as [s|]; [|done]. intros (xs & E & Es) Hh. exists xs. split; [|done].
  apply peek_Some. rewrite Hh by done. by apply peek_Some.
Qed.

Lemma elements_prefix s0 s h ys :
  extends s0 s -> elements (Some s) h ys -> elements (Some s0) h (take (sl_len s0) ys).
Proof.
  intros (Ha & Ho & Hc & Hl) (xs & E & Es). exists xs. rewrite <-Ha. split; [done|].
  apply slice_elems_Some in Es as [[H1 H2] ->]. apply slice_elems_Some.
  rewrite <-Hc, <-Ho, take_take. split; [lia|]. by rewrite Nat.min_l.
Qed.

Lemma elements_get s h ys i y :
  elements s h ys -> ys !! i = Some y -> slice_get t s i h = Ret (y, h).
Proof.
  destruct s as [s|]; [|by intros ->]. intros (xs & E & Es) Hi.
  assert (i < sl_len s) as Hlen.
  { rewrite <-(slice_elems_length _ _ _ Es). by eapply lookup_lt_Some. }
  unfold slice_get. rewrite decide_True by done. unfold mbind, Go_bind, load_block. rewrite E.
  rewrite (slice_elems_lookup _ _ _ _ Es) in Hi by done. by rewrite Hi.
Qed.

Lemma elements_set s h ys i y :
  elements (Some s) h ys -> i < length ys ->
  exists b, slice_set t (Some s) i y h = Ret (tt, <[sl_array s := b]> h)
    /\ elements (Some s) (<[sl_array s := b]> h) (<[i := y]> ys).
Proof.
  intros (xs & E & Es) Hi. rewrite (slice_elems_length _ _ _ Es) in Hi.
  exists {| b_ty := t; b_data := <[sl_off s + i := y]> xs |}. split.
  - unfold slice_set. rewrite decide_True by done. unfold mbind, Go_bind, load_block. by rewrite E.
  - eexists. split; [apply peek_insert_eq|by apply slice_elems_insert].
Qed.

Lemma elements_append s h ys x :
  elements s h ys ->
  exists s' b, append zero s x h = Ret (Some s', <[sl_array s' := b]> h)
    /\ elements (Some s') (<[sl_array s' := b]> h) (ys ++ [x])
    /\ ((exists sl, s = Some sl /\ extends sl s') \/ sl_array s' ∉ dom h).
Proof.
  destruct s as [s|].
  - intros (xs & E & Es). pose proof (slice_elems_length _ _ _ Es) as Hlen.
    pose proof (proj1 (slice_elems_Some _ _ _) Es) as [[H1 H2] Hys].
    unfold append, mbind at 1, Go_bind at 1, load_block. rewrite E.
    destruct (decide (sl_len s < sl_cap s)) as [Hc|Hc].
    + eexists {| sl_len := S (sl_len s) |}, _. split; [reflexivity|]. split.
      * eexists. split; [apply peek_insert_eq|]. apply slice_elems_Some. cbn.
        rewrite length_insert. split; [lia|]. rewrite drop_insert_ge by lia.
        replace (sl_off s + sl_len s - sl_off s) with (sl_len s) by lia.
        rewrite (take_S_r _ _ x) by (apply list_lookup_insert_eq; rewrite length_drop; lia).
        by rewrite take_insert_ge, <-Hys by lia.
      * left. exists s. split; [done|]. unfold extends. cbn. split_and!; [done..|lia].
    + rewrite <-Hys. eexists {| sl_array := fresh (dom h) |}, _.
      split; [reflexivity|]. split; [|right; apply is_fresh].
      eexists. split; [apply peek_insert_eq|]. by apply slice_elems_grow, grow_gt.
  - intros ->. eexists {| sl_array := fresh (dom h) |}, _. split; [reflexivity|]. split; [|right; apply is_fresh].
    eexists. split; [apply peek_insert_eq|].
    by apply (slice_elems_grow _ [] x zero 0), grow_gt.
Qed.

End elements.

End slices.
