(* ===== verification/DeepCopy.v ===== *)
(** * Generated deep copies

    [src/internal/api/v1alpha1/zz_generated.deepcopy.go], over the memory of
    [Heap].  A structure of the API has one record, used twice: in memory its
    pointers are locations and its slices headers; as a value they are what
    they denote, so that nil and empty stay different.  The structures of
    Kubernetes are external: [ExternalMemory] says what they look like in
    memory, [ExternalCopies] that their own [DeepCopyInto] copies. *)

From S2P Require Import Prelude GoStd Api Concrete Names Workload Fixtures Heap.
From Stdlib Require Import Ascii.
#[local] Open Scope Z_scope.

(** ** The structures of [v1alpha1] *)
Section records.
Context (ptr slice : Type -> Type).

Record InstanceSpecR := {
  i_ConnectionString : string;
  i_Port : ptr Z;
  i_AutoIAMAuthN : ptr bool;
  i_PrivateIP : ptr bool;
  i_PortEnvName : string;
  i_HostEnvName : string
}.

Record WorkloadSelectorSpecR (L : Type) := {
  w_Selector : ptr L;
  w_Kind : string;
  w_Name : string
}.

Record AuthProxyContainerSpecR (C R : Type) := {
  a_Container : ptr C;
  a_Resources : ptr R;
  a_MaxConnections : ptr Z;
  a_MaxSigtermDelay : ptr Z;
  a_SQLAdminAPIEndpoint : string;
  a_Image : string
}.

Record AuthProxyWorkloadSpecR (L C R : Type) := {
  s_Workload : WorkloadSelectorSpecR L;
  s_AuthProxyContainer : ptr (AuthProxyContainerSpecR C R);
  s_Instances : slice InstanceSpecR
}.

Record WorkloadStatusR (Cond : Type) := {
  ws_Kind' : string;
  ws_Version' : string;
  ws_Namespace' : string;
  ws_Name' : string;
  ws_Conditions' : slice (ptr Cond)
}.

Record AuthProxyWorkloadStatusR (Cond : Type) := {
  t_Conditions : slice (ptr Cond);
  t_WorkloadStatus : slice (ptr (WorkloadStatusR Cond))
}.

Record AuthProxyWorkloadR (M L C R Cond : Type) := {
  p_GVK : GroupVersionKind;
  p_ObjectMeta : M;
  p_Spec : AuthProxyWorkloadSpecR L C R;
  p_Status : AuthProxyWorkloadStatusR Cond
}.

Record AuthProxyWorkloadListR (LM M L C R Cond : Type) := {
  l_GVK : GroupVersionKind;
  l_ListMeta : LM;
  l_Items : slice (AuthProxyWorkloadR M L C R Cond)
}.

End records.

#[global] Arguments Build_InstanceSpecR {ptr} _ _ _ _ _ _.
#[global] Arguments Build_WorkloadSelectorSpecR {ptr L} _ _ _.
#[global] Arguments Build_AuthProxyContainerSpecR {ptr C R} _ _ _ _ _ _.
#[global] Arguments Build_AuthProxyWorkloadSpecR {ptr slice L C R} _ _ _.
#[global] Arguments Build_WorkloadStatusR {ptr slice Cond} _ _ _ _ _.
#[global] Arguments Build_AuthProxyWorkloadStatusR {ptr slice Cond} _ _.
#[global] Arguments Build_AuthProxyWorkloadR {ptr slice M L C R Cond} _ _ _ _.
#[global] Arguments Build_AuthProxyWorkloadListR {ptr slice LM M L C R Cond} _ _ _.
#[global] Arguments i_ConnectionString {ptr} _.
#[global] Arguments i_Port {ptr} _.
#[global] Arguments i_AutoIAMAuthN {ptr} _.
#[global] Arguments i_PrivateIP {ptr} _.
#[global] Arguments i_PortEnvName {ptr} _.
#[global] Arguments i_HostEnvName {ptr} _.
#[global] Arguments w_Selector {ptr L} _.
#[global] Arguments w_Kind {ptr L} _.
#[global] Arguments w_Name {ptr L} _.
#[global] Arguments a_Container {ptr C R} _.
#[global] Arguments a_Resources {ptr C R} _.
#[global] Arguments a_MaxConnections {ptr C R} _.
#[global] Arguments a_MaxSigtermDelay {ptr C R} _.
#[global] Arguments a_SQLAdminAPIEndpoint {ptr C R} _.
#[global] Arguments a_Image {ptr C R} _.
#[global] Arguments s_Workload {ptr slice L C R} _.
#[global] Arguments s_AuthProxyContainer {ptr slice L C R} _.
#[global] Arguments s_Instances {ptr slice L C R} _.
#[global] Arguments ws_Kind' {ptr slice Cond} _.
#[global] Arguments ws_Version' {ptr slice Cond} _.
#[global] Arguments ws_Namespace' {ptr slice Cond} _.
#[global] Arguments ws_Name' {ptr slice Cond} _.
#[global] Arguments ws_Conditions' {ptr slice Cond} _.
#[global] Arguments t_Conditions {ptr slice Cond} _.
#[global] Arguments t_WorkloadStatus {ptr slice Cond} _.
#[global] Arguments p_GVK {ptr slice M L C R Cond} _.
#[global] Arguments p_ObjectMeta {ptr slice M L C R Cond} _.
#[global] Arguments p_Spec {ptr slice M L C R Cond} _.
#[global] Arguments p_Status {ptr slice M L C R Cond} _.
#[global] Arguments l_GVK {ptr slice LM M L C R Cond} _.
#[global] Arguments l_ListMeta {ptr slice LM M L C R Cond} _.
#[global] Arguments l_Items {ptr slice LM M L C R Cond} _.

(** ** Memory layout *)

(** The structures of Kubernetes in memory, and the blocks they own. *)
Class ExternalMemory := {
  MContainer : Type; MResources : Type; MLabelSelector : Type;
  MObjectMeta : Type; MListMeta : Type; MOther : Type;
  ListMeta : Type;
  (** the field [Generation] *)
  MObjectMeta_Generation : MObjectMeta -> Z
}.

Inductive api_ty :=
| Tint64 | Tint32 | Tbool
| TContainer | TResources | TLabelSelector | TObjectMeta | TListMeta | TCondition | TOther
| TInstanceSpec | TWorkloadSelectorSpec | TAuthProxyContainerSpec | TAuthProxyWorkloadSpec
| TWorkloadStatus | TAuthProxyWorkloadStatus | TAuthProxyWorkload | TAuthProxyWorkloadList
| TPtr (t : api_ty).

#[export] Instance api_ty_eq_dec : EqDecision api_ty.
Proof. solve_decision. Defined.

Section layout.
Context `{Hk8s : K8sTypes} `{Hlab : LabelsPkg} `{Hext : ExternalMemory}.

Abbreviation mptr := (fun _ : Type => option loc).
Abbreviation mslice := (fun _ : Type => option Slice).

Definition mInstanceSpec := InstanceSpecR mptr.
Definition mWorkloadSelectorSpec := WorkloadSelectorSpecR mptr MLabelSelector.
Definition mAuthProxyContainerSpec := AuthProxyContainerSpecR mptr MContainer MResources.
Definition mAuthProxyWorkloadSpec :=
  AuthProxyWorkloadSpecR mptr mslice MLabelSelector MContainer MResources.
Definition mWorkloadStatus := WorkloadStatusR mptr mslice Condition.
Definition mAuthProxyWorkloadStatus := AuthProxyWorkloadStatusR mptr mslice Condition.
Definition mAuthProxyWorkload :=
  AuthProxyWorkloadR mptr mslice MObjectMeta MLabelSelector MContainer MResources Condition.
Definition mAuthProxyWorkloadList :=
  AuthProxyWorkloadListR mptr mslice MListMeta MObjectMeta MLabelSelector MContainer MResources
    Condition.

Definition api_mem (t : api_ty) : Type :=
  match t with
  | Tint64 | Tint32 => Z
  | Tbool => bool
  | TContainer => MContainer
  | TResources => MResources
  | TLabelSelector => MLabelSelector
  | TObjectMeta => MObjectMeta
  | TListMeta => MListMeta
  | TCondition => Condition
  | TOther => MOther
  | TInstanceSpec => mInstanceSpec
  | TWorkloadSelectorSpec => mWorkloadSelectorSpec
  | TAuthProxyContainerSpec => mAuthProxyContainerSpec
  | TAuthProxyWorkloadSpec => mAuthProxyWorkloadSpec
  | TWorkloadStatus => mWorkloadStatus
  | TAuthProxyWorkloadStatus => mAuthProxyWorkloadStatus
  | TAuthProxyWorkload => mAuthProxyWorkload
  | TAuthProxyWorkloadList => mAuthProxyWorkloadList
  | TPtr _ => option loc
  end.

#[export] Instance api_layout : Layout := {| ty := api_ty; mem := api_mem |}.

(** ** Values *)
Abbreviation vslice := (fun A : Type => option (list A)).

Definition vInstanceSpec := InstanceSpecR option.
Definition vWorkloadSelectorSpec := WorkloadSelectorSpecR option LabelSelector.
Definition vAuthProxyContainerSpec := AuthProxyContainerSpecR option Container ResourceRequirements.
Definition vAuthProxyWorkloadSpec :=
  AuthProxyWorkloadSpecR option vslice LabelSelector Container ResourceRequirements.
Definition vWorkloadStatus := WorkloadStatusR option vslice Condition.
Definition vAuthProxyWorkloadStatus := AuthProxyWorkloadStatusR option vslice Condition.
Definition vAuthProxyWorkload :=
  AuthProxyWorkloadR option vslice ObjectMeta LabelSelector Container ResourceRequirements Condition.
Definition vAuthProxyWorkloadList :=
  AuthProxyWorkloadListR option vslice ListMeta ObjectMeta LabelSelector Container
    ResourceRequirements Condition.

#[export] Instance denotes_Tint64 : Denotes Tint64 Z := {| denote := fun m => mret m |}.
#[export] Instance denotes_Tint32 : Denotes Tint32 Z := {| denote := fun m => mret m |}.
#[export] Instance denotes_Tbool : Denotes Tbool bool := {| denote := fun m => mret m |}.
#[export] Instance denotes_TCondition : Denotes TCondition Condition :=
  {| denote := fun m => mret m |}.

#[export] Instance Local_rd_ptr {t V} (den : mem t -> Rd V) p :
  (forall m, Local (den m)) -> Local (rd_ptr t den p).
Proof.
  intros Hden. destruct p as [l|]; cbn; [|apply _]. apply Local_bind; [apply _|].
  intros [|m []]; apply _.
Qed.

#[export] Instance Local_rd_slice {t V} (den : mem t -> Rd V) s :
  (forall m, Local (den m)) -> Local (rd_slice t den s).
Proof.
  intros Hden. destruct s as [s|]; cbn; [|apply _]. apply Local_bind; [apply _|].
  intros xs. destruct (slice_elems s xs); apply _.
Qed.

#[export] Program Instance denotes_TPtr {t V} `{!Denotes t V} : Denotes (TPtr t) (option V) :=
  {| denote := rd_ptr t (denote t) |}.
#[export] Instance copier_TPtr {t} `{!DeepCopier t} : DeepCopier (TPtr t) :=
  copy_ptr t (DeepCopyInto t).
#[export] Instance law_TPtr {t V} `{!Denotes t V} `{!DeepCopier t} `{!DeepCopyLaw t} :
  DeepCopyLaw (TPtr t).
Proof. apply copies_ptr; [apply _|apply DeepCopyInto_copies]. Qed.

(** [**out = **in] *)
#[export] Instance copier_Tint64 : DeepCopier Tint64 := fun m => mret m.
#[export] Instance copier_Tint32 : DeepCopier Tint32 := fun m => mret m.
#[export] Instance copier_Tbool : DeepCopier Tbool := fun m => mret m.

#[export] Instance law_Tint64 : DeepCopyLaw Tint64.
Proof. exact (copies_flat (fun m => m)). Qed.
#[export] Instance law_Tint32 : DeepCopyLaw Tint32.
Proof. exact (copies_flat (fun m => m)). Qed.
#[export] Instance law_Tbool : DeepCopyLaw Tbool.
Proof. exact (copies_flat (fun m => m)). Qed.

End layout.

Canonical Structure api_layout.

Definition block `{Hk8s : K8sTypes} `{Hlab : LabelsPkg} `{Hext : ExternalMemory}
    (t : api_ty) (xs : list (api_mem t)) : Block :=
  @Build_Block api_layout t xs.

Lemma peek_block `{Hk8s : K8sTypes} `{Hlab : LabelsPkg} `{Hext : ExternalMemory} t xs (h : Heap) l :
  peek t (<[l := block t xs]> h) l = Some xs.
Proof. apply peek_insert_eq. Qed.

(** Kubernetes' own deep copies (k8s.io/api, k8s.io/apimachinery): they copy. *)
Class ExternalCopies `{Hk8s : K8sTypes} `{Hlab : LabelsPkg} `{Hext : ExternalMemory} := {
  #[global] denotes_TContainer :: Denotes TContainer Container;
  #[global] denotes_TResources :: Denotes TResources ResourceRequirements;
  #[global] denotes_TLabelSelector :: Denotes TLabelSelector LabelSelector;
  #[global] denotes_TObjectMeta :: Denotes TObjectMeta ObjectMeta;
  #[global] denotes_TListMeta :: Denotes TListMeta ListMeta;
  #[global] copier_TContainer :: DeepCopier TContainer;
  #[global] copier_TResources :: DeepCopier TResources;
  #[global] copier_TLabelSelector :: DeepCopier TLabelSelector;
  #[global] copier_TObjectMeta :: DeepCopier TObjectMeta;
  #[global] copier_TListMeta :: DeepCopier TListMeta;
  #[global] copier_TCondition :: DeepCopier TCondition;
  #[global] law_TContainer :: DeepCopyLaw TContainer;
  #[global] law_TResources :: DeepCopyLaw TResources;
  #[global] law_TLabelSelector :: DeepCopyLaw TLabelSelector;
  #[global] law_TObjectMeta :: DeepCopyLaw TObjectMeta;
  #[global] law_TListMeta :: DeepCopyLaw TListMeta;
  #[global] law_TCondition :: DeepCopyLaw TCondition;
  Generation_denotes : forall m h v fp,
    denote TObjectMeta m h = Some (v, fp) -> om_Generation v = MObjectMeta_Generation m
}.

(** ** The generated functions

    [in.DeepCopyInto(out)] starts with [*out = *in]: what is not copied below
    is taken from [in]. *)
Section deepcopy.
Context `{Hcopies : ExternalCopies}.

#[export] Instance InstanceSpec_DeepCopyInto : DeepCopier TInstanceSpec := fun m =>
  port ← copy_ptr Tint32 (DeepCopyInto Tint32) (i_Port m);
  iam ← copy_ptr Tbool (DeepCopyInto Tbool) (i_AutoIAMAuthN m);
  private ← copy_ptr Tbool (DeepCopyInto Tbool) (i_PrivateIP m);
  mret (Build_InstanceSpecR (i_ConnectionString m) port iam private
          (i_PortEnvName m) (i_HostEnvName m)).

#[export] Instance WorkloadSelectorSpec_DeepCopyInto : DeepCopier TWorkloadSelectorSpec := fun m =>
  sel ← copy_ptr TLabelSelector (DeepCopyInto TLabelSelector) (w_Selector m);
  mret (Build_WorkloadSelectorSpecR sel (w_Kind m) (w_Name m)).

#[export] Instance AuthProxyContainerSpec_DeepCopyInto : DeepCopier TAuthProxyContainerSpec :=
  fun m =>
  container ← copy_ptr TContainer (DeepCopyInto TContainer) (a_Container m);
  resources ← copy_ptr TResources (DeepCopyInto TResources) (a_Resources m);
  conns ← copy_ptr Tint64 (DeepCopyInto Tint64) (a_MaxConnections m);
  delay ← copy_ptr Tint64 (DeepCopyInto Tint64) (a_MaxSigtermDelay m);
  mret (Build_AuthProxyContainerSpecR container resources conns delay
          (a_SQLAdminAPIEndpoint m) (a_Image m)).

#[export] Instance AuthProxyWorkloadSpec_DeepCopyInto : DeepCopier TAuthProxyWorkloadSpec :=
  fun m =>
  workload ← DeepCopyInto TWorkloadSelectorSpec (s_Workload m);
  container ← copy_ptr TAuthProxyContainerSpec (DeepCopyInto TAuthProxyContainerSpec)
                (s_AuthProxyContainer m);
  instances ← copy_slice TInstanceSpec (DeepCopyInto TInstanceSpec) (s_Instances m);
  mret (Build_AuthProxyWorkloadSpecR workload container instances).

(** The elements are pointers: a nil element stays nil. *)
#[export] Instance WorkloadStatus_DeepCopyInto : DeepCopier TWorkloadStatus := fun m =>
  conds ← copy_slice (TPtr TCondition) (DeepCopyInto (TPtr TCondition)) (ws_Conditions' m);
  mret (Build_WorkloadStatusR (ws_Kind' m) (ws_Version' m) (ws_Namespace' m) (ws_Name' m) conds).

#[export] Instance AuthProxyWorkloadStatus_DeepCopyInto : DeepCopier TAuthProxyWorkloadStatus :=
  fun m =>
  conds ← copy_slice (TPtr TCondition) (DeepCopyInto (TPtr TCondition)) (t_Conditions m);
  statuses ← copy_slice (TPtr TWorkloadStatus) (DeepCopyInto (TPtr TWorkloadStatus))
               (t_WorkloadStatus m);
  mret (Build_AuthProxyWorkloadStatusR conds statuses).

#[export] Instance AuthProxyWorkload_DeepCopyInto : DeepCopier TAuthProxyWorkload := fun m =>
  om ← DeepCopyInto TObjectMeta (p_ObjectMeta m);
  spec ← DeepCopyInto TAuthProxyWorkloadSpec (p_Spec m);
  status ← DeepCopyInto TAuthProxyWorkloadStatus (p_Status m);
  mret (Build_AuthProxyWorkloadR (p_GVK m) om spec status).

#[export] Instance AuthProxyWorkloadList_DeepCopyInto : DeepCopier TAuthProxyWorkloadList :=
  fun m =>
  lm ← DeepCopyInto TListMeta (l_ListMeta m);
  items ← copy_slice TAuthProxyWorkload (DeepCopyInto TAuthProxyWorkload) (l_Items m);
  mret (Build_AuthProxyWorkloadListR (l_GVK m) lm items).

(** [DeepCopy]: nil for nil, otherwise a new structure. *)
Definition InstanceSpec_DeepCopy := copy_ptr TInstanceSpec (DeepCopyInto TInstanceSpec).
Definition WorkloadSelectorSpec_DeepCopy :=
  copy_ptr TWorkloadSelectorSpec (DeepCopyInto TWorkloadSelectorSpec).
Definition AuthProxyContainerSpec_DeepCopy :=
  copy_ptr TAuthProxyContainerSpec (DeepCopyInto TAuthProxyContainerSpec).
Definition AuthProxyWorkloadSpec_DeepCopy :=
  copy_ptr TAuthProxyWorkloadSpec (DeepCopyInto TAuthProxyWorkloadSpec).
Definition WorkloadStatus_DeepCopy := copy_ptr TWorkloadStatus (DeepCopyInto TWorkloadStatus).
Definition AuthProxyWorkloadStatus_DeepCopy :=
  copy_ptr TAuthProxyWorkloadStatus (DeepCopyInto TAuthProxyWorkloadStatus).
Definition AuthProxyWorkload_DeepCopy :=
  copy_ptr TAuthProxyWorkload (DeepCopyInto TAuthProxyWorkload).
Definition AuthProxyWorkloadList_DeepCopy :=
  copy_ptr TAuthProxyWorkloadList (DeepCopyInto TAuthProxyWorkloadList).

(** A value of the interface [runtime.Object]: nil, or a pointer with its
    dynamic type. *)
Inductive runtime_Object :=
| nil_Object
| Object_of (t : api_ty) (p : option loc).

Definition AuthProxyWorkload_DeepCopyObject (p : option loc) : Go Heap runtime_Object :=
  c ← AuthProxyWorkload_DeepCopy p;
  match c with
  | Some _ => mret (Object_of TAuthProxyWorkload c)
  | None => mret nil_Object
  end.

Definition AuthProxyWorkloadList_DeepCopyObject (p : option loc) : Go Heap runtime_Object :=
  c ← AuthProxyWorkloadList_DeepCopy p;
  match c with
  | Some _ => mret (Object_of TAuthProxyWorkloadList c)
  | None => mret nil_Object
  end.

End deepcopy.

(** ** What the structures denote *)
Section denotations.
Context `{Hcopies : ExternalCopies}.

#[export] Program Instance denotes_TInstanceSpec : Denotes TInstanceSpec vInstanceSpec :=
  {| denote := fun m =>
       port ← rd_ptr Tint32 (denote Tint32) (i_Port m);
       iam ← rd_ptr Tbool (denote Tbool) (i_AutoIAMAuthN m);
       private ← rd_ptr Tbool (denote Tbool) (i_PrivateIP m);
       mret (Build_InstanceSpecR (i_ConnectionString m) port iam private
               (i_PortEnvName m) (i_HostEnvName m)) |}.

#[export] Program Instance denotes_TWorkloadSelectorSpec :
  Denotes TWorkloadSelectorSpec vWorkloadSelectorSpec :=
  {| denote := fun m =>
       sel ← rd_ptr TLabelSelector (denote TLabelSelector) (w_Selector m);
       mret (Build_WorkloadSelectorSpecR sel (w_Kind m) (w_Name m)) |}.

#[export] Program Instance denotes_TAuthProxyContainerSpec :
  Denotes TAuthProxyContainerSpec vAuthProxyContainerSpec :=
  {| denote := fun m =>
       container ← rd_ptr TContainer (denote TContainer) (a_Container m);
       resources ← rd_ptr TResources (denote TResources) (a_Resources m);
       conns ← rd_ptr Tint64 (denote Tint64) (a_MaxConnections m);
       delay ← rd_ptr Tint64 (denote Tint64) (a_MaxSigtermDelay m);
       mret (Build_AuthProxyContainerSpecR container resources conns delay
               (a_SQLAdminAPIEndpoint m) (a_Image m)) |}.

#[export] Program Instance denotes_TAuthProxyWorkloadSpec :
  Denotes TAuthProxyWorkloadSpec vAuthProxyWorkloadSpec :=
  {| denote := fun m =>
       workload ← denote TWorkloadSelectorSpec (s_Workload m);
       container ← rd_ptr TAuthProxyContainerSpec (denote TAuthProxyContainerSpec)
                     (s_AuthProxyContainer m);
       instances ← rd_slice TInstanceSpec (denote TInstanceSpec) (s_Instances m);
       mret (Build_AuthProxyWorkloadSpecR workload container instances) |}.

#[export] Program Instance denotes_TWorkloadStatus : Denotes TWorkloadStatus vWorkloadStatus :=
  {| denote := fun m =>
       conds ← rd_slice (TPtr TCondition) (denote (TPtr TCondition)) (ws_Conditions' m);
       mret (Build_WorkloadStatusR (ws_Kind' m) (ws_Version' m) (ws_Namespace' m) (ws_Name' m)
               conds) |}.

#[export] Program Instance denotes_TAuthProxyWorkloadStatus :
  Denotes TAuthProxyWorkloadStatus vAuthProxyWorkloadStatus :=
  {| denote := fun m =>
       conds ← rd_slice (TPtr TCondition) (denote (TPtr TCondition)) (t_Conditions m);
       statuses ← rd_slice (TPtr TWorkloadStatus) (denote (TPtr TWorkloadStatus))
                    (t_WorkloadStatus m);
       mret (Build_AuthProxyWorkloadStatusR conds statuses) |}.

#[export] Program Instance denotes_TAuthProxyWorkload :
  Denotes TAuthProxyWorkload vAuthProxyWorkload :=
  {| denote := fun m =>
       om ← denote TObjectMeta (p_ObjectMeta m);
       spec ← denote TAuthProxyWorkloadSpec (p_Spec m);
       status ← denote TAuthProxyWorkloadStatus (p_Status m);
       mret (Build_AuthProxyWorkloadR (p_GVK m) om spec status) |}.

#[export] Program Instance denotes_TAuthProxyWorkloadList :
  Denotes TAuthProxyWorkloadList vAuthProxyWorkloadList :=
  {| denote := fun m =>
       lm ← denote TListMeta (l_ListMeta m);
       items ← rd_slice TAuthProxyWorkload (denote TAuthProxyWorkload) (l_Items m);
       mret (Build_AuthProxyWorkloadListR (l_GVK m) lm items) |}.

Ltac find_copies :=
  first [ exact DeepCopyInto_copies
        | refine (copies_ptr _ _ DeepCopyInto_copies)
        | refine (copies_slice _ _ DeepCopyInto_copies) ].

(** One field: run its copy, and carry what is known of other fields over to
    the new heap; what was copied already is kept the other way round. *)
Ltac copy_field field :=
  match goal with
  | E : ?den field ?h = Some (?v, ?fp) |- _ =>
      let C := fresh "C" in let m' := fresh "m'" in let h' := fresh "h'" in
      let fp' := fresh "fp'" in let Ef := fresh "Ef" in let Hsub := fresh "Hsub" in
      let Ed := fresh "Ed" in let Hfr := fresh "Hfr" in
      eassert (C : copies den _) by find_copies;
      destruct (C _ _ _ _ E) as (m' & h' & fp' & Ef & Hsub & Ed & Hfr); clear E C;
      repeat match goal with
        | E' : ?r h = Some (_, _) |- _ => apply (Local_mono r h h') in E'; [|exact Hsub]
        | E' : Some (_, _) = ?r h |- _ =>
            symmetry in E'; apply (Local_mono r h h') in E'; [symmetry in E'|exact Hsub]
        end;
      symmetry in Ed; pose proof (subseteq_dom _ _ Hsub)
  end.

Ltac split_fields :=
  repeat match goal with
    | E : (_ ← _; _) _ = Some (_, _) |- _ =>
        let v := fresh "v" in let fp := fresh "fp" in let fp' := fresh "fp" in
        let E1 := fresh "E" in let E2 := fresh "E" in
        apply Rd_bind_Some in E as (v & fp & fp' & E1 & E2 & ->)
    | E : mret _ _ = Some (_, _) |- _ => injection E as <- <-
    end.

Ltac run_fields :=
  repeat match goal with
    | E : _ ?h = Ret (_, _) |- (_ ← _; _) ?h = _ => unfold mbind at 1, Go_bind at 1; rewrite E
    end; reflexivity.

Ltac read_fields :=
  repeat match goal with
    | |- (_ ← _; _) _ = Some _ =>
        apply Rd_bind_Some; eexists _, _, _; split; [symmetry; eassumption|split]
    end; reflexivity.

(** All fields are copied: put the results together. *)
Tactic Notation "copied" constr(into) reference(den) :=
  eexists _, _, _; split_and!;
    [ lazymatch goal with |- DeepCopyInto ?t ?m ?h = ?r =>
        let y := eval red in (into m h) in change (y = r) end;
      run_fields
    | repeat (etransitivity; [eassumption|]); reflexivity
    | cbn [denote den]; read_fields
    | set_solver ].

Tactic Notation "start_copy" reference(den) :=
  intros m h v fp Hm; cbn [denote den] in Hm; split_fields.

#[export] Instance law_TInstanceSpec : DeepCopyLaw TInstanceSpec.
Proof.
  start_copy denotes_TInstanceSpec.
  copy_field (i_Port m).
  copy_field (i_AutoIAMAuthN m). copy_field (i_PrivateIP m).
  copied InstanceSpec_DeepCopyInto denotes_TInstanceSpec.
Qed.

#[export] Instance law_TWorkloadSelectorSpec : DeepCopyLaw TWorkloadSelectorSpec.
Proof.
  start_copy denotes_TWorkloadSelectorSpec.
  copy_field (w_Selector m).
  copied WorkloadSelectorSpec_DeepCopyInto denotes_TWorkloadSelectorSpec.
Qed.

#[export] Instance law_TAuthProxyContainerSpec : DeepCopyLaw TAuthProxyContainerSpec.
Proof.
  start_copy denotes_TAuthProxyContainerSpec.
  copy_field (a_Container m). copy_field (a_Resources m).
  copy_field (a_MaxConnections m). copy_field (a_MaxSigtermDelay m).
  copied AuthProxyContainerSpec_DeepCopyInto denotes_TAuthProxyContainerSpec.
Qed.

#[export] Instance law_TAuthProxyWorkloadSpec : DeepCopyLaw TAuthProxyWorkloadSpec.
Proof.
  start_copy denotes_TAuthProxyWorkloadSpec.
  copy_field (s_Workload m).
  copy_field (s_AuthProxyContainer m). copy_field (s_Instances m).
  copied AuthProxyWorkloadSpec_DeepCopyInto denotes_TAuthProxyWorkloadSpec.
Qed.

#[export] Instance law_TWorkloadStatus : DeepCopyLaw TWorkloadStatus.
Proof.
  start_copy denotes_TWorkloadStatus.
  copy_field (ws_Conditions' m).
  copied WorkloadStatus_DeepCopyInto denotes_TWorkloadStatus.
Qed.

#[export] Instance law_TAuthProxyWorkloadStatus : DeepCopyLaw TAuthProxyWorkloadStatus.
Proof.
  start_copy denotes_TAuthProxyWorkloadStatus.
  copy_field (t_Conditions m). copy_field (t_WorkloadStatus m).
  copied AuthProxyWorkloadStatus_DeepCopyInto denotes_TAuthProxyWorkloadStatus.
Qed.

#[export] Instance law_TAuthProxyWorkload : DeepCopyLaw TAuthProxyWorkload.
Proof.
  start_copy denotes_TAuthProxyWorkload.
  copy_field (p_ObjectMeta m).
  copy_field (p_Spec m). copy_field (p_Status m).
  copied AuthProxyWorkload_DeepCopyInto denotes_TAuthProxyWorkload.
Qed.

#[export] Instance law_TAuthProxyWorkloadList : DeepCopyLaw TAuthProxyWorkloadList.
Proof.
  start_copy denotes_TAuthProxyWorkloadList.
  copy_field (l_ListMeta m). copy_field (l_Items m).
  copied AuthProxyWorkloadList_DeepCopyInto denotes_TAuthProxyWorkloadList.
Qed.

End denotations.

(** ** Theorems *)
Section theorems.
Context `{Hcopies : ExternalCopies}.

(** [p] points to a structure that denotes [v]. *)
Definition points_to {V} (t : api_ty) `{!Denotes t V} (p : option loc) (h : Heap) (v : V)
    (fp : gset loc) : Prop :=
  rd_ptr t (denote t) p h = Some (Some v, fp).

(** [p'] is a copy, made in [h'], of [p] in [h]: it denotes the same value, in
    memory that is new; and then neither can be changed through the other. *)
Definition independent_copy {V} (t : api_ty) `{!Denotes t V} (p p' : option loc) (h h' : Heap)
    (v : V) (fp : gset loc) : Prop :=
  h ⊆ h' /\ exists fp', points_to t p' h' v fp' /\ fp' ## dom h
  /\ (forall h'', (forall l, l ∉ fp -> h'' !! l = h' !! l) -> points_to t p' h'' v fp')
  /\ (forall h'', (forall l, l ∉ fp' -> h'' !! l = h' !! l) -> points_to t p h'' v fp).

Lemma copy_ptr_independent {V} t `{!Denotes t V} `{!DeepCopier t} `{!DeepCopyLaw t} p h v fp :
  points_to t p h v fp ->
  exists l h', copy_ptr t (DeepCopyInto t) p h = Ret (Some l, h')
    /\ independent_copy t p (Some l) h h' v fp.
Proof.
  intros Hp. pose proof Hp as E.
  apply (copies_ptr (denote t) _ DeepCopyInto_copies) in E
    as (p' & h' & fp' & Ef & Hsub & Ed & Hfr).
  destruct p' as [l|]; [|done]. exists l, h'. split; [done|]. split; [done|].
  pose proof (Local_dom _ _ _ _ Hp) as Hfp. exists fp'. split_and!; [done..| |]; intros h'' Hh.
  - eapply Local_frame; [apply _|exact Ed|]. intros l' Hl'. apply Hh. set_solver.
  - eapply Local_frame; [apply _|by eapply (Local_mono _ h h')|].
    intros l' Hl'. apply Hh. set_solver.
Qed.

(** C13: [DeepCopy] of a resource: a nil pointer gives nil.  Otherwise the
    result points to a new structure that denotes the same value, nil and
    empty slices and nil elements included; no memory that existed is written;
    and whatever is then written through the original (to memory it reaches)
    leaves the copy as it is, and the other way round. *)
Theorem AuthProxyWorkload_DeepCopy_independent p h v fp
    (Hp : points_to TAuthProxyWorkload p h v fp) :
  AuthProxyWorkload_DeepCopy None h = Ret (None, h)
  /\ exists l h', AuthProxyWorkload_DeepCopy p h = Ret (Some l, h')
       /\ AuthProxyWorkload_DeepCopyObject p h = Ret (Object_of TAuthProxyWorkload (Some l), h')
       /\ independent_copy TAuthProxyWorkload p (Some l) h h' v fp.
Proof.
  split; [done|]. destruct (copy_ptr_independent _ _ _ _ _ Hp) as (l & h' & E & Hind).
  exists l, h'. split_and!; [exact E| |done].
  unfold AuthProxyWorkload_DeepCopyObject, AuthProxyWorkload_DeepCopy, mbind at 1, Go_bind at 1.
  by rewrite E.
Qed.

(** The same for a list of resources; the copies of its items are separate
    from the items. *)
Theorem AuthProxyWorkloadList_DeepCopy_independent p h v fp
    (Hp : points_to TAuthProxyWorkloadList p h v fp) :
  AuthProxyWorkloadList_DeepCopyObject None h = Ret (nil_Object, h)
  /\ exists l h', AuthProxyWorkloadList_DeepCopy p h = Ret (Some l, h')
       /\ AuthProxyWorkloadList_DeepCopyObject p h
          = Ret (Object_of TAuthProxyWorkloadList (Some l), h')
       /\ independent_copy TAuthProxyWorkloadList p (Some l) h h' v fp.
Proof.
  split; [done|]. destruct (copy_ptr_independent _ _ _ _ _ Hp) as (l & h' & E & Hind).
  exists l, h'. split_and!; [exact E| |done].
  unfold AuthProxyWorkloadList_DeepCopyObject, AuthProxyWorkloadList_DeepCopy,
    mbind at 1, Go_bind at 1.
  by rewrite E.
Qed.

End theorems.

(** ** Witnesses *)

(** Kubernetes' structures as values of one block each, without pointers,
    except that the limits of [ResourceRequirements] are in a block of their
    own. *)
Section witnesses.
Import ConcreteInstances.

#[local] Instance flat_memory : ExternalMemory := {|
  MContainer := Container; MResources := loc; MLabelSelector := LabelSelector;
  MObjectMeta := ObjectMeta; MListMeta := string; MOther := ResourceRequirements;
  ListMeta := string; MObjectMeta_Generation := om_Generation |}.

Definition rd_other (l : loc) : Rd ResourceRequirements :=
  xs ← rd_block TOther l;
  match xs with [r] => mret r | _ => rd_fail end.

#[local] Instance Local_rd_other l : Local (rd_other l).
Proof. apply Local_bind; [apply _|]. intros [|r []]; apply _. Qed.

Definition copy_other (l : loc) : Go Heap loc :=
  r ← load TOther (Some l); alloc TOther [r].

Lemma copy_other_copies : copies rd_other copy_other.
Proof.
  intros l h v fp (xs & fp1 & fp2 & [E ->]%rd_block_Some & E2 & ->)%Rd_bind_Some.
  destruct xs as [|r []]; [done| |done]. injection E2 as <- <-.
  set (l' := fresh (dom h)). set (h' := <[l' := block TOther [r]]> h).
  exists l', h', ({[ l' ]} ∪ ∅). split_and!.
  - unfold copy_other, mbind at 1, Go_bind at 1. by erewrite load_Some by exact E.
  - apply alloc_fresh.
  - apply Rd_bind_Some. exists [r], {[ l' ]}, ∅. split_and!; [|done..].
    apply rd_block_Some. split; [apply peek_insert_eq|done].
  - pose proof (is_fresh (dom h)). set_solver.
Qed.

#[local] Program Instance flat_copies : ExternalCopies := {|
  denotes_TContainer := {| denote := fun m : mem TContainer => mret m |};
  denotes_TResources := {| denote := fun m : mem TResources => rd_other m |};
  denotes_TLabelSelector := {| denote := fun m : mem TLabelSelector => mret m |};
  denotes_TObjectMeta := {| denote := fun m : mem TObjectMeta => mret m |};
  denotes_TListMeta := {| denote := fun m : mem TListMeta => mret m |};
  copier_TContainer := mret; copier_TResources := copy_other; copier_TLabelSelector := mret;
  copier_TObjectMeta := mret; copier_TListMeta := mret; copier_TCondition := mret;
  law_TContainer := copies_flat (fun m => m); law_TResources := copy_other_copies;
  law_TLabelSelector := copies_flat (fun m => m); law_TObjectMeta := copies_flat (fun m => m);
  law_TListMeta := copies_flat (fun m => m); law_TCondition := copies_flat (fun m => m) |}.
Next Obligation. by intros m h v fp [= <- _]. Qed.

(** A resource with limits, a port, and a nil element among its conditions. *)
Definition sample_condition : Condition := {|
  cond_Type := "UpToDate"; cond_Status := "True"; cond_ObservedGeneration := 1;
  cond_LastTransitionTime := 7; cond_Reason := ""; cond_Message := "" |}.

Definition whole (a : loc) (n : nat) : option Slice :=
  Some {| sl_array := a; sl_off := 0; sl_len := n; sl_cap := n |}.

Definition sample_resource : mAuthProxyWorkload := Build_AuthProxyWorkloadR
  (mk_gvk AnnotationPrefix "v1alpha1" "AuthProxyWorkload") (mk_meta "default" "orders" ∅)
  (Build_AuthProxyWorkloadSpecR (Build_WorkloadSelectorSpecR None "Deployment" "")
     (Some 3%positive) (whole 5%positive 1%nat))
  (Build_AuthProxyWorkloadStatusR
     (Some {| sl_array := 7%positive; sl_off := 0; sl_len := 2; sl_cap := 3 |}) None).

Definition sample_heap : Heap :=
  <[1%positive := block TOther [ResourceRequirements_zero]]>
  (<[2%positive := block TResources [1%positive]]>
  (<[3%positive := block TAuthProxyContainerSpec
       [Build_AuthProxyContainerSpecR None (Some 2%positive) None None "" "proxy:2"]]>
  (<[4%positive := block Tint32 [5432]]>
  (<[5%positive := block TInstanceSpec [Build_InstanceSpecR "proj:region:orders" (Some 4%positive)
                                 None None "DB_PORT" ""]]>
  (<[6%positive := block TCondition [sample_condition]]>
  (<[7%positive := block (TPtr TCondition) [Some 6%positive; None; None]]>
  (<[8%positive := block TAuthProxyWorkload [sample_resource]]>
  (<[9%positive := block TAuthProxyWorkload [sample_resource]]>
  (<[10%positive := block TAuthProxyWorkloadList [Build_AuthProxyWorkloadListR
       (mk_gvk AnnotationPrefix "v1alpha1" "AuthProxyWorkloadList") ("" : MListMeta)
       (whole 9%positive 1%nat)]]> ∅))))))))).

Definition sample_value : vAuthProxyWorkload := Build_AuthProxyWorkloadR
  (mk_gvk AnnotationPrefix "v1alpha1" "AuthProxyWorkload") (mk_meta "default" "orders" ∅)
  (Build_AuthProxyWorkloadSpecR (Build_WorkloadSelectorSpecR None "Deployment" "")
     (Some (Build_AuthProxyContainerSpecR None (Some ResourceRequirements_zero) None None
              "" "proxy:2"))
     (Some [Build_InstanceSpecR "proj:region:orders" (Some 5432) None None "DB_PORT" ""]))
  (Build_AuthProxyWorkloadStatusR (Some [Some sample_condition; None]) None).

Definition sample_list_value : vAuthProxyWorkloadList := Build_AuthProxyWorkloadListR
  (mk_gvk AnnotationPrefix "v1alpha1" "AuthProxyWorkloadList") ("" : ListMeta)
  (Some [sample_value]).

Definition sample_fp : gset loc := list_to_set [1; 2; 3; 4; 5; 6; 7; 8]%positive.
Definition sample_list_fp : gset loc := list_to_set [1; 2; 3; 4; 5; 6; 7; 9; 10]%positive.

Lemma sample_points_to :
  points_to TAuthProxyWorkload (Some 8%positive) sample_heap sample_value sample_fp.
Proof. vm_cast_no_check (@eq_refl (option (option vAuthProxyWorkload * gset loc))
         (Some (Some sample_value, sample_fp))). Qed.

Lemma sample_list_points_to :
  points_to TAuthProxyWorkloadList (Some 10%positive) sample_heap sample_list_value sample_list_fp.
Proof. vm_cast_no_check (@eq_refl (option (option vAuthProxyWorkloadList * gset loc))
         (Some (Some sample_list_value, sample_list_fp))). Qed.

Lemma AuthProxyWorkload_DeepCopy_independent_witness :
  AuthProxyWorkload_DeepCopy None sample_heap = Ret (None, sample_heap)
  /\ exists l h', AuthProxyWorkload_DeepCopy (Some 8%positive) sample_heap = Ret (Some l, h')
       /\ AuthProxyWorkload_DeepCopyObject (Some 8%positive) sample_heap
          = Ret (Object_of TAuthProxyWorkload (Some l), h')
       /\ independent_copy TAuthProxyWorkload (Some 8%positive) (Some l) sample_heap h'
            sample_value sample_fp.
Proof. exact (AuthProxyWorkload_DeepCopy_independent _ _ _ _ sample_points_to). Defined.

Lemma AuthProxyWorkloadList_DeepCopy_independent_witness :
  AuthProxyWorkloadList_DeepCopyObject None sample_heap = Ret (nil_Object, sample_heap)
  /\ exists l h', AuthProxyWorkloadList_DeepCopy (Some 10%positive) sample_heap = Ret (Some l, h')
       /\ AuthProxyWorkloadList_DeepCopyObject (Some 10%positive) sample_heap
          = Ret (Object_of TAuthProxyWorkloadList (Some l), h')
       /\ independent_copy TAuthProxyWorkloadList (Some 10%positive) (Some l) sample_heap h'
            sample_list_value sample_list_fp.
Proof. exact (AuthProxyWorkloadList_DeepCopy_independent _ _ _ _ sample_list_points_to). Defined.

End witnesses.
