(* ===== verification/InPlace.v ===== *)
(** * The status, updated in place

    The list operations of [Status] and [doCreateUpdate] up to its calls of
    the API server, once more, as the code does them: with pointers to
    conditions and statuses, slices that are written in place and appended to,
    and the deep copy [orig].  They are shown to compute what [Status] and
    [Reconciler] say about values, while [orig] keeps the value that was
    read. *)

From S2P Require Import Prelude Interaction GoStd Api Concrete Names Workload Fixtures Status Reconciler Heap Slices DeepCopy.
From Stdlib Require Import Ascii.
#[local] Open Scope Z_scope.

(** ** From memory values to API values *)
Section values.
Context `{Hk8s : K8sTypes} `{Hlab : LabelsPkg}.

Definition abs_InstanceSpec (v : vInstanceSpec) : InstanceSpec := {|
  is_ConnectionString := i_ConnectionString v; is_Port := i_Port v;
  is_AutoIAMAuthN := i_AutoIAMAuthN v; is_PrivateIP := i_PrivateIP v;
  is_PortEnvName := i_PortEnvName v; is_HostEnvName := i_HostEnvName v |}.

Definition abs_AuthProxyContainerSpec (v : vAuthProxyContainerSpec) : AuthProxyContainerSpec := {|
  ac_Container := a_Container v; ac_Resources := a_Resources v;
  ac_MaxConnections := a_MaxConnections v; ac_MaxSigtermDelay := a_MaxSigtermDelay v;
  ac_SQLAdminAPIEndpoint := a_SQLAdminAPIEndpoint v; ac_Image := a_Image v |}.

Definition abs_AuthProxyWorkloadSpec (v : vAuthProxyWorkloadSpec) : AuthProxyWorkloadSpec := {|
  sp_Workload := {| ws_Selector := w_Selector (s_Workload v); ws_Kind := w_Kind (s_Workload v);
                    ws_Name := w_Name (s_Workload v) |};
  sp_AuthProxyContainer := abs_AuthProxyContainerSpec <$> s_AuthProxyContainer v;
  sp_Instances := abs_InstanceSpec <$> default [] (s_Instances v) |}.

(** A slice of pointers, none of them nil. *)
Definition abs_pointers {A} (v : option (list (option A))) : option (list A) :=
  mapM id (default [] v).

Definition abs_WorkloadStatus (v : vWorkloadStatus) : option WorkloadStatus :=
  conds ← abs_pointers (ws_Conditions' v);
  mret {| st_Kind := ws_Kind' v; st_Version := ws_Version' v; st_Namespace := ws_Namespace' v;
          st_Name := ws_Name' v; st_Conditions := conds |}.

Definition abs_AuthProxyWorkloadStatus (v : vAuthProxyWorkloadStatus)
    : option AuthProxyWorkloadStatus :=
  conds ← abs_pointers (t_Conditions v);
  statuses ← abs_pointers (t_WorkloadStatus v) ≫= mapM abs_WorkloadStatus;
  mret {| status_Conditions := conds; status_WorkloadStatus := statuses |}.

Definition abs_AuthProxyWorkload (v : vAuthProxyWorkload) : option AuthProxyWorkload :=
  status ← abs_AuthProxyWorkloadStatus (p_Status v);
  mret {| apw_GVK := p_GVK v; apw_ObjectMeta := p_ObjectMeta v;
          apw_Spec := abs_AuthProxyWorkloadSpec (p_Spec v); apw_Status := status |}.

Lemma abs_pointers_Some {A} (v : option (list (option A))) xs :
  abs_pointers v = Some xs <-> default [] v = Some <$> xs.
Proof.
  unfold abs_pointers. generalize (default [] v). clear v. intros l.
  rewrite mapM_Some. split.
  - induction 1 as [|x y l xs E _ IH]; [done|]. cbn in E. by rewrite E, IH.
  - intros ->. induction xs as [|x xs IH]; cbn; by constructor.
Qed.

End values.

(** ** The operations *)
Section operations.
Context `{Hcopies : ExternalCopies} `{Hschema : SchemaPkg} `{Hgo : GoRuntime}.

(** The loop of [replaceCondition]; true when it returns. *)
Fixpoint replaceCondition_loop (conds : option Slice) (newC : option loc) (now : Time)
    (i n : nat) : Go Heap bool :=
  match n with
  | O => mret false
  | S n =>
      p ← slice_get (TPtr TCondition) conds i;
      c ← load TCondition p;
      nc ← load TCondition newC;
      if negb (bool_decide (cond_Type c = cond_Type nc))
      then replaceCondition_loop conds newC now (S i) n
      else
        _ ← store TCondition newC (set_LastTransitionTime
              (if bool_decide (cond_Status c = cond_Status nc)
                  && negb (Time_IsZero (Some (cond_LastTransitionTime c)))
               then cond_LastTransitionTime c else now) nc);
        _ ← slice_set (TPtr TCondition) conds i newC;
        mret true
  end.

Definition mem_replaceCondition (conds : option Slice) (newC : option loc) (now : Time)
    : Go Heap (option Slice) :=
  returned ← replaceCondition_loop conds newC now 0 (slice_len conds);
  if (returned : bool) then mret conds
  else
    nc ← load TCondition newC;
    _ ← store TCondition newC (set_LastTransitionTime now nc);
    append (t := TPtr TCondition) None conds newC.

(** The loop of [replaceStatus], with its variable [updated]. *)
Fixpoint replaceStatus_loop (statuses : option Slice) (updatedStatus : option loc)
    (updated : bool) (i n : nat) : Go Heap bool :=
  match n with
  | O => mret updated
  | S n =>
      p ← slice_get (TPtr TWorkloadStatus) statuses i;
      s ← load TWorkloadStatus p;
      u ← load TWorkloadStatus updatedStatus;
      if bool_decide (ws_Name' s = ws_Name' u) && bool_decide (ws_Namespace' s = ws_Namespace' u)
         && bool_decide (ws_Kind' s = ws_Kind' u) && bool_decide (ws_Version' s = ws_Version' u)
      then
        _ ← slice_set (TPtr TWorkloadStatus) statuses i updatedStatus;
        replaceStatus_loop statuses updatedStatus true (S i) n
      else replaceStatus_loop statuses updatedStatus updated (S i) n
  end.

Definition mem_replaceStatus (statuses : option Slice) (updatedStatus : option loc)
    : Go Heap (option Slice) :=
  updated ← replaceStatus_loop statuses updatedStatus false 0 (slice_len statuses);
  if negb updated then append (t := TPtr TWorkloadStatus) None statuses updatedStatus
  else mret statuses.

(** [&cloudsqlapi.WorkloadStatus{...}] *)
Definition m_newStatus (wl : Workload) : mWorkloadStatus := Build_WorkloadStatusR
  (gvk_Kind (o_GVK (ObjectOf wl)))
  (GroupVersion_Identifier (gvk_Group (o_GVK (ObjectOf wl)))
     (gvk_Version (o_GVK (ObjectOf wl))))
  (GetNamespace (ObjectOf wl)) (GetName (ObjectOf wl)) None.

Definition mem_newStatus (wl : Workload) : Go Heap (option loc) :=
  l ← alloc TWorkloadStatus [m_newStatus wl]; mret (Some l).

(** [&metav1.Condition{...}], without a transition time *)
Definition true_condition (ty reason message : string) (generation : Z) : Condition := {|
  cond_Type := ty; cond_Status := ConditionTrue; cond_ObservedGeneration := generation;
  cond_LastTransitionTime := Time_zero; cond_Reason := reason; cond_Message := message |}.

(** [s.Conditions = conds] *)
Definition m_set_Conditions (conds : option Slice) (s : mWorkloadStatus) : mWorkloadStatus :=
  Build_WorkloadStatusR (ws_Kind' s) (ws_Version' s) (ws_Namespace' s) (ws_Name' s) conds.

Definition m_set_Status (f : mAuthProxyWorkloadStatus -> mAuthProxyWorkloadStatus)
    (r : mAuthProxyWorkload) : mAuthProxyWorkload :=
  Build_AuthProxyWorkloadR (p_GVK r) (p_ObjectMeta r) (p_Spec r) (f (p_Status r)).

(** The status of a matching workload, in [updateWorkloadStatus]. *)
Definition mem_workload_status (generation : Z) (wl : Workload) (now : Time)
    : Go Heap (option loc) :=
  s ← mem_newStatus wl;
  c ← alloc TCondition [true_condition ConditionWorkloadUpToDate ReasonUpToDate
                          "No update needed for this workload" generation];
  st ← load TWorkloadStatus s;
  conds ← mem_replaceCondition (ws_Conditions' st) (Some c) now;
  _ ← store TWorkloadStatus s (m_set_Conditions conds st);
  mret s.

(** One iteration of the loop of [updateWorkloadStatus]. *)
Definition mem_update_status (resource : option loc) (wl : Workload) (now : Time)
    : Go Heap unit :=
  r ← load TAuthProxyWorkload resource;
  s ← mem_workload_status (MObjectMeta_Generation (p_ObjectMeta r)) wl now;
  statuses ← mem_replaceStatus (t_WorkloadStatus (p_Status r)) s;
  store TAuthProxyWorkload resource
    (m_set_Status (fun st => Build_AuthProxyWorkloadStatusR (t_Conditions st) statuses) r).

(** The matching workloads, each with the time at which it is handled. *)
Fixpoint mem_update_statuses (resource : option loc) (matching : list (Workload * Time))
    : Go Heap unit :=
  match matching with
  | [] => mret tt
  | (wl, now) :: matching =>
      _ ← mem_update_status resource wl now; mem_update_statuses resource matching
  end.

(** The update of the conditions in [reconcileResult]. *)
Definition mem_set_UpToDate (resource : option loc) (reason message : string) (now : Time)
    : Go Heap unit :=
  r ← load TAuthProxyWorkload resource;
  c ← alloc TCondition [true_condition ConditionUpToDate reason message
                          (MObjectMeta_Generation (p_ObjectMeta r))];
  conds ← mem_replaceCondition (t_Conditions (p_Status r)) (Some c) now;
  store TAuthProxyWorkload resource
    (m_set_Status (fun st => Build_AuthProxyWorkloadStatusR conds (t_WorkloadStatus st)) r).

(** [controllerutil.ContainsFinalizer], on an object in memory: it looks at the
    list of finalizers. *)
Class MemoryFinalizers `{Hutil : ControllerUtil} := {
  mem_ContainsFinalizer : MObjectMeta -> string -> Go Heap bool;
  mem_ContainsFinalizer_spec : forall m h om fp f,
    denote TObjectMeta m h = Some (om, fp) ->
    mem_ContainsFinalizer m f h = Ret (ContainsFinalizer (om_Finalizers om) f, h)
}.

(** How [doCreateUpdate] leaves memory: the calls of [applyFinalizer], an
    error, or the patch of the status, computed against [orig]. *)
Inductive mem_outcome : Type :=
| NeedsFinalizer
| ListingFailed (err : error)
| Patching (orig : option loc).

(** [reconcileResult], up to the patch. *)
Definition mem_reconcileResult (resource orig : option loc) (reason message : string) (now : Time)
    : Go Heap mem_outcome :=
  _ ← mem_set_UpToDate resource reason message now; mret (Patching orig).

(** [doCreateUpdate], given what [listWorkloads] answers (with the time at
    which each workload is handled) and the time of the last condition. *)
Definition mem_doCreateUpdate `{Hutil : ControllerUtil} `{Hfin : !MemoryFinalizers}
    (resource : option loc) (listing : Res (list (Workload * Time))) (now : Time)
    : Go Heap mem_outcome :=
  orig ← AuthProxyWorkload_DeepCopy resource;
  r ← load TAuthProxyWorkload resource;
  found ← mem_ContainsFinalizer (p_ObjectMeta r) finalizerName;
  if negb (found : bool) then mret NeedsFinalizer
  else
    match listing with
    | Fail err => mret (ListingFailed err)
    | OK allWorkloads =>
        _ ← mem_update_statuses resource allWorkloads;
        if (Z.of_nat (length allWorkloads) =? 0)
        then mem_reconcileResult resource orig ReasonNoWorkloadsFound "No workload updates needed" now
        else mem_reconcileResult resource orig ReasonFinishedReconcile
               ("Reconciled " +:+ format_d (Z.of_nat (length allWorkloads))
                +:+ " matching workloads complete") now
    end.

End operations.

(** ** [replaceCondition] *)
Section conditions.
Context `{Hcopies : ExternalCopies} `{Hschema : SchemaPkg} `{Hgo : GoRuntime}.

(** A slice of pointers denotes the list [xs]; none is nil. *)
Definition holds {V} (t : api_ty) `{!Denotes t V} (s : option Slice) (h : Heap) (xs : list V)
    (fp : gset loc) : Prop :=
  exists v, rd_slice (TPtr t) (denote (TPtr t)) s h = Some (v, fp) /\ default [] v = Some <$> xs.

Lemma visits_condition p : visits (fun t => t <> TPtr TCondition) (denote (TPtr TCondition) p).
Proof. cbn [denote denotes_TPtr]. apply visits_ptr; [done|]. intros m. apply visits_ret. Qed.

Lemma holds_inv {V} t `{!Denotes t V} s h (xs : list V) fp :
  holds t s h xs fp -> xs <> [] ->
  exists sl, s = Some sl
    /\ rd_slice (TPtr t) (denote (TPtr t)) (Some sl) h = Some (Some (Some <$> xs), fp).
Proof.
  intros (v & E & Hv) Hne. destruct s as [sl|].
  - exists sl. split; [done|]. pose proof E as (ys & zs & vs & fp' & _ & _ & _ & -> & _)%rd_slice_Some.
    cbn in Hv. by rewrite Hv in E.
  - injection E as <- <-. by destruct xs.
Qed.

Lemma holds_length {V} t `{!Denotes t V} s h (xs : list V) fp :
  holds t s h xs fp -> slice_len s = length xs.
Proof.
  intros (v & E & Hv). destruct s as [sl|].
  - pose proof E as (ys & zs & vs & fp' & _ & Es & Ed & -> & _)%rd_slice_Some.
    cbn in Hv. cbn [slice_len].
    rewrite <-(slice_elems_length _ _ _ Es), <-(Rd_mapM_length (t := TPtr t) _ _ _ _ _ Ed), Hv.
    apply length_fmap.
  - injection E as <- <-. by destruct xs.
Qed.

(** Element [i] is a pointer to a block that denotes [x]. *)
Lemma holds_get {V} t `{!Denotes t V} s h (xs : list V) fp i x :
  holds t s h xs fp -> xs !! i = Some x ->
  exists l m fpm, slice_get (TPtr t) s i h = Ret (Some l, h) /\ peek t h l = Some [m]
    /\ denote t m h = Some (x, fpm) /\ fpm ⊆ fp.
Proof.
  intros Hs Hi. destruct (holds_inv _ _ _ _ _ Hs) as (sl & -> & E); [by intros ->|].
  destruct (slice_get_spec _ _ _ _ _ i (Some x) E) as (p & fpx & Eg & Ed & Hsub);
    [by rewrite list_lookup_fmap, Hi|].
  destruct p as [l|]; [|done]. apply rd_ptr_Some in Ed as (m & w & fpm & Ep & Em & [= <-] & ->).
  exists l, m, fpm. split_and!; [done..|set_solver].
Qed.

Lemma store_Ret t l m m' (h : Heap) :
  peek t h l = Some [m] ->
  store t (Some l) m' h = Ret (tt, <[l := {| b_ty := t; b_data := [m'] |}]> h).
Proof. intros E. unfold store, mbind, Go_bind, load_block. by rewrite E. Qed.

Lemma peek_dom t (h : Heap) l xs : peek t h l = Some xs -> l ∈ dom h.
Proof. intros E%peek_Some. by eapply elem_of_dom_2. Qed.

(** Storing into a block that is not part of the slice. *)
Lemma holds_store {V} t `{!Denotes t V} s h (xs : list V) fp l b :
  holds t s h xs fp -> l ∉ fp -> holds t s (<[l := b]> h) xs fp.
Proof.
  intros (v & E & Hv) Hl. exists v. split; [|done]. apply Local_insert; [apply _|done..].
Qed.

Lemma replaceCondition_nohit now cs c :
  existsb (fun x => bool_decide (cond_Type x = cond_Type c)) cs = false ->
  replaceCondition now cs c = cs ++ [set_LastTransitionTime now c].
Proof.
  induction cs as [|x cs IH]; [done|]. cbn. intros [E1 E2]%orb_false_iff. rewrite E1. cbn.
  by rewrite IH.
Qed.

(** The condition found in the slice is exchanged for the new one. *)
Lemma replaceCondition_hit conds cl h cs fp i ci c c' :
  holds TCondition conds h cs fp -> cs !! i = Some ci ->
  peek TCondition h cl = Some [c] -> cl ∉ fp ->
  exists h' fp',
    (_ ← store TCondition (Some cl) c'; _ ← slice_set (TPtr TCondition) conds i (Some cl);
     mret true) h = Ret (true, h')
    /\ holds TCondition conds h' (<[i := c']> cs) fp' /\ owned_step (fp ∪ {[cl]}) h h' fp'.
Proof.
  intros Hs Hi Hc Hn. set (h1 := <[cl := block TCondition [c']]> h).
  pose proof (holds_store _ _ _ _ _ cl (block TCondition [c']) Hs Hn) as Hs1.
  destruct (holds_inv _ _ _ _ _ Hs1) as (sl & -> & E); [by intros ->|].
  destruct (slice_set_spec (t := TPtr TCondition) (denote (TPtr TCondition)) visits_condition
              sl h1 _ _ i (Some cl) (Some c') ({[cl]} ∪ ∅) E)
    as (h' & fp' & Eset & Hrd & Hst & _).
  - rewrite length_fmap. by eapply lookup_lt_Some.
  - apply rd_ptr_Some. exists c', c', ∅. split_and!; [apply peek_insert_eq|done..].
  - exists h', fp'. split_and!.
    + rewrite (Go_bind_eq _ _ _ tt h1 (store_Ret TCondition cl c c' h Hc)).
      by rewrite (Go_bind_eq _ _ _ _ _ Eset).
    + eexists. split; [exact Hrd|]. cbn. symmetry. apply list_fmap_insert.
    + eapply owned_step_trans; [|exact Hst].
      eapply owned_step_weaken; [apply (owned_write _ cl _ (fp ∪ {[cl]}))|done|];
        [set_solver|by eapply peek_dom|set_solver].
Qed.

Lemma load_Ret t l m (h : Heap) : peek t h l = Some [m] -> load t (Some l) h = Ret (m, h).
Proof. apply load_Some. Qed.

Lemma replaceCondition_loop_spec conds cl now h cs fp c n i :
  holds TCondition conds h cs fp -> peek TCondition h cl = Some [c] -> cl ∉ fp ->
  (i + n = length cs)%nat ->
  if existsb (fun x => bool_decide (cond_Type x = cond_Type c)) (drop i cs)
  then exists h' fp', replaceCondition_loop conds (Some cl) now i n h = Ret (true, h')
         /\ holds TCondition conds h' (take i cs ++ replaceCondition now (drop i cs) c) fp'
         /\ owned_step (fp ∪ {[cl]}) h h' fp'
  else replaceCondition_loop conds (Some cl) now i n h = Ret (false, h).
Proof.
  intros Hs Hc Hn. revert i. induction n as [|n IH]; intros i Hin.
  - by rewrite drop_ge by lia.
  - destruct (lookup_lt_is_Some_2 cs i ltac:(lia)) as [ci Hi].
    rewrite (drop_S _ _ _ Hi). cbn [existsb replaceCondition_loop replaceCondition].
    destruct (holds_get _ _ _ _ _ _ _ Hs Hi) as (l & m & fpm & Eg & Ep & [= <- <-] & _).
    rewrite (Go_bind_eq _ _ _ _ _ Eg), (Go_bind_eq _ _ _ _ _ (load_Ret _ _ _ _ Ep)),
      (Go_bind_eq _ _ _ _ _ (load_Ret _ _ _ _ Hc)).
    destruct (bool_decide (cond_Type m = cond_Type c)) eqn:Et; cbn [negb orb].
    + destruct (replaceCondition_hit conds cl h cs fp i m c
        (set_LastTransitionTime
              (if bool_decide (cond_Status m = cond_Status c)
                  && negb (Time_IsZero (Some (cond_LastTransitionTime m)))
               then cond_LastTransitionTime m else now) c) Hs Hi Hc Hn)
        as (h' & fp' & E & Hs' & Hst).
      exists h', fp'. split_and!; [exact E| |done].
      by rewrite <-insert_take_drop by (by eapply lookup_lt_Some).
    + specialize (IH (S i) ltac:(lia)). destruct (existsb _ (drop (S i) cs)); [|exact IH].
      destruct IH as (h' & fp' & E & Hs' & Hst). exists h', fp'. split_and!; [exact E| |done].
      by rewrite (take_S_r _ _ _ Hi), <-app_assoc in Hs'.
Qed.

(** The slice that [replaceCondition] returns holds the conditions that
    [Status.replaceCondition] computes. *)
Lemma mem_replaceCondition_spec conds cl now h cs fp c :
  holds TCondition conds h cs fp -> peek TCondition h cl = Some [c] -> cl ∉ fp ->
  exists s' h' fp', mem_replaceCondition conds (Some cl) now h = Ret (s', h')
    /\ holds TCondition s' h' (replaceCondition now cs c) fp'
    /\ owned_step (fp ∪ {[cl]}) h h' fp'.
Proof.
  intros Hs Hc Hn. unfold mem_replaceCondition. rewrite (holds_length _ _ _ _ _ Hs).
  pose proof (replaceCondition_loop_spec conds cl now h cs fp c (length cs) 0 Hs Hc Hn eq_refl)
    as Hloop. rewrite drop_0 in Hloop.
  destruct (existsb _ cs) eqn:Ex.
  - destruct Hloop as (h' & fp' & E & Hs' & Hst). rewrite (Go_bind_eq _ _ _ _ _ E).
    exists conds, h', fp'. done.
  - rewrite (Go_bind_eq _ _ _ _ _ Hloop), replaceCondition_nohit by done.
    set (c' := set_LastTransitionTime now c).
    set (h1 := <[cl := block TCondition [c']]> h).
    pose proof (holds_store _ _ _ _ _ cl (block TCondition [c']) Hs Hn) as (v & E & Hv).
    destruct (append_spec (t := TPtr TCondition) (denote (TPtr TCondition)) visits_condition
                None conds h1 v fp (Some cl) (Some c') ({[cl]} ∪ ∅) E)
      as (s' & h' & fp' & Ea & Hrd & Hst).
    + apply rd_ptr_Some. exists c', c', ∅. split_and!; [apply peek_insert_eq|done..].
    + exists (Some s'), h', fp'. split_and!.
      * rewrite (Go_bind_eq _ _ _ _ _ (load_Ret _ _ _ _ Hc)).
        by rewrite (Go_bind_eq _ _ _ tt h1 (store_Ret TCondition cl c c' h Hc)).
      * eexists. split; [exact Hrd|]. cbn. by rewrite Hv, fmap_app.
      * eapply owned_step_trans; [|exact Hst].
        eapply owned_step_weaken; [apply (owned_write _ cl _ (fp ∪ {[cl]}))|done|];
          [set_solver|by eapply peek_dom|set_solver].
Qed.

End conditions.

(** ** [replaceStatus] *)
Section statuses.
Context `{Hcopies : ExternalCopies} `{Hschema : SchemaPkg} `{Hgo : GoRuntime}.

Definition v_same_workload (s u : vWorkloadStatus) : bool :=
  bool_decide (ws_Name' s = ws_Name' u) && bool_decide (ws_Namespace' s = ws_Namespace' u)
  && bool_decide (ws_Kind' s = ws_Kind' u) && bool_decide (ws_Version' s = ws_Version' u).

Definition v_replaceStatus (statuses : list vWorkloadStatus) (u : vWorkloadStatus)
    : list vWorkloadStatus :=
  ((fun s => if v_same_workload s u then u else s) <$> statuses)
  ++ (if existsb (fun s => v_same_workload s u) statuses then [] else [u]).

Lemma denote_WorkloadStatus (m : mem TWorkloadStatus) h v fp :
  denote TWorkloadStatus m h = Some (v, fp) ->
  exists conds, rd_slice (TPtr TCondition) (denote (TPtr TCondition)) (ws_Conditions' m) h
                = Some (conds, fp)
    /\ v = Build_WorkloadStatusR (ws_Kind' m) (ws_Version' m) (ws_Namespace' m) (ws_Name' m) conds.
Proof.
  cbn [denote denotes_TWorkloadStatus]. intros (conds & fp1 & fp2 & E & [= <- <-] & ->)%Rd_bind_Some.
  exists conds. by rewrite union_empty_r_L.
Qed.

Lemma visits_WorkloadStatus m :
  visits (fun t => t <> TPtr TWorkloadStatus) (denote TWorkloadStatus m).
Proof.
  cbn [denote denotes_TWorkloadStatus]. apply visits_bind; [|intros; apply visits_ret].
  apply visits_slice; [done|]. intros p. apply visits_ptr; [done|]. intros c. apply visits_ret.
Qed.

Lemma visits_status p :
  visits (fun t => t <> TPtr TWorkloadStatus) (denote (TPtr TWorkloadStatus) p).
Proof. apply visits_ptr; [done|]. apply visits_WorkloadStatus. Qed.

Lemma insert_middle {A} (l : list A) i x y k :
  length l = i -> <[i := x]> (l ++ y :: k) = (l ++ [x]) ++ k.
Proof. intros <-. rewrite insert_app_r_alt, Nat.sub_diag by lia. by rewrite <-app_assoc. Qed.

Lemma replaceStatus_loop_spec statuses sl u fpu vs n i updated h fp :
  let f := fun s => if v_same_workload s u then u else s in
  holds TWorkloadStatus statuses h ((f <$> take i vs) ++ drop i vs) fp ->
  points_to TWorkloadStatus (Some sl) h u fpu -> (i + n = length vs)%nat ->
  exists h' fp', replaceStatus_loop statuses (Some sl) updated i n h
      = Ret (updated || existsb (fun s => v_same_workload s u) (drop i vs), h')
    /\ holds TWorkloadStatus statuses h' (f <$> vs) fp'
    /\ points_to TWorkloadStatus (Some sl) h' u fpu
    /\ owned_step (fp ∪ fpu) h h' (fp' ∪ fpu).
Proof.
  intros f. revert i updated h fp. induction n as [|n IH]; intros i updated h fp Hs Hu Hin.
  - exists h, fp. rewrite drop_ge, app_nil_r, take_ge in Hs by lia.
    rewrite drop_ge by lia. cbn. rewrite orb_false_r. split_and!; [done..|apply owned_step_refl].
  - destruct (lookup_lt_is_Some_2 vs i ltac:(lia)) as [vi Hi].
    assert (length (f <$> take i vs) = i) as Hlen by (rewrite length_fmap, length_take; lia).
    rewrite (drop_S _ _ _ Hi) in Hs |- *. cbn [existsb replaceStatus_loop].
    destruct (holds_get _ _ _ _ _ i vi Hs) as (l & m & fpm & Eg & Ep & Em & _);
      [by rewrite lookup_app_r, Hlen, Nat.sub_diag by lia|].
    pose proof Hu as (mu & w & fpu' & Epu & Emu & [= <-] & _)%rd_ptr_Some.
    apply denote_WorkloadStatus in Em as (cs & _ & Hvi).
    apply denote_WorkloadStatus in Emu as (csu & _ & Hvu).
    rewrite (Go_bind_eq _ _ _ _ _ Eg), (Go_bind_eq _ _ _ _ _ (load_Ret _ _ _ _ Ep)),
      (Go_bind_eq _ _ _ _ _ (load_Ret _ _ _ _ Epu)).
    assert (forall b : bool, (if b then f vi = u else f vi = vi) ->
      f <$> take (S i) vs = (f <$> take i vs) ++ [if b then u else vi]) as Htake.
    { intros b Hb. rewrite (take_S_r _ _ _ Hi), fmap_app. cbn. by destruct b; rewrite Hb. }
    match goal with |- context [if ?b then _ else _] => assert (b = v_same_workload vi u) as -> end.
    { by rewrite Hvi, Hvu. }
    destruct (v_same_workload vi u) eqn:Esame; cbn [orb].
    + destruct (holds_inv _ _ _ _ _ Hs) as (sl' & -> & E); [by intros [_ ?]%app_nil|].
      destruct (slice_set_spec (t := TPtr TWorkloadStatus) (denote (TPtr TWorkloadStatus))
        visits_status sl' h _ _ i (Some sl) (Some u) fpu E) as (h1 & fp1 & Eset & Hrd & Hst & Hkeep);
        [rewrite length_fmap, length_app, Hlen; cbn; lia|exact Hu|].
      rewrite (Go_bind_eq _ _ _ _ _ Eset).
      destruct (IH (S i) true h1 fp1) as (h' & fp' & E' & Hs' & Hu' & Hst'); [| |lia|].
      * eexists. split; [exact Hrd|]. cbn. rewrite <-list_fmap_insert. f_equal.
        rewrite (insert_middle _ _ _ _ _ Hlen). f_equal. rewrite (Htake true); [done|].
        unfold f. by rewrite Esame.
      * exact (Hkeep _ (denote (TPtr TWorkloadStatus) (Some sl)) _ (visits_status _) _ _ Hu).
      * exists h', fp'. rewrite orb_true_r. split_and!; [exact E'|done|done|].
        eapply owned_step_trans; [|exact Hst']. apply owned_step_keep; [done|set_solver].
    + apply IH; [|done|lia]. rewrite (Htake false); [by rewrite <-app_assoc|].
      unfold f. by rewrite Esame.
Qed.

Lemma mem_replaceStatus_spec statuses sl u fpu vs h fp :
  holds TWorkloadStatus statuses h vs fp ->
  points_to TWorkloadStatus (Some sl) h u fpu ->
  exists s' h' fp', mem_replaceStatus statuses (Some sl) h = Ret (s', h')
    /\ holds TWorkloadStatus s' h' (v_replaceStatus vs u) fp'
    /\ owned_step (fp ∪ fpu) h h' fp'.
Proof.
  intros Hs Hu. unfold mem_replaceStatus. rewrite (holds_length _ _ _ _ _ Hs).
  destruct (replaceStatus_loop_spec statuses sl u fpu vs (length vs) 0 false h fp)
    as (h1 & fp1 & E & Hs1 & Hu1 & Hst1); [done..|].
  rewrite (Go_bind_eq _ _ _ _ _ E). cbn [orb]. rewrite drop_0. unfold v_replaceStatus.
  destruct (existsb _ vs); cbn [negb].
  - exists statuses, h1, fp1. rewrite app_nil_r. split_and!; [done..|].
    eapply owned_step_weaken; [exact Hst1|done|set_solver].
  - destruct Hs1 as (v & Erd & Hv).
    destruct (append_spec (t := TPtr TWorkloadStatus) (denote (TPtr TWorkloadStatus)) visits_status
                None statuses h1 v fp1 (Some sl) (Some u) fpu Erd Hu1)
      as (s' & h' & fp' & Ea & Hrd & Hst).
    exists (Some s'), h', fp'. split_and!; [exact Ea| |by eapply owned_step_trans].
    eexists. split; [exact Hrd|]. cbn. by rewrite Hv, fmap_app.
Qed.

(** It computes [Status.replaceStatus]. *)
Lemma abs_same_workload v u sv su :
  abs_WorkloadStatus v = Some sv -> abs_WorkloadStatus u = Some su ->
  same_workload sv su = v_same_workload v u.
Proof.
  intros (cs & _ & [= <-])%bind_Some (cs' & _ & [= <-])%bind_Some. done.
Qed.

Lemma abs_replaceStatus vs u ss su :
  mapM abs_WorkloadStatus vs = Some ss -> abs_WorkloadStatus u = Some su ->
  mapM abs_WorkloadStatus (v_replaceStatus vs u) = Some (replaceStatus ss su).
Proof.
  intros Hvs%mapM_Some Hu. apply mapM_Some. unfold v_replaceStatus, replaceStatus.
  assert (existsb (fun s => same_workload s su) ss = existsb (fun s => v_same_workload s u) vs) as ->.
  { induction Hvs as [|v s vs ss Hv _ IH]; [done|]. cbn.
    by rewrite IH, (abs_same_workload _ _ _ _ Hv Hu). }
  assert (Forall2 (fun v s => abs_WorkloadStatus v = Some s)
    ((fun s => if v_same_workload s u then u else s) <$> vs)
    ((fun s => if same_workload s su then su else s) <$> ss)) as Hmap.
  { induction Hvs as [|v s vs ss Hv _ IH]; cbn; constructor; [|done].
    rewrite (abs_same_workload _ _ _ _ Hv Hu). by destruct (v_same_workload v u). }
  destruct (existsb _ vs); cbn [negb]; [by rewrite app_nil_r|].
  apply Forall2_app; [done|]. by repeat constructor.
Qed.

End statuses.

(** ** The resource *)
Section resource.
Context `{Hcopies : ExternalCopies} `{Hschema : SchemaPkg} `{Hgo : GoRuntime}.

(** [p] points to the resource [r], in the blocks [fp]; the blocks of its two
    lists are not shared with anything else of it, as in an object decoded
    from a response of the server. *)
Inductive resource_at (p : loc) (h : Heap) (r : AuthProxyWorkload) (fp : gset loc) : Prop :=
  resource_at_intro (m : mAuthProxyWorkload) om spec (cs : list Condition)
    (vs : list vWorkloadStatus) ws fpo fps fpc fpw
    (Hm : peek TAuthProxyWorkload h p = Some [m])
    (Hom : denote TObjectMeta (p_ObjectMeta m) h = Some (om, fpo))
    (Hspec : denote TAuthProxyWorkloadSpec (p_Spec m) h = Some (spec, fps))
    (Hcs : holds TCondition (t_Conditions (p_Status m)) h cs fpc)
    (Hvs : holds TWorkloadStatus (t_WorkloadStatus (p_Status m)) h vs fpw)
    (Hws : mapM abs_WorkloadStatus vs = Some ws)
    (Hr : r = {| apw_GVK := p_GVK m; apw_ObjectMeta := om;
                 apw_Spec := abs_AuthProxyWorkloadSpec spec;
                 apw_Status := {| status_Conditions := cs; status_WorkloadStatus := ws |} |})
    (Hp : p ∉ fpo ∪ fps ∪ fpc ∪ fpw)
    (Hdisj : fpc ## fpw /\ fpo ∪ fps ## fpc ∪ fpw)
    (Hfp : fp = {[ p ]} ∪ (fpo ∪ fps) ∪ (fpc ∪ fpw)).

Lemma holds_abs {V} t `{!Denotes t V} s h (xs : list V) fp :
  holds t s h xs fp <->
  exists v, rd_slice (TPtr t) (denote (TPtr t)) s h = Some (v, fp) /\ abs_pointers v = Some xs.
Proof. unfold holds. by setoid_rewrite abs_pointers_Some. Qed.

(** What [Denotes] says of it. *)
Lemma resource_at_points_to p h r fp :
  resource_at p h r fp ->
  exists v, points_to TAuthProxyWorkload (Some p) h v fp /\ abs_AuthProxyWorkload v = Some r.
Proof.
  intros []. apply holds_abs in Hcs as (vc & Ec & Ac). apply holds_abs in Hvs as (vw & Ew & Aw).
  exists (Build_AuthProxyWorkloadR (p_GVK m) om spec (Build_AuthProxyWorkloadStatusR vc vw)).
  split.
  - apply rd_ptr_Some. eexists m, _, ((fpo ∪ fps) ∪ (fpc ∪ fpw)). split_and!; [done| |done|set_solver].
    cbn [denote denotes_TAuthProxyWorkload]. apply Rd_bind_Some. exists om, fpo, (fps ∪ (fpc ∪ fpw)).
    split_and!; [done| |set_solver]. apply Rd_bind_Some. exists spec, fps, (fpc ∪ fpw).
    split_and!; [done| |done]. apply Rd_bind_Some.
    exists (Build_AuthProxyWorkloadStatusR vc vw), (fpc ∪ fpw), ∅. split_and!; [|done|set_solver].
    cbn [denote denotes_TAuthProxyWorkloadStatus]. apply Rd_bind_Some. exists vc, fpc, fpw.
    split_and!; [done| |done]. apply Rd_bind_Some. exists vw, fpw, ∅. split_and!; [done|done|set_solver].
  - apply bind_Some. eexists. split; [|by rewrite Hr]. apply bind_Some. exists cs. split; [done|].
    apply bind_Some. exists ws. split; [|done]. apply bind_Some. by exists vs.
Qed.

Lemma holds_frame {V} t `{!Denotes t V} fp h h' fp' s (xs : list V) fpo :
  owned_step fp h h' fp' -> holds t s h xs fpo -> fpo ## fp -> holds t s h' xs fpo /\ fpo ## fp'.
Proof.
  intros Hst (v & E & Hv) Hd.
  destruct (owned_step_frame (rd_slice (TPtr t) (denote (TPtr t)) s) _ _ _ _ _ _ Hst E Hd).
  split; [by exists v|done].
Qed.

(** The new status of a workload is in new memory. *)
Lemma mem_workload_status_spec r wl now h :
  exists s h' u fpu, mem_workload_status (GetGeneration r) wl now h = Ret (Some s, h')
    /\ points_to TWorkloadStatus (Some s) h' u fpu
    /\ abs_WorkloadStatus u = Some (workload_status r wl now)
    /\ owned_step ∅ h h' fpu.
Proof.
  unfold mem_workload_status, mem_newStatus.
  set (st := m_newStatus wl).
  set (s := fresh (dom h)). set (h1 := <[s := block TWorkloadStatus [st]]> h).
  set (c0 := true_condition ConditionWorkloadUpToDate _ _ (GetGeneration r)).
  set (cl := fresh (dom h1)). set (h2 := <[cl := block TCondition [c0]]> h1).
  assert (owned_step ∅ h h1 {[s]}) as St1 by apply owned_alloc.
  assert (owned_step ∅ h1 h2 {[cl]}) as St2 by apply owned_alloc.
  assert (s ∈ dom h1) as Hs1 by (unfold h1; set_solver).
  assert (cl <> s) as Hne by (intros E; apply (is_fresh (dom h1)); fold cl; by rewrite E).
  assert (peek TWorkloadStatus h2 s = Some [st]) as Es
    by (unfold h2; rewrite peek_insert_ne by done; exact (peek_block _ _ _ _)).
  destruct (mem_replaceCondition_spec None cl now h2 [] ∅ c0) as (conds & h3 & fp3 & E3 & Hc3 & St3);
    [by exists None|exact (peek_block _ _ _ _)|set_solver|].
  assert (s ∉ fp3) as Hs3.
  { intros Hs. apply (owned_fp _ _ _ _ St3) in Hs; [set_solver|]. apply (owned_dom _ _ _ _ St2), Hs1. }
  assert (peek TWorkloadStatus h3 s = Some [st]) as Es3
    by exact (owned_step_peek TWorkloadStatus s _ _ _ _ [st] St3 Es ltac:(set_solver)).
  set (h4 := <[s := block TWorkloadStatus [m_set_Conditions conds st]]> h3).
  apply (holds_store _ _ _ _ _ s (block TWorkloadStatus [m_set_Conditions conds st])) in Hc3;
    [|done].
  destruct Hc3 as (vc & Ec & Hvc).
  exists s, h4, (Build_WorkloadStatusR (ws_Kind' st) (ws_Version' st) (ws_Namespace' st) (ws_Name' st) vc),
    ({[s]} ∪ fp3).
  split_and!.
  - rewrite (Go_bind_eq _ _ _ (Some s) h1) by done. rewrite (Go_bind_eq _ _ _ cl h2) by done.
    rewrite (Go_bind_eq _ _ _ _ _ (load_Ret _ _ _ _ Es)), (Go_bind_eq _ _ _ _ _ E3).
    by rewrite (Go_bind_eq _ _ _ tt h4 (store_Ret _ _ _ _ _ Es3)).
  - apply rd_ptr_Some. eexists _, _, fp3. split_and!; [exact (peek_block _ _ _ _)| |done|done].
    cbn [denote denotes_TWorkloadStatus]. apply Rd_bind_Some. exists vc, fp3, ∅.
    split_and!; [exact Ec|done|set_solver].
  - apply bind_Some. eexists. split; [by apply abs_pointers_Some, Hvc|done].
  - pose proof (owned_step_seq _ _ _ _ _ _ _ St1 St2 ltac:(set_solver)) as St12.
    pose proof (owned_step_seq _ _ _ _ _ _ _ St12 St3 ltac:(set_solver)) as St13.
    assert (owned_step {[s]} h3 h4 {[s]}) as St4
      by (apply owned_write; [set_solver|exact (peek_dom _ _ _ _ Es3)]).
    pose proof (owned_step_seq _ _ _ _ _ _ _ St13 St4 ltac:(set_solver)) as St.
    eapply owned_step_weaken; [exact St|done|set_solver].
Qed.

(** Its two lists have been changed, and are stored in it. *)
Lemma resource_at_store p h h2 (m : mAuthProxyWorkload) om spec fpo fps fpl conds statuses
    cs vs ws fpc fpw :
  peek TAuthProxyWorkload h p = Some [m] ->
  denote TObjectMeta (p_ObjectMeta m) h = Some (om, fpo) ->
  denote TAuthProxyWorkloadSpec (p_Spec m) h = Some (spec, fps) ->
  p ∉ fpo ∪ fps ∪ fpl -> fpo ∪ fps ## fpl ->
  owned_step fpl h h2 (fpc ∪ fpw) -> fpc ## fpw ->
  holds TCondition conds h2 cs fpc -> holds TWorkloadStatus statuses h2 vs fpw ->
  mapM abs_WorkloadStatus vs = Some ws ->
  exists h3 fp', store TAuthProxyWorkload (Some p)
        (m_set_Status (fun _ => Build_AuthProxyWorkloadStatusR conds statuses) m) h2 = Ret (tt, h3)
    /\ resource_at p h3 {| apw_GVK := p_GVK m; apw_ObjectMeta := om;
         apw_Spec := abs_AuthProxyWorkloadSpec spec;
         apw_Status := {| status_Conditions := cs; status_WorkloadStatus := ws |} |} fp'
    /\ owned_step ({[ p ]} ∪ (fpo ∪ fps) ∪ fpl) h h3 fp'.
Proof.
  intros Hm Hom Hspec Hp Hdisj St Hcw Hcs Hvs Hws.
  set (m' := m_set_Status (fun _ => Build_AuthProxyWorkloadStatusR conds statuses) m).
  set (h3 := <[p := block TAuthProxyWorkload [m']]> h2).
  assert (peek TAuthProxyWorkload h2 p = Some [m]) as Hm2
    by exact (owned_step_peek TAuthProxyWorkload p _ _ _ _ [m] St Hm ltac:(set_solver)).
  destruct (owned_step_frame (denote TObjectMeta (p_ObjectMeta m)) _ _ _ _ _ _ St Hom) as [Hom2 D1];
    [set_solver|].
  destruct (owned_step_frame (denote TAuthProxyWorkloadSpec (p_Spec m)) _ _ _ _ _ _ St Hspec)
    as [Hspec2 D2]; [set_solver|].
  assert (p ∉ fpc ∪ fpw) as Hpl.
  { intros Hin. apply (owned_fp _ _ _ _ St) in Hin; [set_solver|exact (peek_dom _ _ _ _ Hm)]. }
  exists h3, ({[ p ]} ∪ (fpo ∪ fps) ∪ (fpc ∪ fpw)). split_and!.
  - exact (store_Ret TAuthProxyWorkload p m m' h2 Hm2).
  - apply (resource_at_intro p h3 _ _ m' om spec cs vs ws fpo fps fpc fpw); try done.
    + exact (peek_block _ _ _ _).
    + apply Local_insert; [apply _|done|set_solver].
    + apply Local_insert; [apply _|done|set_solver].
    + apply holds_store; [done|set_solver].
    + apply holds_store; [done|set_solver].
    + set_solver.
    + split; [done|set_solver].
  - assert (owned_step {[p]} h2 h3 {[p]}) as St2
      by (apply owned_write; [set_solver|exact (peek_dom _ _ _ _ Hm2)]).
    eapply owned_step_weaken with (fp1 := {[ p ]} ∪ (fpo ∪ fps) ∪ fpl)
      (fp2 := {[p]} ∪ (fpc ∪ fpw ∪ ({[ p ]} ∪ (fpo ∪ fps)))); [|done|set_solver].
    eapply owned_step_seq; [|exact St2|set_solver].
    apply owned_step_keep; [|set_solver]. eapply owned_step_weaken; [exact St|set_solver|done].
Qed.

Lemma mem_update_status_spec p h r fp wl now :
  resource_at p h r fp ->
  exists h' fp', mem_update_status (Some p) wl now h = Ret (tt, h')
    /\ resource_at p h' (set_WorkloadStatus
          (replaceStatus (status_WorkloadStatus (apw_Status r)) (workload_status r wl now)) r) fp'
    /\ owned_step fp h h' fp'.
Proof.
  intros []. destruct Hdisj as [Hcw Hd].
  assert (MObjectMeta_Generation (p_ObjectMeta m) = GetGeneration r) as Hgen
    by (rewrite Hr; symmetry; exact (Generation_denotes _ _ _ _ Hom)).
  destruct (mem_workload_status_spec r wl now h) as (s & h1 & u & fpu & E1 & Hu & Hau & St1).
  destruct (holds_frame _ _ _ _ _ _ _ _ St1 Hvs) as [Hvs1 _]; [set_solver|].
  destruct (mem_replaceStatus_spec _ _ _ _ _ _ _ Hvs1 Hu) as (statuses & h2 & fpw' & E2 & Hvs2 & St2).
  assert (owned_step fpw h h2 fpw') as St.
  { eapply owned_step_trans; [|exact St2]. rewrite (union_comm_L fpw).
    apply owned_step_keep; [|done]. by eapply owned_step_weaken; [exact St1|set_solver|]. }
  destruct (holds_frame _ _ _ _ _ _ _ _ St Hcs Hcw) as [Hcs2 Hcw2].
  destruct (resource_at_store p h h2 m om spec fpo fps (fpc ∪ fpw)
              (t_Conditions (p_Status m)) statuses cs
              (v_replaceStatus vs u) (replaceStatus ws (workload_status r wl now)) fpc fpw')
    as (h3 & fp' & E3 & Hres & St3); try done.
  - set_solver.
  - rewrite (union_comm_L fpc fpw'). apply owned_step_keep; [|set_solver].
    eapply owned_step_weaken; [exact St|set_solver|done].
  - by apply abs_replaceStatus.
  - exists h3, fp'. split_and!.
    + unfold mem_update_status. rewrite (Go_bind_eq _ _ _ _ _ (load_Ret _ _ _ _ Hm)), Hgen.
      by rewrite (Go_bind_eq _ _ _ _ _ E1), (Go_bind_eq _ _ _ _ _ E2).
    + by rewrite Hr in *.
    + by rewrite Hfp.
Qed.

Lemma mem_set_UpToDate_spec p h r fp reason message now :
  resource_at p h r fp ->
  exists h' fp', mem_set_UpToDate (Some p) reason message now h = Ret (tt, h')
    /\ resource_at p h' (set_Conditions (replaceCondition now (status_Conditions (apw_Status r))
                           (upToDate_condition r reason message)) r) fp'
    /\ owned_step fp h h' fp'.
Proof.
  intros []. destruct Hdisj as [Hcw Hd].
  assert (MObjectMeta_Generation (p_ObjectMeta m) = GetGeneration r) as Hgen
    by (rewrite Hr; symmetry; exact (Generation_denotes _ _ _ _ Hom)).
  set (c := upToDate_condition r reason message).
  set (cl := fresh (dom h)). set (h1 := <[cl := block TCondition [c]]> h).
  assert (owned_step ∅ h h1 {[cl]}) as St1 by apply owned_alloc.
  destruct (holds_frame _ _ _ _ _ _ _ _ St1 Hcs) as [Hcs1 Hcl]; [set_solver|].
  destruct (mem_replaceCondition_spec (t_Conditions (p_Status m)) cl now h1 cs fpc c)
    as (conds & h2 & fpc' & E2 & Hcs2 & St2); [done|exact (peek_block _ _ _ _)|set_solver|].
  assert (owned_step fpc h h2 fpc') as St.
  { eapply owned_step_trans; [|exact St2]. rewrite (union_comm_L fpc).
    apply owned_step_keep; [|done]. by eapply owned_step_weaken; [exact St1|set_solver|]. }
  destruct (holds_frame _ _ _ _ _ _ _ _ St Hvs) as [Hvs2 Hcw2]; [done|].
  destruct (resource_at_store p h h2 m om spec fpo fps (fpc ∪ fpw)
              conds (t_WorkloadStatus (p_Status m)) (replaceCondition now cs c) vs ws fpc' fpw)
    as (h3 & fp' & E3 & Hres & St3); try done.
  - set_solver.
  - apply owned_step_keep; [|set_solver]. eapply owned_step_weaken; [exact St|set_solver|done].
  - exists h3, fp'. split_and!.
    + unfold mem_set_UpToDate. rewrite (Go_bind_eq _ _ _ _ _ (load_Ret _ _ _ _ Hm)), Hgen.
      rewrite (Go_bind_eq _ _ _ cl h1) by done. by rewrite (Go_bind_eq _ _ _ _ _ E2).
    + by rewrite Hr in *.
    + by rewrite Hfp.
Qed.

End resource.

(** ** The whole update *)
Section theorems.
Context `{Hcopies : ExternalCopies} `{Hschema : SchemaPkg} `{Hgo : GoRuntime}.

Lemma peek_mono t (h h' : Heap) l xs : h ⊆ h' -> peek t h l = Some xs -> peek t h' l = Some xs.
Proof. intros Hsub E%peek_Some. apply peek_Some. by eapply lookup_weaken. Qed.

Lemma holds_mono {V} t `{!Denotes t V} s (h h' : Heap) (xs : list V) fp :
  h ⊆ h' -> holds t s h xs fp -> holds t s h' xs fp.
Proof. intros Hsub (v & E & Hv). exists v. split; [|done]. by eapply Local_mono; [apply _|..]. Qed.

Lemma resource_at_mono p (h h' : Heap) r fp :
  h ⊆ h' -> resource_at p h r fp -> resource_at p h' r fp.
Proof.
  intros Hsub []. apply (resource_at_intro p h' r fp m om spec cs vs ws fpo fps fpc fpw); try done.
  - by eapply peek_mono.
  - by eapply Local_mono; [apply _|..].
  - by eapply Local_mono; [apply _|..].
  - by eapply holds_mono.
  - by eapply holds_mono.
Qed.

(** The resource after the loop of [updateWorkloadStatus]. *)
Fixpoint statuses_after (r : AuthProxyWorkload) (matching : list (Workload * Time))
    : AuthProxyWorkload :=
  match matching with
  | [] => r
  | (wl, now) :: matching =>
      statuses_after (set_WorkloadStatus
        (replaceStatus (status_WorkloadStatus (apw_Status r)) (workload_status r wl now)) r) matching
  end.

Lemma statuses_after_runs r matching :
  runs (update_statuses r matching.*1) ((fun x => event Now x.2) <$> matching)
    (statuses_after r matching).
Proof.
  revert r. induction matching as [|[wl now] matching IH]; intros r; [done|]. cbn.
  exists now, ((fun x => event Now x.2) <$> matching). split; [done|]. apply IH.
Qed.

Lemma mem_update_statuses_spec p h r fp matching :
  resource_at p h r fp ->
  exists h' fp', mem_update_statuses (Some p) matching h = Ret (tt, h')
    /\ resource_at p h' (statuses_after r matching) fp' /\ owned_step fp h h' fp'.
Proof.
  revert h r fp. induction matching as [|[wl now] matching IH]; intros h r fp Hr.
  - exists h, fp. split_and!; [done..|apply owned_step_refl].
  - destruct (mem_update_status_spec p h r fp wl now Hr) as (h1 & fp1 & E1 & Hr1 & St1).
    destruct (IH _ _ _ Hr1) as (h' & fp' & E & Hr' & St). exists h', fp'. split_and!; [|done|].
    + cbn [mem_update_statuses]. by rewrite (Go_bind_eq _ _ _ _ _ E1).
    + by eapply owned_step_trans.
Qed.

(** The reason and the message of the condition UpToDate. *)
Definition result_text (n : nat) : string * string :=
  if (Z.of_nat n =? 0) then (ReasonNoWorkloadsFound, "No workload updates needed")
  else (ReasonFinishedReconcile,
        "Reconciled " +:+ format_d (Z.of_nat n) +:+ " matching workloads complete").

Definition up_to_date (r : AuthProxyWorkload) (n : nat) : Condition :=
  upToDate_condition r (result_text n).1 (result_text n).2.

(** The clock is read for each workload, and for the last condition if its
    time is needed. *)
Definition clock_calls (r : AuthProxyWorkload) (matching : list (Workload * Time)) (now : Time)
    : list Event :=
  ((fun x => event Now x.2) <$> matching)
  ++ (let r' := statuses_after r matching in
      if needs_now (status_Conditions (apw_Status r')) (up_to_date r' (length matching))
      then [event Now now] else []).

Lemma replaceCondition_no_time conds newC now now' :
  needs_now conds newC = false -> replaceCondition now conds newC = replaceCondition now' conds newC.
Proof.
  unfold needs_now. induction conds as [|c conds IH]; [done|]. cbn.
  destruct (bool_decide (cond_Type c = cond_Type newC)); cbn; [|intros Hn; by rewrite IH].
  intros Hn%negb_false_iff. by rewrite Hn.
Qed.

(** The functional model gets to the same patch. *)
Lemma reconcileResult_continues r orig reason message now :
  let conds := status_Conditions (apw_Status r) in
  let newC := upToDate_condition r reason message in
  exists k, continues (reconcileResult r orig reason message)
    (if needs_now conds newC then [event Now now] else [])
    (Step (PatchStatus (set_Conditions (replaceCondition now conds newC) r) orig) k).
Proof.
  intros conds newC. unfold reconcileResult. cbn zeta. fold conds newC.
  destruct (needs_now conds newC) eqn:E.
  - eexists. intros es a Hr. exists now, es. split; [done|]. exact Hr.
  - rewrite (replaceCondition_no_time _ _ now Time_zero E). eexists. apply continues_refl.
Qed.

Lemma doCreateUpdate_continues `{Hutil : ControllerUtil} r matching es now :
  ContainsFinalizer (apw_Finalizers r) finalizerName = true ->
  runs (listWorkloads (sp_Workload (apw_Spec r)) (apw_Namespace r)) es (OK matching.*1) ->
  let r' := statuses_after r matching in
  exists k, continues (doCreateUpdate r) (es ++ clock_calls r matching now)
    (Step (PatchStatus (set_Conditions (replaceCondition now (status_Conditions (apw_Status r'))
             (up_to_date r' (length matching))) r') r) k).
Proof.
  intros Hf Hlist r'. unfold doCreateUpdate. rewrite Hf. cbn [negb].
  assert (runs (updateWorkloadStatus r) (es ++ ((fun x => event Now x.2) <$> matching))
    (OK (matching.*1, r'))) as Hupd.
  { apply runs_bind. exists es, ((fun x => event Now x.2) <$> matching), (OK matching.*1).
    split_and!; [done..|]. apply runs_bind.
    exists ((fun x => event Now x.2) <$> matching), [], r'. rewrite app_nil_r.
    split_and!; [done|apply statuses_after_runs|done]. }
  assert (exists k, continues
    (if (Z.of_nat (length matching.*1) =? 0)
     then reconcileResult r' r ReasonNoWorkloadsFound "No workload updates needed"
     else reconcileResult r' r ReasonFinishedReconcile
            ("Reconciled " +:+ format_d (Z.of_nat (length matching.*1))
             +:+ " matching workloads complete"))
    (if needs_now (status_Conditions (apw_Status r')) (up_to_date r' (length matching))
     then [event Now now] else [])
    (Step (PatchStatus (set_Conditions (replaceCondition now (status_Conditions (apw_Status r'))
             (up_to_date r' (length matching))) r') r) k)) as [k Hk].
  { rewrite length_fmap. unfold up_to_date, result_text.
    destruct (_ =? 0); apply reconcileResult_continues. }
  exists k. unfold clock_calls. rewrite app_assoc.
  eapply continues_trans; [exact (continues_bind _ _ _ _ Hupd)|exact Hk].
Qed.

Lemma resource_at_finalizers `{Hutil : ControllerUtil} `{Hfin : !MemoryFinalizers} p h r fp :
  resource_at p h r fp ->
  exists m, peek TAuthProxyWorkload h p = Some [m]
    /\ mem_ContainsFinalizer (p_ObjectMeta m) finalizerName h
       = Ret (ContainsFinalizer (apw_Finalizers r) finalizerName, h).
Proof.
  intros []. exists m. split; [done|]. rewrite (mem_ContainsFinalizer_spec _ _ _ _ _ Hom). by subst r.
Qed.

Lemma doCreateUpdate_cannot_list `{Hutil : ControllerUtil} r es err :
  ContainsFinalizer (apw_Finalizers r) finalizerName = true ->
  runs (listWorkloads (sp_Workload (apw_Spec r)) (apw_Namespace r)) es (Fail err) ->
  runs (doCreateUpdate r) es (requeueWithDelay, Some err).
Proof.
  intros Hf Hlist. unfold doCreateUpdate. rewrite Hf. cbn [negb].
  apply runs_bind. exists es, [], (Fail err). rewrite app_nil_r. split_and!; [done| |done].
  apply runs_bind. exists es, [], (Fail err). by rewrite app_nil_r.
Qed.

(** The updates in memory. *)
Lemma mem_updates_spec p h r fp orig matching now :
  resource_at p h r fp ->
  let r' := statuses_after r matching in
  exists h' fp',
    (_ ← mem_update_statuses (Some p) matching;
     if (Z.of_nat (length matching) =? 0)
     then mem_reconcileResult (Some p) (Some orig) ReasonNoWorkloadsFound
            "No workload updates needed" now
     else mem_reconcileResult (Some p) (Some orig) ReasonFinishedReconcile
            ("Reconciled " +:+ format_d (Z.of_nat (length matching))
             +:+ " matching workloads complete") now) h = Ret (Patching (Some orig), h')
    /\ resource_at p h' (set_Conditions (replaceCondition now (status_Conditions (apw_Status r'))
                           (up_to_date r' (length matching))) r') fp'
    /\ owned_step fp h h' fp'.
Proof.
  intros Hr r'. destruct (mem_update_statuses_spec p h r fp matching Hr) as (h1 & fp1 & E1 & Hr1 & St1).
  rewrite (Go_bind_eq _ _ _ _ _ E1). unfold up_to_date, result_text, mem_reconcileResult.
  destruct (_ =? 0); cbn [fst snd];
    match goal with |- context [mem_set_UpToDate _ ?reason ?message _] =>
      destruct (mem_set_UpToDate_spec p h1 _ fp1 reason message now Hr1)
        as (h2 & fp2 & E2 & Hr2 & St2) end;
    exists h2, fp2; rewrite (Go_bind_eq _ _ _ _ _ E2);
    (split_and!; [done|done|by eapply owned_step_trans]).
Qed.

(** C14: [doCreateUpdate] in memory does what the functional model of the
    controller does.  Started on a pointer to the resource [r], the code
    makes the deep copy [orig] and then, whatever listing answers,
    - without the finalizer it leaves the resource as it is and goes on with
      [applyFinalizer], as the model does;
    - when listing fails it leaves the resource as it is and returns that
      error, as the model does;
    - otherwise it replaces the status of each matching workload and then the
      condition UpToDate, in place and with [append].  The pointer then points
      to the resource that [update_statuses] and [replaceCondition] compute,
      and [orig], in memory of its own, still denotes [r]: the patch is
      computed between the two values that the model gives to [PatchStatus]. *)
Theorem doCreateUpdate_in_memory `{Hutil : ControllerUtil} `{Hfin : !MemoryFinalizers}
    p h r fp listing es now
    (Hp : resource_at p h r fp)
    (Hlist : runs (listWorkloads (sp_Workload (apw_Spec r)) (apw_Namespace r)) es
               (match listing with OK l => OK l.*1 | Fail err => Fail err end)) :
  exists outcome h', mem_doCreateUpdate (Some p) listing now h = Ret (outcome, h')
  /\ match outcome, listing with
     | NeedsFinalizer, _ =>
         resource_at p h' r fp /\ finalizerName ∉ apw_Finalizers r
         /\ continues (doCreateUpdate r) [] (applyFinalizer r)
     | ListingFailed err, Fail err' =>
         resource_at p h' r fp /\ finalizerName ∈ apw_Finalizers r /\ err = err'
         /\ runs (doCreateUpdate r) es (requeueWithDelay, Some err)
     | Patching orig, OK matching =>
         finalizerName ∈ apw_Finalizers r
         /\ exists r' r'' fp' v fpo k,
           runs (update_statuses r matching.*1) ((fun x => event Now x.2) <$> matching) r'
           /\ r'' = set_Conditions (replaceCondition now (status_Conditions (apw_Status r'))
                                   (up_to_date r' (length matching))) r'
           /\ resource_at p h' r'' fp'
           /\ points_to TAuthProxyWorkload orig h' v fpo
           /\ abs_AuthProxyWorkload v = Some r /\ fpo ## fp'
           /\ continues (doCreateUpdate r) (es ++ clock_calls r matching now)
                (Step (PatchStatus r'' r) k)
     | _, _ => False
     end.
Proof.
  destruct (resource_at_points_to _ _ _ _ Hp) as (v & Hv & Habs).
  destruct (copy_ptr_independent _ _ _ _ _ Hv) as (orig & h1 & E1 & Hsub & fpo & Ho & Hfr & _).
  pose proof (resource_at_mono _ _ _ _ _ Hsub Hp) as Hp1.
  destruct (resource_at_finalizers _ _ _ _ Hp1) as (m & Em & Efin).
  unfold mem_doCreateUpdate. rewrite (Go_bind_eq _ _ _ _ _ E1).
  rewrite (Go_bind_eq _ _ _ _ _ (load_Ret _ _ _ _ Em)), (Go_bind_eq _ _ _ _ _ Efin).
  pose proof (ContainsFinalizer_spec (apw_Finalizers r) finalizerName) as Hspec.
  destruct (ContainsFinalizer (apw_Finalizers r) finalizerName) eqn:Hf; cbn [negb].
  2:{ exists NeedsFinalizer, h1. split; [done|]. split; [done|]. split; [by rewrite <-Hspec|].
      unfold doCreateUpdate. rewrite Hf. apply continues_refl. }
  destruct listing as [matching|err].
  2:{ exists (ListingFailed err), h1. split; [done|]. split_and!; [done|by apply Hspec|done|].
      by apply doCreateUpdate_cannot_list. }
  destruct (mem_updates_spec p h1 r fp orig matching now Hp1) as (h2 & fp2 & E2 & Hr2 & St).
  pose proof (Local_dom _ _ _ _ Hv) as Hfp.
  destruct (owned_step_frame (rd_ptr TAuthProxyWorkload (denote TAuthProxyWorkload) (Some orig))
              _ _ _ _ _ _ St Ho) as [Ho2 Hd]; [set_solver|].
  destruct (doCreateUpdate_continues r matching es now Hf Hlist) as [k Hk].
  exists (Patching (Some orig)), h2. split; [exact E2|]. split; [by apply Hspec|].
  exists (statuses_after r matching). eexists _, fp2, v, fpo, k.
  split_and!; [apply statuses_after_runs|done|done|done|done|done|exact Hk].
Qed.

End theorems.

(** ** Witness *)
Section witnesses.
Import ConcreteInstances.
#[local] Existing Instance flat_memory.
#[local] Existing Instance flat_copies.

Lemma double_gt n : (n < 2 * n + 1)%nat.
Proof. lia. Qed.

Definition doubling : GoRuntime := {| grow n := (2 * n + 1)%nat; grow_gt := double_gt |}.
#[local] Existing Instance doubling.

#[local] Existing Instance test_util.

Lemma flat_finalizers_spec (m : MObjectMeta) (h : Heap) om fp f :
  denote TObjectMeta m h = Some (om, fp) ->
  (mret (ContainsFinalizer (om_Finalizers m) f) : Go Heap bool) h
  = Ret (ContainsFinalizer (om_Finalizers om) f, h).
Proof. by intros [= <- _]. Qed.

#[local] Instance flat_finalizers : MemoryFinalizers := {|
  mem_ContainsFinalizer := fun m f => mret (ContainsFinalizer (om_Finalizers m) f);
  mem_ContainsFinalizer_spec := flat_finalizers_spec |}.

(** A resource with one condition, in an array with room for another. *)
Definition status_meta : ObjectMeta := {|
  om_Name := "orders"; om_Namespace := "default"; om_Generation := 1; om_ResourceVersion := "1";
  om_Labels := ∅; om_Annotations := ∅; om_DeletionTimestamp := None;
  om_Finalizers := [finalizerName]; om_OwnerReferences := []; om_rest := tt |}.

Definition status_resource : mAuthProxyWorkload := Build_AuthProxyWorkloadR
  (mk_gvk AnnotationPrefix "v1alpha1" "AuthProxyWorkload") (status_meta)
  (Build_AuthProxyWorkloadSpecR (Build_WorkloadSelectorSpecR None "Deployment" "web") None None)
  (Build_AuthProxyWorkloadStatusR
     (Some {| sl_array := 2%positive; sl_off := 0; sl_len := 1; sl_cap := 2 |}) None).

Definition status_heap : Heap :=
  <[1%positive := block TAuthProxyWorkload [status_resource]]>
  (<[2%positive := block (TPtr TCondition) [Some 3%positive; None]]>
  (<[3%positive := block TCondition [sample_condition]]> ∅)).

Definition status_value : AuthProxyWorkload := {|
  apw_GVK := mk_gvk AnnotationPrefix "v1alpha1" "AuthProxyWorkload";
  apw_ObjectMeta := status_meta;
  apw_Spec := {| sp_Workload := mk_selector "Deployment" "web" None; sp_AuthProxyContainer := None;
                 sp_Instances := [] |};
  apw_Status := {| status_Conditions := [sample_condition]; status_WorkloadStatus := [] |} |}.

Definition status_fp : gset loc := {[ 1; 2; 3 ]}%positive.

Lemma status_resource_at : resource_at 1%positive status_heap status_value status_fp.
Proof.
  apply (resource_at_intro _ _ _ _ status_resource (status_meta)
           (Build_AuthProxyWorkloadSpecR (Build_WorkloadSelectorSpecR None "Deployment" "web") None None)
           [sample_condition] [] [] ∅ ∅ {[ 2; 3 ]}%positive ∅); try reflexivity.
  - exists (Some [Some sample_condition]). split; reflexivity.
  - by exists None.
  - by_evaluation.
  - split; by_evaluation.
Qed.

Definition web_deployment : Workload := WDeployment {| dw_Deployment := Templated_zero |}.

(** The workload that the resource names is found. *)
Definition status_listing : list Event :=
  [event (GetWorkload {| nn_Namespace := "default"; nn_Name := "web" |} web_deployment)
     (OK web_deployment)].

Lemma doCreateUpdate_in_memory_witness :
  exists outcome h',
    mem_doCreateUpdate (Some 1%positive) (OK [(web_deployment, 42)]) 50 status_heap
      = Ret (outcome, h')
  /\ match outcome with
     | Patching orig =>
         exists r'' fp' v fpo k,
           resource_at 1%positive h' r'' fp'
           /\ points_to TAuthProxyWorkload orig h' v fpo
           /\ abs_AuthProxyWorkload v = Some status_value /\ fpo ## fp'
           /\ continues (doCreateUpdate status_value)
                (status_listing ++ clock_calls status_value [(web_deployment, 42)] 50)
                (Step (PatchStatus r'' status_value) k)
     | _ => False
     end.
Proof.
  destruct (doCreateUpdate_in_memory 1%positive status_heap status_value status_fp
    (OK [(web_deployment, 42)]) status_listing 50 status_resource_at) as (outcome & h' & E & Ho).
  { eexists _, _. split; [reflexivity|]. split; reflexivity. }
  exists outcome, h'. split; [exact E|]. destruct outcome as [|err|orig].
  - destruct Ho as (_ & Hno & _). apply Hno. by left.
  - exact Ho.
  - destruct Ho as (_ & r' & r'' & fp' & v & fpo & k & _ & _ & H1 & H2 & H3 & H4 & H5).
    exists r'', fp', v, fpo, k. exact (conj H1 (conj H2 (conj H3 (conj H4 H5)))).
Defined.

End witnesses.
