(* ===== verification/PodInPlace.v ===== *)
(** * A pod configured in place

    [updateState.update] as it changes the pod: the list of containers and the
    environment of each container are slices in memory ([Heap], [Slices]).
    [PodSpec.update] computes with values; here it is shown that the code in
    memory builds the same pod, and what it leaves of the list the pod had,
    which the pod keeps when [update] ends with an error.

    What is changed through pointers is the list of containers and their
    environments; the rest of a container is a value. *)

From S2P Require Import Prelude Heap Slices GoStd Api Concrete Names Workload Fixtures PodSpec.
From Stdlib Require Import Ascii.

(** ** Memory *)
Inductive pod_ty := TEnvVar | TContainer.

#[export] Instance pod_ty_eq_dec : EqDecision pod_ty.
Proof. solve_decision. Defined.

Section memory.
Context `{Hk8s : K8sTypes}.

(** A container: its environment, and the rest ([mc_value] without any). *)
Record mContainer := { mc_value : Container; mc_Env : option Slice }.

Definition pod_mem (t : pod_ty) : Type :=
  match t with TEnvVar => EnvVar | TContainer => mContainer end.

Definition pod_layout : Layout := {| ty := pod_ty; mem := pod_mem |}.

Definition EnvVar_zero : EnvVar := {| ev_Name := ""; ev_Value := ""; ev_ValueFrom := None |}.
Definition mContainer_zero : mContainer := {| mc_value := Container_zero; mc_Env := None |}.
End memory.

Canonical Structure pod_layout.
#[export] Existing Instance pod_layout.

Section operations.
Context `{Hk8s : K8sTypes} `{Hgo : GoRuntime}.

Definition append_env : option Slice -> EnvVar -> Go Heap (option Slice) :=
  append (t := TEnvVar) EnvVar_zero.
Definition append_container : option Slice -> mContainer -> Go Heap (option Slice) :=
  append (t := TContainer) mContainer_zero.

(** The inner loop of [updateContainerEnv], with its variable [found]. *)
Fixpoint env_loop (operatorEnv : EnvVar) (env : option Slice) (found : bool) (j n : nat)
    : Go Heap bool :=
  match n with
  | O => mret found
  | S n =>
      e ← slice_get TEnvVar env j;
      if bool_decide (ev_Name operatorEnv = ev_Name e)
      then
        _ ← slice_set TEnvVar env j operatorEnv;
        env_loop operatorEnv env true (S j) n
      else env_loop operatorEnv env found (S j) n
  end.

(** One operator variable, in the container that is element [i]. *)
Definition mem_apply_env (containers : option Slice) (i : nat) (operatorEnv : EnvVar)
    : Go Heap unit :=
  c ← slice_get TContainer containers i;
  found ← env_loop operatorEnv (mc_Env c) false 0 (slice_len (mc_Env c));
  if (found : bool) then mret tt
  else
    env ← append_env (mc_Env c) operatorEnv;
    slice_set TContainer containers i {| mc_value := mc_value c; mc_Env := env |}.

Fixpoint mem_updateContainerEnv (containers : option Slice) (i : nat) (envs : list EnvVar)
    : Go Heap unit :=
  match envs with
  | [] => mret tt
  | operatorEnv :: envs =>
      _ ← mem_apply_env containers i operatorEnv; mem_updateContainerEnv containers i envs
  end.

(** The last loop of [update]. *)
Fixpoint mem_update_envs (containers : option Slice) (envs : list EnvVar) (i n : nat)
    : Go Heap unit :=
  match n with
  | O => mret tt
  | S n =>
      _ ← mem_updateContainerEnv containers i envs; mem_update_envs containers envs (S i) n
  end.

(** A container in a variable of its own: a full container of the resource is
    a deep copy, others have no environment yet. *)
Definition new_container (c : Container) : Go Heap mContainer :=
  match c_Env c with
  | [] => mret {| mc_value := c; mc_Env := None |}
  | env =>
      a ← alloc TEnvVar env;
      mret {| mc_value := set_Env [] c;
              mc_Env := Some {| sl_array := a; sl_off := 0; sl_len := length env;
                                sl_cap := length env |} |}
  end.
End operations.

(** ** One environment *)
Section environment.
Context `{Hk8s : K8sTypes} `{Hgo : GoRuntime}.

Definition overwrite (ev e : EnvVar) : EnvVar :=
  if bool_decide (ev_Name ev = ev_Name e) then ev else e.
Definition names_it (ev e : EnvVar) : bool := bool_decide (ev_Name ev = ev_Name e).

Lemma apply_env_overwrite env ev :
  apply_env env ev = (overwrite ev <$> env) ++ (if existsb (names_it ev) env then [] else [ev]).
Proof. unfold apply_env. fold (names_it ev). destruct (existsb _ env); by rewrite ?app_nil_r. Qed.

(** Only the blocks of [ls], and new ones, were written. *)
Definition writes_only (ls : gset loc) (h h' : Heap) : Prop :=
  dom h ⊆ dom h' /\ forall l, l ∈ dom h -> l ∉ ls -> h' !! l = h !! l.

Lemma writes_only_refl ls h : writes_only ls h h.
Proof. by split. Qed.

Lemma writes_only_trans ls h1 h2 h3 :
  writes_only ls h1 h2 -> writes_only ls h2 h3 -> writes_only ls h1 h3.
Proof.
  intros [D1 F1] [D2 F2]. split; [set_solver|]. intros l Hl Hn. rewrite F2, F1; set_solver.
Qed.

Lemma writes_only_weaken ls ls' h h' : writes_only ls h h' -> ls ⊆ ls' -> writes_only ls' h h'.
Proof. intros [D F] Hs. split; [done|]. intros l Hl Hn. apply F; set_solver. Qed.

Lemma writes_only_insert (h : Heap) l b : writes_only {[ l ]} h (<[l := b]> h).
Proof. split; [set_solver|]. intros l' _ Hn. apply lookup_insert_ne. set_solver. Qed.

Lemma writes_only_fresh (h : Heap) l b : l ∉ dom h -> writes_only ∅ h (<[l := b]> h).
Proof. intros Hl. split; [set_solver|]. intros l' Hd _. apply lookup_insert_ne. set_solver. Qed.

(** The array of a slice. *)
Definition array (s : option Slice) : gset loc :=
  match s with Some s => {[ sl_array s ]} | None => ∅ end.

Lemma elements_writes t s ls h h' ys :
  writes_only ls h h' -> elements t s h ys -> array s ## ls -> elements t s h' ys.
Proof.
  intros [D F] Hs Hdisj. eapply elements_frame; [exact Hs|]. intros sl ->.
  apply F; [by eapply elements_dom|set_solver].
Qed.

Lemma array_dom t s h ys : elements t s h ys -> array s ⊆ dom h.
Proof. destruct s as [s|]; [|set_solver]. intros Hs%elements_dom. set_solver. Qed.

Lemma env_loop_spec ev s found j n h ys :
  elements TEnvVar s h ys -> (j + n = length ys)%nat ->
  exists h', env_loop ev s found j n h
      = Ret (found || existsb (names_it ev) (drop j ys), h')
    /\ elements TEnvVar s h' (take j ys ++ (overwrite ev <$> drop j ys))
    /\ writes_only (array s) h h'.
Proof.
  revert found j h ys. induction n as [|n IH]; intros found j h ys Hs Hn; cbn [env_loop].
  - exists h. rewrite drop_ge, take_ge by lia. cbn. rewrite orb_false_r, app_nil_r.
    split_and!; [done|done|apply writes_only_refl].
  - destruct (lookup_lt_is_Some_2 ys j ltac:(lia)) as [e He].
    rewrite (Go_bind_eq _ _ _ _ _ (elements_get _ _ _ _ _ _ Hs He)), (drop_S _ _ _ He).
    cbn [existsb fmap list_fmap]. unfold overwrite at 1. fold (names_it ev e).
    destruct (names_it ev e).
    + destruct s as [s|]; [|by rewrite Hs in He].
      destruct (elements_set TEnvVar s h ys j ev Hs) as (b & Eset & Hs'); [lia|].
      rewrite (Go_bind_eq _ _ _ _ _ Eset).
      destruct (IH true (S j) _ _ Hs') as (h' & -> & Hs'' & Hw); [rewrite length_insert; lia|].
      exists h'. rewrite orb_true_r, drop_insert_lt in * by lia.
      split_and!; [done| |eapply writes_only_trans; [apply writes_only_insert|exact Hw]].
      rewrite (take_S_r _ _ ev) in Hs'' by (apply list_lookup_insert_eq; by eapply lookup_lt_Some).
      by rewrite take_insert_ge, <-app_assoc in Hs'' by lia.
    + destruct (IH found (S j) _ _ Hs) as (h' & -> & Hs' & Hw); [lia|]. exists h'.
      split_and!; [done| |done]. by rewrite (take_S_r _ _ _ He), <-app_assoc in Hs'.
Qed.

End environment.

(** ** One container *)
Section container.
Context `{Hk8s : K8sTypes} `{Hgo : GoRuntime}.

(** The array of containers is not that of an environment. *)
Lemma arrays_apart cs h ms s env :
  elements TContainer cs h ms -> elements TEnvVar s h env -> array s ## array cs.
Proof.
  destruct cs as [cs|], s as [s|]; [|set_solver..].
  intros (xs & E1%peek_Some & _) (ys & E2%peek_Some & _). cbn [array].
  intros l ->%elem_of_singleton E%elem_of_singleton. rewrite E, E1 in E2. discriminate.
Qed.

(** [s'] follows [s]: the same array, or one that did not exist. *)
Definition grown (s s' : option Slice) (h : Heap) : Prop :=
  (exists sl sl', s = Some sl /\ s' = Some sl' /\ extends sl sl') \/ array s' ## dom h.

Lemma extends_array sl sl' : extends sl sl' -> sl_array sl' = sl_array sl.
Proof. by intros (? & _). Qed.

(** The view through the old header, after an append. *)
Lemma append_old (t : pod_ty) (zero : mem t) s h ys x :
  elements t s h ys ->
  exists s' b, append zero s x h = Ret (Some s', <[sl_array s' := b]> h)
    /\ elements t (Some s') (<[sl_array s' := b]> h) (ys ++ [x])
    /\ elements t s (<[sl_array s' := b]> h) ys
    /\ grown s (Some s') h /\ writes_only (array s) h (<[sl_array s' := b]> h).
Proof.
  intros Hs. destruct (elements_append t zero s h ys x Hs) as (s' & b & E & Hs' & Hnew).
  exists s', b. split; [exact E|]. split; [exact Hs'|].
  destruct Hnew as [(sl & -> & Hx)|Hf].
  - pose proof (extends_array _ _ Hx) as Ea. split_and!.
    + pose proof (elements_prefix _ _ _ _ _ Hx Hs') as Hp.
      apply elements_length in Hs. cbn [slice_len] in Hs. by rewrite take_app_length' in Hp.
    + left. by exists sl, s'.
    + rewrite Ea. apply writes_only_insert.
  - split_and!.
    + eapply elements_writes; [by apply writes_only_fresh|done|set_solver].
    + right. cbn. set_solver.
    + eapply writes_only_weaken; [by apply writes_only_fresh|set_solver].
Qed.

Lemma mem_apply_env_spec sc i ev h ms m env :
  elements TContainer (Some sc) h ms -> ms !! i = Some m -> elements TEnvVar (mc_Env m) h env ->
  exists s' h', mem_apply_env (Some sc) i ev h = Ret (tt, h')
    /\ elements TContainer (Some sc) h' (<[i := {| mc_value := mc_value m; mc_Env := s' |}]> ms)
    /\ elements TEnvVar s' h' (apply_env env ev)
    /\ elements TEnvVar (mc_Env m) h' (overwrite ev <$> env)
    /\ grown (mc_Env m) s' h
    /\ writes_only (array (Some sc) ∪ array (mc_Env m)) h h'.
Proof.
  intros Hcs Hi Henv. unfold mem_apply_env.
  rewrite (Go_bind_eq _ _ _ _ _ (elements_get _ _ _ _ _ _ Hcs Hi)).
  destruct (env_loop_spec ev (mc_Env m) false 0 (slice_len (mc_Env m)) h env Henv)
    as (h1 & E1 & Henv1 & Hw1); [by rewrite (elements_length _ _ _ _ Henv)|].
  rewrite (Go_bind_eq _ _ _ _ _ E1). cbn [orb take app] in *. rewrite drop_0 in *.
  pose proof (arrays_apart _ _ _ _ _ Hcs Henv) as Hap.
  assert (elements TContainer (Some sc) h1 ms) as Hcs1
    by (eapply elements_writes; [exact Hw1|done|set_solver]).
  rewrite apply_env_overwrite. destruct (existsb (names_it ev) env).
  - exists (mc_Env m), h1. rewrite app_nil_r.
    replace {| mc_value := mc_value m; mc_Env := mc_Env m |} with m by by destruct m.
    rewrite list_insert_id by done. split_and!; [done..| |].
    + destruct (mc_Env m) as [s|]; [left; by exists s, s; split_and!; try apply extends_refl|].
      right. set_solver.
    + eapply writes_only_weaken; [exact Hw1|set_solver].
  - destruct (append_old TEnvVar EnvVar_zero _ _ _ ev Henv1) as (s' & b & E2 & Hs' & Hold & Hg & Hw2).
    rewrite (Go_bind_eq _ _ _ _ _ E2). set (h2 := <[sl_array s' := b]> h1) in *.
    assert (elements TContainer (Some sc) h2 ms) as Hcs2
      by (eapply elements_writes; [exact Hw2|done|set_solver]).
    destruct (elements_set TContainer sc h2 ms i {| mc_value := mc_value m; mc_Env := Some s' |} Hcs2)
      as (b' & E3 & Hcs3); [by eapply lookup_lt_Some|].
    pose proof (writes_only_insert h2 (sl_array sc) b') as Hw3.
    exists (Some s'), (<[sl_array sc := b']> h2). split_and!.
    + exact E3.
    + exact Hcs3.
    + eapply elements_writes; [exact Hw3|done|by apply (arrays_apart _ _ _ _ _ Hcs2 Hs')].
    + eapply elements_writes; [exact Hw3|done|exact Hap].
    + destruct Hg as [Hg|Hg]; [by left|right]. destruct Hw1 as [Hd _]. set_solver.
    + eapply writes_only_trans; [eapply writes_only_weaken; [exact Hw1|set_solver]|].
      eapply writes_only_trans; eapply writes_only_weaken; [exact Hw2|set_solver|exact Hw3|set_solver].
Qed.

(** What may have happened to a variable of the pod: nothing, or it has the
    operator's value. *)
Definition touched (envs : list EnvVar) (e e' : EnvVar) : Prop :=
  e' = e \/ (e' ∈ envs /\ ev_Name e' = ev_Name e).

Lemma overwrite_touched ev envs env0 env :
  Forall2 (touched envs) (overwrite ev <$> env0) env -> Forall2 (touched (ev :: envs)) env0 env.
Proof.
  rewrite Forall2_fmap_l. intros Hf. eapply Forall2_impl; [exact Hf|]. intros e e' [->|[Hin Hn]];
    unfold overwrite in *; case_bool_decide as E; unfold touched.
  - right. split; [by left|done].
  - by left.
  - right. split; [by right|congruence].
  - right. split; [by right|done].
Qed.

Lemma touched_refl envs env : Forall2 (touched envs) env env.
Proof. apply Forall_Forall2_diag, Forall_true. by left. Qed.

(** The header [s0], and what it shows when [s] shows [ys]: a part of it, or
    something else. *)
Definition old_view {A} (s0 s : option Slice) (ys0 ys : list A) : Prop :=
  (exists sl0 sl, s0 = Some sl0 /\ s = Some sl /\ extends sl0 sl /\ ys0 = take (sl_len sl0) ys)
  \/ array s0 ## array s.

Lemma old_view_refl t s h ys : elements t s h ys -> old_view s s ys ys.
Proof.
  intros Hs. destruct s as [s|]; [|right; set_solver]. left. exists s, s.
  split_and!; [done|done|apply extends_refl|]. apply elements_length in Hs. cbn in Hs.
  symmetry. apply take_ge. by rewrite Hs.
Qed.

Lemma writes_only_seq ls1 ls2 h1 h2 h3 :
  writes_only ls1 h1 h2 -> writes_only ls2 h2 h3 ->
  (forall l, l ∈ ls2 -> l ∈ dom h1 -> l ∈ ls1) -> writes_only ls1 h1 h3.
Proof.
  intros [D1 F1] [D2 F2] Hs. split; [set_solver|]. intros l Hl Hn. rewrite F2, F1; set_solver.
Qed.

(** The old header after one variable. *)
Lemma old_view_step ev s0 s s' env0 env ls h h' :
  elements TEnvVar s0 h env0 -> elements TEnvVar s h env -> old_view s0 s env0 env ->
  elements TEnvVar s h' (overwrite ev <$> env) -> grown s s' h ->
  writes_only (ls ∪ array s) h h' -> array s0 ## ls ->
  exists env1, elements TEnvVar s0 h' env1 /\ old_view s0 s' env1 (apply_env env ev)
    /\ (env1 = overwrite ev <$> env0 \/ env1 = env0).
Proof.
  intros Hs0 Hs Hold Hs' Hg Hw Hls. pose proof (array_dom _ _ _ _ Hs0) as Hd0.
  destruct Hold as [(sl0 & sl & -> & -> & Hx & ->)|Hdisj].
  - exists (take (sl_len sl0) (overwrite ev <$> env)).
    split_and!; [exact (elements_prefix TEnvVar sl0 sl h' _ Hx Hs')| |left; symmetry; apply fmap_take].
    destruct Hg as [(? & sl' & [= <-] & -> & Hx')|Hf]; [left|right; set_solver].
    exists sl0, sl'. split_and!; [done|done|by eapply extends_trans|].
    apply elements_length in Hs. destruct Hx as (_ & _ & _ & Hl). cbn in Hs.
    rewrite apply_env_overwrite, take_app_le; [done|]. rewrite length_fmap.
    by rewrite <-Hs.
  - exists env0. split_and!; [eapply elements_writes; [exact Hw|done|set_solver]| |by right].
    right. destruct Hg as [(sl & sl' & -> & -> & Ha%extends_array)|Hf]; [|set_solver].
    cbn in *. by rewrite Ha.
Qed.

Lemma mem_updateContainerEnv_spec envs sc i h ms m env s0 env0 :
  elements TContainer (Some sc) h ms -> ms !! i = Some m -> elements TEnvVar (mc_Env m) h env ->
  elements TEnvVar s0 h env0 -> old_view s0 (mc_Env m) env0 env ->
  exists s' h' env1, mem_updateContainerEnv (Some sc) i envs h = Ret (tt, h')
    /\ elements TContainer (Some sc) h' (<[i := {| mc_value := mc_value m; mc_Env := s' |}]> ms)
    /\ elements TEnvVar s' h' (fold_left apply_env envs env)
    /\ elements TEnvVar s0 h' env1 /\ Forall2 (touched envs) env0 env1
    /\ (array s' = array (mc_Env m) \/ array s' ## dom h)
    /\ writes_only (array (Some sc) ∪ array (mc_Env m)) h h'.
Proof.
  revert h ms m env env0. induction envs as [|ev envs IH]; intros h ms m env env0 Hcs Hi Henv Hs0 Hold.
  - exists (mc_Env m), h, env0.
    replace {| mc_value := mc_value m; mc_Env := mc_Env m |} with m by by destruct m.
    rewrite list_insert_id by done.
    split_and!; [done..|apply touched_refl|by left|apply writes_only_refl].
  - cbn [mem_updateContainerEnv fold_left].
    destruct (mem_apply_env_spec sc i ev h ms m env Hcs Hi Henv)
      as (s1 & h1 & E & Hcs1 & Henv1 & Hov & Hg & Hw).
    rewrite (Go_bind_eq _ _ _ _ _ E).
    destruct (old_view_step ev s0 (mc_Env m) s1 env0 env (array (Some sc)) h h1)
      as (env1 & Hs01 & Hold1 & Henv01); [done..|by apply (arrays_apart _ _ _ _ _ Hcs Hs0)|].
    destruct (IH h1 _ {| mc_value := mc_value m; mc_Env := s1 |} (apply_env env ev) env1 Hcs1) as
      (s' & h' & env2 & E' & Hcs2 & Henv2 & Hs02 & Ht & Ha & Hw2);
      [apply list_lookup_insert_eq; by eapply lookup_lt_Some|done..|].
    cbn [mc_value mc_Env] in *. rewrite list_insert_insert_eq in Hcs2.
    assert (array s1 = array (mc_Env m) \/ array s1 ## dom h) as Ha1.
    { destruct Hg as [(sl & sl' & -> & -> & Hx%extends_array)|Hf]; [left; cbn; by rewrite Hx|by right]. }
    exists s', h', env2. split_and!; [done..| | |].
    + destruct Henv01 as [->| ->]; [by apply overwrite_touched|]. eapply Forall2_impl; [exact Ht|].
      intros e e' [->|[Hin Hn]]; [by left|right]. split; [by right|done].
    + destruct Hw as [Hd _]. destruct Ha as [Ha|Ha]; [by rewrite Ha|right; set_solver].
    + eapply writes_only_seq; [exact Hw|exact Hw2|]. set_solver.
Qed.
End container.

(** ** All containers *)
Section containers.
Context `{Hk8s : K8sTypes} `{Hgo : GoRuntime}.

(** The environments of the containers, as the headers [ms] show them. *)
Definition environments (h : Heap) (ms : list mContainer) (es : list (list EnvVar)) : Prop :=
  Forall2 (fun m e => elements TEnvVar (mc_Env m) h e) ms es.

Lemma environments_length h ms es : environments h ms es -> length ms = length es.
Proof. apply Forall2_length. Qed.

(** No two containers share the array of their environments. *)
Definition separate (ms : list mContainer) : Prop := forall i j m m',
  ms !! i = Some m -> ms !! j = Some m' -> i <> j -> array (mc_Env m) ## array (mc_Env m').

(** Written are at most the array [sc] and the environments of [ms]. *)
Definition writes_envs (sc : Slice) (ms : list mContainer) (h h' : Heap) : Prop :=
  dom h ⊆ dom h' /\ forall l, l ∈ dom h -> l <> sl_array sc ->
    Forall (fun m => l ∉ array (mc_Env m)) ms -> h' !! l = h !! l.

Lemma elements_envs s sc ms h h' e :
  writes_envs sc ms h h' -> elements TEnvVar s h e -> array s ## array (Some sc) ->
  Forall (fun m => array s ## array (mc_Env m)) ms -> elements TEnvVar s h' e.
Proof.
  intros [D F] Hs Hsc Hms. eapply elements_frame; [exact Hs|]. intros sl ->.
  apply F; [by eapply elements_dom|set_solver|].
  eapply Forall_impl; [exact Hms|]. set_solver.
Qed.

(** One container changed, the others did not. *)
Lemma environments_insert sc h h1 ms es i m s' e' :
  environments h ms es -> separate ms -> ms !! i = Some m -> elements TContainer (Some sc) h ms ->
  writes_only (array (Some sc) ∪ array (mc_Env m)) h h1 -> elements TEnvVar s' h1 e' ->
  (array s' = array (mc_Env m) \/ array s' ## dom h) ->
  environments h1 (<[i := {| mc_value := mc_value m; mc_Env := s' |}]> ms) (<[i := e']> es)
  /\ separate (<[i := {| mc_value := mc_value m; mc_Env := s' |}]> ms).
Proof.
  intros Hes Hsep Hi Hcs Hw Hs' Ha. pose proof (Forall2_length _ _ _ Hes) as Hlen.
  assert (forall j mj, j <> i -> ms !! j = Some mj -> array (mc_Env mj) ## array s') as Hothers.
  { intros j mj Hj Hmj. destruct Ha as [->|Hf]; [by eapply Hsep|].
    destruct (Forall2_lookup_l _ _ _ _ _ Hes Hmj) as (ej & _ & Hej).
    apply array_dom in Hej. set_solver. }
  split.
  - apply Forall2_same_length_lookup. rewrite !length_insert. split; [done|]. intros j mj ej.
    destruct (decide (j = i)) as [->|Hj].
    + rewrite !list_lookup_insert_eq by (try rewrite <-Hlen; by eapply lookup_lt_Some).
      by intros [= <-] [= <-].
    + rewrite !list_lookup_insert_ne by done. intros Hmj Hej.
      pose proof (Forall2_lookup_lr _ _ _ _ _ _ Hes Hmj Hej) as He.
      eapply elements_writes; [exact Hw|exact He|].
      pose proof (arrays_apart _ _ _ _ _ Hcs He). pose proof (Hsep j i mj m Hmj Hi Hj). set_solver.
  - intros j k mj mk. destruct (decide (j = i)) as [->|Hj], (decide (k = i)) as [->|Hk]; [done|..].
    + rewrite list_lookup_insert_eq, list_lookup_insert_ne by (done || by eapply lookup_lt_Some).
      intros [= <-] Hmk _. symmetry. by eapply Hothers.
    + rewrite list_lookup_insert_ne, list_lookup_insert_eq by (done || by eapply lookup_lt_Some).
      intros Hmj [= <-] _. by eapply Hothers.
    + rewrite !list_lookup_insert_ne by done. intros Hmj Hmk Hne. by eapply Hsep.
Qed.

Lemma writes_envs_step sc ms i m s' h h1 h' :
  ms !! i = Some m -> separate ms ->
  writes_only (array (Some sc) ∪ array (mc_Env m)) h h1 ->
  writes_envs sc (drop (S i) (<[i := {| mc_value := mc_value m; mc_Env := s' |}]> ms)) h1 h' ->
  writes_envs sc (drop i ms) h h'.
Proof.
  intros Hi Hsep [D1 F1] [D2 F2]. split; [set_solver|]. intros l Hl Hsc Hms.
  rewrite (drop_S _ _ _ Hi), Forall_cons in Hms. destruct Hms as [Hm Hms].
  rewrite F2, F1; [done|done|set_solver|set_solver|done|].
  by rewrite drop_insert_lt by lia.
Qed.

(** What the header of a container showed before stays, when the later
    containers are changed. *)
Lemma environments_kept sc ms i m h1 h' e s' :
  ms !! i = Some m -> separate ms -> elements TEnvVar (mc_Env m) h1 e ->
  array (mc_Env m) ## array (Some sc) ->
  writes_envs sc (drop (S i) (<[i := {| mc_value := mc_value m; mc_Env := s' |}]> ms)) h1 h' ->
  elements TEnvVar (mc_Env m) h' e.
Proof.
  intros Hi Hsep He Hap Hw. eapply elements_envs; [exact Hw|exact He|exact Hap|].
  rewrite drop_insert_lt by lia. apply Forall_lookup. intros j mj Hj.
  rewrite lookup_drop in Hj. eapply Hsep; [exact Hi|exact Hj|lia].
Qed.

Lemma mem_update_envs_spec envs sc i n h (ms : list mContainer) (es : list (list EnvVar)) :
  elements TContainer (Some sc) h ms -> environments h ms es -> separate ms ->
  (i + n = length ms)%nat ->
  exists ms' h' es_old, mem_update_envs (Some sc) envs i n h = Ret (tt, h')
    /\ elements TContainer (Some sc) h' ms' /\ separate ms' /\ mc_value <$> ms' = mc_value <$> ms
    /\ environments h' ms' (take i es ++ (fold_left apply_env envs <$> drop i es))
    /\ environments h' ms es_old /\ Forall2 (Forall2 (touched envs)) es es_old
    /\ writes_envs sc (drop i ms) h h'.
Proof.
  revert i h ms es. induction n as [|n IH]; intros i h ms es Hcs Hes Hsep Hn;
    pose proof (environments_length _ _ _ Hes) as Hlen.
  - exists ms, h, es. rewrite take_ge, (drop_ge es), app_nil_r by lia.
    split_and!; [done..| |by split].
    apply Forall_Forall2_diag, Forall_true. intros e. apply touched_refl.
  - destruct (lookup_lt_is_Some_2 ms i ltac:(lia)) as [m Hi].
    destruct (lookup_lt_is_Some_2 es i ltac:(lia)) as [e He].
    pose proof (Forall2_lookup_lr _ _ _ _ _ _ Hes Hi He) as Henv.
    destruct (mem_updateContainerEnv_spec envs sc i h ms m e (mc_Env m) e Hcs Hi Henv Henv)
      as (s' & h1 & e1 & E & Hcs1 & Henv1 & Hold & Ht & Ha & Hw); [exact (old_view_refl _ _ _ _ Henv)|].
    cbn [mem_update_envs]. rewrite (Go_bind_eq _ _ _ _ _ E).
    destruct (environments_insert sc h h1 ms es i m s' _ Hes Hsep Hi Hcs Hw Henv1 Ha) as [Hes1 Hsep1].
    destruct (IH (S i) h1 _ _ Hcs1 Hes1 Hsep1) as
      (ms' & h' & es_old & E' & Hcs' & Hsep' & Hv & Hes' & Holds & Hts & Hw'); [rewrite length_insert; lia|].
    exists ms', h', (<[i := e1]> es_old).
    pose proof (arrays_apart _ _ _ _ _ Hcs Henv) as Hap.
    pose proof (environments_kept _ _ _ _ _ _ _ _ Hi Hsep Hold Hap Hw') as Hkept.
    split_and!; [exact E'|exact Hcs'|exact Hsep'| | | | |by eapply writes_envs_step].
    + rewrite Hv, list_fmap_insert. cbn [mc_value]. apply list_insert_id.
      by rewrite list_lookup_fmap, Hi.
    + rewrite (drop_S _ _ _ He). rewrite drop_insert_lt in Hes' by lia.
      rewrite (take_S_r _ _ (fold_left apply_env envs e)), take_insert_ge, <-app_assoc in Hes';
        [done|lia|apply list_lookup_insert_eq; by eapply lookup_lt_Some].
    + rewrite <-(list_insert_id _ _ _ Hi).
      replace ms with (<[i := m]> (<[i := {| mc_value := mc_value m; mc_Env := s' |}]> ms))
        by (rewrite list_insert_insert_eq; by apply list_insert_id).
      rewrite list_insert_insert_eq. by apply Forall2_insert.
    + rewrite <-(list_insert_id _ _ _ He).
      replace es with (<[i := e]> (<[i := fold_left apply_env envs e]> es))
        by (rewrite list_insert_insert_eq; by apply list_insert_id).
      rewrite list_insert_insert_eq. by apply Forall2_insert.
Qed.
End containers.

(** ** The list of containers *)
Section pod.
Context `{Hk8s : K8sTypes} `{Hgo : GoRuntime}.

Lemma set_Env_id c : c_Env c = [] -> set_Env [] c = c.
Proof. destruct c. cbn. by intros ->. Qed.

Lemma new_container_spec c h :
  exists m h', new_container c h = Ret (m, h') /\ mc_value m = set_Env [] c
    /\ elements TEnvVar (mc_Env m) h' (c_Env c) /\ array (mc_Env m) ## dom h
    /\ writes_only ∅ h h'.
Proof.
  unfold new_container. destruct (c_Env c) as [|e env] eqn:E.
  - exists {| mc_value := c; mc_Env := None |}, h. cbn. rewrite set_Env_id by done.
    split_and!; [done..|set_solver|apply writes_only_refl].
  - eexists _, _. split; [reflexivity|]. cbn [mc_value mc_Env]. split_and!; [done| | |].
    + eexists. split; [apply peek_insert_eq|]. by apply slice_elems_all.
    + pose proof (is_fresh (dom h)). set_solver.
    + apply writes_only_fresh, is_fresh.
Qed.

(** The header [m] shows the container [c]. *)
Definition container_at (h : Heap) (m : mContainer) (c : Container) : Prop :=
  mc_value m = set_Env [] c /\ elements TEnvVar (mc_Env m) h (c_Env c).

Lemma containers_at h ms cs :
  Forall2 (container_at h) ms cs <->
  mc_value <$> ms = set_Env [] <$> cs /\ environments h ms (c_Env <$> cs).
Proof.
  unfold environments. rewrite Forall2_fmap_r. split.
  - intros Hf. split; [|eapply Forall2_impl; [exact Hf|by intros ?? []]].
    apply list_eq_Forall2, Forall2_fmap. eapply Forall2_impl; [exact Hf|by intros ?? []].
  - intros [Hv He]. revert Hv. induction He; [constructor|]. intros [= ??].
    constructor; [by split|auto].
Qed.

(** What the list shows; its environments may be shared. *)
Definition shows (s : option Slice) (h : Heap) (cs : list Container) : Prop :=
  exists ms, elements TContainer s h ms /\ Forall2 (container_at h) ms cs.

(** A pod: no array is the environment of two containers. *)
Definition pod_at (s : option Slice) (h : Heap) (cs : list Container) : Prop :=
  exists ms, elements TContainer s h ms /\ Forall2 (container_at h) ms cs /\ separate ms.

(** A header from before, and the list that grew out of it. *)
Lemma old_view_append s0 s h (ms0 ms : list mContainer) m :
  elements TContainer s0 h ms0 -> elements TContainer s h ms -> old_view s0 s ms0 ms ->
  exists s' h', append_container s m h = Ret (s', h')
    /\ elements TContainer s' h' (ms ++ [m]) /\ elements TContainer s0 h' ms0
    /\ old_view s0 s' ms0 (ms ++ [m]) /\ writes_only (array s) h h'.
Proof.
  intros Hs0 Hs Hold.
  destruct (append_old TContainer mContainer_zero s h ms m Hs) as (s' & b & E & Hs' & Hk & Hg & Hw).
  exists (Some s'), (<[sl_array s' := b]> h). split_and!; [exact E|exact Hs'| | |exact Hw].
  - destruct Hold as [(sl0 & sl & -> & -> & Hx & ->)|Hd];
      [exact (elements_prefix TContainer sl0 sl _ _ Hx Hk)|by eapply elements_writes].
  - pose proof (array_dom _ _ _ _ Hs0) as Hd0.
    destruct Hg as [(sl & ? & -> & [= <-] & Hx)|Hf]; [|right; set_solver].
    destruct Hold as [(sl0 & ? & -> & [= <-] & Hx0 & Et)|Hd].
    + left. exists sl0, s'. split_and!; [done|done|by eapply extends_trans|].
      apply elements_length in Hs. destruct Hx0 as (_ & _ & _ & Hl). cbn in Hs.
      rewrite take_app_le; [done|]. by rewrite <-Hs.
    + right. cbn [array] in *. by rewrite (extends_array _ _ Hx).
Qed.

Lemma environments_writes s h h' ms cs :
  elements TContainer s h ms -> writes_only (array s) h h' ->
  Forall2 (container_at h) ms cs -> Forall2 (container_at h') ms cs.
Proof.
  intros Hs Hw Hf. eapply Forall2_impl; [exact Hf|]. intros m c [Hv He]. split; [done|].
  eapply elements_writes; [exact Hw|exact He|]. by eapply arrays_apart.
Qed.

Lemma separate_snoc h ms cs m :
  Forall2 (container_at h) ms cs -> separate ms -> array (mc_Env m) ## dom h ->
  separate (ms ++ [m]).
Proof.
  intros Hf Hsep Hm.
  assert (forall i mi, ms !! i = Some mi -> array (mc_Env mi) ## array (mc_Env m)) as Hd.
  { intros i mi Hi. destruct (Forall2_lookup_l _ _ _ _ _ Hf Hi) as (c & _ & _ & He).
    apply array_dom in He. set_solver. }
  intros i j mi mj Hi Hj Hne.
  apply lookup_snoc_Some in Hi as [[_ Hi]|[-> <-]], Hj as [[_ Hj]|[-> <-]]; 
    [by eapply Hsep|by eapply Hd|symmetry; by eapply Hd|done].
Qed.
End pod.

(** ** [update] *)
Section update.
Context `{Hk8s : K8sTypes} `{Hlab : LabelsPkg} `{Hgo : GoRuntime} `{UnicodeTables} `{MapRange}.

(** The state of the update, and memory. *)
Definition on_state {A} (m : Go updateState A) : Go (updateState * Heap) A := fun sh =>
  '(a, s) ← m sh.1; mret (a, (s, sh.2)).
Definition on_heap {A} (m : Go Heap A) : Go (updateState * Heap) A := fun sh =>
  '(a, h) ← m sh.2; mret (a, (sh.1, h)).

(** [nonAuthProxyContainers], a slice of its own that nothing else refers to:
    a list. *)
Fixpoint mem_nonAuthProxyContainers (containers : option Slice) (i n : nat)
    : Go Heap (list mContainer) :=
  match n with
  | O => mret []
  | S n =>
      c ← slice_get TContainer containers i;
      others ← mem_nonAuthProxyContainers containers (S i) n;
      mret (if HasPrefix (c_Name (mc_value c)) ContainerPrefix then others else c :: others)
  end.

(** A proxy container for each resource. *)
Fixpoint mem_add_containers (containers : option Slice) (matches : list AuthProxyWorkload)
    : Go (updateState * Heap) (option Slice) :=
  match matches with
  | [] => mret containers
  | inst :: matches =>
      c ← on_state (updateContainer inst Container_zero);
      newContainer ← on_heap (new_container c);
      containers ← on_heap (append_container containers newContainer);
      mem_add_containers containers matches
  end.

(** The list that [SetPodSpec] gives the pod, or the error. *)
Inductive mConfigResult : Type :=
| MemConfigured (containers : option Slice)
| MemConfigFailed (e : ConfigError).

Definition mem_update (containers : option Slice) (matches : list AuthProxyWorkload)
    : Go (updateState * Heap) mConfigResult :=
  _ ← on_state (initState matches);
  nonAuthProxyContainers ← on_heap (mem_nonAuthProxyContainers containers 0 (slice_len containers));
  _ ← on_state (for_range (fun c =>
        for_range (fun port => addInUsePort (cp_ContainerPort port) (c_Name (mc_value c)))
          (c_Ports (mc_value c)))
      nonAuthProxyContainers);
  containers ← mem_add_containers containers matches;
  s ← on_state get;
  _ ← on_heap (mem_update_envs containers (me_OperatorManagedValue <$> us_EnvVars s) 0
                 (slice_len containers));
  if (0 <? Z.of_nat (length (us_details s)))%Z then mret (MemConfigFailed (us_err s))
  else mret (MemConfigured containers).

Lemma on_state_eq {A} (m : Go updateState A) s h a s' :
  m s = Ret (a, s') -> on_state m (s, h) = Ret (a, (s', h)).
Proof. intros E. unfold on_state. cbn. by rewrite E. Qed.

Lemma on_heap_eq {A} (m : Go Heap A) s h a h' :
  m h = Ret (a, h') -> on_heap m (s, h) = Ret (a, (s, h')).
Proof. intros E. unfold on_heap. cbn. by rewrite E. Qed.

Lemma mem_nonAuthProxyContainers_spec s i n h (ms : list mContainer) :
  elements TContainer s h ms -> (i + n = length ms)%nat ->
  mem_nonAuthProxyContainers s i n h
  = Ret (List.filter (fun m => negb (HasPrefix (c_Name (mc_value m)) ContainerPrefix)) (drop i ms), h).
Proof.
  intros Hs. revert i. induction n as [|n IH]; intros i Hn; cbn [mem_nonAuthProxyContainers].
  - by rewrite drop_ge by lia.
  - destruct (lookup_lt_is_Some_2 ms i ltac:(lia)) as [m Hm].
    rewrite (Go_bind_eq _ _ _ _ _ (elements_get _ _ _ _ _ _ Hs Hm)).
    rewrite (Go_bind_eq _ _ _ _ _ (IH (S i) ltac:(lia))), (drop_S _ _ _ Hm).
    cbn. by destruct (HasPrefix _ _).
Qed.

(** The ports of the containers do not depend on their environments. *)
Lemma in_use_ports_eq h ms cs s :
  Forall2 (container_at h) ms cs ->
  for_range (fun c => for_range (fun port => addInUsePort (cp_ContainerPort port)
      (c_Name (mc_value c))) (c_Ports (mc_value c)))
    (List.filter (fun m => negb (HasPrefix (c_Name (mc_value m)) ContainerPrefix)) ms) s
  = for_range (fun c => for_range (fun port => addInUsePort (cp_ContainerPort port) (c_Name c))
      (c_Ports c))
    (List.filter (fun c => negb (HasPrefix (c_Name c) ContainerPrefix)) cs) s.
Proof.
  intros Hf. revert s. induction Hf as [|m c ms cs [Hv _] _ IH]; intros s; [done|]. cbn [List.filter].
  rewrite Hv. change (c_Name (set_Env [] c)) with (c_Name c).
  destruct (HasPrefix _ _); cbn [negb]; [apply IH|].
  unfold for_range at 1 3. cbn [fold_range]. rewrite Hv. unfold mbind, Go_bind.
  change (c_Ports (set_Env [] c)) with (c_Ports c). change (c_Name (set_Env [] c)) with (c_Name c).
  destruct (for_range _ _ s) as [[[] s']| |]; [exact (IH s')|done..].
Qed.

Lemma mem_add_containers_spec matches : forall s0 s h (ms0 ms : list mContainer) cs st cs' st',
  elements TContainer s0 h ms0 -> elements TContainer s h ms -> old_view s0 s ms0 ms ->
  Forall2 (container_at h) ms cs -> separate ms ->
  fold_range (fun containers inst =>
    newContainer ← updateContainer inst Container_zero;
    mret (containers ++ [newContainer])) cs matches st = Ret (cs', st') ->
  exists s' h' more, mem_add_containers s matches (st, h) = Ret (s', (st', h'))
    /\ elements TContainer s' h' (ms ++ more) /\ elements TContainer s0 h' ms0
    /\ old_view s0 s' ms0 (ms ++ more)
    /\ Forall2 (container_at h') (ms ++ more) cs' /\ separate (ms ++ more)
    /\ cs `prefix_of` cs'.
Proof.
  induction matches as [|p matches IH]; intros s0 s h ms0 ms cs st cs' st' Hs0 Hs Hold Hf Hsep.
  - intros [= <- <-]. exists s, h, []. rewrite app_nil_r. by split_and!.
  - cbn [fold_range mem_add_containers].
    intros (cs1 & st1 & (c & st2 & E & [= <- <-])%Go_bind_Ret & E2)%Go_bind_Ret.
    rewrite (Go_bind_eq _ _ _ _ _ (on_state_eq _ _ h _ _ E)).
    destruct (new_container_spec c h) as (m & h1 & Em & Hv & He & Hd & Hw1).
    rewrite (Go_bind_eq _ _ _ _ _ (on_heap_eq _ st2 _ _ _ Em)).
    pose proof (elements_writes _ _ _ _ _ _ Hw1 Hs0 ltac:(set_solver)) as Hs01.
    pose proof (elements_writes _ _ _ _ _ _ Hw1 Hs ltac:(set_solver)) as Hs1.
    assert (Forall2 (container_at h1) ms cs) as Hf1
      by (eapply environments_writes; [exact Hs|eapply writes_only_weaken; [exact Hw1|set_solver]|done]).
    destruct (old_view_append s0 s h1 ms0 ms m Hs01 Hs1 Hold) as (s2 & h2 & Ea & Hs2 & Hs02 & Hold2 & Hw2).
    rewrite (Go_bind_eq _ _ _ _ _ (on_heap_eq _ st2 _ _ _ Ea)).
    destruct (IH s0 s2 h2 ms0 (ms ++ [m]) (cs ++ [c]) st2 cs' st' Hs02 Hs2 Hold2) as
      (s' & h' & more & E3 & H1 & H2 & H3 & H4 & H5 & H6); [| |exact E2|].
    + apply Forall2_app; [by eapply environments_writes|]. constructor; [|constructor].
      split; [done|]. eapply elements_writes; [exact Hw2|exact He|by eapply arrays_apart].
    + exact (separate_snoc _ _ _ _ Hf Hsep Hd).
    + exists s', h', (m :: more). rewrite <-app_assoc in *. split_and!; [done..|].
      etransitivity; [by apply prefix_app_r|exact H6].
Qed.

(** What [updateContainerEnv] does to an environment that is looked at through
    an older header: its variables keep their names and have their own value or
    the operator's, and operator's variables may follow them. *)
Definition env_after (envs env env' : list EnvVar) : Prop :=
  exists old extra, env' = old ++ extra /\ Forall2 (touched envs) env old
    /\ Forall (fun e => e ∈ envs) extra.

Lemma fold_apply_env_after envs env : env_after envs env (fold_left apply_env envs env).
Proof.
  revert env. induction envs as [|ev envs IH]; intros env; cbn [fold_left].
  - exists env, []. rewrite app_nil_r. split_and!; [done|apply touched_refl|constructor].
  - destruct (IH (apply_env env ev)) as (old & extra & -> & Ht & Hx).
    rewrite apply_env_overwrite in Ht.
    apply Forall2_app_inv_l in Ht as (old1 & old2 & Ht1 & Ht2 & ->).
    exists old1, (old2 ++ extra). rewrite app_assoc. split_and!; [done|by apply overwrite_touched|].
    apply Forall_app. split.
    + destruct (existsb _ _); [by inversion Ht2|]. inversion_clear Ht2 as [|? e ? ? He Hn].
      inversion_clear Hn. constructor; [|constructor].
      destruct He as [->|[Hin _]]; [by left|by right].
    + eapply Forall_impl; [exact Hx|]. intros e. by right.
Qed.

(** A container of the pod, looked at through the list the pod had. *)
Definition container_after (envs : list EnvVar) (c c' : Container) : Prop :=
  set_Env [] c' = set_Env [] c /\ env_after envs (c_Env c) (c_Env c').

Lemma containers_after envs h h' (ms : list mContainer) cs es :
  Forall2 (container_at h) ms cs -> environments h' ms es ->
  Forall2 (Forall2 (touched envs)) (c_Env <$> cs) es ->
  exists cs', Forall2 (container_at h') ms cs' /\ Forall2 (container_after envs) cs cs'.
Proof.
  intros Hf. revert es. induction Hf as [|m c ms cs [Hv _] _ IH]; intros es Hes Ht.
  - by exists [].
  - destruct es as [|e es]; [by inversion Hes|]. apply Forall2_cons in Hes as [He Hes].
    apply Forall2_cons in Ht as [Hte Ht]. destruct (IH _ Hes Ht) as (cs' & H1 & H2).
    exists (set_Env e c :: cs'). split; constructor; [by split|done| |done].
    split; [done|]. exists e, []. by rewrite app_nil_r.
Qed.

Definition with_operator_env (envs : list EnvVar) (c : Container) : Container :=
  set_Env (fold_left apply_env envs (c_Env c)) c.

Lemma with_operator_env_after envs c : container_after envs c (with_operator_env envs c).
Proof. split; [done|]. apply fold_apply_env_after. Qed.

(** The environments, and the list the pod had. *)
Lemma mem_update_envs_pod envs s0 s h (ms0 more : list mContainer) cs0 mcs :
  elements TContainer s0 h ms0 -> elements TContainer s h (ms0 ++ more) ->
  old_view s0 s ms0 (ms0 ++ more) -> Forall2 (container_at h) ms0 cs0 ->
  Forall2 (container_at h) more mcs -> separate (ms0 ++ more) ->
  exists h', mem_update_envs s envs 0 (slice_len s) h = Ret (tt, h')
    /\ pod_at s h' (with_operator_env envs <$> (cs0 ++ mcs))
    /\ exists cs0', shows s0 h' cs0' /\ Forall2 (container_after envs) cs0 cs0'.
Proof.
  intros Hs0 Hs Hold Hf0 Hf Hsep. pose proof (Forall2_app Hf0 Hf) as Hall.
  pose proof (proj1 (containers_at _ _ _) Hall) as [Hv Hes].
  pose proof (Forall2_length _ _ _ Hf0) as Hlen0.
  destruct s as [sc|].
  - destruct (mem_update_envs_spec envs sc 0 (slice_len (Some sc)) h _ _ Hs Hes Hsep)
      as (ms' & h' & es_old & E & Hs' & Hsep' & Hv' & Hes' & Hold' & Ht & Hw);
      [by rewrite (elements_length _ _ _ _ Hs)|].
    change (environments h' ms' (fold_left apply_env envs <$> (c_Env <$> (cs0 ++ mcs)))) in Hes'.
    rewrite drop_0 in Hw.
    assert (Forall2 (container_at h') ms' (with_operator_env envs <$> (cs0 ++ mcs))) as Hall'.
    { apply containers_at. split; [by rewrite Hv', Hv, <-list_fmap_compose|].
      unfold environments in *. rewrite !Forall2_fmap_r in *. exact Hes'. }
    exists h'. split_and!; [exact E|by exists ms'|].
    destruct Hold as [(sl0 & ? & -> & [= <-] & Hx & Et)|Hd].
    + exists (with_operator_env envs <$> cs0). split.
      * exists (take (sl_len sl0) ms'). split; [by eapply elements_prefix|].
        replace (with_operator_env envs <$> cs0) with
          (take (sl_len sl0) (with_operator_env envs <$> (cs0 ++ mcs))); [by apply Forall2_take|].
        apply elements_length in Hs0. cbn in Hs0.
        rewrite fmap_app. apply take_app_length'. rewrite length_fmap. congruence.
      * apply Forall2_fmap_r, Forall_Forall2_diag, Forall_true, with_operator_env_after.
    + assert (elements TContainer s0 h' ms0) as Hs0'.
      { eapply elements_frame; [exact Hs0|]. intros sl ->. destruct Hw as [_ Hw].
        apply Hw; [by eapply elements_dom|set_solver|].
        apply Forall_forall. intros m Hm. apply list_elem_of_lookup in Hm as [i Hi].
        destruct (Forall2_lookup_l _ _ _ _ _ Hall Hi) as (c & _ & _ & He).
        pose proof (arrays_apart _ _ _ _ _ Hs0 He). set_solver. }
      unfold environments in Hold'. rewrite fmap_app in Ht.
      apply Forall2_app_inv_l in Ht as (es0 & es1 & Ht & _ & ->).
      apply Forall2_app_inv in Hold' as [Hold' _];
        [|apply Forall2_length in Ht; rewrite length_fmap in Ht; by rewrite Hlen0, Ht].
      destruct (containers_after envs h h' ms0 cs0 es0 Hf0 Hold' Ht) as (cs0' & H1 & H2).
      exists cs0'. split; [by exists ms0|done].
  - cbn in Hs. apply app_eq_nil in Hs as [-> ->]. inversion Hf0; inversion Hf; subst.
    exists h. split_and!; [done|by exists []|]. exists []. split; [|constructor].
    exists []. by split; [|constructor].
Qed.

(** What the two runs return. *)
Definition same_result (wl : PodWorkload) (h : Heap) (r : ConfigResult) (r' : mConfigResult) : Prop :=
  match r, r' with
  | Configured wl', MemConfigured s =>
      exists cs, pod_at s h cs
        /\ wl' = SetPodSpec {| ps_Containers := cs; ps_rest := ps_rest (PodSpecOf wl) |} wl
  | ConfigFailed e, MemConfigFailed e' => e' = e
  | _, _ => False
  end.

(** C18: [updateState.update] on the pod in memory, where the list of containers
    and their environments are slices that [append] and the assignments
    [c.Env[j] = operatorEnv] share with the pod the caller holds, is the update
    of values: it ends in the same state of the updater, and sets a list of
    containers that shows exactly the containers of [update], in a memory where
    no two containers share an environment, or it returns the same
    [ConfigError].  In both cases the list the pod had before still shows its own
    containers, in their order and without proxy containers, with nothing but
    their environments changed: the pod that is kept after an error may have
    operator values in its variables, and operator variables after them. *)
Theorem update_in_memory wl matches st r st' s h :
  pod_at s h (ps_Containers (PodSpecOf wl)) ->
  update wl matches st = Ret (r, st') ->
  exists r' h', mem_update s matches (st, h) = Ret (r', (st', h'))
    /\ same_result wl h' r r'
    /\ exists cs, shows s h' cs
         /\ Forall2 (container_after (me_OperatorManagedValue <$> us_EnvVars st'))
              (ps_Containers (PodSpecOf wl)) cs.
Proof.
  intros (ms & Hs & Hf & Hsep) ([] & st1 & E1 & E)%Go_bind_Ret. unfold mem_update.
  rewrite (Go_bind_eq _ _ _ _ _ (on_state_eq _ _ h _ _ E1)).
  apply Go_bind_Ret in E as ([] & st2 & E2 & (cs & st3 & E3 & E)%Go_bind_Ret).
  rewrite (Go_bind_eq _ _ _ _ _ (on_heap_eq _ st1 _ _ _
    (mem_nonAuthProxyContainers_spec s 0 (slice_len s) h ms Hs (elements_length _ _ _ _ Hs)))).
  change (drop 0 ms) with ms. rewrite <-(in_use_ports_eq _ _ _ _ Hf) in E2.
  rewrite (Go_bind_eq _ _ _ _ _ (on_state_eq _ _ h _ _ E2)).
  destruct (mem_add_containers_spec matches s s h ms ms _ st2 cs st3 Hs Hs
              (old_view_refl _ _ _ _ Hs) Hf Hsep E3)
    as (s' & h1 & more & Ea & Hs' & Hs1 & Hold & Hf' & Hsep' & [mcs ->]).
  rewrite (Go_bind_eq _ _ _ _ _ Ea).
  apply Forall2_app_inv in Hf' as [Hf1 Hfm]; [|by eapply Forall2_length].
  apply Go_bind_Ret in E as (? & ? & [= <- <-] & E).
  rewrite (Go_bind_eq _ _ _ _ _ (on_state_eq get st3 h1 _ _ eq_refl)).
  destruct (mem_update_envs_pod (me_OperatorManagedValue <$> us_EnvVars st3) s s' h1 ms more _ mcs
              Hs1 Hs' Hold Hf1 Hfm Hsep') as (h2 & Eu & Hpod & Hafter).
  rewrite (Go_bind_eq _ _ _ _ _ (on_heap_eq _ st3 _ _ _ Eu)).
  destruct (0 <? _)%Z; injection E as <- <-; eexists _, h2; (split; [reflexivity|]);
    (split; [|exact Hafter]); [done|].
  exists (with_operator_env (me_OperatorManagedValue <$> us_EnvVars st3)
            <$> (ps_Containers (PodSpecOf wl) ++ mcs)). by split.
Qed.
End update.

(** ** A pod that keeps operator values after an error *)
Section example.
Import ConcreteInstances.

Lemma one_more_gt n : (n < S n)%nat.
Proof. lia. Qed.

(** Slices without room. *)
Definition one_more : GoRuntime := {| grow := S; grow_gt := one_more_gt |}.
#[local] Existing Instance one_more.
#[local] Existing Instance in_order.

(** [web_pod]: the list is block 1, the environment block 2. *)
Definition web_env : list EnvVar := match ps_Containers (PodSpecOf web_pod) with
  | [c] => c_Env c
  | _ => []
  end.

Definition web_list : option Slice :=
  Some {| sl_array := 1%positive; sl_off := 0; sl_len := 1; sl_cap := 1 |}.

Definition web_heap : Heap :=
  <[1%positive := {| b_ty := TContainer : ty; b_data := (fun c =>
       {| mc_value := set_Env [] c;
          mc_Env := Some {| sl_array := 2%positive; sl_off := 0; sl_len := 2; sl_cap := 2 |} |})
       <$> ps_Containers (PodSpecOf web_pod) |}]>
  (<[2%positive := {| b_ty := TEnvVar : ty; b_data := web_env |}]> ∅).

Lemma web_pod_at : pod_at web_list web_heap (ps_Containers (PodSpecOf web_pod)).
Proof.
  eexists [_]. split_and!.
  - eexists. split; reflexivity.
  - constructor; [|constructor]. split; [reflexivity|]. eexists. split; reflexivity.
  - intros [|] [|] m m' Hi Hj Hne; done.
Qed.

Definition updater : Updater := NewUpdater "cloud-sql-proxy-operator/test".

(** The second resource asks for a port in use. *)
Definition failing : list AuthProxyWorkload := [orders_apw; clash_apw].

Lemma update_in_memory_witness :
  match update web_pod failing (initial_state updater web_pod) with
  | Ret (r, st') => exists r' h',
      mem_update web_list failing (initial_state updater web_pod, web_heap) = Ret (r', (st', h'))
      /\ same_result web_pod h' r r'
      /\ exists cs, shows web_list h' cs
           /\ Forall2 (container_after (me_OperatorManagedValue <$> us_EnvVars st'))
                (ps_Containers (PodSpecOf web_pod)) cs
  | _ => False
  end.
Proof.
  destruct (update web_pod failing (initial_state updater web_pod)) as [[r st']| |] eqn:E.
  - exact (update_in_memory web_pod failing _ r st' web_list web_heap web_pod_at E).
  - vm_compute in E. discriminate E.
  - vm_compute in E. discriminate E.
Defined.

(** The call fails, and the pod the caller holds has the operator's value. *)
Definition failed_env : option (list (string * string)) :=
  match mem_update web_list failing (initial_state updater web_pod, web_heap) with
  | Ret (MemConfigFailed _, (_, h)) =>
      match peek TEnvVar h 2%positive with
      | Some env => Some (map (fun e : EnvVar => (ev_Name e, ev_Value e)) env)
      | None => None
      end
  | _ => None
  end.

Example failed_update_keeps_env :
  failed_env = Some [("DB_HOST", "127.0.0.1"); ("LOG", "debug")]%string.
Proof. vm_compute. reflexivity. Qed.
End example.
