(* ===== verification/Concurrency.v ===== *)
(** * The controller among other clients

    [Reconcile] interleaved with users that create, edit and delete the
    resource: a step relation on the history of the resource at the API server
    and the state of the controller, one call of the controller at a time.
    The server refuses updates of an old version, the controller's reads may
    be of an old version (its cache lags behind), patches of the status are
    not checked.  What the server and the cache do is the documented behaviour
    of Kubernetes, stated by [serves] and [user_step]. *)

From S2P Require Import Prelude Interaction GoStd Api Concrete Names Workload Fixtures Status Reconciler.
From Stdlib Require Import Ascii.
#[local] Open Scope Z_scope.

(** ** The cluster *)

(** Resource versions are opaque; versions are numbered in the order in which
    they are stored, and get different strings. *)
Class Versions := {
  version : nat -> string;
  #[global] version_inj :: Inj (=) (=) version
}.

Section cluster.
Context `{Hk8s : K8sTypes} `{Hlab : LabelsPkg} `{Hschema : SchemaPkg} `{Hutil : ControllerUtil}
  `{Hver : Versions} (key : NamespacedName).

(** [log]: what was stored under [key], version by version ([None]: nothing);
    [seen]: the version at which the controller's client is. *)
Record Shared := {
  log : list (option AuthProxyWorkload);
  seen : nat;
  deleted_cache : recentlyDeletedCache
}.

Definition current (s : Shared) : option AuthProxyWorkload :=
  match last (log s) with Some (Some r) => Some r | _ => None end.

Definition stores (o : option AuthProxyWorkload) (s : Shared) : Shared :=
  {| log := log s ++ [o]; seen := seen s; deleted_cache := deleted_cache s |}.

Definition is_deleted (r : AuthProxyWorkload) : bool :=
  negb (Time_IsZero (om_DeletionTimestamp (apw_ObjectMeta r))).
Definition ResourceVersion (r : AuthProxyWorkload) : string := om_ResourceVersion (apw_ObjectMeta r).

(** The metadata with other generation, version and deletion timestamp. *)
Definition server_meta (g : Z) (v : string) (t : option Time) (r : AuthProxyWorkload)
    : AuthProxyWorkload := {|
  apw_GVK := apw_GVK r; apw_Spec := apw_Spec r; apw_Status := apw_Status r;
  apw_ObjectMeta := {|
    om_Name := om_Name (apw_ObjectMeta r); om_Namespace := om_Namespace (apw_ObjectMeta r);
    om_Generation := g; om_ResourceVersion := v;
    om_Labels := om_Labels (apw_ObjectMeta r);
    om_Annotations := om_Annotations (apw_ObjectMeta r);
    om_DeletionTimestamp := t;
    om_Finalizers := om_Finalizers (apw_ObjectMeta r);
    om_OwnerReferences := om_OwnerReferences (apw_ObjectMeta r);
    om_rest := om_rest (apw_ObjectMeta r) |} |}.

(** A resource that is being deleted is gone once it has no finalizers. *)
Definition settle_deletion (r : AuthProxyWorkload) : option AuthProxyWorkload :=
  if is_deleted r && bool_decide (apw_Finalizers r = []) then None else Some r.

(** The generation counts the changes of the spec. *)
Definition next_generation (cur r : AuthProxyWorkload) (g : Z) : Prop :=
  (apw_Spec r = apw_Spec cur /\ g = GetGeneration cur)
  \/ (apw_Spec r <> apw_Spec cur /\ g = GetGeneration cur + 1).

(** An update with [r], stored as the next version: the status is not part of
    it, and clients cannot set what the server keeps. *)
Definition updates (cur r : AuthProxyWorkload) (s s' : Shared) : Prop :=
  exists g, next_generation cur r g
  /\ s' = stores (settle_deletion (set_Status (apw_Status cur)
            (server_meta g (version (length (log s)))
               (om_DeletionTimestamp (apw_ObjectMeta cur)) r))) s.

(** A merge patch from [orig] to [r]: a list that differs is replaced. *)
Definition merged (cur r orig : AuthProxyWorkload) (st : AuthProxyWorkloadStatus) : Prop :=
  (status_Conditions st = status_Conditions (apw_Status r)
   \/ (status_Conditions (apw_Status r) = status_Conditions (apw_Status orig)
       /\ status_Conditions st = status_Conditions (apw_Status cur)))
  /\ (status_WorkloadStatus st = status_WorkloadStatus (apw_Status r)
      \/ (status_WorkloadStatus (apw_Status r) = status_WorkloadStatus (apw_Status orig)
          /\ status_WorkloadStatus st = status_WorkloadStatus (apw_Status cur))).

Definition patches (cur r orig : AuthProxyWorkload) (s s' : Shared) : Prop :=
  exists st, merged cur r orig st
  /\ s' = stores (Some (set_Status st (server_meta (GetGeneration cur) (version (length (log s)))
                          (om_DeletionTimestamp (apw_ObjectMeta cur)) cur))) s.

(** How calls are answered.  Any call may fail; a write may also be done
    although its answer is an error.  Reads do not go back in time.  A patch
    that changes nothing makes no version. *)
Definition serves {X} (c : Call X) : X -> Shared -> Shared -> Prop :=
  match c in Call X return X -> Shared -> Shared -> Prop with
  | GetResource k => fun x s s' =>
      ((exists e, x = Fail e) /\ s' = s)
      \/ (k = key /\ exists i o, (seen s <= i)%nat /\ log s !! i = Some o
          /\ s' = {| log := log s; seen := i; deleted_cache := deleted_cache s |}
          /\ match o with
             | Some r => x = OK r
             | None => exists msg, x = Fail (StatusError StatusReasonNotFound msg)
             end)
  | GetWorkload _ _ => fun _ s s' => s' = s
  | ListWorkloads _ _ _ => fun _ s s' => s' = s
  | Now => fun _ s s' => s' = s
  | UpdateResource r => fun x s s' =>
      ((exists e, x = Some e) /\ s' = s)
      \/ exists cur, current s = Some cur /\ apw_NamespacedName r = key
           /\ ResourceVersion r = ResourceVersion cur /\ updates cur r s s'
  | PatchStatus r orig => fun x s s' =>
      ((exists e, x = Some e) /\ s' = s)
      \/ exists cur, current s = Some cur /\ apw_NamespacedName r = key
           /\ (patches cur r orig s s' \/ (merged cur r orig (apw_Status cur) /\ s' = s))
  | CacheGet k => fun x s s' => x = cache_get k (deleted_cache s) /\ s' = s
  | CacheSet k b => fun _ s s' =>
      s' = {| log := log s; seen := seen s; deleted_cache := cache_set k b (deleted_cache s) |}
  end.

(** Users and other controllers: they leave this controller's finalizer and
    the status alone. *)
Inductive user_step (s : Shared) : Shared -> Prop :=
| user_create r :
    current s = None -> apw_NamespacedName r = key ->
    ResourceVersion r = version (length (log s)) -> is_deleted r = false ->
    status_Conditions (apw_Status r) = [] ->
    user_step s (stores (Some r) s)
| user_edit cur r s' :
    current s = Some cur -> apw_NamespacedName r = key ->
    (finalizerName ∈ apw_Finalizers r <-> finalizerName ∈ apw_Finalizers cur) ->
    updates cur r s s' ->
    user_step s s'
| user_delete cur t :
    current s = Some cur -> is_deleted cur = false -> Time_IsZero (Some t) = false ->
    user_step s (stores (settle_deletion
      (server_meta (GetGeneration cur + 1) (version (length (log s))) (Some t) cur)) s).

(** The controller has one worker for the resource; [thread] is the run in
    progress, with the calls it has made. *)
Record State := { shared : Shared; thread : option (list Event * Prog (Result * option error)) }.

Inductive controller_step : State -> State -> Prop :=
| start s :
    controller_step {| shared := s; thread := None |}
      {| shared := s; thread := Some ([], Reconcile key) |}
| call_step s s' es X (c : Call X) k x :
    serves c x s s' ->
    controller_step {| shared := s; thread := Some (es, Step c k) |}
      {| shared := s'; thread := Some (es ++ [event c x], k x) |}
| finish s es a :
    controller_step {| shared := s; thread := Some (es, Done a) |}
      {| shared := s; thread := None |}
| restart s th :
    controller_step {| shared := s; thread := th |}
      {| shared := {| log := log s; seen := seen s; deleted_cache := cache_zero |};
         thread := None |}.

Inductive step : State -> State -> Prop :=
| step_user s s' th :
    user_step s s' -> step {| shared := s; thread := th |} {| shared := s'; thread := th |}
| step_controller s s' : controller_step s s' -> step s s'.

Definition initial : State :=
  {| shared := {| log := [None]; seen := 0; deleted_cache := cache_zero |}; thread := None |}.

Definition reachable (s : State) : Prop := rtc step initial s.

End cluster.

(** ** The invariant *)
Section invariant.
Context `{Hk8s : K8sTypes} `{Hlab : LabelsPkg} `{Hschema : SchemaPkg} `{Hutil : ControllerUtil}
  `{Hver : Versions} (key : NamespacedName).

(** A live resource with this controller's finalizer. *)
Definition protected (r : AuthProxyWorkload) : Prop :=
  is_deleted r = false /\ finalizerName ∈ apw_Finalizers r.

(** If version [i] is live and has the finalizer, the resource has been there
    ever since, with the finalizer, and its generation has only grown. *)
Definition good_from (l : list (option AuthProxyWorkload)) (i : nat) : Prop :=
  forall r, l !! i = Some (Some r) -> protected r ->
  forall k o, (i <= k)%nat -> l !! k = Some o ->
  exists rk, o = Some rk /\ finalizerName ∈ apw_Finalizers rk /\ GetGeneration r <= GetGeneration rk.

Definition reports_past (r : AuthProxyWorkload) : Prop := forall c,
  findCondition (status_Conditions (apw_Status r)) ConditionUpToDate = Some c ->
  cond_ObservedGeneration c <= GetGeneration r.

Record inv (s : Shared) : Prop := {
  inv_seen : (seen s < length (log s))%nat;
  inv_version : forall k r, log s !! k = Some (Some r) ->
    ResourceVersion r = version k /\ apw_NamespacedName r = key;
  inv_good : forall i, (seen s <= i)%nat -> good_from (log s) i;
  inv_status : forall k r, log s !! k = Some (Some r) -> reports_past r
}.

(** What the run in progress has read. *)
Definition read_by (s : Shared) (es : list Event) : Prop := forall r0 es',
  es = event (GetResource key) (OK r0) :: es' -> writes es' = [] ->
  exists i, (i <= seen s)%nat /\ log s !! i = Some (Some r0) /\ good_from (log s) i.

Definition state_inv (s : State) : Prop :=
  inv (shared s) /\
  match thread s with
  | None => True
  | Some (es, m) => continues (Reconcile key) es m /\ read_by (shared s) es
  end.

Lemma current_lookup s r :
  current s = Some r <-> log s !! pred (length (log s)) = Some (Some r).
Proof.
  unfold current. rewrite last_lookup.
  destruct (log s !! pred (length (log s))) as [[r'|]|]; naive_solver.
Qed.

(** The next version [o] keeps the resource, its finalizer and its generation. *)
Definition keeps (s : Shared) (o : option AuthProxyWorkload) : Prop := forall cur,
  current s = Some cur -> finalizerName ∈ apw_Finalizers cur ->
  exists r', o = Some r' /\ finalizerName ∈ apw_Finalizers r' /\ GetGeneration cur <= GetGeneration r'.

Lemma good_from_snoc s o i :
  good_from (log s) i -> (i < length (log s))%nat -> keeps s o -> good_from (log s ++ [o]) i.
Proof.
  intros Hg Hi Hk r Hr Hp k o' Hik Ho. rewrite lookup_app_l in Hr by done.
  destruct (decide (k < length (log s))%nat) as [Hlt|Hge].
  - rewrite lookup_app_l in Ho by done. by eapply Hg.
  - pose proof (lookup_lt_Some _ _ _ Ho) as Hlen. rewrite length_app in Hlen. cbn in Hlen.
    assert (k = length (log s)) as -> by lia.
    rewrite list_lookup_middle in Ho by done. injection Ho as <-.
    destruct (lookup_lt_is_Some_2 (log s) (pred (length (log s))) ltac:(lia)) as [o' Ho'].
    destruct (Hg r Hr Hp (pred (length (log s))) _ ltac:(lia) Ho') as (rk & -> & Hfin & Hgen).
    destruct (Hk rk) as (r' & -> & ? & ?); [by apply current_lookup|done|].
    exists r'. split_and!; [done..|lia].
Qed.

Lemma good_from_new l o : good_from (l ++ [o]) (length l).
Proof.
  intros r Hr [_ Hp] k o' Hk Ho. pose proof (lookup_lt_Some _ _ _ Ho) as Hlen.
  rewrite length_app in Hlen. cbn in Hlen. assert (k = length l) as -> by lia.
  rewrite Hr in Ho. injection Ho as <-. exists r. split_and!; [done..|lia].
Qed.

(** What any stored version satisfies. *)
Definition well_stored (s : Shared) (o : option AuthProxyWorkload) : Prop := forall r,
  o = Some r -> ResourceVersion r = version (length (log s)) /\ apw_NamespacedName r = key
  /\ reports_past r.

Lemma lookup_snoc_Some {A} (l : list A) x k y :
  (l ++ [x]) !! k = Some y -> (k < length l)%nat /\ l !! k = Some y \/ k = length l /\ y = x.
Proof.
  intros [?|[? Hk]]%lookup_app_Some; [left; split; [by eapply lookup_lt_Some|done]|right].
  apply list_lookup_singleton_Some in Hk as [? ->]. split; [lia|done].
Qed.

Lemma inv_stores s o :
  inv s -> well_stored s o ->
  (forall i, (seen s <= i)%nat -> (i < length (log s))%nat -> good_from (log s ++ [o]) i) ->
  inv (stores o s).
Proof.
  intros [I1 I2 I3 I4] Hw Hg. split; cbn.
  - rewrite length_app. lia.
  - intros k r [[_ Hk]|[-> <-]]%lookup_snoc_Some; [by apply I2|]. destruct (Hw r) as (? & ? & _); done.
  - intros i Hi. destruct (decide (i < length (log s))%nat); [by apply Hg|].
    destruct (decide (i = length (log s))) as [->|]; [apply good_from_new|].
    intros r Hr. apply lookup_lt_Some in Hr. rewrite length_app in Hr. cbn in Hr. lia.
  - intros k r [[_ Hk]|[-> <-]]%lookup_snoc_Some; [by eapply I4|]. by apply Hw.
Qed.

Lemma inv_stores_keeps s o : inv s -> well_stored s o -> keeps s o -> inv (stores o s).
Proof.
  intros Hi Hw Hk. apply inv_stores; [done..|]. intros i Hs Hlt. apply good_from_snoc; [|done..].
  by apply Hi.
Qed.

Lemma read_by_keeps s o es : inv s -> keeps s o -> read_by s es -> read_by (stores o s) es.
Proof.
  intros Hi Hk Hr r0 es' E Hw. destruct (Hr r0 es' E Hw) as (i & Hs & Hl & Hg).
  pose proof (inv_seen _ Hi). exists i. cbn. split_and!; [done| |].
  - by apply lookup_app_l_Some.
  - apply good_from_snoc; [done|lia|done].
Qed.

Lemma settle_deletion_keeps r f :
  f ∈ apw_Finalizers r -> settle_deletion r = Some r.
Proof.
  intros Hf. unfold settle_deletion. rewrite bool_decide_eq_false_2; [by rewrite andb_false_r|].
  intros E. rewrite E in Hf. by apply elem_of_nil in Hf.
Qed.

Lemma settle_deletion_Some r r' : settle_deletion r = Some r' -> r' = r.
Proof. unfold settle_deletion. destruct (_ && _); [done|]. by intros [= <-]. Qed.

Lemma next_generation_le cur r g : next_generation cur r g -> GetGeneration cur <= g.
Proof. intros [[_ ->]|[_ ->]]; lia. Qed.

(** *** User steps *)
Lemma user_step_stores s s' :
  inv s -> user_step key s s' -> exists o, s' = stores o s /\ well_stored s o /\ keeps s o.
Proof.
  intros Hi Hu. destruct Hu as [r Hc Hn Hv Hd Hst|cur r s' Hc Hn Hf (g & Hg & ->)|cur t Hc Hd Ht];
    (eexists; split; [reflexivity|]); split.
  - intros r' [= <-]. split_and!; [done..|]. intros c. by rewrite Hst.
  - intros cur Hcur. congruence.
  - intros r' ->%settle_deletion_Some. split_and!; [done..|]. intros c Hfc.
    change (GetGeneration _) with g. apply current_lookup in Hc.
    pose proof (inv_status _ Hi _ _ Hc c Hfc). apply next_generation_le in Hg. lia.
  - intros cur' Hcur Hfin. rewrite Hc in Hcur. injection Hcur as <-.
    eexists. split; [eapply settle_deletion_keeps; by apply Hf|]. split; [by apply Hf|].
    by apply next_generation_le in Hg.
  - intros r' ->%settle_deletion_Some. apply current_lookup in Hc.
    destruct (inv_version _ Hi _ _ Hc) as [_ Hn]. split_and!; [done..|]. intros c Hfc.
    pose proof (inv_status _ Hi _ _ Hc c Hfc).
    change (GetGeneration (server_meta ?g _ _ _)) with g. lia.
  - intros cur' Hcur Hfin. rewrite Hc in Hcur. injection Hcur as <-.
    eexists. split; [by eapply settle_deletion_keeps|]. split; [done|].
    change (GetGeneration (server_meta ?g _ _ _)) with g. lia.
Qed.

(** *** Steps of the controller *)

(** The answered fetch in an event. *)
Definition fetch_of (e : Event) : option (NamespacedName * Res AuthProxyWorkload) :=
  match e with event (GetResource k) a => Some (k, a) | _ => None end.

(** A run writes once, safely, relative to what it read first. *)
Lemma thread_write s es X (c : Call X) k x :
  continues (Reconcile key) es (Step c k) -> read_by s es -> is_write (event c x) = true ->
  exists r0 es' i, es = event (GetResource key) (OK r0) :: es' /\ writes es' = []
    /\ safe_write r0 (event c x)
    /\ (i <= seen s)%nat /\ log s !! i = Some (Some r0) /\ good_from (log s) i.
Proof.
  intros Hc Hr Hw. destruct (continues_complete some_answer _ _ _ _ x Hc) as (es2 & a & Hrun).
  assert (writes (es ++ event c x :: es2) = writes es ++ event c x :: writes es2) as Ew.
  { rewrite writes_app. f_equal. change (event c x :: es2) with ([event c x] ++ es2).
    rewrite writes_app. unfold writes at 1. cbn [List.filter]. by rewrite Hw. }
  apply Reconcile_run in Hrun as [(e & es' & E & Hnil)|(r0 & es' & E & Hlen & Hsafe)].
  - rewrite Ew in Hnil. by destruct (writes es).
  - rewrite Ew in Hlen, Hsafe. rewrite length_app in Hlen. cbn in Hlen.
    assert (writes es = []) as Hes by (apply nil_length_inv; lia).
    apply Forall_app in Hsafe as [_ [Hsafe _]%Forall_cons].
    destruct es as [|e0 es0].
    { apply (f_equal (fun l => default false (is_write <$> head l))) in E.
      change (is_write (event c x) = false) in E. congruence. }
    injection E as -> _. exists r0, es0.
    destruct (Hr r0 es0 eq_refl Hes) as (i & ? & ? & ?). by exists i.
Qed.

(** An accepted update was made from the current version. *)
Lemma update_current s i r0 cur r :
  inv s -> log s !! i = Some (Some r0) -> current s = Some cur ->
  ResourceVersion r = ResourceVersion r0 -> ResourceVersion r = ResourceVersion cur ->
  i = pred (length (log s)) /\ r0 = cur.
Proof.
  intros Hi Hl Hc E1 E2. apply current_lookup in Hc.
  destruct (inv_version _ Hi _ _ Hl) as [V1 _]. destruct (inv_version _ Hi _ _ Hc) as [V2 _].
  assert (i = pred (length (log s))) as -> by (apply (inj version); congruence).
  split; [done|congruence].
Qed.

(** What the controller's write makes of the current version: only the status,
    this controller's finalizer and the resource version differ. *)
Definition controller_wrote (s : Shared) (cur stored : AuthProxyWorkload) : Prop :=
  exists l st,
    (forall f, f <> finalizerName -> f ∈ l <-> f ∈ apw_Finalizers cur)
    /\ stored = set_Status st (set_Finalizers l (server_meta (GetGeneration cur)
         (version (length (log s))) (om_DeletionTimestamp (apw_ObjectMeta cur)) cur)).

Lemma updates_outcome s s' r0 i cur r :
  inv s -> log s !! i = Some (Some r0) -> current s = Some cur ->
  safe_write r0 (event (UpdateResource r) None) ->
  ResourceVersion r = ResourceVersion cur -> updates cur r s s' ->
  i = pred (length (log s)) /\ r0 = cur /\
  exists stored, s' = stores (settle_deletion stored) s /\ controller_wrote s cur stored
    /\ apw_Status stored = apw_Status cur
    /\ apw_Finalizers stored = (if is_deleted cur
          then RemoveFinalizer (apw_Finalizers cur) finalizerName
          else AddFinalizer (apw_Finalizers cur) finalizerName).
Proof.
  intros Hi Hl Hc (r' & [st0 ->] & ->) Hv (g & Hg & ->).
  destruct (update_current s i r0 cur _ Hi Hl Hc eq_refl Hv) as [-> ->].
  split; [done|]. split; [done|].
  assert (g = GetGeneration cur) as -> by (by destruct Hg as [[_ ->]|[[]]]).
  eexists. split; [reflexivity|]. split_and!; [|done|].
  - exists (if Time_IsZero (om_DeletionTimestamp (apw_ObjectMeta cur))
            then AddFinalizer (apw_Finalizers cur) finalizerName
            else RemoveFinalizer (apw_Finalizers cur) finalizerName), (apw_Status cur).
    split; [|done]. intros f Hf.
    destruct (Time_IsZero _); [rewrite AddFinalizer_spec|rewrite RemoveFinalizer_spec]; tauto.
  - unfold is_deleted. by destruct (Time_IsZero _).
Qed.

Lemma controller_wrote_well_stored s cur stored :
  inv s -> current s = Some cur -> controller_wrote s cur stored -> reports_past stored ->
  well_stored s (Some stored).
Proof.
  intros Hi Hc (l & st & _ & ->) Hrep r [= <-]. apply current_lookup in Hc.
  destruct (inv_version _ Hi _ _ Hc) as [_ Hn]. done.
Qed.

Lemma well_stored_settle s r : well_stored s (Some r) -> well_stored s (settle_deletion r).
Proof. intros Hw r' ->%settle_deletion_Some. by apply Hw. Qed.

Lemma patches_outcome s s' r0 i cur r orig :
  inv s -> log s !! i = Some (Some r0) -> good_from (log s) i -> current s = Some cur ->
  safe_write r0 (event (PatchStatus r orig) None) -> patches cur r orig s s' ->
  finalizerName ∈ apw_Finalizers cur /\
  exists stored, s' = stores (Some stored) s /\ controller_wrote s cur stored
    /\ apw_Finalizers stored = apw_Finalizers cur /\ reports_past stored.
Proof.
  intros Hi Hl Hg Hc (-> & [st0 ->] & Hlive & Hfin & reason & c0 & Hc0 & _ & Hgen0 & _)
    (st & [Hm _] & ->).
  pose proof (proj1 (current_lookup _ _) Hc) as Hlast.
  assert (protected r0) as Hp
    by (split; [unfold is_deleted; by rewrite Hlive|by apply ContainsFinalizer_spec]).
  pose proof (lookup_lt_Some _ _ _ Hl) as Hlt.
  destruct (Hg r0 Hl Hp (pred (length (log s))) _ ltac:(lia) Hlast) as (rk & [= <-] & Hfink & Hgenk).
  split; [done|]. eexists. split; [reflexivity|]. split_and!; [|done|].
  - exists (apw_Finalizers cur), st. split; [done|]. by destruct cur as [? [] ? ?].
  - intros c Hfc. change (GetGeneration _) with (GetGeneration cur).
    change (status_Conditions (apw_Status _)) with (status_Conditions st) in Hfc.
    destruct Hm as [Hm|[_ Hm]]; rewrite Hm in Hfc.
    + rewrite Hc0 in Hfc. injection Hfc as <-. lia.
    + by apply (inv_status _ Hi _ _ Hlast).
Qed.

Lemma read_by_snoc s es e :
  read_by s es ->
  (forall r0, es = [] -> fetch_of e = Some (key, OK r0) ->
     exists i, (i <= seen s)%nat /\ log s !! i = Some (Some r0) /\ good_from (log s) i) ->
  read_by s (es ++ [e]).
Proof.
  intros Hr He r0 es' E Hw. destruct es as [|e0 es].
  - apply He; [done|]. injection E as -> _. done.
  - injection E as -> <-. rewrite writes_app in Hw. apply app_nil in Hw as [Hw _].
    by apply (Hr r0 es).
Qed.

Lemma read_by_seen s n c es :
  (seen s <= n)%nat -> read_by s es ->
  read_by {| log := log s; seen := n; deleted_cache := c |} es.
Proof.
  intros Hn Hr r0 es' E Hw. destruct (Hr r0 es' E Hw) as (i & ? & ? & ?). exists i. cbn.
  split_and!; [lia|done..].
Qed.

(** After a write the run is done with what it has read. *)
Lemma read_by_after_write s es e : es <> [] -> is_write e = true -> read_by s (es ++ [e]).
Proof.
  intros Hne Hw r0 es' E Hnil. destruct es as [|e0 es]; [done|].
  injection E as _ <-. rewrite writes_app in Hnil. apply app_nil in Hnil as [_ Hnil].
  unfold writes in Hnil. cbn in Hnil. by rewrite Hw in Hnil.
Qed.

Lemma updates_inv s s' r0 i cur r :
  inv s -> (i <= seen s)%nat -> log s !! i = Some (Some r0) -> current s = Some cur ->
  safe_write r0 (event (UpdateResource r) None) ->
  ResourceVersion r = ResourceVersion cur -> updates cur r s s' -> inv s'.
Proof.
  intros Hi Hs Hl Hc Hsafe Hv Hu.
  destruct (updates_outcome _ _ _ _ _ _ Hi Hl Hc Hsafe Hv Hu)
    as (-> & -> & stored & -> & Hcw & Hst & Hfin).
  pose proof (proj1 (current_lookup _ _) Hc) as Hlast. pose proof (inv_seen _ Hi) as Hlt.
  assert (GetGeneration stored = GetGeneration cur) as Hgen by by destruct Hcw as (l & st & _ & ->).
  assert (well_stored s (Some stored)) as Hw.
  { eapply controller_wrote_well_stored; [done..|]. intros c. rewrite Hst, Hgen.
    by apply (inv_status _ Hi _ _ Hlast). }
  destruct (is_deleted cur) eqn:Hd.
  - apply inv_stores; [done|by apply well_stored_settle|].
    intros j Hj Hjlt r1 Hr1 [Hp _]. rewrite lookup_app_l in Hr1 by done.
    assert (j = pred (length (log s))) as -> by lia. rewrite Hlast in Hr1.
    injection Hr1 as <-. congruence.
  - apply inv_stores_keeps; [done|by apply well_stored_settle|]. intros cur' Hcur _.
    rewrite Hc in Hcur. injection Hcur as <-.
    assert (finalizerName ∈ apw_Finalizers stored) as Hin
      by (rewrite Hfin; apply AddFinalizer_spec; by left).
    exists stored. split_and!; [by eapply settle_deletion_keeps|done|lia].
Qed.

Lemma patches_inv s s' r0 i cur r orig :
  inv s -> log s !! i = Some (Some r0) -> good_from (log s) i -> current s = Some cur ->
  safe_write r0 (event (PatchStatus r orig) None) -> patches cur r orig s s' -> inv s'.
Proof.
  intros Hi Hl Hg Hc Hsafe Hp.
  destruct (patches_outcome _ _ _ _ _ _ _ Hi Hl Hg Hc Hsafe Hp) as (Hin & stored & -> & Hcw & Hfin & Hrep).
  assert (GetGeneration stored = GetGeneration cur) as Hgen by by destruct Hcw as (l & st & _ & ->).
  apply inv_stores_keeps; [done|by eapply controller_wrote_well_stored|].
  intros cur' Hcur _. rewrite Hc in Hcur. injection Hcur as <-.
  exists stored. rewrite Hfin. split_and!; [done..|lia].
Qed.

Lemma safe_write_answer r0 X (c : Call X) x y :
  safe_write r0 (event c x) -> safe_write r0 (event c y).
Proof. by destruct c. Qed.

Lemma serves_inv s s' es X (c : Call X) k x :
  inv s -> continues (Reconcile key) es (Step c k) -> read_by s es -> serves key c x s s' ->
  inv s' /\ read_by s' (es ++ [event c x]).
Proof.
  intros Hi Hc Hr Hs. destruct c; cbn [serves] in Hs.
  - destruct Hs as [[(e & ->) ->]|(-> & j & o & Hj & Hl & -> & Ho)].
    + split; [done|]. by apply read_by_snoc.
    + assert (inv {| log := log s; seen := j; deleted_cache := deleted_cache s |}) as Hi'.
      { destruct Hi as [I1 I2 I3 I4]. split; cbn; [by eapply lookup_lt_Some|done| |done].
        intros i Hij. apply I3. lia. }
      split; [done|]. apply read_by_snoc; [by apply read_by_seen|]. intros r0 _ [= ->].
      destruct o as [r|]; [|by destruct Ho]. injection Ho as <-. exists j. cbn.
      split_and!; [done..|]. by apply Hi.
  - subst s'. split; [done|]. by apply read_by_snoc.
  - subst s'. split; [done|]. by apply read_by_snoc.
  - destruct (thread_write s es _ _ _ x Hc Hr eq_refl) as (r0 & es' & i & -> & Hw & Hsafe & Hsi & Hl & Hg).
    split; [|by apply read_by_after_write].
    destruct Hs as [[_ ->]|(cur & Hcur & Hn & Hv & Hu)]; [done|].
    eapply updates_inv; [done..|by eapply safe_write_answer|done|done].
  - destruct (thread_write s es _ _ _ x Hc Hr eq_refl) as (r0 & es' & i & -> & Hw & Hsafe & Hsi & Hl & Hg).
    split; [|by apply read_by_after_write].
    destruct Hs as [[_ ->]|(cur & Hcur & Hn & [Hp|[_ ->]])]; [done| |done].
    eapply patches_inv; [done..|by eapply safe_write_answer|done].
  - subst s'. split; [done|]. by apply read_by_snoc.
  - destruct Hs as [_ ->]. split; [done|]. by apply read_by_snoc.
  - subst s'. split; [by destruct Hi as [I1 I2 I3 I4]; split|].
    apply read_by_snoc; [by apply read_by_seen|done].
Qed.

Lemma controller_step_inv s s' : state_inv s -> controller_step key s s' -> state_inv s'.
Proof.
  intros [Hi Ht] Hstep. destruct Hstep as [s|s s' es X c k x Hs|s es a|s th]; cbn in Hi, Ht; split; cbn; try done.
  - split; [apply continues_refl|]. by intros r0 es'.
  - destruct Ht as [Hc Hr]. by destruct (serves_inv _ _ _ _ _ _ _ Hi Hc Hr Hs).
  - destruct Ht as [Hc Hr]. split; [by apply continues_call|].
    by destruct (serves_inv _ _ _ _ _ _ _ Hi Hc Hr Hs).
  - by destruct Hi as [I1 I2 I3 I4]; split.
Qed.

Lemma step_inv s s' : state_inv s -> step key s s' -> state_inv s'.
Proof.
  intros Hi Hstep. destruct Hstep as [s s' th Hu|s s' Hc]; [|by eapply controller_step_inv].
  destruct Hi as [Hi Ht]. cbn in Hi, Ht.
  destruct (user_step_stores _ _ Hi Hu) as (o & -> & Hw & Hk).
  split; cbn; [by apply inv_stores_keeps|]. destruct th as [[es m]|]; [|done].
  destruct Ht as [Hc Hr]. split; [done|]. by apply read_by_keeps.
Qed.

Lemma initial_inv : state_inv initial.
Proof.
  split; [|done]. split; cbn.
  - lia.
  - by intros [|[]] r.
  - by intros i _ r; destruct i as [|[]].
  - by intros [|[]] r.
Qed.

Lemma reachable_inv s : reachable key s -> state_inv s.
Proof.
  apply (rtc_ind_r state_inv initial); [apply initial_inv|].
  intros s1 s2 _ Hstep Hi. by eapply step_inv.
Qed.

End invariant.

(** ** What every step does *)
Section theorems.
Context `{Hk8s : K8sTypes} `{Hlab : LabelsPkg} `{Hschema : SchemaPkg} `{Hutil : ControllerUtil}
  `{Hver : Versions} (key : NamespacedName).

(** The update that the run in progress sends next, made from the current
    version [cur]. *)
Definition updating (s : State) (cur stored : AuthProxyWorkload) : Prop := exists es r k es',
  thread s = Some (es, Step (UpdateResource r) k)
  /\ es = event (GetResource key) (OK cur) :: es'
  /\ continues (Reconcile key) es (Step (UpdateResource r) k)
  /\ apw_Finalizers stored = (if is_deleted cur
          then RemoveFinalizer (apw_Finalizers cur) finalizerName
          else AddFinalizer (apw_Finalizers cur) finalizerName).

Lemma controller_step_log s s' :
  state_inv key s -> controller_step key s s' ->
  log (shared s') = log (shared s)
  \/ exists cur stored, current (shared s) = Some cur
       /\ log (shared s') = log (shared s) ++ [settle_deletion stored]
       /\ controller_wrote (shared s) cur stored
       /\ ((apw_Finalizers stored = apw_Finalizers cur /\ finalizerName ∈ apw_Finalizers cur)
           \/ updating s cur stored).
Proof.
  intros [Hi Ht] Hstep. destruct Hstep as [s|s s' es X c k x Hs|s es a|s th];
    [by left| |by left|by left].
  destruct Ht as [Hc Hr]. cbn in Hi, Hr. destruct c; cbn [serves] in Hs; cbn [shared];
    try (left; subst s'; done); try (left; by destruct Hs as [_ ->]).
  - left. by destruct Hs as [[_ ->]|(_ & j & o & _ & _ & -> & _)].
  - destruct (thread_write key s es _ _ _ x Hc Hr eq_refl) as (r0 & es' & i & E & Hw & Hsafe & Hsi & Hl & Hg).
    destruct Hs as [[_ ->]|(cur & Hcur & Hn & Hv & Hu)]; [by left|right].
    eapply safe_write_answer in Hsafe.
    destruct (updates_outcome key _ _ _ _ _ _ Hi Hl Hcur Hsafe Hv Hu) as (-> & -> & stored & -> & Hcw & _ & Hfin).
    exists cur, stored. split_and!; [done..|]. right. by exists es, r, k, es'.
  - destruct (thread_write key s es _ _ _ x Hc Hr eq_refl) as (r0 & es' & i & E & Hw & Hsafe & Hsi & Hl & Hg).
    destruct Hs as [[_ ->]|(cur & Hcur & Hn & [Hp|[_ ->]])]; [by left|right|by left].
    eapply safe_write_answer in Hsafe.
    destruct (patches_outcome key _ _ _ _ _ _ _ Hi Hl Hg Hcur Hsafe Hp) as (Hin & stored & -> & Hcw & Hfin & _).
    exists cur, stored. rewrite (settle_deletion_keeps stored finalizerName) by by rewrite Hfin.
    split_and!; [done..|]. by left.
Qed.

Lemma current_log s s' : log s' = log s -> current s' = current s.
Proof. intros E. unfold current. by rewrite E. Qed.

Lemma current_snoc s l o : log s = l ++ [o] -> current s = o.
Proof. intros E. unfold current. rewrite E, last_snoc. by destruct o. Qed.

(** The listing that precedes the removal of the finalizer. *)
Lemma prefix_before_write (A B C D : list Event) w :
  A ++ w :: B = C ++ D -> writes C = [] -> is_write w = true -> exists E, A = C ++ E.
Proof.
  intros E Hw Hww. apply app_eq_inv in E as [(k & -> & _)|(k & -> & E)]; [by exists k|].
  destruct k as [|w' k]; [exists []; by rewrite !app_nil_r|]. injection E as <- _.
  rewrite writes_app in Hw. apply app_nil in Hw as [_ Hw].
  unfold writes in Hw. cbn [List.filter] in Hw. by rewrite Hww in Hw.
Qed.

Lemma deletion_listed es r k cur es' :
  es = event (GetResource key) (OK cur) :: es' ->
  continues (Reconcile key) es (Step (UpdateResource r) k) -> is_deleted cur = true ->
  exists es0 es1 es2 wls, es = es0 ++ es1 ++ es2
    /\ runs (listWorkloads (sp_Workload (apw_Spec cur)) (apw_Namespace cur)) es1 (OK wls).
Proof.
  intros -> Hc Hd. destruct (continues_complete some_answer _ _ _ _ None Hc) as (es2 & a & Hrun).
  apply Reconcile_fetched in Hrun as (fetched & es3 & E & Hrun).
  pose proof (f_equal (fun l => head l ≫= fetch_of) E) as Ef. injection Ef as <-.
  injection E as E. unfold is_deleted in Hd. destruct (Time_IsZero _); [done|].
  destruct Hrun as (es4 & -> & Hrun).
  apply doDelete_run in Hrun as (listing & ea & eb & -> & Hl & Hout).
  assert (writes (event (CacheSet key true) tt :: ea) = []) as Hw
    by exact (listWorkloads_reads _ _ _ _ Hl).
  destruct (prefix_before_write es' es2 (event (CacheSet key true) tt :: ea) eb
              (event (UpdateResource r) None)) as (E' & ->); [exact E|done|done|].
  destruct listing as [wls|e].
  - exists [event (GetResource key) (OK cur); event (CacheSet key true) tt], ea, E', wls. done.
  - destruct Hout as [Hout _]. exfalso.
    assert (writes (event (CacheSet key true) tt :: ea ++ eb) = []) as Hnil by exact Hout.
    rewrite <-E in Hnil. rewrite writes_app in Hnil. apply app_nil in Hnil as [_ Hnil]. done.
Qed.

(** C4: Whatever other clients do in between, and however old the version is that
    a run has read, a step of the controller changes the stored resource only in
    its status, in this controller's finalizer and in the resource version: no
    change that a user made is lost.  And it makes the resource disappear only
    when the user has deleted it and no other finalizer is left. *)
Theorem controller_keeps_user_changes s s' r (Hreach : reachable key s)
    (Hstep : controller_step key s s') (Hr : current (shared s) = Some r) :
  match current (shared s') with
  | Some r' => r' = r \/ controller_wrote (shared s) r r'
  | None => is_deleted r = true /\ forall f, f ∈ apw_Finalizers r -> f = finalizerName
  end.
Proof.
  destruct (controller_step_log s s') as [E|(cur & stored & Hc & E & Hcw & _)];
    [by apply reachable_inv|done| |].
  - rewrite (current_log _ _ E), Hr. by left.
  - rewrite (current_snoc _ _ _ E). rewrite Hc in Hr. injection Hr as ->.
    unfold settle_deletion. destruct (is_deleted stored && _) eqn:Hd; [|by right].
    apply andb_true_iff in Hd as [Hd Hnil%bool_decide_eq_true].
    destruct Hcw as (l & st & Hl & ->). split; [exact Hd|].
    change (l = []) in Hnil. subst l. intros f Hf. destruct (decide (f = finalizerName)); [done|].
    apply Hl in Hf; [|done]. by apply elem_of_nil in Hf.
Qed.

(** The run in progress has listed the workloads that [r] selects. *)
Definition has_listed (s : State) (r : AuthProxyWorkload) : Prop := exists es m es0 es1 es2 wls,
  thread s = Some (es, m) /\ es = es0 ++ es1 ++ es2
  /\ runs (listWorkloads (sp_Workload (apw_Spec r)) (apw_Namespace r)) es1 (OK wls).

Lemma removal_listed s s' r :
  state_inv key s -> controller_step key s s' -> current (shared s) = Some r ->
  finalizerName ∈ apw_Finalizers r ->
  (forall r', current (shared s') = Some r' -> finalizerName ∉ apw_Finalizers r') ->
  is_deleted r = true /\ has_listed s r.
Proof.
  intros Hinv Hstep Hr Hfin Hgone.
  destruct (controller_step_log s s') as [E|(cur & stored & Hc & E & Hcw & Hcase)];
    [done|done| |].
  - destruct (Hgone r); [by rewrite (current_log _ _ E)|done].
  - rewrite Hc in Hr. injection Hr as ->. rewrite (current_snoc _ _ _ E) in Hgone.
    destruct Hcase as [[Hsame _]|(es & w & k & es' & Ht & Ees & Hcont & Hst)].
    + destruct (Hgone stored); [|by rewrite Hsame].
      apply (settle_deletion_keeps _ finalizerName). by rewrite Hsame.
    + destruct (is_deleted r) eqn:Hd.
      * split; [done|]. destruct (deletion_listed es w k r es' Ees Hcont Hd) as (es0 & es1 & es2 & wls & ? & ?).
        by exists es, (Step (UpdateResource w) k), es0, es1, es2, wls.
      * assert (finalizerName ∈ apw_Finalizers stored) as Hin
          by (rewrite Hst; apply AddFinalizer_spec; by left).
        destruct (Hgone stored); [by apply (settle_deletion_keeps _ finalizerName)|done].
Qed.

(** The resource stays, with the finalizer, and its generation does not go back. *)
Definition stays (r : AuthProxyWorkload) (s : State) : Prop := exists r',
  current (shared s) = Some r' /\ finalizerName ∈ apw_Finalizers r'
  /\ GetGeneration r <= GetGeneration r'.

Lemma stays_decided r s :
  stays r s \/ forall r', current (shared s) = Some r' -> GetGeneration r <= GetGeneration r' ->
    finalizerName ∉ apw_Finalizers r'.
Proof.
  unfold stays. destruct (current (shared s)) as [r'|]; [|by right].
  destruct (decide (finalizerName ∈ apw_Finalizers r')) as [Hf|Hf]; [|right; by intros ? [= <-]].
  destruct (decide (GetGeneration r <= GetGeneration r')) as [Hg|Hg]; [left; by exists r'|].
  right. by intros ? [= <-] ?.
Qed.

Lemma controller_step_generation s s' r r' :
  state_inv key s -> controller_step key s s' ->
  current (shared s) = Some r -> current (shared s') = Some r' -> GetGeneration r' = GetGeneration r.
Proof.
  intros Hi Hstep Hr Hr'. destruct (controller_step_log s s' Hi Hstep) as [E|(cur & stored & Hc & E & Hcw & _)].
  - rewrite (current_log _ _ E) in Hr'. congruence.
  - rewrite (current_snoc _ _ _ E) in Hr'. apply settle_deletion_Some in Hr' as ->.
    rewrite Hc in Hr. injection Hr as ->. by destruct Hcw as (l & st & _ & ->).
Qed.

(** One step leaves the finalizer in place, or is the controller's release. *)
Lemma finalizer_step s s' r :
  state_inv key s -> step key s s' -> current (shared s) = Some r ->
  finalizerName ∈ apw_Finalizers r ->
  stays r s' \/ (controller_step key s s' /\ is_deleted r = true /\ has_listed s r).
Proof.
  intros Hi Hstep Hr Hfin. destruct Hstep as [s s' th Hu|s s' Hc].
  - left. destruct Hi as [Hi _]. destruct (user_step_stores _ _ _ Hi Hu) as (o & -> & _ & Hk).
    destruct (Hk r Hr Hfin) as (r' & -> & ? & ?). exists r'. split; [by eapply current_snoc|done].
  - destruct (stays_decided r s') as [Hs|Hs]; [by left|right]. split; [done|].
    apply (removal_listed s s' r); try done. intros r' Hr'. apply Hs; [done|].
    by rewrite (controller_step_generation s s' r r').
Qed.

(** C22: The controller takes its finalizer away, or lets the resource go, only
    from a resource that has been deleted, and only in a run that has read its
    current version and has listed the workloads that this version selects. *)
Theorem finalizer_removed_after_listing s s' r (Hreach : reachable key s)
    (Hstep : controller_step key s s') (Hr : current (shared s) = Some r)
    (Hfin : finalizerName ∈ apw_Finalizers r)
    (Hgone : forall r', current (shared s') = Some r' -> finalizerName ∉ apw_Finalizers r') :
  is_deleted r = true /\ exists es m es0 es1 es2 wls,
    thread s = Some (es, m) /\ es = es0 ++ es1 ++ es2
    /\ runs (listWorkloads (sp_Workload (apw_Spec r)) (apw_Namespace r)) es1 (OK wls).
Proof. apply (removal_listed s s' r); [by apply reachable_inv|done..]. Qed.

(** C24: The status never runs ahead: the condition UpToDate of the stored
    resource names a generation that is not newer than the resource's, although
    patches of the status are not checked against the current version and the
    resource may be deleted and created again under the same name. *)
Theorem status_never_ahead s r c (Hreach : reachable key s) (Hr : current (shared s) = Some r)
    (Hc : findCondition (status_Conditions (apw_Status r)) ConditionUpToDate = Some c) :
  cond_ObservedGeneration c <= GetGeneration r.
Proof.
  apply reachable_inv in Hreach as [Hi _]. apply current_lookup in Hr.
  exact (inv_status _ _ Hi _ _ Hr c Hc).
Qed.

(** C23: A resource that has the finalizer stays in the cluster, with the finalizer
    and without its generation going back, until the controller itself releases
    it: whatever users (who leave this finalizer alone) and the controller do,
    and however many steps they take, also when the resource has been deleted in the meantime, either it is still
    there with the finalizer, or on the way there was a step of the controller,
    on a resource that was being deleted, in a run that had listed the
    workloads that this resource selects. *)
Theorem protected_survives s s' r (Hreach : reachable key s) (Hsteps : rtc (step key) s s')
    (Hr : current (shared s) = Some r) (Hfin : finalizerName ∈ apw_Finalizers r) :
  stays r s'
  \/ exists s1 s2 r1, rtc (step key) s s1 /\ controller_step key s1 s2 /\ rtc (step key) s2 s'
       /\ stays r s1 /\ current (shared s1) = Some r1 /\ is_deleted r1 = true /\ has_listed s1 r1.
Proof.
  pose proof (reachable_inv key s Hreach) as Hi. clear Hreach.
  revert r Hr Hfin. induction Hsteps as [s|s s0 s' Hstep Hsteps IH]; intros r Hr Hfin.
  { left. exists r. split; [done|]. split; [done|lia]. }
  destruct (finalizer_step s s0 r Hi Hstep Hr Hfin) as [(r0 & Hr0 & Hf0 & Hg0)|(Hc & Hd & Hl)].
  - destruct (IH (step_inv key s s0 Hi Hstep) r0 Hr0 Hf0)
      as [(r' & Hr' & Hf' & Hg')|(s1 & s2 & r1 & H1 & H2 & H3 & (r' & Hr' & Hf' & Hg') & Hrest)].
    + left. exists r'. split; [done|]. split; [done|lia].
    + right. exists s1, s2, r1. split; [by eapply rtc_l|]. do 2 (split; [done|]). split; [|done].
      exists r'. split; [done|]. split; [done|lia].
  - right. exists s, s0, r. split; [apply rtc_refl|]. do 2 (split; [done|]). split; [|done].
    exists r. split; [done|]. split; [done|lia].
Qed.

End theorems.

(** ** Witnesses *)
Section witnesses.
Import ConcreteInstances.
#[local] Existing Instance test_util.

#[local] Instance test_versions : Versions := {| version n := pretty n; version_inj := _ |}.

Lemma call_step_eq s s' es (m : Prog (Result * option error)) X (c : Call X) k x :
  m = Step c k -> serves orders_key c x s s' ->
  controller_step orders_key {| shared := s; thread := Some (es, m) |}
    {| shared := s'; thread := Some (es ++ [event c x], k x) |}.
Proof. intros ->. apply call_step. Qed.

Ltac next_call ans :=
  eapply rtc_l; [apply step_controller; eapply (call_step_eq _ _ _ _ _ _ _ ans); [reflexivity|]|].
Ltac begin r :=
  eapply rtc_l; [apply step_user, (user_create _ _ r); reflexivity|].
Ltac start_run := eapply rtc_l; [apply step_controller, start|].
Ltac read i r :=
  next_call (OK r);
    [right; split; [reflexivity|]; exists i; eexists; split; [cbn; lia|];
     split; [reflexivity|]; split; reflexivity|].
(** Succeed with a write made from [cur] of generation [g]. *)
Ltac update cur g :=
  right; exists cur; split; [reflexivity|]; split; [reflexivity|]; split; [reflexivity|];
  exists g; split; [left; split; reflexivity|reflexivity].

(** The resource as created with the finalizer, and as it is being deleted. *)
Definition guarded_apw : AuthProxyWorkload := set_Finalizers [finalizerName] new_apw.
Definition going_apw : AuthProxyWorkload := server_meta 2 "2" (Some 7) guarded_apw.

Lemma controller_keeps_user_changes_witness :
  exists s s', reachable orders_key s /\ controller_step orders_key s s'
  /\ current (shared s) = Some new_apw
  /\ match current (shared s') with
     | Some r' => r' = new_apw \/ controller_wrote (shared s) new_apw r'
     | None => is_deleted new_apw = true /\ forall f, f ∈ apw_Finalizers new_apw -> f = finalizerName
     end.
Proof.
  assert (exists s s', reachable orders_key s /\ controller_step orders_key s s'
    /\ current (shared s) = Some new_apw) as (s & s' & Hs & Hstep & Hr).
  { eexists _, _. split; [|split].
    - begin new_apw. start_run. read 1%nat new_apw. next_call tt; [reflexivity|]. apply rtc_refl.
    - eapply (call_step_eq _ _ _ _ _ _ _ None); [reflexivity|]. update new_apw 1.
    - reflexivity. }
  exists s, s'. split_and!; [done..|].
  exact (controller_keeps_user_changes orders_key s s' new_apw Hs Hstep Hr).
Defined.

Lemma finalizer_removed_after_listing_witness :
  exists s s', reachable orders_key s /\ controller_step orders_key s s'
  /\ current (shared s) = Some going_apw /\ current (shared s') = None
  /\ is_deleted going_apw = true /\ exists es m es0 es1 es2 wls,
       thread s = Some (es, m) /\ es = es0 ++ es1 ++ es2
       /\ runs (listWorkloads (sp_Workload (apw_Spec going_apw)) (apw_Namespace going_apw))
            es1 (OK wls).
Proof.
  assert (exists s s', reachable orders_key s /\ controller_step orders_key s s'
    /\ current (shared s) = Some going_apw /\ current (shared s') = None)
    as (s & s' & Hs & Hstep & Hr & Hr').
  { eexists _, _. split; [|split; [|split]].
    - begin guarded_apw.
      eapply rtc_l; [apply step_user, (user_delete _ _ guarded_apw 7); reflexivity|].
      start_run. read 2%nat going_apw. next_call tt; [reflexivity|].
      next_call (OK {| objectList := DeploymentList [] |}); [reflexivity|]. apply rtc_refl.
    - eapply (call_step_eq _ _ _ _ _ _ _ None); [reflexivity|]. update going_apw 2.
    - reflexivity.
    - reflexivity. }
  exists s, s'. do 4 (split; [done|]).
  apply (finalizer_removed_after_listing orders_key s s' going_apw Hs Hstep Hr); [by left|].
  intros r' E. by rewrite Hr' in E.
Defined.

(** The status that a run reports at time 9. *)
Definition reported_apw : AuthProxyWorkload :=
  set_Conditions (replaceCondition 9 [] (upToDate_condition guarded_apw ReasonNoWorkloadsFound
                    "No workload updates needed")) guarded_apw.

Lemma status_never_ahead_witness :
  exists s r c, reachable orders_key s /\ current (shared s) = Some r
  /\ findCondition (status_Conditions (apw_Status r)) ConditionUpToDate = Some c
  /\ cond_ObservedGeneration c <= GetGeneration r.
Proof.
  assert (exists s, reachable orders_key s
    /\ current (shared s) = Some (server_meta 1 "2" None reported_apw)) as (s & Hs & Hr).
  { eexists _. split.
    - begin guarded_apw. start_run. read 1%nat guarded_apw. next_call tt; [reflexivity|].
      next_call (OK {| objectList := DeploymentList [] |}); [reflexivity|].
      next_call 9; [reflexivity|].
      next_call (None : option error);
        [right; exists guarded_apw; split; [reflexivity|]; split; [reflexivity|]; left;
         exists (apw_Status reported_apw); split; [split; left; reflexivity|reflexivity]|].
      apply rtc_refl.
    - reflexivity. }
  eexists s, _, _. split_and!; [done|exact Hr|reflexivity|].
  exact (status_never_ahead orders_key s _ _ Hs Hr eq_refl).
Defined.

(** The user deletes the resource, and a run has begun to work on that. *)
Lemma protected_survives_witness :
  exists s s', reachable orders_key s /\ rtc (step orders_key) s s'
  /\ current (shared s) = Some guarded_apw /\ current (shared s') = Some going_apw
  /\ (stays guarded_apw s'
      \/ exists s1 s2 r1, rtc (step orders_key) s s1 /\ controller_step orders_key s1 s2
           /\ rtc (step orders_key) s2 s' /\ stays guarded_apw s1
           /\ current (shared s1) = Some r1 /\ is_deleted r1 = true /\ has_listed s1 r1).
Proof.
  assert (exists s s', reachable orders_key s /\ rtc (step orders_key) s s'
    /\ current (shared s) = Some guarded_apw /\ current (shared s') = Some going_apw)
    as (s & s' & Hs & Hsteps & Hr & Hr').
  { eexists _, _. split; [|split; [|split]].
    - begin guarded_apw. apply rtc_refl.
    - eapply rtc_l; [apply step_user, (user_delete _ _ guarded_apw 7); reflexivity|].
      start_run. read 2%nat going_apw. next_call tt; [reflexivity|]. apply rtc_refl.
    - reflexivity.
    - reflexivity. }
  exists s, s'. do 4 (split; [done|]).
  apply (protected_survives orders_key s s' guarded_apw Hs Hsteps Hr). by left.
Defined.

End witnesses.
