(* ===== verification/Queue.v ===== *)
(** * The work queue: no change is forgotten

    [Concurrency] lets a run of [Reconcile] start at any time.  Here runs start
    as controller-runtime starts them: when the resource is in the work queue,
    because its cache has seen a new version, because a run asked for it with
    its result or its error, or after a restart.  The reconciler decides with
    what it returns whether the resource comes back; it is shown that this is
    enough: once the other clients are quiet, the resource settles. *)

From S2P Require Import Prelude Interaction Liveness GoStd Api Concrete Names Workload Fixtures Status Reconciler.
From S2P Require Import Convergence Concurrency.
From Stdlib Require Import Ascii.
#[local] Open Scope Z_scope.

Section queue.
Context `{Hk8s : K8sTypes} `{Hlab : LabelsPkg} `{Hschema : SchemaPkg} `{Hutil : ControllerUtil}
  `{Hver : Versions} (key : NamespacedName).

(** ** Steps *)

(** [queued]: the resource is in the queue. *)
Record QState := { run_state : State; queued : bool }.

Definition latest (s : Shared) : nat := pred (length (log s)).

(** The cache takes over version [j] and what follows it is not seen yet. *)
Definition sees (j : nat) (s : Shared) : Shared :=
  {| log := log s; seen := j; deleted_cache := deleted_cache s |}.

(** What a read of the cache answers. *)
Definition read_answer (o : option AuthProxyWorkload) (x : Res AuthProxyWorkload) : Prop :=
  match o with
  | Some r => x = OK r
  | None => exists msg, x = Fail (StatusError StatusReasonNotFound msg)
  end.

(** Reads come from the cache; other calls are answered as in [Concurrency]. *)
Definition answers {X} (c : Call X) : X -> Shared -> Shared -> Prop :=
  match c in Call X return X -> Shared -> Shared -> Prop with
  | GetResource k => fun x s s' => s' = s
      /\ (k = key /\ (exists o, log s !! seen s = Some o /\ read_answer o x)
          \/ k <> key /\ exists e, x = Fail e)
  | c => serves key c
  end.

(** [controller.Run] of controller-runtime: errors and requests for a requeue
    put the resource back. *)
Definition requeued (a : Result * option error) : bool :=
  Requeue a.1 || match a.2 with Some _ => true | None => false end.

(** A process that starts puts every resource that its cache lists in the
    queue. *)
Inductive queue_step : QState -> QState -> Prop :=
| queue_user s s' th q :
    user_step key s s' ->
    queue_step {| run_state := {| shared := s; thread := th |}; queued := q |}
               {| run_state := {| shared := s'; thread := th |}; queued := q |}
| queue_deliver s th q j :
    (seen s < j <= latest s)%nat ->
    queue_step {| run_state := {| shared := s; thread := th |}; queued := q |}
               {| run_state := {| shared := sees j s; thread := th |}; queued := true |}
| queue_start s :
    queue_step {| run_state := {| shared := s; thread := None |}; queued := true |}
               {| run_state := {| shared := s; thread := Some ([], Reconcile key) |}; queued := false |}
| queue_call s s' es X (c : Call X) k x q :
    answers c x s s' ->
    queue_step {| run_state := {| shared := s; thread := Some (es, Step c k) |}; queued := q |}
               {| run_state := {| shared := s'; thread := Some (es ++ [event c x], k x) |}; queued := q |}
| queue_finish s es a q :
    queue_step {| run_state := {| shared := s; thread := Some (es, Done a) |}; queued := q |}
               {| run_state := {| shared := s; thread := None |}; queued := q || requeued a |}
| queue_restart s th q q' :
    ((exists r, log s !! seen s = Some (Some r)) -> q' = true) ->
    queue_step {| run_state := {| shared := s; thread := th |}; queued := q |}
               {| run_state := {| shared := {| log := log s; seen := seen s;
                                               deleted_cache := cache_zero |}; thread := None |};
                  queued := q' |}.

Definition queue_initial : QState := {| run_state := initial; queued := false |}.

Definition queue_reachable (q : QState) : Prop := rtc queue_step queue_initial q.

(** ** The invariant *)

Lemma answers_serves {X} (c : Call X) x s s' : answers c x s s' -> serves key c x s s'.
Proof.
  destruct c; try done. intros [-> [(-> & o & Ho & Hx)|[Hne [e ->]]]].
  - right. split; [done|]. exists (seen s), o. split_and!; [done|done|by destruct s|exact Hx].
  - left. split; [by exists e|done].
Qed.

Lemma inv_sees s j : inv key s -> (seen s < j <= latest s)%nat -> inv key (sees j s).
Proof.
  intros [I1 I2 I3 I4] Hj. unfold latest in Hj. split; cbn; [lia|done| |done].
  intros i Hi. apply I3. lia.
Qed.

Lemma queue_step_inv q q' :
  state_inv key (run_state q) -> queue_step q q' -> state_inv key (run_state q').
Proof.
  intros Hi Hstep. destruct Hstep as [s s' th q Hu|s th q j Hj|s|s s' es X c k x q Hs|s es a q|s th q q1 Hl].
  - eapply step_inv; [exact Hi|]. by apply step_user.
  - destruct Hi as [Hi Ht]. split; cbn in *; [by apply inv_sees|].
    destruct th as [[es m]|]; [|done]. destruct Ht as [Hc Hr]. split; [done|].
    apply read_by_seen; [lia|done].
  - eapply controller_step_inv; [exact Hi|]. apply start.
  - eapply controller_step_inv; [exact Hi|]. by apply call_step, answers_serves.
  - eapply controller_step_inv; [exact Hi|]. apply finish.
  - eapply controller_step_inv; [exact Hi|]. apply restart.
Qed.


(** The resource needs nothing more from the controller. *)
Definition done_with (o : option AuthProxyWorkload) : Prop :=
  match o with
  | None => True
  | Some r => if is_deleted r then finalizerName ∉ apw_Finalizers r else settled r
  end.

(** If nothing else happens: the cache will still deliver a newer version, or
    there is nothing to do. *)
Definition calm (s : Shared) : Prop := (seen s < latest s)%nat \/ done_with (current s).

(** A write that the server has confirmed. *)
Definition confirmed (e : Event) : Prop :=
  match e with
  | event (UpdateResource _) x => x = None
  | event (PatchStatus _ _) x => x = None
  | _ => False
  end.

(** What a run that nothing has overtaken has done so far. *)
Definition run_calm (s : Shared) (es : list Event) : Prop :=
  es = [] \/ exists x es' o, es = event (GetResource key) x :: es'
    /\ log s !! seen s = Some o /\ read_answer o x
    /\ ((exists e, e ∈ writes es' /\ confirmed e) -> calm s).

Definition queue_inv (q : QState) : Prop :=
  state_inv key (run_state q) /\
  (queued q = false ->
   match thread (run_state q) with
   | None => calm (shared (run_state q))
   | Some (es, _) => run_calm (shared (run_state q)) es
   end).

Lemma latest_stores o s : latest (stores o s) = length (log s).
Proof. unfold latest. cbn. rewrite length_app. cbn. lia. Qed.

Lemma calm_stores o s : inv key s -> calm (stores o s).
Proof. intros Hi. left. rewrite latest_stores. by apply (inv_seen _ _ Hi). Qed.

Lemma run_calm_stores o s es : inv key s -> run_calm s es -> run_calm (stores o s) es.
Proof.
  intros Hi [->|(x & es' & o' & -> & Ho & Hx & _)]; [by left|right].
  exists x, es', o'. split_and!; [done| |done|intros _; by apply calm_stores].
  cbn. by apply lookup_app_l_Some.
Qed.

(** A call stores a version or leaves the versions alone. *)
Lemma answers_log {X} (c : Call X) x s s' :
  answers c x s s' ->
  (log s' = log s /\ seen s' = seen s) \/ (exists o, s' = stores o s /\ is_write (event c x) = true).
Proof.
  destruct c; cbn; try (intros ->; by left); try (intros [_ ->]; by left).
  - intros [->  _]. by left.
  - intros [[_ ->]|(cur & _ & _ & _ & g & _ & ->)]; [by left|right; by eexists].
  - intros [[_ ->]|(cur & _ & _ & [(st & _ & ->)|[_ ->]])]; [by left|right; by eexists|by left].
Qed.

Lemma calm_same s s' : log s' = log s -> seen s' = seen s -> calm s -> calm s'.
Proof. unfold calm, latest, current. by intros -> ->. Qed.

(** The current version, as the cache has it. *)
Lemma seen_latest s o :
  inv key s -> log s !! seen s = Some o -> calm s \/ (seen s = latest s /\ current s = o).
Proof.
  intros Hi Ho. pose proof (inv_seen _ _ Hi). unfold calm, latest in *.
  destruct (decide (seen s < pred (length (log s)))%nat); [by left; left|right].
  assert (seen s = pred (length (log s))) as E by lia. split; [done|].
  unfold current. rewrite last_lookup, <-E, Ho. by destruct o.
Qed.

(** What a patch makes of the version it was made from. *)
Lemma merged_settles r0 r orig st :
  safe_write r0 (event (PatchStatus r orig) None) -> merged r0 r orig st ->
  is_deleted r0 = false /\ finalizerName ∈ apw_Finalizers r0
  /\ exists c, findCondition (status_Conditions st) ConditionUpToDate = Some c
       /\ cond_Status c = ConditionTrue /\ cond_ObservedGeneration c = GetGeneration r0.
Proof.
  intros (-> & _ & Hlive & Hfin & reason & c & Hc & ? & ? & _) [Hm _]. split_and!.
  - unfold is_deleted. by rewrite Hlive.
  - by apply ContainsFinalizer_spec.
  - exists c. split; [|done]. destruct Hm as [->|[E ->]]; [done|by rewrite <-E].
Qed.

Lemma confirmed_calm {X} (c : Call X) x s s' r0 :
  inv key s -> log s !! seen s = Some (Some r0) -> safe_write r0 (event c x) ->
  answers c x s s' -> confirmed (event c x) -> calm s'.
Proof.
  intros Hi Ho Hsafe Ha Hc. destruct c; try done; cbn in Ha, Hc; subst x.
  - destruct Ha as [[[e ?] _]|(cur & _ & _ & _ & g & _ & ->)]; [done|by apply calm_stores].
  - destruct Ha as [[[e ?] _]|(cur & Hcur & _ & [(st & _ & ->)|[Hm ->]])];
      [done|by apply calm_stores|].
    destruct (seen_latest s _ Hi Ho) as [?|[_ E]]; [done|right]. rewrite Hcur in E.
    injection E as ->. rewrite Hcur.
    destruct (merged_settles _ _ _ _ Hsafe Hm) as (Hd & Hf & Hset). cbn [done_with].
    rewrite Hd. by split.
Qed.

(** The first call of a run is the read. *)
Lemma first_call {X} (c : Call X) k x :
  continues (Reconcile key) [] (Step c k) -> exists y, event c x = event (GetResource key) y.
Proof.
  intros Hc. destruct (continues_complete some_answer _ _ _ _ x Hc) as (es & a & Hrun).
  apply Reconcile_fetched in Hrun as (y & es' & E & _). exists y.
  exact (f_equal (fun l => default (event c x) (head l)) E).
Qed.

Lemma writes_snoc es e : writes (es ++ [e]) = writes es ++ (if is_write e then [e] else []).
Proof. rewrite writes_app. unfold writes at 2. cbn. by destruct (is_write e). Qed.

Lemma run_calm_call {X} (c : Call X) k x s s' es :
  inv key s -> continues (Reconcile key) es (Step c k) -> read_by key s es ->
  answers c x s s' -> run_calm s es -> run_calm s' (es ++ [event c x]).
Proof.
  intros Hi Hc Hr Ha [->|(y & es' & o & -> & Ho & Hy & Hcalm)]; right.
  - destruct (first_call c k x Hc) as [y E].
    assert (exists o, log s !! seen s = Some o /\ read_answer o y /\ s' = s) as (o & Ho & Hy & ->).
    { clear Hc. destruct c; try discriminate E. apply (f_equal fetch_of) in E. injection E as -> ->.
      destruct Ha as [-> [(_ & o & ? & ?)|[]]]; [|done]. by exists o. }
    exists y, [], o. rewrite E. split_and!; [done..|]. intros (e & He & _). by apply elem_of_nil in He.
  - exists y, (es' ++ [event c x]), o. split; [done|].
    assert (log s' !! seen s' = Some o) as Ho'.
    { destruct (answers_log _ _ _ _ Ha) as [[-> ->]|(o' & -> & _)]; [done|].
      by apply lookup_app_l_Some. }
    split_and!; [done..|]. intros (e & He & Hconf). rewrite writes_snoc in He.
    apply elem_of_app in He as [He|He].
    + destruct (answers_log _ _ _ _ Ha) as [[El Es]|(o' & -> & _)]; [|by apply calm_stores].
      apply (calm_same s); [done..|]. apply Hcalm. by exists e.
    + destruct (is_write (event c x)) eqn:Hw; [|by apply elem_of_nil in He].
      apply list_elem_of_singleton in He as ->.
      destruct (thread_write key s _ _ _ _ x Hc Hr Hw) as (r0 & es0 & i & E & _ & Hsafe & _).
      apply (f_equal (fun l => head l ≫= fetch_of)) in E. injection E as ->. destruct o as [r|]; [injection Hy as ->|by destruct Hy].
      by eapply confirmed_calm.
Qed.

(** A run that does not ask to come back has nothing left to do. *)
Lemma run_calm_finish s es a :
  inv key s -> runs (Reconcile key) es a -> run_calm s es -> requeued a = false -> calm s.
Proof.
  intros Hi Hrun [->|(y & es' & o & -> & Ho & Hy & Hcalm)] Hq.
  { apply Reconcile_fetched in Hrun as (? & ? & E & _). done. }
  assert (forall e ws, writes es' = e :: ws -> confirmed e -> calm s) as Hw.
  { intros e ws E He. apply Hcalm. exists e. rewrite E. split; [by left|done]. }
  unfold requeued in Hq. apply orb_false_iff in Hq as [Hq1 Hq2].
  apply Reconcile_fetched in Hrun as (y' & es1 & E & Hrun).
  pose proof (f_equal (fun l => head l ≫= fetch_of) E) as Ey. injection Ey as <-.
  apply (f_equal tail) in E. cbn in E. subst es1.
  destruct o as [r|]; cbn in Hy.
  - subst y. destruct (Time_IsZero _) eqn:Hlive; destruct Hrun as (es2 & -> & Hrun).
    + apply doCreateUpdate_run in Hrun as (listing & Hout & _). unfold state_of in Hout.
      destruct (ContainsFinalizer _ _); [destruct listing as [[|wl wls]|e]|];
        [destruct Hout as (r' & x & E & _ & _ & _ & Hx)..|destruct Hout as (_ & e' & _ & ->)|destruct Hout as (x & _ & ->)];
        try done; (eapply Hw; [exact E|]; apply Hx; by destruct a.2).
    + apply doDelete_run in Hrun as (listing & ea & eb & _ & _ & Hout).
      destruct listing as [wls|e]; [|by destruct Hout as [_ ->]].
      destruct (ContainsFinalizer (apw_Finalizers r) finalizerName) eqn:Hf.
      * destruct Hout as (r' & x & E & _ & ->). eapply Hw; [exact E|]. cbn in Hq2. by destruct x.
      * destruct (seen_latest s _ Hi Ho) as [?|[_ E]]; [done|right]. rewrite E. cbn.
        unfold is_deleted. rewrite Hlive. cbn. rewrite <-ContainsFinalizer_spec. congruence.
  - destruct (seen_latest s _ Hi Ho) as [?|[_ E]]; [done|right]. by rewrite E.
Qed.

Lemma queue_step_queue_inv q q' : queue_inv q -> queue_step q q' -> queue_inv q'.
Proof.
  intros [Hi Hq] Hstep. split; [by eapply queue_step_inv|].
  destruct Hstep as [s s' th q Hu|s th q j Hj|s|s s' es X c k x q Ha|s es a q|s th q q1 Hl];
    destruct Hi as [Hi Ht]; cbn in *; intros Hqd; try done.
  - specialize (Hq Hqd). destruct (user_step_stores _ _ _ Hi Hu) as (o & -> & _).
    destruct th as [[es m]|]; [by apply run_calm_stores|by apply calm_stores].
  - by left.
  - destruct Ht as [Hc Hr]. by eapply run_calm_call, Hq.
  - apply orb_false_iff in Hqd as [-> Hqd]. destruct Ht as [Hc _].
    eapply run_calm_finish; [done| |by apply Hq|exact Hqd].
    rewrite <-(app_nil_r es). by apply Hc.
  - eapply (calm_same s); [done..|].
    destruct (lookup_lt_is_Some_2 _ _ (inv_seen _ _ Hi)) as [o Ho].
    destruct (seen_latest s o Hi Ho) as [?|[_ E]]; [done|right].
    destruct o as [r|]; [|by rewrite E]. rewrite Hl in Hqd; [done|by exists r].
Qed.

Lemma queue_reachable_inv q : queue_reachable q -> queue_inv q.
Proof.
  apply (rtc_ind_r queue_inv queue_initial).
  - split; [apply initial_inv|]. intros _. by right.
  - intros q1 q2 _ Hstep Hq. by eapply queue_step_queue_inv.
Qed.

End queue.

(** ** Theorem *)
Section theorems.
Context `{Hk8s : K8sTypes} `{Hlab : LabelsPkg} `{Hschema : SchemaPkg} `{Hutil : ControllerUtil}
  `{Hver : Versions} (key : NamespacedName).

(** No change is forgotten: whenever no run is in progress, the queue is empty
    and the cache is up to date, there is nothing left to do.  The resource is
    gone, or it is being deleted and does not have the finalizer, or it has the
    finalizer and reports UpToDate for its generation.  So every run that ends
    without asking for another one has either finished the work or made a change
    that brings the resource back to the queue, whatever the users do in
    between, and whichever calls to the API server fail (the reads come from
    the cache and only miss what is not there). *)
Theorem quiescent_settled q (Hreach : queue_reachable key q)
    (Hidle : thread (run_state q) = None) (Hqueue : queued q = false)
    (Hseen : seen (shared (run_state q)) = latest (shared (run_state q))) :
  match current (shared (run_state q)) with
  | None => True
  | Some r => if is_deleted r then finalizerName ∉ apw_Finalizers r else settled r
  end.
Proof.
  apply queue_reachable_inv in Hreach as [_ Hq]. specialize (Hq Hqueue). rewrite Hidle in Hq.
  destruct Hq as [Hlt|Hdone]; [lia|exact Hdone].
Qed.

End theorems.

(** ** Witness *)
Section witnesses.
Import ConcreteInstances.
#[local] Existing Instance test_util.
#[local] Existing Instance test_versions.

Lemma queue_call_eq s s' es (m : Prog (Result * option error)) X (c : Call X) k x q :
  m = Step c k -> answers orders_key c x s s' ->
  queue_step orders_key
    {| run_state := {| shared := s; thread := Some (es, m) |}; queued := q |}
    {| run_state := {| shared := s'; thread := Some (es ++ [event c x], k x) |}; queued := q |}.
Proof. intros ->. apply queue_call. Qed.

Ltac next_call ans :=
  eapply rtc_l; [eapply (queue_call_eq _ _ _ _ _ _ _ ans); [reflexivity|]|].
Ltac read r :=
  next_call (OK r); [split; [reflexivity|]; left; split; [reflexivity|];
    eexists; split; reflexivity|].
Ltac patch cur :=
  next_call (None : option error);
  [right; exists cur; split; [reflexivity|]; split; [reflexivity|]|].

(** The resource as the first run reports it. *)
Definition settled_apw : AuthProxyWorkload := server_meta 1 "2" None reported_apw.

(** One run reports, the next has nothing to change. *)
Lemma quiescent_settled_witness :
  exists q, queue_reachable orders_key q /\ thread (run_state q) = None /\ queued q = false
  /\ seen (shared (run_state q)) = latest (shared (run_state q))
  /\ current (shared (run_state q)) = Some settled_apw
  /\ match current (shared (run_state q)) with
     | None => True
     | Some r => if is_deleted r then finalizerName ∉ apw_Finalizers r else settled r
     end.
Proof.
  assert (exists q, queue_reachable orders_key q /\ thread (run_state q) = None /\ queued q = false
    /\ seen (shared (run_state q)) = latest (shared (run_state q))
    /\ current (shared (run_state q)) = Some settled_apw)
    as (q & Hr & Ht & Hq & Hs & Hc).
  { eexists _. split; [|split; [|split; [|split]]].
    - eapply rtc_l; [apply queue_user, (user_create _ _ guarded_apw); reflexivity|].
      eapply rtc_l; [apply (queue_deliver _ _ _ _ 1); cbn; lia|].
      eapply rtc_l; [apply queue_start|]. read guarded_apw. next_call tt; [reflexivity|].
      next_call (OK {| objectList := DeploymentList [] |}); [reflexivity|].
      next_call 9; [reflexivity|].
      patch guarded_apw.
      { left. exists (apw_Status reported_apw). split; [split; left; reflexivity|reflexivity]. }
      eapply rtc_l; [apply (queue_deliver _ _ _ _ 2); cbn; lia|].
      read settled_apw. eapply rtc_l; [apply queue_finish|].
      eapply rtc_l; [apply queue_start|]. read settled_apw. next_call tt; [reflexivity|].
      next_call (OK {| objectList := DeploymentList [] |}); [reflexivity|].
      patch settled_apw.
      { right. split; [split; left; reflexivity|reflexivity]. }
      read settled_apw. eapply rtc_l; [apply queue_finish|]. apply rtc_refl.
    - reflexivity.
    - reflexivity.
    - reflexivity.
    - reflexivity. }
  exists q. do 5 (split; [done|]).
  exact (quiescent_settled orders_key q Hr Ht Hq Hs).
Defined.

End witnesses.
