(* ===== verification/Settling.v ===== *)
(** * The resource settles

    Steps of [Queue] in which nothing goes wrong: the other clients are quiet,
    calls succeed, the cache catches up before the next run starts.  Whatever
    has happened before, and wherever the controller is, such steps settle the
    resource. *)

From S2P Require Import Prelude Interaction Liveness GoStd Api Concrete Names Workload Fixtures Status Reconciler.
From S2P Require Import Convergence Concurrency Queue.
From Stdlib Require Import Ascii.
#[local] Open Scope Z_scope.

Section settling.
Context `{Hk8s : K8sTypes} `{Hlab : LabelsPkg} `{Hschema : SchemaPkg} `{Hutil : ControllerUtil}
  `{Hver : Versions} (key : NamespacedName).

(** ** Steps *)

(** A workload that is not there is no failure; an update of the current
    version is stored, one of another version is refused; a patch is stored if
    the resource is there. *)
Definition good_answer {X} (c : Call X) : X -> Shared -> Shared -> Prop :=
  match c in Call X return X -> Shared -> Shared -> Prop with
  | GetResource k => answers key (GetResource k)
  | GetWorkload _ _ => fun x s s' =>
      s' = s /\ match x with OK _ => True | Fail e => IsNotFound e = true end
  | ListWorkloads _ _ _ => fun x s s' => s' = s /\ exists wl, x = OK wl
  | UpdateResource r => fun x s s' =>
      match current s with
      | Some cur =>
          if decide (apw_NamespacedName r = key /\ ResourceVersion r = ResourceVersion cur)
          then x = None /\ updates cur r s s' else (exists e, x = Some e) /\ s' = s
      | None => (exists e, x = Some e) /\ s' = s
      end
  | PatchStatus r orig => fun x s s' =>
      match current s with
      | Some cur =>
          if decide (apw_NamespacedName r = key)
          then x = None /\ (patches cur r orig s s' \/ (merged cur r orig (apw_Status cur) /\ s' = s))
          else (exists e, x = Some e) /\ s' = s
      | None => (exists e, x = Some e) /\ s' = s
      end
  | c => serves key c
  end.

Inductive quiet_step : QState -> QState -> Prop :=
| quiet_deliver s th q j :
    (seen s < j <= latest s)%nat ->
    quiet_step {| run_state := {| shared := s; thread := th |}; queued := q |}
               {| run_state := {| shared := sees j s; thread := th |}; queued := true |}
| quiet_start s :
    seen s = latest s ->
    quiet_step {| run_state := {| shared := s; thread := None |}; queued := true |}
               {| run_state := {| shared := s; thread := Some ([], Reconcile key) |}; queued := false |}
| quiet_call s s' es X (c : Call X) k x q :
    good_answer c x s s' ->
    quiet_step {| run_state := {| shared := s; thread := Some (es, Step c k) |}; queued := q |}
               {| run_state := {| shared := s'; thread := Some (es ++ [event c x], k x) |}; queued := q |}
| quiet_finish s es a q :
    quiet_step {| run_state := {| shared := s; thread := Some (es, Done a) |}; queued := q |}
               {| run_state := {| shared := s; thread := None |}; queued := q || requeued a |}.

Lemma good_answer_answers {X} (c : Call X) x s s' : good_answer c x s s' -> answers key c x s s'.
Proof.
  destruct c; cbn; try done; [by intros [-> _]..| |].
  - destruct (current s) as [cur|]; [|by left]. destruct (decide _) as [[? ?]|]; [|by left].
    intros [-> Hu]. right. by exists cur.
  - destruct (current s) as [cur|]; [|by left]. destruct (decide _); [|by left].
    intros [-> Hp]. right. by exists cur.
Qed.

Lemma quiet_queue_step q q' : quiet_step q q' -> queue_step key q q'.
Proof.
  destruct 1; [by apply queue_deliver|apply queue_start|by apply queue_call, good_answer_answers|
    apply queue_finish].
Qed.

(** ** What these steps keep *)

(** The resource is the one that [r] is a version of; if it is gone, it was
    being deleted. *)
Definition tracks (r : AuthProxyWorkload) (o : option AuthProxyWorkload) : Prop :=
  match o with
  | None => is_deleted r = true
  | Some r' => apw_Spec r' = apw_Spec r /\ apw_Namespace r' = apw_Namespace r
      /\ GetGeneration r' = GetGeneration r /\ is_deleted r' = is_deleted r
  end.

Lemma tracks_refl r : tracks r (Some r).
Proof. done. Qed.

Definition quiet_inv (r : AuthProxyWorkload) (q : QState) : Prop :=
  queue_inv key q /\ tracks r (current (shared (run_state q))).

Lemma controller_wrote_tracks s cur stored r :
  controller_wrote s cur stored -> tracks r (Some cur) -> tracks r (settle_deletion stored).
Proof.
  intros (l & st & _ & ->) (E1 & E2 & E3 & E4). unfold settle_deletion.
  destruct (_ && _) eqn:E; [|done]. apply andb_true_iff in E as [E _].
  change (is_deleted _) with (is_deleted cur) in E. cbn [tracks]. congruence.
Qed.

Lemma quiet_step_inv r q q' : quiet_inv r q -> quiet_step q q' -> quiet_inv r q'.
Proof.
  intros [Hq Ht] Hstep. split; [eapply queue_step_queue_inv, quiet_queue_step; eassumption|].
  destruct Hstep as [s th q j Hj|s Hs|s s' es X c k x q Ha|s es a q]; cbn in Ht |- *; [done..| |done].
  destruct Hq as [Hi _]. apply good_answer_answers, answers_serves in Ha.
  destruct (controller_step_log key _ _ Hi (call_step _ _ _ _ _ _ _ _ Ha))
    as [E|(cur & stored & Hc & E & Hcw & _)]; cbn in *.
  - by rewrite (current_log _ _ E).
  - rewrite (current_snoc _ _ _ E). rewrite Hc in Ht. by eapply controller_wrote_tracks.
Qed.

(** ** There is always a next step of a run *)
Lemma good_answer_exists s es X (c : Call X) k :
  state_inv key {| shared := s; thread := Some (es, Step c k) |} ->
  exists x s', good_answer c x s s'.
Proof.
  intros [Hi [Hc Hr]]. cbn in *. destruct c as [k'|k' w|ns sel l|r|r orig| |k'|k' b]; cbn.
  - destruct (lookup_lt_is_Some_2 _ _ (inv_seen _ _ Hi)) as [o Ho].
    destruct (decide (k' = key)) as [->|Hne].
    + destruct o as [r|]; [exists (OK r)|exists (Fail (StatusError StatusReasonNotFound ""))];
        exists s; (split; [done|]); left; (split; [done|]); eexists; (split; [exact Ho|]); [done|by eexists].
    + exists (Fail (ErrorString "")), s. split; [done|]. right. eauto.
  - by exists (OK w), s.
  - by exists (OK l), s; eauto.
  - destruct (current s) as [cur|] eqn:Hcur; [|by exists (Some (ErrorString "")), s; eauto].
    destruct (decide _) as [[Hn Hv]|]; [|by exists (Some (ErrorString "")), s; eauto].
    destruct (thread_write key s es _ _ _ None Hc Hr eq_refl) as (r0 & es' & i & _ & _ & Hsafe & _ & Hl & _).
    destruct Hsafe as (r' & [st ->] & ->).
    destruct (update_current key s i r0 cur _ Hi Hl Hcur eq_refl Hv) as [_ ->].
    eexists None, _. split; [done|]. eexists. split; [by left|reflexivity].
  - destruct (current s) as [cur|]; [|by exists (Some (ErrorString "")), s; eauto].
    destruct (decide _); [|by exists (Some (ErrorString "")), s; eauto].
    eexists None, _. split; [done|]. left. exists (apw_Status r). split; [|reflexivity].
    split; by left.
  - by exists Time_zero, s.
  - by eexists _, s.
  - by eexists tt, _.
Qed.

Definition idle (q : QState) : Prop := thread (run_state q) = None.

Lemma busy_step r q : quiet_inv r q -> ~ idle q -> exists q', quiet_step q q'.
Proof.
  intros [[Hi _] _] Hb. destruct q as [[s [[es [a|X c k]]|]] q]; cbn in Hb; [| |done].
  - eexists. apply quiet_finish.
  - destruct (good_answer_exists s es X c k Hi) as (x & s' & Ha). eexists. by apply quiet_call.
Qed.

(** The steps of a run in progress. *)
Lemma quiet_step_run q q' : quiet_step q q' ->
  let s := shared (run_state q) in
  match thread (run_state q) with
  | None => True
  | Some (es, m) =>
      (exists j, (seen s < j <= latest s)%nat
         /\ q' = {| run_state := {| shared := sees j s; thread := Some (es, m) |}; queued := true |})
      \/ match m with
         | Done a => idle q' /\ shared (run_state q') = s
         | Step c k => exists x s', good_answer c x s s'
             /\ q' = {| run_state := {| shared := s'; thread := Some (es ++ [event c x], k x) |};
                        queued := queued q |}
         end
  end.
Proof. destruct 1; cbn; [destruct th as [[es m]|]; eauto|done|eauto 10|by right]. Qed.

(** A run ends, and what its steps keep decides where. *)
Lemma run_ends r (J Q : QState -> Prop) :
  (forall q, J q -> quiet_inv r q) ->
  (forall q q', J q -> quiet_step q q' -> ~ idle q' -> J q') ->
  (forall q q', J q -> quiet_step q q' -> ~ idle q -> idle q' -> Q q') ->
  forall q, ~ idle q -> J q -> eventually quiet_step Q q.
Proof.
  intros HJ Hkeep Hend [[s [[es m]|]] q] Hb; [clear Hb|by destruct Hb].
  revert s es q. induction m as [a|X c k IHm]; intros s es q.
  all: remember (latest s - seen s)%nat as n eqn:En; revert s q En;
    induction n as [n IHn] using lt_wf_ind; intros s q -> Hj;
    (apply further; [eapply (busy_step r); [by apply HJ|done]|]); intros q' Hstep;
    destruct (quiet_step_run _ _ Hstep) as [(j & Hlt & ->)|Hm]; cbn in *;
    try (eapply IHn; [|reflexivity|by eapply Hkeep]; unfold latest in *; cbn; lia).
  - apply reached. destruct Hm. by eapply Hend.
  - destruct Hm as (x & s' & _ & ->). apply IHm. by eapply Hkeep.
Qed.

(** ** A run that reads the current version *)

(** The kind and the labels of the selector are supported. *)
Definition listable (sel : WorkloadSelectorSpec) : Prop :=
  if decide (ws_Name sel = "") then
    (exists s, LabelsSelector sel = OK s)
    /\ exists wl, WorkloadListForKind (gk_Kind (ParseKindArg (ws_Kind sel)).2) = OK wl
  else exists wl, WorkloadForKind (ws_Kind sel) = OK wl.

Definition good_event (e : Event) : Prop :=
  match e with
  | event (GetWorkload _ _) x => match x with OK _ => True | Fail e => IsNotFound e = true end
  | event (ListWorkloads _ _ _) x => exists wl, x = OK wl
  | _ => True
  end.

Lemma good_answer_event {X} (c : Call X) x s s' : good_answer c x s s' -> good_event (event c x).
Proof. destruct c; try done; by intros [_ ?]. Qed.

Lemma listWorkloads_good sel ns es res :
  listable sel -> runs (listWorkloads sel ns) es res -> Forall good_event es ->
  exists wls, res = OK wls.
Proof.
  unfold listable, listWorkloads, loadByName, loadByLabelSelector. case_decide as Hn.
  - rewrite bool_decide_eq_true_2 by done. cbn [negb]. intros [[s ->] [wl ->]].
    intros (es1 & es2 & x & -> & ->%runs_call & Hr)%runs_bind [[wl' ->] _]%Forall_cons.
    destruct Hr as [_ ->]. eauto.
  - rewrite bool_decide_eq_false_2 by done. cbn [negb]. intros [wl ->].
    intros (es1 & es2 & x & -> & ->%runs_call & Hr)%runs_bind [Hg _]%Forall_cons.
    destruct x as [wl'|e]; [|rewrite Hg in Hr]; destruct Hr as [_ ->]; eauto.
Qed.

(** What a write of such a run makes of [r0]. *)
Definition wrote (r0 : AuthProxyWorkload) (e : Event) (o : option AuthProxyWorkload) : Prop :=
  match e with
  | event (UpdateResource _) _ =>
      if is_deleted r0 then done_with o
      else exists r', o = Some r' /\ is_deleted r' = false /\ finalizerName ∈ apw_Finalizers r'
  | event (PatchStatus _ _) _ => done_with o
  | _ => False
  end.

Lemma current_stores o s : current (stores o s) = o.
Proof. by eapply current_snoc. Qed.

Lemma patched_settled r0 r orig st g v t :
  safe_write r0 (event (PatchStatus r orig) None) -> merged r0 r orig st ->
  g = GetGeneration r0 -> t = om_DeletionTimestamp (apw_ObjectMeta r0) ->
  done_with (Some (set_Status st (server_meta g v t r0))).
Proof.
  intros Hs Hm -> ->. destruct (merged_settles _ _ _ _ Hs Hm) as (Hd & Hf & Hset). cbn [done_with].
  change (is_deleted _) with (is_deleted r0). rewrite Hd. by split.
Qed.

Lemma good_write_wrote s s' r0 X (c : Call X) x :
  inv key s -> current s = Some r0 -> safe_write r0 (event c x) -> is_write (event c x) = true ->
  good_answer c x s s' -> wrote r0 (event c x) (current s').
Proof.
  intros Hi Hc Hsafe Hw Ha. pose proof (proj1 (current_lookup _ _) Hc) as Hl.
  destruct (inv_version _ _ Hi _ _ Hl) as [_ Hn].
  destruct c; try done; cbn [good_answer wrote] in *; rewrite Hc in Ha.
  - pose proof Hsafe as (r' & [st ->] & ->). rewrite decide_True in Ha by done.
    destruct Ha as [_ Hu]. eapply safe_write_answer in Hsafe.
    destruct (updates_outcome key _ _ _ _ _ _ Hi Hl Hc Hsafe eq_refl Hu)
      as (_ & _ & stored & -> & Hcw & _ & Hfin).
    rewrite current_stores. destruct Hcw as (l & st' & _ & E).
    assert (is_deleted stored = is_deleted r0) as Hd by by rewrite E.
    destruct (is_deleted r0).
    + unfold settle_deletion. destruct (_ && _); [done|]. cbn. rewrite Hd, Hfin, RemoveFinalizer_spec. tauto.
    + exists stored. split_and!; [|done|rewrite Hfin; apply AddFinalizer_spec; by left].
      eapply settle_deletion_keeps. rewrite Hfin. apply AddFinalizer_spec. by left.
  - pose proof Hsafe as (-> & [st ->] & _). rewrite decide_True in Ha by done.
    destruct Ha as [-> [(st' & Hm & ->)|[Hm ->]]].
    + rewrite current_stores. by eapply patched_settled.
    + rewrite Hc. destruct (merged_settles _ _ _ _ Hsafe Hm) as (Hd & Hf & Hset).
      cbn [done_with]. rewrite Hd. by split.
Qed.

Definition fresh (r0 : AuthProxyWorkload) (q : QState) : Prop :=
  let s := shared (run_state q) in
  match thread (run_state q) with
  | None => False
  | Some (es, _) =>
      (es = [] /\ seen s = latest s /\ current s = Some r0)
      \/ exists es', es = event (GetResource key) (OK r0) :: es' /\ Forall good_event es'
           /\ ((writes es' = [] /\ seen s = latest s /\ current s = Some r0)
               \/ exists e, e ∈ writes es' /\ wrote r0 e (current s))
  end.

Lemma fresh_call r r0 s s' es X (c : Call X) k x q b :
  quiet_inv r {| run_state := {| shared := s; thread := Some (es, Step c k) |}; queued := q |} ->
  fresh r0 {| run_state := {| shared := s; thread := Some (es, Step c k) |}; queued := q |} ->
  good_answer c x s s' ->
  fresh r0 {| run_state := {| shared := s'; thread := Some (es ++ [event c x], k x) |}; queued := b |}.
Proof.
  intros [[[Hi [Hc Hr]] _] _] Hf Ha. pose proof (good_answer_answers _ _ _ _ Ha) as Hans.
  pose proof (good_answer_event _ _ _ _ Ha) as Hg. cbn in *. right.
  destruct Hf as [(-> & Hs & Hcur)|(es' & -> & Hev & Hf)].
  - destruct (first_call key c k x Hc) as [y E]. rewrite E.
    assert (y = OK r0 /\ s' = s) as [-> ->].
    { clear Hc Hg. destruct c; try discriminate E. apply (f_equal fetch_of) in E. injection E as -> ->.
      destruct Ha as [-> [(_ & o & Ho & Hx)|[]]]; [|done]. split; [|done].
      apply current_lookup in Hcur. unfold latest in Hs. rewrite <-Hs, Ho in Hcur.
      by injection Hcur as ->. }
    exists []. split_and!; [done..|by left].
  - exists (es' ++ [event c x]). split; [done|]. split; [by apply Forall_app_2; [|apply Forall_singleton]|].
    rewrite writes_snoc. destruct (is_write (event c x)) eqn:Hw.
    + destruct (thread_write key s _ _ _ _ x Hc Hr Hw) as (r1 & es1 & i & E & Hnil & Hsafe & _).
      pose proof (f_equal (fun l => head l ≫= fetch_of) E) as Er. injection Er as <-.
      apply (f_equal tail) in E. cbn in E. subst es1. rewrite Hnil in *.
      destruct Hf as [(_ & _ & Hcur)|(e & He & _)]; [|by apply elem_of_nil in He].
      right. exists (event c x). split; [by left|]. by eapply good_write_wrote.
    + rewrite app_nil_r.
      destruct (answers_log _ _ _ _ _ Hans) as [[El Es]|(o & _ & E)]; [|congruence].
      unfold latest, current in *. by rewrite El, Es.
Qed.

Lemma fresh_step r r0 q q' :
  quiet_inv r q -> fresh r0 q -> quiet_step q q' -> ~ idle q' -> fresh r0 q'.
Proof.
  intros Hi Hf Hstep Hb. destruct q as [[s [[es m]|]] b]; [|done].
  destruct (quiet_step_run _ _ Hstep) as [(j & Hj & ->)|Hm]; cbn in *.
  - destruct Hf as [(_ & Hs & _)|(es' & -> & Hg & [(_ & Hs & _)|Hw])]; [lia..|].
    right. by exists es'; eauto.
  - destruct m as [a|X c k]; [by destruct Hm|]. destruct Hm as (x & s' & Ha & ->).
    by eapply fresh_call.
Qed.

(** Where such a run ends. *)
Definition progress (r0 : AuthProxyWorkload) (o : option AuthProxyWorkload) : Prop :=
  done_with o \/ ((finalizerName ∉ apw_Finalizers r0)
    /\ exists r', o = Some r' /\ is_deleted r' = false /\ finalizerName ∈ apw_Finalizers r').

Lemma fresh_finish r0 es' a o :
  runs (Reconcile key) (event (GetResource key) (OK r0) :: es') a -> Forall good_event es' ->
  listable (sp_Workload (apw_Spec r0)) ->
  (writes es' = [] /\ o = Some r0) \/ (exists e, e ∈ writes es' /\ wrote r0 e o) ->
  progress r0 o.
Proof.
  intros Hrun Hg Hlist Hw. apply Reconcile_fetched in Hrun as (y & es1 & E & Hrun).
  pose proof (f_equal (fun l => head l ≫= fetch_of) E) as Ey. injection Ey as <-.
  apply (f_equal tail) in E. cbn in E. subst es1.
  assert (forall X (c : Call X) x, writes es' = [event c x] -> wrote r0 (event c x) o) as Hone.
  { intros X c x E. rewrite E in Hw. destruct Hw as [[? _]|(e & ->%list_elem_of_singleton & ?)]; done. }
  destruct (Time_IsZero _) eqn:Hlive; destruct Hrun as (es2 & -> & Hrun).
  - apply doCreateUpdate_run in Hrun as (listing & Hout & Hl). unfold state_of in Hout.
    destruct (ContainsFinalizer _ _) eqn:Hfin.
    + destruct (Hl eq_refl) as (ea & eb & -> & Hl'). apply Forall_cons in Hg as [_ Hg].
      apply Forall_app in Hg as [Hg _].
      destruct (listWorkloads_good _ _ _ _ Hlist Hl' Hg) as [wls ->].
      destruct wls; destruct Hout as (r' & x & E & _); left; exact (Hone _ _ _ E).
    + destruct Hout as (x & E & _). right. split; [rewrite <-ContainsFinalizer_spec; congruence|].
      specialize (Hone _ _ _ E). cbn in Hone. unfold is_deleted at 1 in Hone. by rewrite Hlive in Hone.
  - assert (is_deleted r0 = true) as Hd by (unfold is_deleted; by rewrite Hlive).
    apply doDelete_run in Hrun as (listing & ea & eb & -> & Hl' & Hout). left.
    apply Forall_cons in Hg as [_ Hg]. apply Forall_app in Hg as [Hg _].
    destruct (listWorkloads_good _ _ _ _ Hlist Hl' Hg) as [wls ->].
    destruct (ContainsFinalizer _ _) eqn:Hfin.
    + destruct Hout as (r' & x & E & _). specialize (Hone _ _ _ E). cbn in Hone. by rewrite Hd in Hone.
    + destruct Hout as [E _]. change (writes (_ :: ea ++ eb)) with (writes (ea ++ eb)) in Hw.
      rewrite E in Hw. destruct Hw as [[_ ->]|(e & He & _)]; [|by apply elem_of_nil in He].
      cbn. rewrite Hd, <-ContainsFinalizer_spec. congruence.
Qed.

(** ** One run after the other *)
Abbreviation cur q := (current (shared (run_state q))).

(** The cache catches up, then the next run starts, if there is one. *)
Lemma next_run r q :
  quiet_inv r q -> idle q ->
  eventually quiet_step (fun q' => quiet_inv r q' /\ cur q' = cur q
    /\ ((idle q' /\ done_with (cur q')) \/ exists r0, cur q' = Some r0 /\ fresh r0 q')) q.
Proof.
  destruct q as [[s th] b]. intros Hi Hidle. unfold idle in Hidle. cbn in Hidle. subst th.
  remember (latest s - seen s)%nat as n eqn:En. revert s b En Hi.
  induction n as [n IH] using lt_wf_ind. intros s b -> Hi.
  destruct Hi as [[Hs Hq] Ht]. pose proof (inv_seen _ _ (proj1 Hs)) as Hseen. cbn in Hseen, Hq.
  destruct (decide (seen s < latest s)%nat) as [Hlt|Hge].
  - apply further; [eexists; apply (quiet_deliver _ _ _ (latest s)); lia|]. intros q' Hstep.
    pose proof (quiet_step_inv r _ _ (conj (conj Hs Hq) Ht) Hstep) as Hi'.
    inversion Hstep as [? ? ? j Hj| | |]; simplify_eq; [|lia].
    by apply (IH (latest s - j)%nat ltac:(lia) (sees j s) true eq_refl Hi').
  - destruct b.
    + destruct (current s) as [r0|] eqn:Hc.
      2:{ apply reached. split_and!; [done..|left]. cbn. by rewrite Hc. }
      apply further; [eexists; apply quiet_start; unfold latest in *; lia|]. intros q' Hstep.
      pose proof (quiet_step_inv r _ _ (conj (conj Hs Hq) Ht) Hstep) as Hi'.
      inversion Hstep; simplify_eq; [lia|]. apply reached. split_and!; [done..|right].
      exists r0. split; [done|]. by left.
    + destruct (Hq eq_refl) as [Hlt|Hd]; [lia|]. apply reached. split_and!; [done..|by left].
Qed.

Lemma next_round r q :
  listable (sp_Workload (apw_Spec r)) -> quiet_inv r q -> idle q ->
  eventually quiet_step (fun q' => quiet_inv r q' /\ idle q'
    /\ (done_with (cur q') \/ exists r0, cur q = Some r0 /\ progress r0 (cur q'))) q.
Proof.
  intros Hlist Hi Hidle. eapply eventually_then; [by apply (next_run r)|].
  intros q1 (Hi1 & Hc & [[Hid Hd]|(r0 & Hr0 & Hf)]); [apply reached; eauto|].
  rewrite Hr0 in Hc. rewrite <-Hc.
  apply (run_ends r (fun q => quiet_inv r q /\ fresh r0 q)); [by intros ? []| | |by intros E; red in Hf; rewrite E in Hf|done].
  - intros q2 q3 [Hi2 Hf2] Hstep Hb. split; [by eapply quiet_step_inv|by eapply fresh_step].
  - intros q2 q3 [Hi2 Hf2] Hstep Hb Hid. pose proof (quiet_step_inv r _ _ Hi2 Hstep) as Hi3.
    split_and!; [done..|right]. exists r0. split; [done|].
    destruct q2 as [[s [[es m]|]] b]; [|done]. destruct Hi2 as [[[Hinv [Hcont _]] _] _].
    destruct (quiet_step_run _ _ Hstep) as [(j & _ & ->)|Hm]; [done|].
    destruct m as [a|X c k]; cbn in *; [|by destruct Hm as (? & ? & _ & ->)].
    destruct Hm as [_ ->]. specialize (Hcont [] a (conj eq_refl eq_refl)). rewrite app_nil_r in Hcont.
    destruct Hf2 as [(-> & _)|(es' & -> & Hg & Hw)];
      [by apply Reconcile_fetched in Hcont as (? & ? & ? & _)|].
    eapply fresh_finish; [done..| |].
    + destruct Hi1 as [_ Ht]. rewrite Hr0 in Ht. by destruct Ht as (-> & _).
    + destruct Hw as [(? & _ & ?)|?]; auto.
Qed.

Lemma quiet_inv_settles r q :
  listable (sp_Workload (apw_Spec r)) -> quiet_inv r q ->
  eventually quiet_step (fun q' => quiet_inv r q' /\ idle q' /\ done_with (cur q')) q.
Proof.
  intros Hlist Hi.
  assert (eventually quiet_step (fun q' => quiet_inv r q' /\ idle q') q) as Hidle.
  { destruct (thread (run_state q)) as [t|] eqn:Et; [|by apply reached].
    apply (run_ends r (quiet_inv r)); [done|by eauto using quiet_step_inv| |by unfold idle; rewrite Et|done].
    intros q1 q2 H1 Hstep _ Hid. split; [by eapply quiet_step_inv|done]. }
  eapply eventually_then; [exact Hidle|]. intros q1 [Hi1 Hid1].
  eapply eventually_then; [by apply (next_round r)|].
  intros q2 (Hi2 & Hid2 & [Hd|(r0 & _ & [Hd|(_ & r' & Hr' & _ & Hf)])]); [apply reached; eauto..|].
  eapply eventually_weaken; [|by apply (next_round r)]. cbn.
  intros q3 (Hi3 & Hid3 & [Hd|(r1 & Hr1 & [Hd|(Hnf & _)])]); [by eauto..|].
  rewrite Hr' in Hr1. by injection Hr1 as ->.
Qed.

(** ** Without a listing *)
Lemma unlistable_fails sel ns es res :
  ~ listable sel -> runs (listWorkloads sel ns) es res -> exists e, res = Fail e.
Proof.
  unfold listable, listWorkloads, loadByName, loadByLabelSelector. intros Hn.
  case_decide as Hname.
  - rewrite bool_decide_eq_true_2 by done. cbn [negb].
    destruct (LabelsSelector sel) as [s|e]; [|intros [_ ->]; eauto].
    destruct (WorkloadListForKind _) as [l|e]; [|intros [_ ->]; eauto]. destruct Hn. eauto.
  - rewrite bool_decide_eq_false_2 by done. cbn [negb].
    destruct (WorkloadForKind _) as [l|e]; [|intros [_ ->]; eauto]. destruct Hn. eauto.
Qed.

(** A resource being deleted that the controller does not let go. *)
Definition stuck (r : AuthProxyWorkload) (o : option AuthProxyWorkload) : Prop :=
  exists r', o = Some r' /\ apw_Spec r' = apw_Spec r /\ is_deleted r' = true
    /\ finalizerName ∈ apw_Finalizers r'.

Lemma stuck_step r s s' :
  ~ listable (sp_Workload (apw_Spec r)) -> state_inv key s -> controller_step key s s' ->
  stuck r (current (shared s)) -> stuck r (current (shared s')).
Proof.
  intros Hn Hi Hstep (r0 & Hr0 & Espec & Hd & Hf).
  destruct (controller_step_log key s s' Hi Hstep) as [E|(cur & stored & Hc & E & Hcw & Hcase)].
  - rewrite (current_log _ _ E). by exists r0.
  - rewrite Hr0 in Hc. injection Hc as <-. rewrite (current_snoc _ _ _ E).
    destruct Hcase as [[Hsame _]|(es & w & k & es' & Ht & Ees & Hcont & Hst)].
    + rewrite (settle_deletion_keeps stored finalizerName) by by rewrite Hsame.
      exists stored. rewrite Hsame. destruct Hcw as (l & st & _ & ->). done.
    + destruct (deletion_listed key es w k r0 es' Ees Hcont Hd) as (_ & es1 & _ & wls & _ & Hl).
      rewrite Espec in Hl. by destruct (unlistable_fails _ _ _ _ Hn Hl).
Qed.

(** ** Without a resource *)

(** The resource is gone, the cache knows, and [recentlyDeleted] does not have
    it; a run, if there is one, finds that out. *)
Definition missing (q : QState) : Prop :=
  let s := shared (run_state q) in
  seen s = latest s /\ log s !! seen s = Some None /\ cache_get key (deleted_cache s) = false
  /\ match thread (run_state q) with
     | None => queued q = true
     | Some (es, m) => continues (Reconcile key) es m
         /\ (es = [] \/ (exists e, es = [event (GetResource key) (Fail e)])
             \/ exists e, es = [event (GetResource key) (Fail e); event (CacheGet key) false])
     end.

Definition cache_read_of (e : Event) : option (NamespacedName * bool) :=
  match e with event (CacheGet k) b => Some (k, b) | _ => None end.

(** A run that cannot read the resource. *)
Lemma unreadable_run e es a :
  runs (Reconcile key) (event (GetResource key) (Fail e) :: es) a ->
  exists b, es = [event (CacheGet key) b]
    /\ a = if b then (Result_zero, None) else (requeueWithDelay, Some e).
Proof.
  intros (y & es1 & E & Hrun).
  pose proof (f_equal (fun l => head l ≫= fetch_of) E) as Ey. injection Ey as <-.
  apply (f_equal tail) in E. cbn [tail] in E. subst es1.
  destruct Hrun as (b & es2 & -> & Hb). exists b. by destruct b, Hb as [-> ->].
Qed.

Lemma unreadable_call e es X (c : Call X) k x :
  continues (Reconcile key) (event (GetResource key) (Fail e) :: es) (Step c k) ->
  es = [] /\ exists y, event c x = event (CacheGet key) y.
Proof.
  intros Hc. destruct (continues_complete some_answer _ _ _ _ x Hc) as (es' & a & Hrun).
  apply unreadable_run in Hrun as (b & E & _). destruct es as [|e1 es]; [|by destruct es].
  split; [done|]. exists b. exact (f_equal (fun l => default (event c x) (head l)) E).
Qed.

Lemma missing_call s s' es X (c : Call X) k x q b :
  missing {| run_state := {| shared := s; thread := Some (es, Step c k) |}; queued := q |} ->
  good_answer c x s s' ->
  missing {| run_state := {| shared := s'; thread := Some (es ++ [event c x], k x) |}; queued := b |}.
Proof.
  intros (Hs & Hl & Hc & Hcont & Hes) Ha. cbn in *.
  pose proof (continues_call _ _ c k x Hcont) as Hcont'.
  assert (s' = s /\ ((exists e, es ++ [event c x] = [event (GetResource key) (Fail e)])
    \/ exists e, es ++ [event c x] = [event (GetResource key) (Fail e); event (CacheGet key) false]))
    as [-> Hes']; [|by repeat (split; [done|]); right].
  destruct Hes as [->|[[e ->]|[e ->]]].
  - destruct (first_call key c k x Hcont) as [y E]. rewrite E. clear Hcont'.
    destruct c; try discriminate E. apply (f_equal fetch_of) in E. injection E as -> ->.
    destruct Ha as [-> [(_ & o & Ho & Hx)|[]]]; [|done]. split; [done|left].
    rewrite Hl in Ho. injection Ho as <-. destruct Hx as [msg ->]. by eexists.
  - destruct (unreadable_call e [] _ c k x Hcont) as [_ [y E]]. rewrite E. clear Hcont'.
    destruct c; try discriminate E.
    apply (f_equal cache_read_of) in E.
    injection E as -> ->. destruct Ha as [-> ->]. split; [done|right]. exists e. by rewrite Hc.
  - by destruct (unreadable_call e _ _ c k x Hcont).
Qed.

Lemma missing_step q q' : missing q -> quiet_step q q' -> missing q'.
Proof.
  intros Hm Hstep. destruct Hstep as [s th q j Hj|s _|s s' es X c k x q Ha|s es a q].
  - destruct Hm as (Hs & _). cbn in *. lia.
  - destruct Hm as (Hs & Hl & Hc & _). repeat (split; [done|]).
    split; [apply continues_refl|by left].
  - by eapply missing_call.
  - destruct Hm as (Hs & Hl & Hc & Hcont & Hes). repeat (split; [done|]). cbn in *.
    specialize (Hcont [] a (conj eq_refl eq_refl)). rewrite app_nil_r in Hcont.
    destruct Hes as [->|[[e ->]|[e ->]]].
    + by apply Reconcile_fetched in Hcont as (? & ? & ? & _).
    + by apply unreadable_run in Hcont as (b & ? & _).
    + apply unreadable_run in Hcont as (b & E & ->).
      apply (f_equal (fun l => head l ≫= cache_read_of)) in E. injection E as <-. by destruct q.
Qed.

End settling.

(** ** Theorem *)
Section theorems.
Context `{Hk8s : K8sTypes} `{Hlab : LabelsPkg} `{Hschema : SchemaPkg} `{Hutil : ControllerUtil}
  `{Hver : Versions} (key : NamespacedName).

(** The controller settles every resource whose selector is supported: from
    any state that the controller, its users and failures can bring about (in the
    middle of a run, with an old cache, a restart or a refused update behind
    it), once users and failures stop, every sequence of steps ends up, after
    finitely many, with no run in progress and the work done.  A live resource
    has the finalizer and reports UpToDate for its generation; one being deleted
    has lost the finalizer or is gone; the spec, the generation and the deletion
    are as the user left them. *)
Theorem controller_settles q r (Hreach : queue_reachable key q)
    (Hr : current (shared (run_state q)) = Some r)
    (Hlist : listable (sp_Workload (apw_Spec r))) :
  eventually (quiet_step key) (fun q' =>
    thread (run_state q') = None /\
    match current (shared (run_state q')) with
    | None => is_deleted r = true
    | Some r' => apw_Spec r' = apw_Spec r /\ GetGeneration r' = GetGeneration r
        /\ is_deleted r' = is_deleted r
        /\ if is_deleted r then finalizerName ∉ apw_Finalizers r' else settled r'
    end) q.
Proof.
  eapply eventually_weaken; [|apply (quiet_inv_settles key r); [done|]].
  - cbn. intros q' ([_ Ht] & Hid & Hd). split; [done|].
    destruct (current (shared (run_state q'))) as [r'|]; [|done]. destruct Ht as (E1 & _ & E3 & E4).
    cbn in Hd. rewrite E4 in Hd. done.
  - split; [by apply queue_reachable_inv|]. rewrite Hr. apply tracks_refl.
Qed.

(** C25: Where the listing is needed: a resource with a selector that the
    controller does not support (its kind need only be a word to be accepted
    by the API) gets the finalizer like any other, but once it is deleted the
    controller never takes the finalizer away: whatever happens in its steps,
    restarts included, the resource stays there, being deleted. *)
Theorem unsupported_selector_undeletable s s' r (Hreach : reachable key s)
    (Hr : current (shared s) = Some r) (Hdel : is_deleted r = true)
    (Hfin : finalizerName ∈ apw_Finalizers r)
    (Hsel : ~ listable (sp_Workload (apw_Spec r)))
    (Hsteps : rtc (controller_step key) s s') :
  exists r', current (shared s') = Some r' /\ apw_Spec r' = apw_Spec r
    /\ is_deleted r' = true /\ finalizerName ∈ apw_Finalizers r'.
Proof.
  assert (stuck r (current (shared s))) as Hs by by exists r.
  apply reachable_inv in Hreach as Hi. clear Hr Hreach.
  induction Hsteps as [s|s s1 s' Hstep _ IH]; [exact Hs|].
  apply IH; [by eapply stuck_step|by eapply controller_step_inv].
Qed.

(** A resource that is gone and that this process has not seen being deleted (it
    went before it had the finalizer, or another process removed the finalizer)
    is never forgotten: [Reconcile] reports an error for it, and it comes back
    to the queue, for ever. *)
Theorem missing_resource_retried s q (Hseen : seen s = latest s)
    (Hgone : log s !! seen s = Some None) (Hcache : cache_get key (deleted_cache s) = false)
    (Hsteps : rtc (quiet_step key)
                {| run_state := {| shared := s; thread := None |}; queued := true |} q)
    (Hidle : thread (run_state q) = None) :
  queued q = true.
Proof.
  assert (missing key q) as (_ & _ & _ & Hq); [|by rewrite Hidle in Hq].
  revert Hsteps. apply rtc_ind_r; [by split_and!|].
  intros q1 q2 _ Hstep Hm. by eapply missing_step.
Qed.

End theorems.

(** ** Witness *)
Section witnesses.
Import ConcreteInstances.
#[local] Existing Instance test_util.
#[local] Existing Instance test_versions.

(** From the moment a user has created a resource. *)
Lemma controller_settles_witness :
  exists q, queue_reachable orders_key q
  /\ current (shared (run_state q)) = Some new_apw
  /\ listable (sp_Workload (apw_Spec new_apw))
  /\ eventually (quiet_step orders_key) (fun q' =>
       thread (run_state q') = None /\
       match current (shared (run_state q')) with
       | None => is_deleted new_apw = true
       | Some r' => apw_Spec r' = apw_Spec new_apw /\ GetGeneration r' = GetGeneration new_apw
           /\ is_deleted r' = is_deleted new_apw
           /\ if is_deleted new_apw then finalizerName ∉ apw_Finalizers r' else settled r'
       end) q.
Proof.
  assert (exists q, queue_reachable orders_key q
    /\ current (shared (run_state q)) = Some new_apw) as (q & Hq & Hr).
  { eexists. split.
    - eapply rtc_l; [apply queue_user, (user_create _ _ new_apw); reflexivity|]. apply rtc_refl.
    - reflexivity. }
  assert (listable (sp_Workload (apw_Spec new_apw))) as Hl
    by (split; eexists; reflexivity).
  exists q. do 3 (split; [done|]).
  exact (controller_settles orders_key q new_apw Hq Hr Hl).
Defined.

(** A misspelled kind. *)
Definition odd_apw : AuthProxyWorkload :=
  set_Finalizers [finalizerName] (mk_apw "default" "orders" (mk_selector "Deploymnet" "" None) None []).
Definition odd_going : AuthProxyWorkload := server_meta 2 "2" (Some 7) odd_apw.

Lemma unsupported_selector_undeletable_witness :
  exists s s', reachable orders_key s /\ current (shared s) = Some odd_going
  /\ rtc (controller_step orders_key) s s'
  /\ thread s = None /\ thread s' <> None
  /\ exists r', current (shared s') = Some r' /\ apw_Spec r' = apw_Spec odd_going
       /\ is_deleted r' = true /\ finalizerName ∈ apw_Finalizers r'.
Proof.
  assert (exists s s', reachable orders_key s /\ current (shared s) = Some odd_going
    /\ rtc (controller_step orders_key) s s' /\ thread s = None /\ thread s' <> None)
    as (s & s' & Hs & Hr & Hsteps & Ht & Ht').
  { eexists _, _. split; [|split; [|split; [|split]]].
    - eapply rtc_l; [apply step_user, (user_create _ _ odd_apw); reflexivity|].
      eapply rtc_l; [apply step_user, (user_delete _ _ odd_apw 7); reflexivity|]. apply rtc_refl.
    - reflexivity.
    - eapply rtc_l; [apply start|]. apply rtc_refl.
    - reflexivity.
    - discriminate. }
  exists s, s'. do 5 (split; [done|]).
  apply (unsupported_selector_undeletable orders_key s s' odd_going Hs Hr); [reflexivity|by left| |done].
  intros [_ [wl E]]. vm_compute in E. discriminate E.
Defined.

(** A run for a resource that never was. *)
Lemma missing_resource_retried_witness :
  exists q es, rtc (quiet_step orders_key)
    {| run_state := {| shared := shared initial; thread := None |}; queued := true |}
    {| run_state := {| shared := shared initial; thread := Some (es, Done q) |}; queued := false |}
  /\ queued {| run_state := {| shared := shared initial; thread := None |};
               queued := false || requeued q |} = true.
Proof.
  assert (exists q es, rtc (quiet_step orders_key)
    {| run_state := {| shared := shared initial; thread := None |}; queued := true |}
    {| run_state := {| shared := shared initial; thread := Some (es, Done q) |}; queued := false |})
    as (q & es & Hsteps).
  { eexists _, _. eapply rtc_l; [by apply quiet_start|].
    eapply rtc_l.
    { eapply (quiet_call _ _ _ _ _ (GetResource orders_key) _
                (Fail (StatusError StatusReasonNotFound ""))).
      split; [reflexivity|]. left. split; [done|]. exists None. split; [done|]. by eexists. }
    eapply rtc_l.
    { eapply (quiet_call _ _ _ _ _ (CacheGet orders_key) _ false). by split. }
    apply rtc_refl. }
  exists q, es. split; [exact Hsteps|].
  apply (missing_resource_retried orders_key (shared initial) _ eq_refl eq_refl eq_refl);
    [|reflexivity].
  eapply rtc_r; [exact Hsteps|]. apply quiet_finish.
Defined.

End witnesses.
