(* ===== verification/Fleet.v ===== *)
(** * Many resources

    [Concurrency], [Queue] and [Settling] follow one resource.  Here one
    controller serves all of them: runs of [Reconcile] for different resources
    are interleaved, they share the cache of deleted resources, and the API
    server finds the resource of a call by the name in the call.  A run only
    reaches the resource it was started for, so each resource goes through the
    steps of [Queue] as if it were alone, and what was shown there holds for
    every resource. *)

From S2P Require Import Prelude Interaction Liveness GoStd Api Concrete Names Workload Fixtures Status Reconciler.
From S2P Require Import Convergence Concurrency Queue Settling.
From stdpp Require Import functions.
From Stdlib Require Import Ascii.
#[local] Open Scope Z_scope.

(** ** Which resource a call is about *)
Section addressees.
Context `{Hk8s : K8sTypes} `{Hlab : LabelsPkg} `{Hschema : SchemaPkg} `{Hutil : ControllerUtil}.

(** The name in the call, if it is about a resource or its entry in the cache. *)
Definition addressee {X} (c : Call X) : option NamespacedName :=
  match c with
  | GetResource k => Some k
  | UpdateResource r => Some (apw_NamespacedName r)
  | PatchStatus r _ => Some (apw_NamespacedName r)
  | CacheGet k => Some k
  | CacheSet k _ => Some k
  | GetWorkload _ _ | ListWorkloads _ _ _ | Now => None
  end.

(** The calls of the cache of deleted resources; [Some b]: it is set to [b]. *)
Definition cache_call {X} (c : Call X) : option (option bool) :=
  match c with CacheGet _ => Some None | CacheSet _ b => Some (Some b) | _ => None end.

(** The calls after the resource has been read. *)
Definition addressed (key : NamespacedName) (e : Event) : Prop :=
  match e with event c _ => default key (addressee c) = key /\ cache_call c = None end.

Lemma listWorkloads_addressed key sel ns : calls_only (addressed key) (listWorkloads sel ns).
Proof.
  unfold listWorkloads, loadByName, loadByLabelSelector. repeat case_match;
    try apply calls_only_ret; (apply calls_only_bind; [by apply calls_only_call|]);
    intros _ x _; repeat case_match; apply calls_only_ret.
Qed.

Lemma update_statuses_addressed key r wls : calls_only (addressed key) (update_statuses r wls).
Proof.
  revert r. induction wls as [|wl wls IH]; intros r; [apply calls_only_ret|].
  apply calls_only_bind; [by apply calls_only_call|]. intros _ now _. apply IH.
Qed.

Lemma updateWorkloadStatus_addressed key r : calls_only (addressed key) (updateWorkloadStatus r).
Proof.
  apply calls_only_bind; [apply listWorkloads_addressed|]. intros _ [wls|e] _; [|apply calls_only_ret].
  apply calls_only_bind; [apply update_statuses_addressed|]. intros _ r' _. apply calls_only_ret.
Qed.

Lemma write_addressed {A} key (c : Call (option error)) (f : option error -> Prog A) :
  addressee c = Some key -> cache_call c = None -> (forall x, calls_only (addressed key) (f x)) ->
  calls_only (addressed key) (x ← call c; f x).
Proof.
  intros E Ec Hf. apply calls_only_bind; [|by intros ? x _].
  apply calls_only_call. intros x. cbn. by rewrite E, Ec.
Qed.

Lemma reconcileResult_addressed r orig reason msg :
  calls_only (addressed (apw_NamespacedName r)) (reconcileResult r orig reason msg).
Proof.
  unfold reconcileResult. apply calls_only_bind.
  { case_match; [by apply calls_only_call|apply calls_only_ret]. }
  intros _ now _. apply calls_only_bind.
  - apply write_addressed; [done..|]. intros [e|]; [apply calls_only_ret|].
    apply calls_only_bind; [by apply calls_only_call|]. intros _ [] _; apply calls_only_ret.
  - intros _ [] _; apply calls_only_ret.
Qed.

Lemma doCreateUpdate_addressed r : calls_only (addressed (apw_NamespacedName r)) (doCreateUpdate r).
Proof.
  unfold doCreateUpdate. case_match.
  - apply write_addressed; [done..|]. intros []; apply calls_only_ret.
  - apply calls_only_bind; [apply updateWorkloadStatus_addressed|].
    intros es [[wls r']|e] Hrun; [|apply calls_only_ret].
    apply updateWorkloadStatus_run in Hrun as (_ & _ & _ & [wls'|] & _ & _ & Hres); [|done].
    destruct Hres as (_ & [st ->] & _). case_match; apply (reconcileResult_addressed (set_Status st r)).
Qed.

Lemma doDelete_addressed r : calls_only (addressed (apw_NamespacedName r)) (doDelete r).
Proof.
  unfold doDelete. apply calls_only_bind; [apply updateWorkloadStatus_addressed|].
  intros es [[wls r']|e] Hrun; [|apply calls_only_ret].
  apply updateWorkloadStatus_run in Hrun as (_ & _ & _ & [wls'|] & _ & _ & Hres); [|done].
  destruct Hres as (_ & [st ->] & _). case_match; [|apply calls_only_ret].
  apply write_addressed; [done..|]. intros []; apply calls_only_ret.
Qed.

(** A read of the resource gets the resource. *)
Definition own_read (key : NamespacedName) (es : list Event) : Prop := forall r0 es',
  es = event (GetResource key) (OK r0) :: es' -> apw_NamespacedName r0 = key.

(** The next call of a run: it reads the resource, asks the cache about one that
    could not be read, tells it about one that was read, or goes on with that
    one. *)
Lemma Reconcile_next key es X (c : Call X) k x :
  continues (Reconcile key) es (Step c k) -> own_read key es ->
  (exists y, event c x = event (GetResource key) y)
  \/ (exists y, event c x = event (CacheGet key) y)
  \/ (exists r, es = [event (GetResource key) (OK r)]
        /\ event c x = event (CacheSet key (negb (Time_IsZero (om_DeletionTimestamp (apw_ObjectMeta r))))) tt)
  \/ addressed key (event c x).
Proof.
  intros Hc Hown. destruct es as [|e0 es]; [left; by eapply first_call|].
  destruct (continues_complete some_answer _ _ _ _ x Hc) as (es2 & a & Hrun).
  apply Reconcile_fetched in Hrun as (y & es1 & E & Hrun).
  assert (e0 = event (GetResource key) y) as -> by exact (f_equal (fun l => default e0 (head l)) E).
  apply (f_equal tail) in E. cbn in E. subst es1. destruct y as [r0|err].
  - specialize (Hown r0 es eq_refl). right. right.
    assert (exists b es3, es ++ event c x :: es2 = event (CacheSet key b) tt :: es3
      /\ b = negb (Time_IsZero (om_DeletionTimestamp (apw_ObjectMeta r0)))
      /\ Forall (addressed key) es3) as (b & es3 & E & -> & Hall).
    { destruct (Time_IsZero _); destruct Hrun as (es3 & E & Hrun); eexists _, es3;
        (split; [exact E|]); (split; [done|]); rewrite <-Hown;
        [by eapply doCreateUpdate_addressed|by eapply doDelete_addressed]. }
    destruct es as [|e1 es].
    + left. exists r0. split; [done|]. exact (f_equal (fun l => default (event c x) (head l)) E).
    + right. apply (f_equal tail) in E. cbn in E. rewrite <-E in Hall.
      apply Forall_app in Hall as [_ Hall]. by apply Forall_cons_1 in Hall as [Hall _].
  - right. left. by destruct (unreadable_call key err es _ c k x Hc) as [_ Hy].
Qed.

(** The resource that an event is about. *)
Definition event_key (key : NamespacedName) (e : Event) : NamespacedName :=
  match e with event c _ => default key (addressee c) end.

Lemma Reconcile_addressed key es X (c : Call X) k :
  continues (Reconcile key) es (Step c k) -> own_read key es -> default key (addressee c) = key.
Proof.
  intros Hc Hown. change (event_key key (event c (some_answer X c)) = key).
  destruct (Reconcile_next key es X c k (some_answer X c) Hc Hown)
    as [[y ->]|[[y ->]|[(r & _ & ->)|[H _]]]]; done.
Qed.

End addressees.

(** ** The fleet *)
Section fleet.
Context `{Hk8s : K8sTypes} `{Hlab : LabelsPkg} `{Hschema : SchemaPkg} `{Hutil : ControllerUtil}
  `{Hver : Versions}.

(** One resource: its versions at the server, the version the controller's
    cache has, the run that works on it, and whether it is in the queue. *)
Record Resource := {
  history : list (option AuthProxyWorkload);
  delivered : nat;
  working : option (list Event * Prog (Result * option error));
  pending : bool
}.

Record Fleet := { resource : NamespacedName -> Resource; deleted : recentlyDeletedCache }.

(** What the calls about [k] see and change. *)
Definition view (k : NamespacedName) (f : Fleet) : Shared :=
  {| log := history (resource f k); seen := delivered (resource f k); deleted_cache := deleted f |}.

Definition set_resource (k : NamespacedName) (r : Resource) (f : Fleet) : Fleet :=
  {| resource := <[k := r]> (resource f); deleted := deleted f |}.

Definition set_view (k : NamespacedName) (s : Shared) (f : Fleet) : Fleet :=
  {| resource := <[k := {| history := log s; delivered := seen s;
                           working := working (resource f k);
                           pending := pending (resource f k) |}]> (resource f);
     deleted := deleted_cache s |}.

Definition set_working (k : NamespacedName) (th : option (list Event * Prog (Result * option error)))
    (b : bool) (f : Fleet) : Fleet :=
  set_resource k {| history := history (resource f k); delivered := delivered (resource f k);
                    working := th; pending := b |} f.

(** A step for [k].  The queue starts a resource that it holds when no run
    works on it, so there may be any number of workers; a call goes to the
    resource whose name is in it. *)
Inductive local_step (k : NamespacedName) (f : Fleet) : Fleet -> Prop :=
| fleet_user s :
    user_step k (view k f) s -> local_step k f (set_view k s f)
| fleet_deliver j :
    (seen (view k f) < j <= latest (view k f))%nat ->
    local_step k f (set_working k (working (resource f k)) true (set_view k (sees j (view k f)) f))
| fleet_start :
    working (resource f k) = None -> pending (resource f k) = true ->
    local_step k f (set_working k (Some ([], Reconcile k)) false f)
| fleet_call es X (c : Call X) rest x s :
    working (resource f k) = Some (es, Step c rest) ->
    let k' := default k (addressee c) in
    answers k' c x (view k' f) s ->
    local_step k f (set_working k (Some (es ++ [event c x], rest x)) (pending (resource f k))
                      (set_view k' s f))
| fleet_finish es a :
    working (resource f k) = Some (es, Done a) ->
    local_step k f (set_working k None (pending (resource f k) || requeued a) f).

(** The process starts again: with an empty [recentlyDeletedCache], and every
    resource that it lists in the queue. *)
Definition restarted (queue : NamespacedName -> bool) (f : Fleet) : Fleet :=
  {| resource k := {| history := history (resource f k); delivered := delivered (resource f k);
                      working := None; pending := queue k |};
     deleted := cache_zero |}.

Inductive fleet_step (f : Fleet) : Fleet -> Prop :=
| fleet_local k f' : local_step k f f' -> fleet_step f f'
| fleet_restart queue :
    (forall k r, history (resource f k) !! delivered (resource f k) = Some (Some r) -> queue k = true) ->
    fleet_step f (restarted queue f).

Definition fleet_initial : Fleet :=
  {| resource _ := {| history := [None]; delivered := 0; working := None; pending := false |};
     deleted := cache_zero |}.

Definition fleet_reachable (f : Fleet) : Prop := rtc fleet_step fleet_initial f.

(** ** One resource of the fleet, as [Queue] has it *)
Definition proj (k : NamespacedName) (f : Fleet) : QState :=
  {| run_state := {| shared := view k f; thread := working (resource f k) |};
     queued := pending (resource f k) |}.

Definition set_cache (d : recentlyDeletedCache) (s : Shared) : Shared :=
  {| log := log s; seen := seen s; deleted_cache := d |}.

Definition with_cache (d : recentlyDeletedCache) (q : QState) : QState :=
  {| run_state := {| shared := set_cache d (shared (run_state q)); thread := thread (run_state q) |};
     queued := queued q |}.

(** The same state, but for the entries of other resources in the cache. *)
Definition similar (k : NamespacedName) (q q' : QState) : Prop :=
  exists d, q' = with_cache d q
  /\ cache_get k d = cache_get k (deleted_cache (shared (run_state q))).

Lemma similar_refl k q : similar k q q.
Proof. exists (deleted_cache (shared (run_state q))). by destruct q as [[[] ?] ?]. Qed.

Lemma similar_sym k q q' : similar k q q' -> similar k q' q.
Proof.
  intros (d & -> & E). exists (deleted_cache (shared (run_state q))). by destruct q as [[[] ?] ?].
Qed.

Lemma similar_trans k q1 q2 q3 : similar k q1 q2 -> similar k q2 q3 -> similar k q1 q3.
Proof. intros (d & -> & E) (d' & -> & E'). exists d'. split; [done|]. cbn in E'. congruence. Qed.

#[local] Instance similar_equivalence k : Equivalence (similar k).
Proof. split; [exact (similar_refl k)|exact (similar_sym k)|exact (similar_trans k)]. Qed.

(** *** Steps of similar states *)
Lemma answers_similar k X (c : Call X) x s s' d :
  default k (addressee c) = k -> answers k c x s s' -> cache_get k d = cache_get k (deleted_cache s) ->
  exists d', answers k c x (set_cache d s) (set_cache d' s')
    /\ cache_get k d' = cache_get k (deleted_cache s').
Proof.
  intros Ek Ha E. destruct c; cbn in Ek, Ha; subst.
  - destruct Ha as [-> Ha]. by exists d.
  - by exists d.
  - by exists d.
  - exists d. destruct Ha as [[He ->]|(cur & Hc & En & Ev & g & Hg & ->)]; split; [by left|done| |done].
    right. exists cur. do 3 (split; [done|]). by exists g.
  - exists d. destruct Ha as [[He ->]|(cur & Hc & En & [(st & Hm & ->)|[Hm ->]])]; split; try done;
      [by left|right..]; exists cur; do 2 (split; [done|]); [left; by exists st|by right].
  - by exists d.
  - destruct Ha as [-> ->]. exists d. split; [by split|done].
  - exists (cache_set k deleted0 d). split; [done|].
    cbn [deleted_cache]. by rewrite !(proj1 (cache_get_set _ _ _ _)), bool_decide_eq_true_2.
Qed.

Lemma good_answer_similar k X (c : Call X) x s s' d :
  default k (addressee c) = k -> good_answer k c x s s' ->
  cache_get k d = cache_get k (deleted_cache s) ->
  exists d', good_answer k c x (set_cache d s) (set_cache d' s')
    /\ cache_get k d' = cache_get k (deleted_cache s').
Proof.
  intros Ek Ha E. destruct c as [| | |r|r orig| | |]; 
    try exact (answers_similar k _ _ x s s' d Ek Ha E).
  - destruct Ha as [-> Ha]. by exists d.
  - destruct Ha as [-> Ha]. by exists d.
  - cbn in Ha |- *. change (current (set_cache d s)) with (current s).
    destruct (current s) as [cur|]; [destruct (decide _)|].
    + destruct Ha as (-> & g & Hg & ->). exists d. split; [|done]. split; [done|]. by exists g.
    + destruct Ha as [He ->]. by exists d.
    + destruct Ha as [He ->]. by exists d.
  - cbn in Ha |- *. change (current (set_cache d s)) with (current s).
    destruct (current s) as [cur|]; [destruct (decide _)|].
    + destruct Ha as (-> & [(st & Hm & ->)|[Hm ->]]); exists d; (split; [|done]); (split; [done|]);
        [left; by exists st|by right].
    + destruct Ha as [He ->]. by exists d.
    + destruct Ha as [He ->]. by exists d.
Qed.

Lemma user_step_set_cache k s s' d :
  user_step k s s' -> user_step k (set_cache d s) (set_cache d s') /\ deleted_cache s' = deleted_cache s.
Proof.
  intros [r Hc Hn Hv Hd Hs|cur r s1 Hc Hn Hf (g & Hg & ->)|cur t Hc Hd Ht]; split; try done.
  - by apply (user_create k (set_cache d s) r).
  - apply (user_edit k (set_cache d s) cur r); [done..|]. by exists g.
  - by apply (user_delete k (set_cache d s) cur t).
Qed.

(** The run of a state, if there is one, calls for [k]. *)
Definition calls_own (k : NamespacedName) (q : QState) : Prop :=
  match thread (run_state q) with
  | Some (_, Step c _) => default k (addressee c) = k
  | _ => True
  end.

Lemma queue_step_similar k q1 q1' q2 :
  queue_step k q1 q1' -> similar k q1 q2 -> calls_own k q1 ->
  exists q2', queue_step k q2 q2' /\ similar k q1' q2'.
Proof.
  intros Hstep (d & -> & E) Hown.
  destruct Hstep as [s s' th q Hu|s th q j Hj|s|s s' es X c rest x q Ha|s es a q|s th q q' Hl]; cbn in *.
  - destruct (user_step_set_cache k s s' d Hu) as [Hu' E']. eexists. split; [by apply queue_user|].
    exists d. split; [done|]. cbn. by rewrite E'.
  - eexists. split; [by apply (queue_deliver _ _ _ _ j)|]. by exists d.
  - eexists. split; [apply queue_start|]. by exists d.
  - destruct (answers_similar k X c x s s' d Hown Ha E) as (d' & Ha' & E').
    eexists. split; [by apply queue_call|]. by exists d'.
  - eexists. split; [apply queue_finish|]. by exists d.
  - eexists. split; [by apply (queue_restart _ _ _ _ q')|]. by exists cache_zero.
Qed.

Lemma quiet_step_similar k q1 q1' q2 :
  quiet_step k q1 q1' -> similar k q1 q2 -> calls_own k q1 ->
  exists q2', quiet_step k q2 q2' /\ similar k q1' q2'.
Proof.
  intros Hstep (d & -> & E) Hown.
  destruct Hstep as [s th q j Hj|s Hs|s s' es X c rest x q Ha|s es a q]; cbn in *.
  - eexists. split; [by apply (quiet_deliver _ _ _ _ j)|]. by exists d.
  - eexists. split; [by apply quiet_start|]. by exists d.
  - destruct (good_answer_similar k X c x s s' d Hown Ha E) as (d' & Ha' & E').
    eexists. split; [by apply quiet_call|]. by exists d'.
  - eexists. split; [apply quiet_finish|]. by exists d.
Qed.

(** *** Steps of the fleet *)
Lemma resource_set_resource k k' r f :
  resource (set_resource k r f) k' = if decide (k = k') then r else resource f k'.
Proof. done. Qed.

Lemma resource_set_view k k' s f :
  resource (set_view k s f) k' =
    if decide (k = k')
    then {| history := log s; delivered := seen s; working := working (resource f k);
            pending := pending (resource f k) |}
    else resource f k'.
Proof. done. Qed.

(** A call about [k] leaves the entries of other names in the cache. *)
Lemma answers_other_entries k k' X (c : Call X) x s s' :
  default k (addressee c) = k -> k <> k' -> answers k c x s s' ->
  cache_get k' (deleted_cache s') = cache_get k' (deleted_cache s).
Proof.
  intros Ek Hne Ha. destruct c; cbn in Ek, Ha; subst; try done.
  - by destruct Ha as [-> _].
  - by destruct Ha as [[_ ->]|(cur & _ & _ & _ & g & _ & ->)].
  - by destruct Ha as [[_ ->]|(cur & _ & _ & [(st & _ & ->)|[_ ->]])].
  - by destruct Ha as [_ ->].
  - cbn [deleted_cache]. rewrite (proj1 (cache_get_set _ _ _ _)). by rewrite bool_decide_eq_false_2.
Qed.

(** The run of [k] calls for [k]: then its call sees and changes [view k]. *)
Lemma own_call k f es X (c : Call X) rest :
  calls_own k (proj k f) -> working (resource f k) = Some (es, Step c rest) ->
  default k (addressee c) = k.
Proof. intros Hown Hw. unfold calls_own in Hown. cbn in Hown. by rewrite Hw in Hown. Qed.

(** Another resource does not notice a step for [k]. *)
Lemma local_step_elsewhere k k' f f' :
  local_step k f f' -> calls_own k (proj k f) -> k <> k' ->
  resource f' k' = resource f k' /\ cache_get k' (deleted f') = cache_get k' (deleted f).
Proof.
  intros Hstep Hown Hne. destruct Hstep as [s Hu|j Hj|Hw Hp|es X c rest x s Hw k1 Ha|es a Hw];
    try (pose proof (own_call k f es X c rest Hown Hw) as Ek; unfold k1 in *; rewrite Ek in Ha |- *; clear k1);
    unfold set_working, set_view, set_resource; cbn [resource deleted];
    rewrite !fn_lookup_insert_ne by done; (split; [done|]); try done.
  - by destruct (user_step_set_cache k _ s (deleted f) Hu) as [_ ->].
  - by rewrite (answers_other_entries k k' X c x _ s Ek Hne Ha).
Qed.

Lemma local_step_other k k' f f' :
  local_step k f f' -> calls_own k (proj k f) -> k <> k' -> similar k' (proj k' f) (proj k' f').
Proof.
  intros Hstep Hown Hne. destruct (local_step_elsewhere k k' f f' Hstep Hown Hne) as [Er Ec].
  exists (deleted f'). split; [|done]. unfold with_cache, proj, view, set_cache. by rewrite Er.
Qed.

Lemma proj_set_view k s f :
  proj k (set_view k s f) =
    {| run_state := {| shared := s; thread := working (resource f k) |}; queued := pending (resource f k) |}.
Proof. unfold proj, view, set_view. cbn. rewrite fn_lookup_insert. by destruct s. Qed.

Lemma proj_set_working k th b f :
  proj k (set_working k th b f) =
    {| run_state := {| shared := view k f; thread := th |}; queued := b |}.
Proof. unfold proj, view, set_working, set_resource. cbn. by rewrite fn_lookup_insert. Qed.

Lemma view_set_view k s f : view k (set_view k s f) = s.
Proof. exact (f_equal (fun q => shared (run_state q)) (proj_set_view k s f)). Qed.

(** A step for [k] is a step of [Queue]. *)
Lemma local_step_queue k f f' :
  local_step k f f' -> calls_own k (proj k f) -> queue_step k (proj k f) (proj k f').
Proof.
  intros Hstep Hown. destruct Hstep as [s Hu|j Hj|Hw Hp|es X c rest x s Hw k1 Ha|es a Hw];
    try (pose proof (own_call k f es X c rest Hown Hw) as Ek; unfold k1 in *; rewrite Ek in Ha |- *; clear k1);
    rewrite ?proj_set_working, ?view_set_view, ?proj_set_view; unfold proj; rewrite ?Hw, ?Hp.
  - by apply queue_user.
  - by apply queue_deliver.
  - apply queue_start.
  - by apply queue_call.
  - apply queue_finish.
Qed.

(** And every step of [Queue], restarts apart, is a step for [k]. *)
Lemma queue_step_local k f q :
  queue_step k (proj k f) q -> calls_own k (proj k f) ->
  (exists f', local_step k f f' /\ proj k f' = q)
  \/ exists b, ((exists r, log (view k f) !! seen (view k f) = Some (Some r)) -> b = true)
       /\ q = {| run_state := {| shared := set_cache cache_zero (view k f); thread := None |};
                 queued := b |}.
Proof.
  intros Hstep Hown. remember (proj k f) as p eqn:Ep.
  destruct Hstep as [s s' th q Hu|s th q j Hj|s|s s' es X c rest x q Ha|s es a q|s th q q' Hl];
    injection Ep as -> Hw Hp; [left..|right; by exists q'].
  - eexists. split; [by apply fleet_user|]. by rewrite proj_set_view, <-Hw, <-Hp.
  - eexists. split; [by apply (fleet_deliver k f j)|]. by rewrite proj_set_working, view_set_view, <-Hw.
  - eexists. split; [by apply fleet_start|]. by rewrite proj_set_working.
  - cbn in Hown. eexists. split; [apply (fleet_call k f es X c rest x s'); [done|by rewrite Hown]|].
    by rewrite proj_set_working, Hown, view_set_view, <-Hp.
  - eexists. split; [by apply (fleet_finish k f es a)|].
    by rewrite proj_set_working, <-Hp.
Qed.

Lemma quiet_step_local k f q :
  quiet_step k (proj k f) q -> calls_own k (proj k f) ->
  exists f', local_step k f f' /\ proj k f' = q.
Proof.
  intros Hstep Hown. remember (proj k f) as p eqn:Ep.
  destruct Hstep as [s th q j Hj|s Hs|s s' es X c rest x q Ha|s es a q]; injection Ep as -> Hw Hp.
  - eexists. split; [by apply (fleet_deliver k f j)|]. by rewrite proj_set_working, view_set_view, <-Hw.
  - eexists. split; [by apply fleet_start|]. by rewrite proj_set_working.
  - cbn in Hown. eexists. split; [apply (fleet_call k f es X c rest x s'); [done|]|].
    + rewrite Hown. by apply good_answer_answers.
    + by rewrite proj_set_working, Hown, view_set_view, <-Hp.
  - eexists. split; [by apply (fleet_finish k f es a)|]. by rewrite proj_set_working, <-Hp.
Qed.

(** ** The invariant *)
Definition isolated (k : NamespacedName) (f : Fleet) : Prop :=
  (forall es m, working (resource f k) = Some (es, m) -> own_read k es)
  /\ exists q, queue_reachable k q /\ similar k (proj k f) q.

Lemma inv_set_cache k d s : inv k (set_cache d s) -> inv k s.
Proof. intros []. by split. Qed.

Lemma isolated_state_inv k f : isolated k f -> state_inv k (run_state (proj k f)).
Proof.
  intros [_ (q & [[Hi Ht] _]%queue_reachable_inv & d & -> & _)]. split; [exact (inv_set_cache k d _ Hi)|exact Ht].
Qed.

Lemma isolated_calls_own k f : isolated k f -> calls_own k (proj k f).
Proof.
  intros Hf. destruct (isolated_state_inv k f Hf) as [_ Ht]. destruct Hf as [Hown _].
  unfold calls_own. cbn in Ht |- *. destruct (working (resource f k)) as [[es [a|X c rest]]|]; try done.
  destruct Ht as [Hc _]. by eapply Reconcile_addressed, Hown.
Qed.

Lemma own_read_snoc k X (c : Call X) x s s' es :
  inv k s -> answers k c x s s' -> own_read k es -> own_read k (es ++ [event c x]).
Proof.
  intros Hi Ha Hown r0 es' E. destruct es as [|e0 es]; [clear Hown|].
  - assert (event c x = event (GetResource k) (OK r0)) as Ee
      by exact (f_equal (fun l => default (event c x) (head l)) E).
    clear E. destruct c; try discriminate Ee. apply (f_equal fetch_of) in Ee. injection Ee as -> ->.
    destruct Ha as [_ [(_ & o & Ho & Hx)|[]]]; [|done].
    destruct o as [r|]; [injection Hx as ->|by destruct Hx]. by apply (inv_version _ _ Hi _ _ Ho).
  - assert (e0 = event (GetResource k) (OK r0)) as ->
      by exact (f_equal (fun l => default e0 (head l)) E).
    by apply (Hown r0 es).
Qed.

Lemma local_step_own_read k f f' :
  local_step k f f' -> isolated k f ->
  forall es m, working (resource f' k) = Some (es, m) -> own_read k es.
Proof.
  intros Hstep Hf. pose proof (isolated_calls_own k f Hf) as Hcalls.
  pose proof (isolated_state_inv k f Hf) as [Hi _]. destruct Hf as [Hown _].
  destruct Hstep as [s Hu|j Hj|Hw Hp|es X c rest x s Hw k1 Ha|es a Hw]; intros es' m;
    unfold set_working, set_view, set_resource; cbn [resource]; rewrite fn_lookup_insert; cbn;
    [by apply Hown|by apply Hown| | |done]; intros [= <- <-].
  - by intros r0 es1.
  - pose proof (own_call k f es X c rest Hcalls Hw) as Ek. unfold k1 in Ha. rewrite Ek in Ha.
    eapply own_read_snoc; [exact Hi|exact Ha|by eapply Hown].
Qed.

Lemma local_step_isolated k0 k f f' :
  local_step k0 f f' -> isolated k0 f -> isolated k f -> isolated k f'.
Proof.
  intros Hstep H0 Hf. pose proof (isolated_calls_own k0 f H0) as Hcalls.
  destruct (decide (k0 = k)) as [->|Hne].
  - split; [by apply (local_step_own_read k f f' Hstep)|]. destruct Hf as [_ (q & Hq & Hsim)].
    destruct (queue_step_similar k _ _ q (local_step_queue k f f' Hstep Hcalls) Hsim Hcalls)
      as (q' & Hq' & Hsim').
    exists q'. split; [by eapply rtc_r|done].
  - destruct (local_step_elsewhere k0 k f f' Hstep Hcalls Hne) as [E _]. split.
    + rewrite E. apply Hf.
    + destruct Hf as [_ (q & Hq & Hsim)]. exists q. split; [done|].
      etrans; [symmetry; by eapply local_step_other|exact Hsim].
Qed.

Lemma proj_restarted k queue f :
  proj k (restarted queue f) =
    {| run_state := {| shared := set_cache cache_zero (view k f); thread := None |};
       queued := queue k |}.
Proof. done. Qed.

Lemma fleet_step_isolated k f f' :
  fleet_step f f' -> (forall k, isolated k f) -> isolated k f'.
Proof.
  intros Hstep Hf. destruct Hstep as [k0 f' Hstep|queue Hl]; [by eapply local_step_isolated|].
  split; [done|]. destruct (Hf k) as [_ (q & Hq & d & -> & _)].
  eexists. split; [|reflexivity]. eapply rtc_r; [exact Hq|]. rewrite proj_restarted.
  apply (queue_restart k (set_cache d (view k f)) (working (resource f k)) (pending (resource f k))).
  intros [r Hr]. by eapply Hl.
Qed.

Lemma fleet_reachable_isolated f : fleet_reachable f -> forall k, isolated k f.
Proof.
  apply (rtc_ind_r (fun f => forall k, isolated k f) fleet_initial).
  - intros k. split; [done|]. exists queue_initial. split; [apply rtc_refl|reflexivity].
  - intros f1 f2 _ Hstep Hf k. by eapply fleet_step_isolated.
Qed.

(** Alone or not: the other resources need not take part. *)
Lemma queue_reachable_fleet k q :
  queue_reachable k q -> exists f, fleet_reachable f /\ proj k f = q.
Proof.
  apply (rtc_ind_r (fun q => exists f, fleet_reachable f /\ proj k f = q) queue_initial).
  - exists fleet_initial. split; [apply rtc_refl|done].
  - intros q1 q2 _ Hstep (f & Hf & <-).
    pose proof (isolated_calls_own k f (fleet_reachable_isolated f Hf k)) as Hcalls.
    destruct (queue_step_local k f q2 Hstep Hcalls) as [(f' & Hstep' & <-)|(b & Hb & ->)].
    + exists f'. split; [|done]. eapply rtc_r; [exact Hf|]. by eapply fleet_local.
    + exists (restarted (fun k' => if decide (k' = k) then b else true) f). split.
      * eapply rtc_r; [exact Hf|]. apply fleet_restart. intros k' r Hr.
        destruct (decide (k' = k)) as [->|]; [|done]. apply Hb. by exists r.
      * rewrite proj_restarted. by rewrite decide_True.
Qed.

(** ** What the cache of deleted resources knows *)

(** A version of the resource that was being deleted has been read. *)
Definition deletion_seen (s : Shared) : Prop := exists i r,
  (i <= seen s)%nat /\ log s !! i = Some (Some r) /\ is_deleted r = true.

Definition told_deleted (k : NamespacedName) (e : Event) : Prop := e = event (CacheGet k) true.

Definition entry_inv (k : NamespacedName) (q : QState) : Prop :=
  (cache_get k (deleted_cache (shared (run_state q))) = true -> deletion_seen (shared (run_state q)))
  /\ forall es m, thread (run_state q) = Some (es, m) -> Exists (told_deleted k) es ->
     deletion_seen (shared (run_state q)).

Lemma deletion_seen_later s s' :
  log s `prefix_of` log s' -> (seen s <= seen s')%nat -> deletion_seen s -> deletion_seen s'.
Proof.
  intros [l E] Hs (i & r & Hi & Hl & Hd). exists i, r. split; [lia|]. split; [|done].
  rewrite E. by apply lookup_app_l_Some.
Qed.

Lemma queue_step_later k q q' :
  queue_step k q q' ->
  let s := shared (run_state q) in let s' := shared (run_state q') in
  log s `prefix_of` log s' /\ (seen s <= seen s')%nat.
Proof.
  intros Hstep. destruct Hstep as [s s' th q Hu|s th q j Hj|s|s s' es X c rest x q Ha|s es a q|s th q q' Hl];
    cbn; try done.
  - destruct Hu as [| cur r s1 _ _ _ (g & _ & ->)|]; (split; [by apply prefix_app_r|done]).
  - split; [done|lia].
  - destruct (answers_log _ _ _ _ _ Ha) as [[-> ->]|(o & -> & _)]; [done|].
    split; [by apply prefix_app_r|done].
Qed.

Definition cache_set_of (e : Event) : option (NamespacedName * bool) :=
  match e with event (CacheSet k b) _ => Some (k, b) | _ => None end.

(** The cache is told of a deletion only when one has been read. *)
Lemma entry_set k s s' es X (c : Call X) rest x :
  state_inv k {| shared := s; thread := Some (es, Step c rest) |} -> own_read k es ->
  answers k c x s s' -> cache_get k (deleted_cache s') = true ->
  cache_get k (deleted_cache s) = true \/ deletion_seen s.
Proof.
  intros [_ [Hc Hr]] Hown Ha Hget. cbn in Hc, Hr. pose proof (Reconcile_next k es X c rest x Hc Hown) as Hn.
  clear Hc. destruct c; cbn in Ha; try by (subst; left).
  - destruct Ha as [-> _]. by left.
  - by destruct Ha as [[_ ->]|(cur & _ & _ & _ & g & _ & ->)]; left.
  - by destruct Ha as [[_ ->]|(cur & _ & _ & [(st & _ & ->)|[_ ->]])]; left.
  - destruct Ha as [_ ->]. by left.
  - destruct Hn as [[y E]|[[y E]|[(r & -> & E)|[_ E]]]]; [discriminate E|discriminate E| |discriminate E].
    right. apply (f_equal cache_set_of) in E. injection E as -> ->. subst s'.
    cbn [deleted_cache] in Hget. rewrite (proj1 (cache_get_set _ _ _ _)), bool_decide_eq_true_2 in Hget by done.
    destruct (Hr r [] eq_refl eq_refl) as (i & Hi & Hl & _). by exists i, r.
Qed.

Lemma told_by_entry k X (c : Call X) x s s' :
  answers k c x s s' -> told_deleted k (event c x) -> cache_get k (deleted_cache s) = true.
Proof.
  unfold told_deleted. intros Ha E. destruct c; try discriminate E.
  apply (f_equal cache_read_of) in E. injection E as -> ->. by destruct Ha as [<- _].
Qed.

Lemma queue_step_entry k q q' :
  state_inv k (run_state q) -> (forall es m, thread (run_state q) = Some (es, m) -> own_read k es) ->
  queue_step k q q' -> entry_inv k q -> entry_inv k q'.
Proof.
  intros Hi Hown Hstep [He Ht]. pose proof (queue_step_later k q q' Hstep) as [Hlog Hseen].
  assert (deletion_seen (shared (run_state q)) -> deletion_seen (shared (run_state q'))) as Hlater
    by by apply deletion_seen_later.
  destruct Hstep as [s s' th q Hu|s th q j Hj|s|s s' es X c rest x q Ha|s es a q|s th q q' Hl];
    cbn in *; split; cbn; try done; auto.
  - destruct (user_step_set_cache k s s' (deleted_cache s) Hu) as [_ ->]. auto.
  - eauto.
  - eauto.
  - intros es m [= <- <-] Hex. by apply Exists_nil in Hex.
  - intros Hget. apply Hlater. by destruct (entry_set k s s' es X c rest x Hi (Hown _ _ eq_refl) Ha Hget); auto.
  - intros es' m [= <- <-] [Hex|Hex]%Exists_app; apply Hlater; [by eapply Ht|].
    apply He. apply Exists_cons in Hex as [Hex|Hex]; [by eapply told_by_entry|by apply Exists_nil in Hex].
Qed.

Lemma entry_inv_similar k q q' : similar k q q' -> entry_inv k q -> entry_inv k q'.
Proof. intros (d & -> & E) [He Ht]. split; [|exact Ht]. cbn. rewrite E. exact He. Qed.

Lemma fleet_reachable_entry f : fleet_reachable f -> forall k, entry_inv k (proj k f).
Proof.
  apply (rtc_ind_r (fun f => forall k, entry_inv k (proj k f)) fleet_initial); [done|].
  intros f1 f2 Hreach Hstep He k. pose proof (fleet_reachable_isolated f1 Hreach) as Hf.
  destruct Hstep as [k0 f2 Hstep|queue _]; [|done].
  pose proof (isolated_calls_own k0 f1 (Hf k0)) as Hcalls. destruct (decide (k0 = k)) as [->|Hne].
  - eapply queue_step_entry; [by apply isolated_state_inv|apply (Hf k)| |apply He].
    by apply local_step_queue.
  - eapply entry_inv_similar, He. by eapply local_step_other.
Qed.

(** ** Steps of one resource among the others *)

(** The users, the cache and the runs of other resources. *)
Definition elsewhere (k : NamespacedName) (f f' : Fleet) : Prop :=
  exists k', k' <> k /\ local_step k' f f'.

(** A step for [k] in which nothing goes wrong, after any steps of others. *)
Definition round (k : NamespacedName) (f f' : Fleet) : Prop :=
  exists f1, rtc (elsewhere k) f f1 /\ local_step k f1 f' /\ quiet_step k (proj k f1) (proj k f').

Definition simulates (k : NamespacedName) (f : Fleet) (q : QState) : Prop :=
  (forall k', isolated k' f) /\ similar k (proj k f) q.

Lemma elsewhere_simulates k f f1 q : rtc (elsewhere k) f f1 -> simulates k f q -> simulates k f1 q.
Proof.
  induction 1 as [|f f2 f1 (k' & Hne & Hstep) _ IH]; [done|]. intros [Hf Hsim]. apply IH. split.
  - intros k0. by eapply local_step_isolated.
  - etrans; [symmetry; eapply local_step_other; [done|by apply isolated_calls_own|done]|done].
Qed.

Lemma round_simulates k f f' q :
  simulates k f q -> round k f f' -> exists q', quiet_step k q q' /\ simulates k f' q'.
Proof.
  intros Hs (f1 & Helse & Hstep & Hquiet). destruct (elsewhere_simulates k f f1 q Helse Hs) as [Hf Hsim].
  destruct (quiet_step_similar k _ _ q Hquiet Hsim (isolated_calls_own k f1 (Hf k))) as (q' & Hq & Hsim').
  exists q'. split; [done|]. split; [|done]. intros k0. by eapply local_step_isolated.
Qed.

Lemma simulates_round k f q q' :
  simulates k f q -> quiet_step k q q' -> exists f', round k f f'.
Proof.
  intros [Hf Hsim] Hq. pose proof (isolated_calls_own k f (Hf k)) as Hcalls.
  assert (calls_own k q) as Hcalls' by by destruct Hsim as (d & -> & _).
  destruct (quiet_step_similar k q q' (proj k f) Hq (similar_sym k _ _ Hsim) Hcalls') as (q1 & Hq1 & _).
  destruct (quiet_step_local k f q1 Hq1 Hcalls) as (f' & Hstep & <-).
  exists f', f. split; [apply rtc_refl|done].
Qed.

(** Quiet steps for [k] can be taken while the others wait. *)
Lemma quiet_steps_fleet k f q :
  fleet_reachable f -> rtc (quiet_step k) (proj k f) q ->
  exists f', fleet_reachable f' /\ proj k f' = q
    /\ forall k', k <> k' -> resource f' k' = resource f k'.
Proof.
  intros Hf Hsteps. remember (proj k f) as p eqn:Ep. revert f Hf Ep.
  induction Hsteps as [p|p p1 q Hstep _ IH]; intros f Hf ->; [by exists f|].
  pose proof (isolated_calls_own k f (fleet_reachable_isolated f Hf k)) as Hcalls.
  destruct (quiet_step_local k f p1 Hstep Hcalls) as (f1 & H1 & <-).
  destruct (IH f1) as (f' & Hf' & E & Hother); [|done|].
  - eapply rtc_r; [exact Hf|]. by eapply fleet_local.
  - exists f'. do 2 (split; [done|]). intros k' Hne. rewrite (Hother k' Hne).
    by apply (local_step_elsewhere k k' f f1).
Qed.

End fleet.

(** ** Theorems *)
Section theorems.
Context `{Hk8s : K8sTypes} `{Hlab : LabelsPkg} `{Hschema : SchemaPkg} `{Hutil : ControllerUtil}
  `{Hver : Versions}.

(** C20: A resource among any number of others, served by the same controller, by any
    number of workers that share one cache of deleted resources, goes through
    exactly the states it goes through alone, but for the entries of other names
    in that cache. *)
Theorem fleet_refines_queue k q :
  (exists f, fleet_reachable f /\ similar k (proj k f) q)
  <-> (exists q', queue_reachable k q' /\ similar k q' q).
Proof.
  split.
  - intros (f & Hf & Hsim). destruct (fleet_reachable_isolated f Hf k) as [_ (q' & Hq & Hsim')].
    exists q'. split; [done|]. eapply similar_trans; [by apply similar_sym|done].
  - intros (q' & Hq & Hsim). destruct (queue_reachable_fleet k q' Hq) as (f & Hf & E).
    exists f. by rewrite E.
Qed.

(** C19: What happens for one resource (its users, its versions reaching the cache,
    every call of its runs) changes no other: not its versions, not its run, not
    its place in the queue, not its entry in the cache of deleted resources.  The
    API server finds the resource of a write by its name, so this is for the
    controller to ensure: a run only ever names the resource it was started for. *)
Theorem other_resources_untouched f f' k k' (Hreach : fleet_reachable f)
    (Hstep : local_step k f f') (Hother : k <> k') :
  resource f' k' = resource f k' /\ cache_get k' (deleted f') = cache_get k' (deleted f).
Proof.
  apply (local_step_elsewhere k k' f f' Hstep); [|done].
  by apply isolated_calls_own, fleet_reachable_isolated.
Qed.

(** C5: No change of any resource is forgotten: when no run works on a resource, it
    is not in the queue and the cache has its last version, there is nothing left
    to do for it, whatever the other resources, their users and their runs are
    doing. *)
Theorem fleet_settled f k (Hreach : fleet_reachable f)
    (Hidle : working (resource f k) = None) (Hqueue : pending (resource f k) = false)
    (Hseen : delivered (resource f k) = pred (length (history (resource f k)))) :
  match current (view k f) with
  | None => True
  | Some r => if is_deleted r then finalizerName ∉ apw_Finalizers r else settled r
  end.
Proof.
  destruct (fleet_reachable_isolated f Hreach k) as [_ (q & [_ Hq]%queue_reachable_inv & d & -> & _)].
  specialize (Hq Hqueue). cbn in Hq. rewrite Hidle in Hq.
  destruct Hq as [Hlt|Hdone]; [|exact Hdone]. unfold latest in Hlt. cbn in Hlt. lia.
Qed.

(** C3: Every resource whose selector is supported is settled after finitely many
    steps of its own, once its own users and failures are quiet, however these
    steps are interleaved with those for other resources: with other users who
    go on editing, with runs that fail, with resources that are retried for
    ever. *)
Theorem fleet_settles f k r (Hreach : fleet_reachable f)
    (Hr : current (view k f) = Some r) (Hlist : listable (sp_Workload (apw_Spec r))) :
  eventually (round k) (fun f' =>
    working (resource f' k) = None /\
    match current (view k f') with
    | None => is_deleted r = true
    | Some r' => apw_Spec r' = apw_Spec r /\ GetGeneration r' = GetGeneration r
        /\ is_deleted r' = is_deleted r
        /\ if is_deleted r then finalizerName ∉ apw_Finalizers r' else settled r'
    end) f.
Proof.
  pose proof (fleet_reachable_isolated f Hreach) as Hf.
  destruct (Hf k) as [_ (q & Hq & Hsim)].
  eapply (eventually_simulated _ (quiet_step k) (simulates k) _
    (fun q' => quiet_inv k r q' /\ idle q' /\ done_with (current (shared (run_state q'))))).
  - intros f1 f2 q1. apply round_simulates.
  - intros f1 q1 q2. apply simulates_round.
  - intros f1 q1 [_ (d & -> & _)] ([_ Ht] & Hid & Hd). split; [exact Hid|]. cbn in Ht, Hd.
    change (current (set_cache d (view k f1))) with (current (view k f1)) in Ht, Hd.
    destruct (current (view k f1)) as [r'|]; [|exact Ht].
    destruct Ht as (E1 & _ & E3 & E4). cbn in Hd. by rewrite E4 in Hd.
  - by split.
  - apply (quiet_inv_settles k r q Hlist). split; [by apply queue_reachable_inv|].
    destruct Hsim as (d & -> & _). change (tracks r (current (view k f))).
    rewrite Hr. apply tracks_refl.
Qed.

(** C21: The controller drops an error only for a resource that is being deleted, or
    is gone after that: when a run could not read its resource and ends without
    an error and without a requeue, this process has read a version of that very
    resource that was being deleted.  The cache that decides it is shared by all
    the runs, and other resources come and go. *)
Theorem errors_dropped_after_deletion f k es e (Hreach : fleet_reachable f)
    (Hrun : working (resource f k)
            = Some (event (GetResource k) (Fail e) :: es, Done (Result_zero, None))) :
  exists i r, (i <= delivered (resource f k))%nat /\ history (resource f k) !! i = Some (Some r)
    /\ is_deleted r = true.
Proof.
  pose proof (isolated_state_inv k f (fleet_reachable_isolated f Hreach k)) as [_ Ht].
  destruct (fleet_reachable_entry f Hreach k) as [_ Htold]. cbn in Ht, Htold. rewrite Hrun in Ht, Htold.
  destruct Ht as [Hc _]. specialize (Hc [] _ (conj eq_refl eq_refl)). rewrite app_nil_r in Hc.
  apply unreadable_run in Hc as (b & -> & E). destruct b; [|discriminate E].
  eapply Htold; [done|]. by right; left.
Qed.

End theorems.

(** ** Witnesses *)
Section witnesses.
Import ConcreteInstances.
#[local] Existing Instance test_util.
#[local] Existing Instance test_versions.

Definition ledger_apw : AuthProxyWorkload :=
  mk_apw "default" "ledger" (mk_selector "Deployment" "" None) None
    [mk_instance "proj:region:ledger" None "DB_PORT" ""].
Definition ledger_key : NamespacedName := {| nn_Namespace := "default"; nn_Name := "ledger" |}.

(** Two resources that users have just created. *)
Definition two_created (r : AuthProxyWorkload) : Fleet :=
  let f := set_view ledger_key (stores (Some ledger_apw) (view ledger_key fleet_initial)) fleet_initial in
  set_view orders_key (stores (Some r) (view orders_key f)) f.

Lemma two_created_reachable r :
  apw_NamespacedName r = orders_key -> ResourceVersion r = version 1 -> is_deleted r = false ->
  status_Conditions (apw_Status r) = [] -> fleet_reachable (two_created r).
Proof.
  intros Hn Hv Hd Hs. eapply rtc_l.
  { apply (fleet_local _ ledger_key), fleet_user, (user_create _ _ ledger_apw); reflexivity. }
  eapply rtc_l; [|apply rtc_refl]. apply (fleet_local _ orders_key), fleet_user.
  by apply (user_create _ _ r).
Qed.

Definition created_state (r : AuthProxyWorkload) : QState :=
  {| run_state := {| shared := {| log := [None; Some r]; seen := 0; deleted_cache := cache_zero |};
                     thread := None |}; queued := false |}.

Lemma two_created_proj r : proj orders_key (two_created r) = created_state r.
Proof. reflexivity. Qed.

Lemma quiet_call_eq s s' es (m : Prog (Result * option error)) X (c : Call X) k x q :
  m = Step c k -> good_answer orders_key c x s s' ->
  quiet_step orders_key
    {| run_state := {| shared := s; thread := Some (es, m) |}; queued := q |}
    {| run_state := {| shared := s'; thread := Some (es ++ [event c x], k x) |}; queued := q |}.
Proof. intros ->. apply quiet_call. Qed.

Ltac next_call ans :=
  eapply rtc_l; [eapply (quiet_call_eq _ _ _ _ _ _ _ ans); [reflexivity|]|].
Ltac deliver_version j := eapply rtc_l; [apply (quiet_deliver _ _ _ _ j); cbn; lia|].
Ltac read r :=
  next_call (OK r); [split; [reflexivity|]; left; split; [reflexivity|];
    eexists; split; reflexivity|].
Ltac list_none :=
  next_call (OK {| objectList := DeploymentList [] |}); [split; [reflexivity|by eexists]|].

(** The run for orders is about to add the finalizer; the ledger waits. *)
Lemma other_resources_untouched_witness :
  exists f f', fleet_reachable f /\ local_step orders_key f f'
  /\ current (view orders_key f) = Some new_apw /\ current (view orders_key f') <> Some new_apw
  /\ resource f' ledger_key = resource f ledger_key
  /\ cache_get ledger_key (deleted f') = cache_get ledger_key (deleted f).
Proof.
  assert (exists q q', rtc (quiet_step orders_key) (created_state new_apw) q
    /\ quiet_step orders_key q q'
    /\ current (shared (run_state q)) = Some new_apw
    /\ current (shared (run_state q')) <> Some new_apw) as (q & q' & Hq & Hstep & Hr & Hr').
  { eexists _, _. split; [|split; [|split]].
    - deliver_version 1%nat. eapply rtc_l; [by apply quiet_start|]. read new_apw.
      next_call tt; [reflexivity|]. apply rtc_refl.
    - eapply (quiet_call_eq _ _ _ _ _ _ _ None); [reflexivity|]. split; [reflexivity|].
      exists 1. split; [by left|reflexivity].
    - reflexivity.
    - discriminate. }
  destruct (quiet_steps_fleet orders_key (two_created new_apw) q) as (f & Hf & <- & _);
    [by apply two_created_reachable|by rewrite two_created_proj|].
  destruct (quiet_step_local orders_key f q' Hstep) as (f' & Hl & <-);
    [by apply isolated_calls_own, fleet_reachable_isolated|].
  exists f, f'. do 4 (split; [done|]).
  exact (other_resources_untouched f f' orders_key ledger_key Hf Hl ltac:(discriminate)).
Defined.

(** Orders has settled; the ledger has not even reached the cache. *)
Lemma fleet_settled_witness :
  exists f, fleet_reachable f /\ working (resource f orders_key) = None
  /\ pending (resource f orders_key) = false
  /\ delivered (resource f orders_key) = pred (length (history (resource f orders_key)))
  /\ current (view orders_key f) = Some settled_apw
  /\ delivered (resource f ledger_key) <> pred (length (history (resource f ledger_key)))
  /\ match current (view orders_key f) with
     | None => True
     | Some r => if is_deleted r then finalizerName ∉ apw_Finalizers r else settled r
     end.
Proof.
  assert (exists q, rtc (quiet_step orders_key) (created_state guarded_apw) q
    /\ thread (run_state q) = None /\ queued q = false
    /\ seen (shared (run_state q)) = latest (shared (run_state q))
    /\ current (shared (run_state q)) = Some settled_apw) as (q & Hq & Ht & Hp & Hs & Hc).
  { eexists. split; [|split; [|split; [|split]]].
    - deliver_version 1%nat. eapply rtc_l; [by apply quiet_start|]. read guarded_apw.
      next_call tt; [reflexivity|]. list_none. next_call 9; [reflexivity|].
      next_call (None : option error).
      { split; [reflexivity|]. left. exists (apw_Status reported_apw).
        split; [split; left; reflexivity|reflexivity]. }
      deliver_version 2%nat. read settled_apw. eapply rtc_l; [apply quiet_finish|].
      eapply rtc_l; [by apply quiet_start|]. read settled_apw. next_call tt; [reflexivity|].
      list_none. next_call (None : option error).
      { split; [reflexivity|]. right. split; [split; left; reflexivity|reflexivity]. }
      read settled_apw. eapply rtc_l; [apply quiet_finish|]. apply rtc_refl.
    - reflexivity.
    - reflexivity.
    - reflexivity.
    - reflexivity. }
  destruct (quiet_steps_fleet orders_key (two_created guarded_apw) q) as (f & Hf & E & Hother);
    [by apply two_created_reachable|by rewrite two_created_proj|].
  subst q. exists f. do 5 (split; [done|]).
  split; [by rewrite (Hother ledger_key)|].
  exact (fleet_settled f orders_key Hf Ht Hp Hs).
Defined.

Lemma fleet_settles_witness :
  exists f, fleet_reachable f /\ current (view orders_key f) = Some new_apw
  /\ current (view ledger_key f) = Some ledger_apw
  /\ eventually (round orders_key) (fun f' =>
       working (resource f' orders_key) = None /\
       match current (view orders_key f') with
       | None => is_deleted new_apw = true
       | Some r' => apw_Spec r' = apw_Spec new_apw /\ GetGeneration r' = GetGeneration new_apw
           /\ is_deleted r' = is_deleted new_apw
           /\ if is_deleted new_apw then finalizerName ∉ apw_Finalizers r' else settled r'
       end) f.
Proof.
  exists (two_created new_apw).
  assert (fleet_reachable (two_created new_apw)) as Hf by by apply two_created_reachable.
  split; [exact Hf|]. split; [reflexivity|]. split; [reflexivity|].
  apply (fleet_settles (two_created new_apw) orders_key new_apw Hf); [reflexivity|].
  split; eexists; reflexivity.
Defined.

(** The user deletes orders; the controller takes its finalizer away, and
    finds that the resource is gone. *)
Definition two_deleted : Fleet :=
  set_view orders_key (stores (Some going_apw) (view orders_key (two_created guarded_apw)))
    (two_created guarded_apw).

Lemma two_deleted_reachable : fleet_reachable two_deleted.
Proof.
  eapply rtc_r; [by apply (two_created_reachable guarded_apw)|].
  apply (fleet_local _ orders_key), fleet_user.
  exact (user_delete orders_key (view orders_key (two_created guarded_apw)) guarded_apw 7
           eq_refl eq_refl eq_refl).
Qed.

Lemma errors_dropped_after_deletion_witness :
  exists f es e, fleet_reachable f
  /\ working (resource f orders_key)
     = Some (event (GetResource orders_key) (Fail e) :: es, Done (Result_zero, None))
  /\ current (view ledger_key f) = Some ledger_apw
  /\ exists i r, (i <= delivered (resource f orders_key))%nat
       /\ history (resource f orders_key) !! i = Some (Some r) /\ is_deleted r = true.
Proof.
  assert (exists q es e, rtc (quiet_step orders_key) (proj orders_key two_deleted) q
    /\ thread (run_state q)
       = Some (event (GetResource orders_key) (Fail e) :: es, Done (Result_zero, None)))
    as (q & es & e & Hq & Ht).
  { eexists _, _, (StatusError StatusReasonNotFound "gone"). split.
    - change (proj orders_key two_deleted) with
        {| run_state := {| shared := {| log := [None; Some guarded_apw; Some going_apw]; seen := 0;
             deleted_cache := cache_zero |}; thread := None |}; queued := false |}.
      deliver_version 2%nat. eapply rtc_l; [by apply quiet_start|]. read going_apw.
      next_call tt; [reflexivity|]. list_none. next_call (None : option error).
      { split; [reflexivity|]. exists 2. split; [by left|reflexivity]. }
      eapply rtc_l; [apply quiet_finish|]. deliver_version 3%nat.
      eapply rtc_l; [by apply quiet_start|].
      next_call (Fail (StatusError StatusReasonNotFound "gone") : Res AuthProxyWorkload).
      { split; [reflexivity|]. left. split; [reflexivity|]. exists None. split; [reflexivity|].
        by exists "gone". }
      next_call true; [split; reflexivity|]. apply rtc_refl.
    - reflexivity. }
  destruct (quiet_steps_fleet orders_key two_deleted q two_deleted_reachable Hq) as (f & Hf & <- & Hother).
  exists f, es, e. do 2 (split; [done|]). split.
  { unfold view. by rewrite (Hother ledger_key). }
  exact (errors_dropped_after_deletion f orders_key es e Hf Ht).
Defined.

End witnesses.
