(* ===== verification/Agreement.v ===== *)
(** * The controller and the webhook agree

    The controller asks the API server for the workloads that a resource
    selects ([Reconciler.listWorkloads]); the webhook compares each workload
    with the selector ([Workload.workloadMatches], through [Matching]).  Two
    pieces of code for one question: against one cluster they have one
    answer. *)

From S2P Require Import Prelude Interaction GoStd Api Concrete Names Workload Fixtures PodSpec Allocation.
From S2P Require Import Refinement Configure Matching Webhook Status Reconciler.
From Stdlib Require Import Ascii.
#[local] Open Scope Z_scope.

(** k8s.io/apimachinery/pkg/labels: an empty selector restricts nothing. *)
Class SelectorLaws `{LabelsPkg} := {
  Selector_Empty_all : forall sel l, Selector_Empty sel = true -> Selector_Matches sel l = true
}.

Section cluster.
Context `{Hk8s : K8sTypes} `{Hlab : LabelsPkg} `{Hschema : SchemaPkg}.

(** The workloads of the cluster, of the kinds the operator supports. *)
Context (cluster : list Workload).

(** Objects carry their kind; kind, namespace and name identify an object. *)
Record cluster_ok : Prop := {
  cluster_kinds : forall w, w ∈ cluster -> GetKind (ObjectOf w) = workload_kind w;
  cluster_unique : forall w w', w ∈ cluster -> w' ∈ cluster ->
    workload_kind w = workload_kind w' ->
    GetNamespace (ObjectOf w) = GetNamespace (ObjectOf w') ->
    GetName (ObjectOf w) = GetName (ObjectOf w') -> w = w'
}.

Definition is_at (key : NamespacedName) (kind : string) (w : Workload) : Prop :=
  workload_kind w = kind /\ GetNamespace (ObjectOf w) = nn_Namespace key
  /\ GetName (ObjectOf w) = nn_Name key.

(** An answer of the API server that is true of the cluster. *)
Definition true_answer (e : Event) : Prop :=
  match e with
  | event (GetWorkload key into) x =>
      match x with
      | OK w => w ∈ cluster /\ is_at key (workload_kind into) w
      | Fail e => IsNotFound e = true -> forall w, w ∈ cluster -> ~ is_at key (workload_kind into) w
      end
  | event (ListWorkloads ns sel into) x =>
      forall l, x = OK l -> forall w, w ∈ Workloads l <->
        w ∈ cluster /\ workload_kind w = list_kind into
        /\ (ns = "" \/ GetNamespace (ObjectOf w) = ns)
        /\ Selector_Matches sel (GetLabels (ObjectOf w)) = true
  | _ => True
  end.

(** A selector by kind and name, or by kind and labels. *)
Definition plain_selector (sel : WorkloadSelectorSpec) : Prop :=
  ws_Kind sel ∈ supported_kinds /\ (ws_Name sel = "" \/ ws_Selector sel = None).

(** ** The controller's listing *)
Lemma supported_plain kind :
  kind ∈ supported_kinds -> gk_Kind (ParseKindArg kind).2 = kind.
Proof.
  intros Hk. rewrite ParseKindArg_plain; [done|].
  unfold supported_kinds in Hk. rewrite !elem_of_cons, elem_of_nil in Hk.
  by repeat destruct Hk as [->|Hk].
Qed.

Lemma supported_nonempty kind : kind ∈ supported_kinds -> kind <> "".
Proof. intros Hk ->. by apply (bool_decide_eq_true_2 _) in Hk. Qed.

Lemma selector_accepts_Matches `{!SelectorLaws} sel s l :
  LabelsSelector sel = OK s -> selector_accepts sel l <-> Selector_Matches s l = true.
Proof.
  unfold LabelsSelector, selector_accepts. destruct (ws_Selector sel) as [ls|].
  - intros E. split.
    + intros (s' & E' & Hs'). rewrite E in E'. injection E' as <-.
      destruct Hs' as [He|?]; [by apply Selector_Empty_all|done].
    + intros Hm. eauto.
  - intros [= <-]. split; [|done]. intros _. apply Selector_Empty_all, NewSelector_Empty.
Qed.

(** What [workloadMatches] asks of a workload of the cluster. *)
Lemma cluster_matches w sel ns :
  cluster_ok -> w ∈ cluster -> ws_Kind sel ∈ supported_kinds -> ns <> "" ->
  workloadMatches (ObjectOf w) sel ns = true <->
  workload_kind w = ws_Kind sel /\ (ws_Name sel = "" \/ GetName (ObjectOf w) = ws_Name sel)
  /\ GetNamespace (ObjectOf w) = ns /\ selector_accepts sel (GetLabels (ObjectOf w)).
Proof.
  intros Hok Hw Hk%supported_nonempty Hns. rewrite workloadMatches_true, (cluster_kinds Hok) by done.
  tauto.
Qed.

Lemma listWorkloads_matching `{!SelectorLaws} sel ns es wls :
  cluster_ok -> plain_selector sel -> ns <> "" ->
  runs (listWorkloads sel ns) es (OK wls) -> Forall true_answer es ->
  forall w, w ∈ wls <-> w ∈ cluster /\ workloadMatches (ObjectOf w) sel ns = true.
Proof.
  intros Hok [Hk Hplain] Hns Hrun Hes w.
  assert (w ∈ cluster /\ workloadMatches (ObjectOf w) sel ns = true <-> w ∈ cluster /\
    workload_kind w = ws_Kind sel /\ (ws_Name sel = "" \/ GetName (ObjectOf w) = ws_Name sel)
    /\ GetNamespace (ObjectOf w) = ns /\ selector_accepts sel (GetLabels (ObjectOf w))) as ->
    by (split; intros [Hw Hm]; (split; [done|]); by apply cluster_matches).
  unfold listWorkloads, loadByName, loadByLabelSelector in Hrun.
  case_bool_decide as Hname; cbn [negb] in Hrun.
  - destruct (LabelsSelector sel) as [s|] eqn:Es; [|by destruct Hrun].
    pose proof (WorkloadListForKind_cases (gk_Kind (ParseKindArg (ws_Kind sel)).2)) as Hl.
    destruct (WorkloadListForKind _) as [l|]; [|by destruct Hrun]. destruct Hl as (_ & Hl & _).
    apply runs_bind in Hrun as (es1 & es2 & x & -> & ->%runs_call & Hr).
    destruct x as [l'|]; destruct Hr as [-> [= ->]]. apply Forall_app in Hes as [[Hes _]%Forall_cons _].
    rewrite (Hes l' eq_refl), Hl, supported_plain by done.
    rewrite (selector_accepts_Matches sel s) by done. tauto.
  - destruct Hplain as [?|Hsel]; [done|].
    pose proof (WorkloadForKind_cases (ws_Kind sel)) as Hl.
    destruct (WorkloadForKind _) as [into|]; [|by destruct Hrun]. destruct Hl as (_ & Hl).
    rewrite supported_plain in Hl by done. cbn zeta in Hrun.
    apply runs_bind in Hrun as (es1 & es2 & x & -> & ->%runs_call & Hr).
    unfold selector_accepts. rewrite Hsel. apply Forall_app in Hes as [[Hes _]%Forall_cons _].
    cbn [true_answer] in Hes. rewrite Hl in Hes. destruct x as [w'|e].
    + destruct Hr as [-> [= ->]]. rewrite list_elem_of_singleton.
      destruct Hes as (Hw' & H1 & H2 & H3). cbn [nn_Namespace nn_Name] in H2, H3. split.
      * intros ->. split_and!; auto.
      * intros (Hw & E1 & [?|E3] & E2 & _); [done|]. apply (cluster_unique Hok); [done|done|congruence..].
    + destruct (IsNotFound e); destruct Hr as [-> [= ->]]. split; [by intros ?%elem_of_nil|].
      intros (Hw & E1 & [?|E3] & E2 & _); [done|]. by destruct (Hes eq_refl w Hw).
Qed.

(** ** The webhook's owners *)
Context `{Hreader : !ClusterReader} `{Hlaws : !ClusterReaderLaws}.

Definition reads_cluster : Prop :=
  forall key w w', Get_workload key w = (w', None) -> w' ∈ cluster.

Lemma owner_in_cluster o w :
  reads_cluster -> owner_workload o w ->
  w ∈ cluster \/ ObjectOf w = {| o_GVK := GVK_zero; o_Meta := ObjectMeta_zero |}.
Proof.
  intros Hreads. induction 1 as [o r w o' Hr E|o r w o' e Hr E He|o o' w Ho Hw IH].
  - left. unfold fetch_owner in E. destruct (WorkloadForKind (or_Kind r)) as [w0|];
      [|by destruct (Get_metadata _ _ _)].
    destruct (Get_workload _ w0) as [w' err] eqn:Eg. injection E as <- <- ->. by eapply Hreads.
  - right. by eapply fetch_owner_missing.
  - done.
Qed.

(** What a missing owner leaves behind is selected by no kind. *)
Lemma missing_not_selected p (w : Workload) :
  ObjectOf w = {| o_GVK := GVK_zero; o_Meta := ObjectMeta_zero |} ->
  ws_Kind (sp_Workload (apw_Spec p)) <> "" -> ~ selects p (ObjectOf w).
Proof.
  unfold selects. intros -> Hk Hs%workloadMatches_true. destruct Hs as ([?|E] & _); [done|].
  by rewrite <-E in Hk.
Qed.

End cluster.

(** ** Theorems *)
Section theorems.
Context `{Hk8s : K8sTypes} `{Hlab : LabelsPkg} `{Hsl : !SelectorLaws} `{Hschema : SchemaPkg}
  `{Hrange : MapRange}.

(** Against a cluster, the query that the controller sends for a selector by kind
    and name, or by kind and labels, returns exactly the workloads that
    [workloadMatches] accepts. *)
Theorem listing_is_matching cluster sel ns es wls
    (Hcluster : cluster_ok cluster) (Hsel : plain_selector sel) (Hns : ns <> "")
    (Hrun : runs (listWorkloads sel ns) es (OK wls)) (Hes : Forall (true_answer cluster) es) w :
  w ∈ wls <-> w ∈ cluster /\ workloadMatches (ObjectOf w) sel ns = true.
Proof. by eapply listWorkloads_matching. Qed.

(** C9: The controller and the webhook agree on what a resource applies to:
    against one cluster, the webhook applies a live resource to a pod exactly
    when the resource selects the pod itself, or when one of the pod's owners,
    at any distance, is among the workloads that the controller lists for this
    resource and records in its status. *)
Theorem controller_webhook_agree cluster `{Hreader : !ClusterReader} `{!ClusterReaderLaws}
    (pl : AuthProxyWorkloadList) (pod : PodWorkload) fuel owners p es wls
    (Hcluster : cluster_ok cluster) (Hreads : reads_cluster cluster)
    (Hkeys : NoDup (resource_key <$> apl_Items pl))
    (Hp : p ∈ apl_Items pl) (Hlive : ~ being_deleted p)
    (Hsel : plain_selector (sp_Workload (apw_Spec p))) (Hns : apw_Namespace p <> "")
    (Hrun : runs (listWorkloads (sp_Workload (apw_Spec p)) (apw_Namespace p)) es (OK wls))
    (Hes : Forall (true_answer cluster) es)
    (Howners : listOwners fuel (ObjectOf pod) = Ret (OK owners)) :
  p ∈ FindMatchingAuthProxyWorkloads pl pod owners
  <-> selects p (ObjectOf pod) \/ exists w, w ∈ owners /\ w ∈ wls.
Proof.
  pose proof (listWorkloads_matching cluster _ _ _ _ Hcluster Hsel Hns Hrun Hes) as Hlist. split.
  - intros (_ & _ & o & Ho & Hs)%FindMatching_candidate.
    apply elem_of_cons in Ho as [->|(w & -> & Hw)%list_elem_of_fmap]; [by left|right].
    exists w. split; [done|]. apply Hlist. split; [|done].
    apply (listOwners_spec _ _ _ Howners) in Hw.
    destruct (owner_in_cluster cluster _ _ Hreads Hw) as [?|E]; [done|].
    exfalso. eapply missing_not_selected; [exact E| |exact Hs].
    destruct Hsel as [Hk _]. by apply supported_nonempty.
  - assert (forall q, q ∈ apl_Items pl -> resource_key q = resource_key p -> q = p) as Huniq.
    { intros q Hq Hk. by eapply NoDup_fmap_inj_elem. }
    intros [Hs|(w & Hw & [_ Hs]%Hlist)].
    + by eapply FindMatching_complete; [done..|left|].
    + eapply FindMatching_complete; [done..| |exact Hs]. right. by apply list_elem_of_fmap_2.
Qed.

(** Where they disagree: with a name, the controller's listing ignores the label
    selector, [workloadMatches] does not.  (The API asks for one or the other,
    but accepts both.) *)
Theorem name_hides_selector sel labels ns (Hname : ws_Name sel <> "") :
  listWorkloads sel ns
  = listWorkloads {| ws_Selector := labels; ws_Kind := ws_Kind sel; ws_Name := ws_Name sel |} ns.
Proof. unfold listWorkloads. by rewrite !bool_decide_eq_false_2. Qed.

End theorems.

(** ** Witnesses

    The cluster of [Webhook], with the label selectors of [Concrete]. *)
Section witnesses.
Import ConcreteInstances.
#[local] Existing Instance in_order.
#[local] Existing Instance cluster_reader.
#[local] Existing Instance cluster_reader_laws.

#[local] Instance concrete_selector_laws : SelectorLaws.
Proof.
  split. intros sel l He%bool_decide_eq_true. apply bool_decide_eq_true.
  rewrite He. apply map_Forall_empty.
Qed.

Lemma cluster_workloads_ok : cluster_ok cluster_workloads.
Proof.
  split.
  - intros w Hw. unfold cluster_workloads in Hw. rewrite !elem_of_cons, elem_of_nil in Hw.
    by destruct Hw as [->|[->|[->|[]]]].
  - intros w w' Hw Hw' E1 _ E3. unfold cluster_workloads in Hw, Hw'.
    rewrite !elem_of_cons, elem_of_nil in Hw, Hw'.
    destruct Hw as [->|[->|[->|[]]]], Hw' as [->|[->|[->|[]]]]; done.
Qed.

Lemma reader_reads_cluster : reads_cluster cluster_workloads.
Proof.
  intros key w w'. cbn. unfold find_workload. destruct (List.find _ _) eqn:E; [|done].
  intros [= <-]. apply find_some in E as [Hin _]. by apply list_elem_of_In.
Qed.

Definition web_deployment : Workload :=
  WDeployment {| dw_Deployment := mk_templated "Deployment" "default" "web" [] |}.

Definition shop_query : list Event :=
  [event (GetWorkload {| nn_Namespace := "default"; nn_Name := "web" |}
            (WDeployment {| dw_Deployment := Templated_zero |})) (OK web_deployment)].

Lemma shop_query_true : Forall (true_answer cluster_workloads) shop_query.
Proof. apply Forall_singleton. split; [by left|done]. Qed.

Lemma shop_plain : plain_selector (sp_Workload (apw_Spec shop_apw)).
Proof. split; [by apply (bool_decide_eq_true_1 _)|by right]. Qed.

Lemma controller_webhook_agree_witness :
  shop_apw ∈ FindMatchingAuthProxyWorkloads {| apl_Items := [shop_apw] |} {| pw_Pod := replica_pod |}
               replica_owners
  <-> selects shop_apw (ObjectOf {| pw_Pod := replica_pod |})
      \/ exists w, w ∈ replica_owners /\ w ∈ [web_deployment].
Proof.
  eapply (controller_webhook_agree cluster_workloads {| apl_Items := [shop_apw] |}
            {| pw_Pod := replica_pod |} 5 replica_owners shop_apw shop_query).
  - apply cluster_workloads_ok.
  - apply reader_reads_cluster.
  - apply NoDup_singleton.
  - by left.
  - by vm_compute.
  - apply shop_plain.
  - discriminate.
  - eexists _, []. split; [reflexivity|]. split; reflexivity.
  - apply shop_query_true.
  - vm_compute. reflexivity.
Defined.

Lemma listing_is_matching_witness :
  web_deployment ∈ [web_deployment] <-> web_deployment ∈ cluster_workloads
    /\ workloadMatches (ObjectOf web_deployment) (sp_Workload (apw_Spec shop_apw)) "default" = true.
Proof.
  eapply (listing_is_matching cluster_workloads _ "default" shop_query).
  - apply cluster_workloads_ok.
  - apply shop_plain.
  - discriminate.
  - eexists _, []. split; [reflexivity|]. split; reflexivity.
  - apply shop_query_true.
Defined.

(** A workload that the controller lists and the webhook does not match. *)
Lemma name_hides_selector_witness :
  let sel := mk_selector "Deployment" "web" (Some (<["app" := "shop"]> ∅)) in
  listWorkloads sel "default" = listWorkloads (mk_selector "Deployment" "web" None) "default"
  /\ workloadMatches (ObjectOf web_deployment) sel "default" = false.
Proof.
  intros sel. split; [|vm_compute; reflexivity].
  apply (name_hides_selector sel None "default"). discriminate.
Defined.

End witnesses.
