(* ===== verification/Setup.v ===== *)
(** * Starting the operator

    [src/main.go], [src/internal/controller/setup.go], the constructor of the
    controller, and the webhook of the resource itself
    ([src/internal/api/v1alpha1/authproxyworkload_webhook.go],
    [groupversion_info.go]), as a program that calls controller-runtime and the
    flag package.  Log lines are left out. *)

From S2P Require Import Prelude Interaction GoStd Api Concrete Names Workload PodSpec Fixtures Webhook Status.
From Stdlib Require Import Ascii.
#[local] Open Scope Z_scope.

(** ** What the process is made of *)

(** [schema.GroupVersion] *)
Record GroupVersion := { gv_Group : string; gv_Version : string }.

(** [v1alpha1.GroupVersion] *)
Definition v1alpha1_GroupVersion : GroupVersion :=
  {| gv_Group := "cloudsql.cloud.google.com"; gv_Version := "v1alpha1" |}.

(** The functions that are called to fill the scheme: that of client-go, and
    [SchemeBuilder] with the types registered by [init] of the API package. *)
Inductive AddTypes :=
| clientgoscheme
| SchemeBuilder (gv : GroupVersion) (types : list string).

(** The types that [init] registers. *)
Definition registered_types : list string := ["AuthProxyWorkload"; "AuthProxyWorkloadList"].

Definition v1alpha1_AddToScheme : AddTypes := SchemeBuilder v1alpha1_GroupVersion registered_types.

(** The command line. *)
Record Flags := {
  metricsAddr : string;
  probeAddr : string;
  enableLeaderElection : bool
}.

Definition default_flags : Flags :=
  {| metricsAddr := ":8080"; probeAddr := ":8081"; enableLeaderElection := false |}.

(** [ctrl.Options], the fields that are set. *)
Record Options := {
  MetricsBindAddress : string;
  Port : Z;
  HealthProbeBindAddress : string;
  LeaderElection : bool;
  LeaderElectionID : string
}.

Definition manager_options (f : Flags) : Options := {|
  MetricsBindAddress := metricsAddr f; Port := 9443; HealthProbeBindAddress := probeAddr f;
  LeaderElection := enableLeaderElection f; LeaderElectionID := "76941ffa.cloud.google.com" |}.

(** The controller as it is created, with the client of the manager. *)
Record AuthProxyWorkloadReconciler := {
  recentlyDeleted : recentlyDeletedCache;
  rec_updater : Updater
}.

(** The pod webhook as it is created: nobody has given it a decoder yet. *)
Definition new_PodAdmissionWebhook (u : Updater) (Decoder : Set) : PodAdmissionWebhook Decoder :=
  {| decoder := None; updater := u |}.

(** The calls of the process; [flag.Parse] exits with a status when the
    command line is wrong. *)
Inductive SetupCall : Type -> Type :=
| AddToScheme (types : AddTypes) : SetupCall (option error)
| ParseFlags (defaults : Flags) : SetupCall (Flags + Z)
| GetConfig : SetupCall (option error)
| NewManager (opts : Options) : SetupCall (option error)
| ManageResource (r : AuthProxyWorkloadReconciler) : SetupCall (option error)
| ManageWebhook : SetupCall (option error)
| RegisterWebhook (path : string) (handler : forall Decoder : Set, PodAdmissionWebhook Decoder)
  : SetupCall unit
| AddHealthzCheck (name : string) : SetupCall (option error)
| AddReadyzCheck (name : string) : SetupCall (option error)
| StartManager : SetupCall (option error).

(** How the process ends. *)
Inductive Ending :=
| Exit (code : Z)
| Panicked (err : error).

#[local] Abbreviation Prog := (Interaction.Prog SetupCall).
#[local] Abbreviation Event := (Interaction.Event SetupCall).

(** ** setup.go *)

(** [utilruntime.Must] panics with the error. *)
Definition InitScheme : Prog (option error) :=
  err ← call (AddToScheme clientgoscheme);
  match err with
  | Some err => mret (Some err)
  | None => call (AddToScheme v1alpha1_AddToScheme)
  end.

(** [SetupWithManager] *)
Definition SetupWithManager (r : AuthProxyWorkloadReconciler) : Prog (option error) :=
  call (ManageResource r).

Definition NewAuthProxyWorkloadReconciler (u : Updater)
    : Prog (AuthProxyWorkloadReconciler * option error) :=
  let r := {| recentlyDeleted := cache_zero; rec_updater := u |} in
  err ← SetupWithManager r;
  mret (r, err).

(** [SetupWebhookWithManager] *)
Definition SetupWebhookWithManager : Prog (option error) := call ManageWebhook.

Definition RegisterPodWebhook (u : Updater) : Prog (option error) :=
  _ ← call (RegisterWebhook "/mutate-pods" (new_PodAdmissionWebhook u));
  mret None.

Definition SetupManagers (userAgent : string) : Prog (option error) :=
  let u := NewUpdater userAgent in
  rec ← NewAuthProxyWorkloadReconciler u;
  match rec.2 with
  | Some err => mret (Some err)
  | None =>
      err ← SetupWebhookWithManager;
      match err with
      | Some err => mret (Some err)
      | None =>
          err ← RegisterPodWebhook u;
          match err with
          | Some err => mret (Some err)
          | None => mret None
          end
      end
  end.

(** ** main.go *)

(** [version] is set by the linker. *)
Definition main_userAgent (version : string) : string := "cloud-sql-proxy-operator/" +:+ version.

Definition or_exit (call_ : Prog (option error)) (next : Prog Ending) : Prog Ending :=
  err ← call_;
  match err with
  | Some _ => mret (Exit 1)
  | None => next
  end.

Definition main (version : string) : Prog Ending :=
  flags ← call (ParseFlags default_flags);
  match flags with
  | inr code => mret (Exit code)
  | inl flags =>
      or_exit (call GetConfig) (
      or_exit (call (NewManager (manager_options flags))) (
      or_exit (SetupManagers (main_userAgent version)) (
      or_exit (call (AddHealthzCheck "healthz")) (
      or_exit (call (AddReadyzCheck "readyz")) (
      or_exit (call StartManager) (
      mret (Exit 0)))))))
  end.

(** The process: [init], then [main]. *)
Definition process (version : string) : Prog Ending :=
  err ← InitScheme;
  match err with
  | Some err => mret (Panicked err)
  | None => main version
  end.

(** ** The webhook of the resource *)
Section webhook.
Context `{Hk8s : K8sTypes} `{Hlab : LabelsPkg}.

(** The defaulting webhook changes nothing, the validating one accepts all. *)
Definition Default (r : AuthProxyWorkload) : AuthProxyWorkload := r.
Definition ValidateCreate (r : AuthProxyWorkload) : option error := None.
Definition ValidateUpdate (r old : AuthProxyWorkload) : option error := None.
Definition ValidateDelete (r : AuthProxyWorkload) : option error := None.

End webhook.

(** ** Specification *)

(** The calls of a process that starts and later stops without an error. *)
Definition plan (version : string) (flags : Flags) : list Event :=
  let u := {| userAgent := main_userAgent version |} in
  [ event (AddToScheme clientgoscheme) None;
    event (AddToScheme v1alpha1_AddToScheme) None;
    event (ParseFlags default_flags) (inl flags);
    event GetConfig None;
    event (NewManager (manager_options flags)) None;
    event (ManageResource {| recentlyDeleted := cache_zero; rec_updater := u |}) None;
    event ManageWebhook None;
    event (RegisterWebhook "/mutate-pods" (new_PodAdmissionWebhook u)) tt;
    event (AddHealthzCheck "healthz") None;
    event (AddReadyzCheck "readyz") None;
    event StartManager None ].

Definition same_call (e e' : Event) : Prop := exists X (c : SetupCall X) a a',
  e = event c a /\ e' = event c a'.

(** The ending after a call that failed. *)
Definition failure (e : Event) : option Ending :=
  match e with
  | event (AddToScheme _) (Some err) => Some (Panicked err)
  | event (ParseFlags _) (inr code) => Some (Exit code)
  | event GetConfig (Some _) | event (NewManager _) (Some _) | event (ManageResource _) (Some _)
  | event ManageWebhook (Some _) | event (AddHealthzCheck _) (Some _)
  | event (AddReadyzCheck _) (Some _) | event StartManager (Some _) => Some (Exit 1)
  | _ => None
  end.

(** [m] makes the calls of the plan in order, as long as they succeed; the
    flags are chosen on the way. *)
Definition follows (l : Flags -> list Event) (m : Prog Ending) : Prop := forall es ending,
  runs m es ending -> exists flags,
    (es = l flags /\ ending = Exit 0)
    \/ exists n e e', l flags !! n = Some e /\ same_call e e'
         /\ es = take n (l flags) ++ [e'] /\ failure e' = Some ending.

Lemma follows_nil l : (forall flags, l flags = []) -> follows l (mret (Exit 0)).
Proof. intros Hl es ending [-> ->]. exists default_flags. left. by rewrite Hl. Qed.

Lemma follows_fail X (c : SetupCall X) a l x es' ending :
  failure (event c x) = Some ending ->
  runs (mret ending : Prog Ending) es' ending ->
  exists n e e', (event c a :: l) !! n = Some e /\ same_call e e'
    /\ event c x :: es' = take n (event c a :: l) ++ [e'] /\ failure e' = Some ending.
Proof.
  intros Hf [-> _]. exists 0%nat, (event c a), (event c x). split_and!; [done| |done..].
  by exists X, c, a, x.
Qed.

Lemma follows_choice X (c : SetupCall X) (a : Flags -> X) l k :
  (forall x, (exists f, x = a f /\ follows (fun _ => l f) (k x))
     \/ exists ending, failure (event c x) = Some ending /\ k x = mret ending) ->
  follows (fun f => event c (a f) :: l f) (Step c k).
Proof.
  intros Hk es ending (x & es' & -> & Hr).
  destruct (Hk x) as [(f & -> & Hl)|(ending' & Hf & E)].
  - destruct (Hl _ _ Hr) as (_ & [[-> ->]|(n & e & e' & He & Hs & -> & Hf)]); exists f.
    + by left.
    + right. by exists (S n), e, e'.
  - rewrite E in Hr. pose proof Hr as [_ ->]. exists default_flags. right.
    by apply follows_fail.
Qed.

Lemma follows_call X (c : SetupCall X) a l k :
  follows l (k a) ->
  (forall x, x = a \/ exists ending, failure (event c x) = Some ending /\ k x = mret ending) ->
  follows (fun f => event c a :: l f) (Step c k).
Proof.
  intros Hl Hk es ending (x & es' & -> & Hr).
  destruct (Hk x) as [->|(ending' & Hf & E)].
  - destruct (Hl _ _ Hr) as (f & [[-> ->]|(n & e & e' & He & Hs & -> & Hf)]); exists f.
    + by left.
    + right. by exists (S n), e, e'.
  - rewrite E in Hr. pose proof Hr as [_ ->]. exists default_flags. right.
    by apply follows_fail.
Qed.

Ltac follow := apply follows_call;
  [|let err := fresh "err" in intros [err|]; [right; eexists; split; reflexivity|by left]].

(** ** Theorems *)

(** C31: The process makes the calls of [plan] in this order and stops at the first
    one that fails: it panics when the scheme cannot be filled, exits with the
    status of the flag package when the command line is wrong, and with 1
    otherwise; when all calls succeed it exits with 0.  So the manager is
    started only after the types, the controller, both webhooks (with the same
    [Updater], and an empty cache of deleted resources) and both health checks
    are in place. *)
Theorem process_follows_plan version es ending (Hrun : runs (process version) es ending) :
  exists flags,
    (es = plan version flags /\ ending = Exit 0)
    \/ exists n e e', plan version flags !! n = Some e /\ same_call e e'
         /\ es = take n (plan version flags) ++ [e'] /\ failure e' = Some ending.
Proof.
  assert (follows (plan version) (process version)) as H; [|by apply H].
  unfold plan. do 2 follow. apply follows_choice.
  intros [flags|code]; [left; exists flags; split; [done|]|right; eexists; split; reflexivity].
  do 4 follow. apply follows_call; [|by intros []; left]. do 3 follow. by apply follows_nil.
Qed.

(** The API says that a valid selector has a name or a label selector besides
    its kind.  Nothing checks this: the webhook of the resource accepts a
    resource whose selector has neither, unchanged, and such a selector takes
    every workload of its kind in the namespace. *)
Theorem selector_without_name_or_labels `{Hk8s : K8sTypes} `{Hlab : LabelsPkg}
    (r old : AuthProxyWorkload) (wl : Object)
    (Hname : ws_Name (sp_Workload (apw_Spec r)) = "")
    (Hsel : ws_Selector (sp_Workload (apw_Spec r)) = None)
    (Hkind : GetKind wl = ws_Kind (sp_Workload (apw_Spec r)))
    (Hns : GetNamespace wl = apw_Namespace r) :
  Default r = r /\ ValidateCreate r = None /\ ValidateUpdate r old = None
  /\ workloadMatches wl (sp_Workload (apw_Spec r)) (apw_Namespace r) = true.
Proof.
  split; [done|]. split; [done|]. split; [done|]. apply workloadMatches_true.
  unfold selector_accepts. rewrite Hsel. auto.
Qed.

(** ** Witnesses *)
Section witnesses.
Import ConcreteInstances.

(** A process whose manager cannot start. *)
Lemma process_follows_plan_witness :
  let err := ErrorString "listen tcp :8080: bind: address already in use" in
  let es := take 10 (plan "1.0.0" default_flags) ++ [event StartManager (Some err)] in
  exists flags,
    (es = plan "1.0.0" flags /\ Exit 1 = Exit 0)
    \/ exists n e e', plan "1.0.0" flags !! n = Some e /\ same_call e e'
         /\ es = take n (plan "1.0.0" flags) ++ [e'] /\ failure e' = Some (Exit 1).
Proof.
  intros err es. apply process_follows_plan.
  repeat first [eexists|split|reflexivity].
Defined.

Lemma selector_without_name_or_labels_witness :
  Default users_apw = users_apw /\ ValidateCreate users_apw = None
  /\ ValidateUpdate users_apw users_apw = None
  /\ workloadMatches (ObjectOf web_pod) (sp_Workload (apw_Spec users_apw))
       (apw_Namespace users_apw) = true.
Proof. apply selector_without_name_or_labels; reflexivity. Defined.

End witnesses.
