(* ===== verification/Retry.v ===== *)
(** * Retrying

    [RetryUntilSuccess] of [src/internal/testhelpers/helpers.go], for programs
    of any calls one of which is [time.Sleep].  The function it is given is a
    program on the variables it captures. *)

From S2P Require Import Prelude Interaction GoStd Api.
#[local] Open Scope Z_scope.

(** [time.Duration], in nanoseconds *)
Definition time_Second : Z := 10 ^ 9.
Definition DefaultRetryInterval : Z := 5 * time_Second.

(** [%s] of an error *)
Definition format_error (err : option error) : string :=
  match err with Some e => Error_text e | None => "%!s(<nil>)" end.

Section retry.
Context {Call : Type -> Type} (Sleep : Z -> Call unit).

(** The loop of [RetryUntilSuccess], at iteration [i] with [n] iterations to
    go. *)
Fixpoint retry_loop {V} (attempts d : Z) (f : V -> Prog Call (V * option error)) (i n : nat)
    (v : V) (err : option error) : Prog Call (V * option error) :=
  match n with
  | O => mret (v, Some (ErrorString ("after " +:+ format_d attempts
                    +:+ " attempts, last error: " +:+ format_error err)))
  | S n =>
      _ ← (if (0 <? i)%nat then call (Sleep d) else mret tt);
      r ← f v;
      match r.2 with
      | None => mret (r.1, None)
      | Some e => retry_loop attempts d f (S i) n r.1 (Some e)
      end
  end.

Definition RetryUntilSuccess {V} (attempts d : Z) (f : V -> Prog Call (V * option error)) (v : V)
    : Prog Call (V * option error) :=
  retry_loop attempts d f 0 (Z.to_nat attempts) v None.

(** *** What it does *)
Context {V : Type} (d : Z) (f : V -> Prog Call (V * option error)).

Definition pause (i : nat) : list (Event Call) :=
  match i with O => [] | S _ => [event (Sleep d) tt] end.

(** [n] attempts failed, the first one started in [v0]; [err] is the last
    error. *)
Inductive failed_attempts (v0 : V) : list (Event Call) -> nat -> V -> option error -> Prop :=
| no_attempt : failed_attempts v0 [] 0 v0 None
| one_more es n v err es1 v1 e :
    failed_attempts v0 es n v err -> runs (f v) es1 (v1, Some e) ->
    failed_attempts v0 (es ++ pause n ++ es1) (S n) v1 (Some e).

Lemma runs_pause i es : runs (if (0 <? i)%nat then call (Sleep d) else mret tt) es tt <-> es = pause i.
Proof.
  destruct i as [|i]; cbn [Nat.ltb Nat.leb]; [|by rewrite runs_call].
  split; [by intros [-> _]|by intros ->].
Qed.

(** The outcome of the attempts from the [i]-th on. *)
Definition outcome (attempts : Z) (v0 : V) (es : list (Event Call)) (r : V * option error) : Prop :=
  (exists es0 n v err es1, failed_attempts v0 es0 n v err /\ Z.of_nat n < attempts
     /\ runs (f v) es1 (r.1, None) /\ es = es0 ++ pause n ++ es1 /\ r.2 = None)
  \/ exists err, failed_attempts v0 es (Z.to_nat attempts) r.1 err
       /\ r.2 = Some (ErrorString ("after " +:+ format_d attempts
                  +:+ " attempts, last error: " +:+ format_error err)).

Lemma retry_loop_spec attempts v0 i n v err es0 es r :
  failed_attempts v0 es0 i v err -> (i + n)%nat = Z.to_nat attempts ->
  runs (retry_loop attempts d f i n v err) es r -> outcome attempts v0 (es0 ++ es) r.
Proof.
  revert i v err es0 es. induction n as [|n IH]; intros i v err es0 es Hfail Hn; cbn [retry_loop].
  - intros [-> ->]. right. exists err. rewrite app_nil_r. split; [|done].
    by replace (Z.to_nat attempts) with i by lia.
  - intros (es1 & es2 & [] & -> & Hp & Hr)%runs_bind. apply runs_pause in Hp as ->.
    apply runs_bind in Hr as (es3 & es4 & [v1 [e|]] & -> & Hf & Hr); cbn [fst snd] in Hr.
    + rewrite !app_assoc, <-(app_assoc es0). eapply IH; [by econstructor|lia|done].
    + destruct Hr as [-> ->]. left. exists es0, i, v, err, es3. rewrite app_nil_r.
      split_and!; [done|lia|done..].
Qed.

Lemma retry_loop_after attempts v0 es0 i v err n es r :
  failed_attempts v0 es0 i v err ->
  runs (retry_loop attempts d f i n v err) es r ->
  runs (retry_loop attempts d f 0 (i + n) v0 None) (es0 ++ es) r.
Proof.
  intros Hfail. revert n es r. induction Hfail as [|es0 i v err es1 v1 e Hfail IH Hf]; intros n es r Hr.
  - done.
  - rewrite <-!app_assoc, Nat.add_succ_comm. apply IH. cbn [retry_loop].
    apply runs_bind. exists (pause i), (es1 ++ es), tt. rewrite runs_pause. split_and!; [done|done|].
    apply runs_bind. by exists es1, es, (v1, Some e).
Qed.

Lemma RetryUntilSuccess_spec attempts v0 es r :
  runs (RetryUntilSuccess attempts d f v0) es r <-> outcome attempts v0 es r.
Proof.
  split; [intros Hr; by eapply retry_loop_spec in Hr; [|constructor|]|].
  unfold RetryUntilSuccess. destruct r as [v r].
  intros [(es0 & n & v1 & err & es1 & Hfail & Hn & Hf & -> & E)|(err & Hfail & E)];
    cbn [fst snd] in *; subst r.
  - replace (Z.to_nat attempts) with (n + S (Z.to_nat attempts - S n))%nat by lia.
    eapply retry_loop_after; [exact Hfail|]. cbn [retry_loop].
    apply runs_bind. exists (pause n), es1, tt. rewrite runs_pause. split_and!; [done|done|].
    apply runs_bind. exists es1, [], (v, None). by rewrite app_nil_r.
  - rewrite <-(app_nil_r es), <-(Nat.add_0_r (Z.to_nat attempts)).
    by eapply retry_loop_after.
Qed.

(** After a success the last attempt succeeded. *)

Lemma RetryUntilSuccess_last attempts v0 es v :
  runs (RetryUntilSuccess attempts d f v0) es (v, None) ->
  exists es0 es1 v1, es = es0 ++ es1 /\ runs (f v1) es1 (v, None).
Proof.
  intros [(es0 & n & v1 & err & es1 & _ & _ & Hf & -> & _)|(err & _ & [=])]%RetryUntilSuccess_spec.
  exists (es0 ++ pause n), es1, v1. by rewrite app_assoc.
Qed.

(** After a failure the last of the attempts failed. *)
Lemma failed_attempts_last v0 es n v err :
  failed_attempts v0 es (S n) v err ->
  exists es0 es1 v1 e, es = es0 ++ pause n ++ es1 /\ runs (f v1) es1 (v, Some e).
Proof. inversion 1; subst. eauto 10. Qed.

(** The first attempt is made at once. *)
Lemma RetryUntilSuccess_first attempts v0 es v :
  0 < attempts -> runs (f v0) es (v, None) -> runs (RetryUntilSuccess attempts d f v0) es (v, None).
Proof.
  intros Ha Hf. unfold RetryUntilSuccess. destruct (Z.to_nat attempts) as [|n] eqn:E; [lia|].
  cbn [retry_loop Nat.ltb Nat.leb]. apply runs_bind. exists [], es, tt. split_and!; [done|done|].
  apply runs_bind. exists es, [], (v, None). by rewrite app_nil_r.
Qed.
End retry.

(** ** Theorem *)

(** C39: [RetryUntilSuccess] calls the function at once, then again after a
    pause of [d] as long as it fails, at most [attempts] times: it succeeds
    exactly when one of these attempts does, with what that attempt leaves, and
    otherwise reports the last error.  In particular it always returns. *)
Theorem RetryUntilSuccess_attempts {Call : Type -> Type} (Sleep : Z -> Call unit) {V}
    (d attempts : Z) (f : V -> Prog Call (V * option error)) v0 es r :
  runs (RetryUntilSuccess Sleep attempts d f v0) es r <->
  (exists es0 n v err es1, failed_attempts Sleep d f v0 es0 n v err /\ Z.of_nat n < attempts
     /\ runs (f v) es1 (r.1, None) /\ es = es0 ++ pause Sleep d n ++ es1 /\ r.2 = None)
  \/ exists err, failed_attempts Sleep d f v0 es (Z.to_nat attempts) r.1 err
       /\ r.2 = Some (ErrorString ("after " +:+ format_d attempts
                  +:+ " attempts, last error: " +:+ format_error err)).
Proof. apply RetryUntilSuccess_spec. Qed.
