(* ===== verification/TestHelpers.v ===== *)
(** * The helpers of the tests

    [src/internal/testhelpers]: [resources.go], [testcases.go] and the rest of
    [helpers.go].  The tests of the operator rely on them to build workloads,
    to wait until the cluster has caught up, and to judge what they see.  Methods of
    [TestCaseClient] are programs that call the API server; variables captured
    by a function literal are the state the function passes on. *)

From S2P Require Import Prelude Interaction GoStd Api Concrete Names Workload Fixtures PodSpec.
From S2P Require Import Matching Webhook Status Retry.
From Stdlib Require Import Ascii.
#[local] Open Scope Z_scope.

(** ** Building objects *)

(** Composite literals of Kubernetes types whose fields are in the opaque rest
    of the objects, and accessors of these fields.  A selector made from
    labels accepts the objects that have them. *)
Class RestFields `{K8sTypes} `{LabelsPkg} := {
  MatchLabels : gmap string string -> LabelSelector;
  ContainerRest_Command : list string -> ContainerRest;
  PodSpecRest_RestartPolicy : string -> PodSpecRest -> PodSpecRest;
  TemplateRest_Labels : gmap string string -> ObjectRest;
  Template_Labels : ObjectRest -> gmap string string;
  (** replicas, type of the update strategy, selector *)
  DeploymentRest : option Z -> string -> option LabelSelector -> ObjectRest;
  StatefulSetRest : option Z -> string -> option LabelSelector -> ObjectRest;
  DaemonSetRest : string -> option LabelSelector -> ObjectRest;
  ReplicaSetRest : option Z -> option LabelSelector -> ObjectRest;
  Deployment_Replicas : ObjectRest -> option Z;
  Deployment_Selector : ObjectRest -> option LabelSelector;
  (** parallelism, completions *)
  JobRest : option Z -> option Z -> ObjectRest;
  CronJobRest : string -> ObjectRest;
  MatchLabels_Matches : forall m sel labels, LabelSelectorAsSelector (MatchLabels m) = OK sel ->
    Selector_Matches sel labels = true <-> m ⊆ labels;
  MatchLabels_Empty : forall m sel, LabelSelectorAsSelector (MatchLabels m) = OK sel ->
    Selector_Empty sel = true -> m = ∅
}.

Section builders.
Context `{Hk8s : K8sTypes} `{Hlab : LabelsPkg} `{Hrest : !RestFields}.

Definition app_labels (label : string) : gmap string string := {[ "app" := label ]}.

Definition type_meta (group version kind : string) : GroupVersionKind :=
  {| gvk_Group := group; gvk_Version := version; gvk_Kind := kind |}.

(** [metav1.ObjectMeta{Name, Namespace, Labels}] *)
Definition named_meta (name : NamespacedName) (labels : gmap string string) : ObjectMeta := {|
  om_Name := nn_Name name; om_Namespace := nn_Namespace name; om_Generation := 0;
  om_ResourceVersion := ""; om_Labels := labels; om_Annotations := ∅;
  om_DeletionTimestamp := None; om_Finalizers := []; om_OwnerReferences := [];
  om_rest := ObjectMetaRest_zero |}.

Definition buildPodTemplateSpec (mainPodSleep : Z) : PodTemplateSpec :=
  let podCmd := "echo Container 1 is Running ; sleep " +:+ format_d mainPodSleep in {|
  pt_Annotations := ∅;
  pt_Spec := {|
    ps_Containers := [ {|
      c_Name := "busybox"; c_Image := "busybox"; c_ImagePullPolicy := "IfNotPresent";
      c_Args := []; c_Ports := []; c_Env := []; c_Resources := ResourceRequirements_zero;
      c_StartupProbe := None; c_ReadinessProbe := None; c_LivenessProbe := None;
      c_rest := ContainerRest_Command ["sh"; "-c"; podCmd] |} ];
    ps_rest := PodSpecRest_zero |};
  pt_rest := TemplateRest_Labels (app_labels "busyboxon") |}.

(** [job.Spec.Template.Spec.RestartPolicy = corev1.RestartPolicyNever] *)
Definition never_restart (t : PodTemplateSpec) : PodTemplateSpec := {|
  pt_Annotations := pt_Annotations t;
  pt_Spec := {| ps_Containers := ps_Containers (pt_Spec t);
                ps_rest := PodSpecRest_RestartPolicy "Never" (ps_rest (pt_Spec t)) |};
  pt_rest := pt_rest t |}.

Definition BuildDeployment (name : NamespacedName) (appLabel : string) : Templated := {|
  t_GVK := type_meta "apps" "v1" "Deployment";
  t_Meta := named_meta name (app_labels appLabel);
  t_Template := buildPodTemplateSpec 3600;
  t_rest := DeploymentRest (Some 2) "RollingUpdate" (Some (MatchLabels (app_labels "busyboxon"))) |}.

Definition BuildStatefulSet (name : NamespacedName) (appLabel : string) : Templated := {|
  t_GVK := type_meta "apps" "v1" "StatefulSet";
  t_Meta := named_meta name (app_labels appLabel);
  t_Template := buildPodTemplateSpec 3600;
  t_rest := StatefulSetRest (Some 2) "RollingUpdate" (Some (MatchLabels (app_labels "busyboxon"))) |}.

Definition BuildDaemonSet (name : NamespacedName) (appLabel : string) : Templated := {|
  t_GVK := type_meta "apps" "v1" "DaemonSet";
  t_Meta := named_meta name (app_labels appLabel);
  t_Template := buildPodTemplateSpec 3600;
  t_rest := DaemonSetRest "RollingUpdate" (Some (MatchLabels (app_labels "busyboxon"))) |}.

Definition BuildJob (name : NamespacedName) (appLabel : string) : Templated := {|
  t_GVK := type_meta "batch" "v1" "Job";
  t_Meta := named_meta name (app_labels appLabel);
  t_Template := never_restart (buildPodTemplateSpec 30);
  t_rest := JobRest (Some 1) (Some 20) |}.

Definition BuildCronJob (name : NamespacedName) (appLabel : string) : CronJob := {|
  cj_GVK := type_meta "batch" "v1" "CronJob";
  cj_Meta := named_meta name (app_labels appLabel);
  cj_JobTemplate := {| jt_Template := never_restart (buildPodTemplateSpec 60);
                       jt_rest := ObjectRest_zero |};
  cj_rest := CronJobRest "* * * * *" |}.

Definition BuildAuthProxyWorkload (key : NamespacedName) (connectionString : string)
    : AuthProxyWorkload := {|
  apw_GVK := type_meta "cloudsql.cloud.google.com" "v1alpha1" "AuthProxyWorkload";
  apw_ObjectMeta := named_meta key ∅;
  apw_Spec := {|
    sp_Workload := {| ws_Selector := None; ws_Kind := ""; ws_Name := "" |};
    sp_AuthProxyContainer := None;
    sp_Instances := [ {|
      is_ConnectionString := connectionString; is_Port := None; is_AutoIAMAuthN := None;
      is_PrivateIP := None; is_PortEnvName := ""; is_HostEnvName := "" |} ] |};
  apw_Status := {| status_Conditions := []; status_WorkloadStatus := [] |} |}.

Definition app_selector (kind appLabel : string) : WorkloadSelectorSpec :=
  {| ws_Selector := Some (MatchLabels (app_labels appLabel)); ws_Kind := kind; ws_Name := "" |}.

(** The resource that [CreateAuthProxyWorkload] creates. *)
Definition app_resource (proxyImageURL : string) (key : NamespacedName)
    (appLabel connectionString kind : string) : AuthProxyWorkload :=
  let proxy := BuildAuthProxyWorkload key connectionString in {|
  apw_GVK := apw_GVK proxy;
  apw_ObjectMeta := apw_ObjectMeta proxy;
  apw_Spec := {|
    sp_Workload := app_selector kind appLabel;
    sp_AuthProxyContainer := Some {|
      ac_Container := None; ac_Resources := None; ac_MaxConnections := None;
      ac_MaxSigtermDelay := None; ac_SQLAdminAPIEndpoint := ""; ac_Image := proxyImageURL |};
    sp_Instances := sp_Instances (apw_Spec proxy) |};
  apw_Status := apw_Status proxy |}.

(** The loop of [GetConditionStatus]. *)
Fixpoint GetConditionStatus (conditions : list Condition) (condType : string) : string :=
  match conditions with
  | [] => ""
  | c :: conditions =>
      if bool_decide (cond_Type c = condType) then cond_Status c
      else GetConditionStatus conditions condType
  end.

(** The controller's [findCondition] sees the same. *)
Lemma GetConditionStatus_findCondition conds t :
  GetConditionStatus conds t = from_option cond_Status "" (findCondition conds t).
Proof.
  unfold findCondition. induction conds as [|c conds IH]; [done|]. cbn.
  by destruct (bool_decide (cond_Type c = t)).
Qed.

(** The five kinds the tests build, with their builders. *)
Definition built (name : NamespacedName) (appLabel : string) : list (string * Workload) :=
  [("Deployment", WDeployment {| dw_Deployment := BuildDeployment name appLabel |});
   ("StatefulSet", WStatefulSet {| sw_StatefulSet := BuildStatefulSet name appLabel |});
   ("DaemonSet", WDaemonSet {| dsw_DaemonSet := BuildDaemonSet name appLabel |});
   ("Job", WJob {| jw_Job := BuildJob name appLabel |});
   ("CronJob", WCronJob {| cw_CronJob := BuildCronJob name appLabel |})].

Lemma app_labels_subset a b : app_labels a ⊆ app_labels b <-> a = b.
Proof.
  unfold app_labels. rewrite map_singleton_subseteq_l, lookup_singleton_Some. naive_solver.
Qed.

Lemma built_meta name appLabel kind wl :
  (kind, wl) ∈ built name appLabel ->
  GetKind (ObjectOf wl) = kind /\ kind <> "" /\ GetNamespace (ObjectOf wl) = nn_Namespace name
  /\ GetLabels (ObjectOf wl) = app_labels appLabel.
Proof.
  intros H. unfold built in H. repeat (apply elem_of_cons in H as [[= -> ->]|H]; [done|]).
  by apply elem_of_nil in H.
Qed.

Lemma app_selector_matches (o : Object) kind appLabel ns sel :
  LabelSelectorAsSelector (MatchLabels (app_labels appLabel)) = OK sel ->
  workloadMatches o (app_selector kind appLabel) ns = true
  <-> (kind = "" \/ GetKind o = kind) /\ (ns = "" \/ GetNamespace o = ns)
      /\ app_labels appLabel ⊆ GetLabels o.
Proof.
  intros Hsel. rewrite <-(MatchLabels_Matches _ _ (GetLabels o) Hsel).
  pose proof (MatchLabels_Empty _ _ Hsel) as Hempty.
  unfold workloadMatches, app_selector, LabelsSelector. cbn [ws_Kind ws_Name ws_Selector].
  rewrite Hsel. destruct (Selector_Empty sel); [by discriminate Hempty|]. cbn [negb andb].
  repeat case_bool_decide; subst; destruct (Selector_Matches sel _); cbn; intuition congruence.
Qed.

End builders.

(** ** The API server *)
Section client.
Context `{Hk8s : K8sTypes} `{Hlab : LabelsPkg}.

Record Namespace := { ns_GVK : GroupVersionKind; ns_Meta : ObjectMeta }.

(** The types of the objects that are created and read. *)
Inductive ObjTy :=
| TNamespace | TResource | TDeployment | TStatefulSet | TDaemonSet | TJob | TCronJob
| TReplicaSet | TPod.

Definition obj (t : ObjTy) : Type :=
  match t with
  | TNamespace => Namespace
  | TResource => AuthProxyWorkload
  | TCronJob => CronJob
  | TPod => Pod
  | TDeployment | TStatefulSet | TDaemonSet | TJob | TReplicaSet => Templated
  end.

Definition obj_meta {t} : obj t -> ObjectMeta :=
  match t return obj t -> ObjectMeta with
  | TNamespace => ns_Meta
  | TResource => apw_ObjectMeta
  | TCronJob => cj_Meta
  | TPod => pod_Meta
  | TDeployment | TStatefulSet | TDaemonSet | TJob | TReplicaSet => t_Meta
  end.

(** [client.ObjectKeyFromObject] *)
Definition ObjectKeyFromObject {t} (o : obj t) : NamespacedName :=
  {| nn_Namespace := om_Namespace (obj_meta o); nn_Name := om_Name (obj_meta o) |}.

(** The calls.  Create and Get fill in the object they are given, so their
    result is that object after the call, and the error; [CreateOrPatch] is
    that of controllerutil. *)
Inductive TestCall : Type -> Type :=
| Create (t : ObjTy) (o : obj t) : TestCall (obj t * option error)
| Get (t : ObjTy) (key : NamespacedName) (into : obj t) : TestCall (obj t * option error)
| Delete (t : ObjTy) (o : obj t) : TestCall (option error)
| ListPodsBySelector (ns : string) (sel : Selector) : TestCall (Res (list Pod))
| CreateOrPatch (t : ObjTy) (o : obj t) (mutate : obj t -> obj t)
    : TestCall (obj t * option error)
| Sleep (d : Z) : TestCall unit
| RandUint64 : TestCall Z
| RandUint32 : TestCall Z
| RandIntnRange (min max : Z) : TestCall Z.
End client.

Abbreviation TestProg := (Interaction.Prog TestCall).
Abbreviation TestEvent := (Interaction.Event TestCall).

(** [controllerutil.SetOwnerReference]: the owner's type and metadata, and the
    object's metadata.  It refuses an owner of another namespace; an object
    without owners gets one reference. *)
Class OwnerPkg `{K8sTypes} := {
  SetOwnerReference : ObjTy -> ObjectMeta -> ObjectMeta -> Res ObjectMeta;
  type_name : ObjTy -> string;
  SetOwnerReference_first : forall t owner m m', SetOwnerReference t owner m = OK m' ->
    om_OwnerReferences m = [] ->
    om_Name m' = om_Name m /\ om_Namespace m' = om_Namespace m /\ om_Labels m' = om_Labels m
    /\ exists r, om_OwnerReferences m' = [r] /\ or_Name r = om_Name owner
       /\ or_Kind r = type_name t;
  type_name_workloads : type_name TDeployment = "Deployment"
    /\ type_name TReplicaSet = "ReplicaSet"
}.

(** ** TestCaseClient *)
Record TestCaseClient := {
  tc_Namespace : string;
  tc_ConnectionString : string;
  tc_ProxyImageURL : string
}.

Section helpers.
Context `{Hk8s : K8sTypes} `{Hlab : LabelsPkg} `{Hrest : !RestFields}.

Definition namespace_object (name : string) : Namespace := {|
  ns_GVK := type_meta "" "v1" "Namespace";
  ns_Meta := named_meta {| nn_Namespace := ""; nn_Name := name |} ∅ |}.

Definition set_ns_Name (name : string) (n : Namespace) : Namespace := {|
  ns_GVK := ns_GVK n;
  ns_Meta := {|
    om_Name := name; om_Namespace := om_Namespace (ns_Meta n);
    om_Generation := om_Generation (ns_Meta n); om_ResourceVersion := om_ResourceVersion (ns_Meta n);
    om_Labels := om_Labels (ns_Meta n); om_Annotations := om_Annotations (ns_Meta n);
    om_DeletionTimestamp := om_DeletionTimestamp (ns_Meta n);
    om_Finalizers := om_Finalizers (ns_Meta n);
    om_OwnerReferences := om_OwnerReferences (ns_Meta n); om_rest := om_rest (ns_Meta n) |} |}.

(** [corev1.Namespace{}] and [v1alpha1.AuthProxyWorkload{}] *)
Definition Namespace_zero : Namespace := {| ns_GVK := GVK_zero; ns_Meta := ObjectMeta_zero |}.
Definition AuthProxyWorkload_zero : AuthProxyWorkload := {|
  apw_GVK := GVK_zero; apw_ObjectMeta := ObjectMeta_zero;
  apw_Spec := {|
    sp_Workload := {| ws_Selector := None; ws_Kind := ""; ws_Name := "" |};
    sp_AuthProxyContainer := None; sp_Instances := [] |};
  apw_Status := {| status_Conditions := []; status_WorkloadStatus := [] |} |}.

Definition NewNamespaceName (prefix : string) : TestProg string :=
  n ← call (RandIntnRange 1000 9999);
  mret ("test" +:+ prefix +:+ format_d n).

(** A Get, as the function of a retry: the object is a captured variable. *)
Definition get_attempt (t : ObjTy) (key : obj t -> NamespacedName) (o : obj t)
    : TestProg (obj t * option error) :=
  call (Get t (key o) o).

Definition CreateOrPatchNamespace (cc : TestCaseClient) : TestProg (option error) :=
  let failed err := ErrorString ("unable to verify existance of namespace "
                      +:+ tc_Namespace cc +:+ ", " +:+ Error_text err) in
  r ← call (CreateOrPatch TNamespace (namespace_object (tc_Namespace cc))
              (set_ns_Name (tc_Namespace cc)));
  match r.2 with
  | Some err => mret (Some (failed err))
  | None =>
      r ← RetryUntilSuccess Sleep 5 DefaultRetryInterval
            (get_attempt TNamespace
               (fun _ => {| nn_Namespace := ""; nn_Name := tc_Namespace cc |}))
            Namespace_zero;
      match r.2 with
      | Some err => mret (Some (failed err))
      | None => mret None
      end
  end.

Definition DeleteNamespace (cc : TestCaseClient) : TestProg (option error) :=
  call (Delete TNamespace (namespace_object (tc_Namespace cc))).

(** The object after the calls, and the error. *)
Definition CreateWorkload (t : ObjTy) (o : obj t) : TestProg (obj t * option error) :=
  r ← call (Create t o);
  match r.2 with
  | Some err => mret r
  | None => RetryUntilSuccess Sleep 5 time_Second (get_attempt t ObjectKeyFromObject) r.1
  end.

(** Has the controller reported the resource as up to date? *)
Definition reconciled (r : AuthProxyWorkload) : bool :=
  bool_decide (GetConditionStatus (status_Conditions (apw_Status r)) ConditionUpToDate
               = ConditionTrue).

Definition reconcile_attempt (key : NamespacedName) (createdPodmod : AuthProxyWorkload)
    : TestProg (AuthProxyWorkload * option error) :=
  r ← call (Get TResource key createdPodmod);
  match r.2 with
  | Some err => mret r
  | None =>
      if negb (reconciled r.1)
      then mret (r.1, Some (ErrorString "AuthProxyWorkload found, but reconcile not complete yet"))
      else mret (r.1, None)
  end.

Definition GetAuthProxyWorkloadAfterReconcile (key : NamespacedName)
    : TestProg (Res AuthProxyWorkload) :=
  r ← RetryUntilSuccess Sleep 6 DefaultRetryInterval (reconcile_attempt key) AuthProxyWorkload_zero;
  match r.2 with
  | Some err => mret (Fail err)
  | None => mret (OK r.1)
  end.

Definition CreateBusyboxDeployment (name : NamespacedName) (appLabel : string)
    : TestProg (Res Templated) :=
  r ← call (Create TDeployment (BuildDeployment name appLabel));
  match r.2 with
  | Some err => mret (Fail err)
  | None =>
      r ← RetryUntilSuccess Sleep 5 time_Second
            (get_attempt TDeployment (fun _ => name)) Templated_zero;
      match r.2 with
      | Some err => mret (Fail err)
      | None => mret (OK r.1)
      end
  end.

Definition ListPods (ns : string) (selector : LabelSelector) : TestProg (Res (list Pod)) :=
  match LabelSelectorAsSelector selector with
  | Fail err => mret (Fail (ErrorString ("unable to make pod selector for deployment "
                                         +:+ Error_text err)))
  | OK sel =>
      res ← call (ListPodsBySelector ns sel);
      match res with
      | Fail err => mret (Fail (ErrorString ("unable to list pods for deployment "
                                             +:+ Error_text err)))
      | OK pods => mret (OK pods)
      end
  end.

Definition pod_containers (p : Pod) : Z := Z.of_nat (length (ps_Containers (pod_Spec p))).

(** The loop that counts the pods with another number of containers. *)
Definition bad_pods (count : Z) (pods : list Pod) : Z :=
  fold_left (fun bad p => if negb (pod_containers p =? count) then bad + 1 else bad) pods 0.

(** The state: [countBadPods] and [countPods]. *)
Definition count_attempt (cc : TestCaseClient) (podSelector : LabelSelector) (count : Z)
    (allOrAny : string) (counts : Z * Z) : TestProg (Z * Z * option error) :=
  res ← ListPods (tc_Namespace cc) podSelector;
  match res with
  | Fail err => mret ((0, counts.2), Some err)
  | OK pods =>
      let countPods := Z.of_nat (length pods) in
      if countPods =? 0
      then mret ((0, countPods), Some (ErrorString "got 0 pods, want at least 1 pod"))
      else
        let countBadPods := bad_pods count pods in
        let wrong := Some (ErrorString ("got the wrong number of containers on "
          +:+ format_d countBadPods +:+ " of " +:+ format_d countPods +:+ " pods")) in
        if bool_decide (allOrAny = "all") && (0 <? countBadPods)
        then mret ((countBadPods, countPods), wrong)
        else if bool_decide (allOrAny = "any") && (countBadPods =? countPods)
        then mret ((countBadPods, countPods), wrong)
        else mret ((countBadPods, countPods), None)
  end.

Definition ExpectPodContainerCount (cc : TestCaseClient) (podSelector : LabelSelector) (count : Z)
    (allOrAny : string) : TestProg (option error) :=
  r ← RetryUntilSuccess Sleep 24 DefaultRetryInterval
        (count_attempt cc podSelector count allOrAny) (0, 0);
  match r.2 with
  | Some _ => mret (Some (ErrorString ("want " +:+ format_d count
      +:+ " containers, got the wrong number of containers on " +:+ format_d r.1.1
      +:+ " of " +:+ format_d r.1.2 +:+ " pods")))
  | None => mret None
  end.

(** The state: [got] and the deployment. *)
Definition deployment_attempt (key : NamespacedName) (count : Z) (v : Z * Templated)
    : TestProg (Z * Templated * option error) :=
  r ← call (Get TDeployment key v.2);
  match r.2 with
  | Some err => mret ((v.1, r.1), Some err)
  | None =>
      let got := Z.of_nat (length (ps_Containers (pt_Spec (t_Template r.1)))) in
      if negb (got =? count)
      then mret ((got, r.1), Some (ErrorString ("deployment found, got " +:+ format_d got
             +:+ ", want " +:+ format_d count +:+ " containers")))
      else mret ((got, r.1), None)
  end.

Definition ExpectContainerCount (key : NamespacedName) (count : Z) : TestProg (option error) :=
  r ← RetryUntilSuccess Sleep 6 DefaultRetryInterval (deployment_attempt key count)
        (0, Templated_zero);
  match r.2 with
  | Some _ => mret (Some (ErrorString ("want " +:+ format_d count +:+ " containers, got "
      +:+ format_d r.1.1 +:+ " number of containers did not resolve after waiting for reconcile")))
  | None => mret None
  end.

Definition CreateAuthProxyWorkload (cc : TestCaseClient) (key : NamespacedName)
    (appLabel connectionString kind : string) : TestProg (option error) :=
  r ← call (Create TResource
              (app_resource (tc_ProxyImageURL cc) key appLabel connectionString kind));
  match r.2 with
  | Some err => mret (Some (ErrorString ("Unable to create entity " +:+ Error_text err)))
  | None => mret None
  end.

(** ** Pods of a deployment *)
Context `{Howner : !OwnerPkg}.

(** [strconv.FormatUint(n, 16)]; 16 digits are enough for a [uint64]. *)
Definition FormatUint16 (n : Z) : string := if n =? 0 then "0" else hex_go 16 n "".

Definition set_t_Meta (m : ObjectMeta) (t : Templated) : Templated :=
  {| t_GVK := t_GVK t; t_Meta := m; t_Template := t_Template t; t_rest := t_rest t |}.
Definition set_pod_Meta (m : ObjectMeta) (p : Pod) : Pod :=
  {| pod_GVK := pod_GVK p; pod_Meta := m; pod_Spec := pod_Spec p; pod_rest := pod_rest p |}.

(** The labels of the replica set and of its pods. *)
Definition replica_labels (d : Templated) (podTemplateHash : string) : gmap string string :=
  <[ "app" := default "" (Template_Labels (pt_rest (t_Template d)) !! "app") ]>
    (<[ "enablewait" := "yes" ]> {[ "pod-template-hash" := podTemplateHash ]}).

Definition generated_meta (name namespace : string) (labels annotations : gmap string string)
    : ObjectMeta := {|
  om_Name := name; om_Namespace := namespace; om_Generation := 1; om_ResourceVersion := "";
  om_Labels := labels; om_Annotations := annotations; om_DeletionTimestamp := None;
  om_Finalizers := []; om_OwnerReferences := []; om_rest := ObjectMetaRest_zero |}.

Definition replica_set (d : Templated) (podTemplateHash : string) : Templated := {|
  t_GVK := type_meta "apps" "metav1" "ReplicaSet";
  t_Meta := generated_meta (om_Name (t_Meta d) +:+ "-" +:+ podTemplateHash)
    (om_Namespace (t_Meta d)) (replica_labels d podTemplateHash)
    (<[ "deployment.kubernetes.io/desired-replicas" := "2" ]>
      (<[ "deployment.kubernetes.io/max-replicas" := "3" ]>
        {[ "deployment.kubernetes.io/revision" := "1" ]}));
  t_Template := t_Template d;
  t_rest := ReplicaSetRest (Deployment_Replicas (t_rest d)) (Deployment_Selector (t_rest d)) |}.

Definition deployment_pod (d : Templated) (podTemplateHash podID : string) : Pod := {|
  pod_GVK := type_meta "" "v1" "Pod";
  pod_Meta := generated_meta
    (om_Name (t_Meta d) +:+ "-" +:+ podTemplateHash +:+ "-" +:+ podID)
    (om_Namespace (t_Meta d)) (replica_labels d podTemplateHash) ∅;
  pod_Spec := pt_Spec (t_Template d);
  pod_rest := ObjectRest_zero |}.

(** The loop that creates the pods, [n] of them to go. *)
Fixpoint create_pods (d rs : Templated) (podTemplateHash : string) (n : nat) (pods : list Pod)
    : TestProg (option (list Pod) * option error) :=
  match n with
  | O => mret (Some pods, None)
  | S n =>
      podID ← call RandUint32;
      let p := deployment_pod d podTemplateHash (FormatUint16 podID) in
      match SetOwnerReference TReplicaSet (t_Meta rs) (pod_Meta p) with
      | Fail err => mret (None, Some err)
      | OK m =>
          r ← call (Create TPod (set_pod_Meta m p));
          match r.2 with
          | Some err => mret (None, Some err)
          | None => create_pods d rs podTemplateHash n (pods ++ [r.1])
          end
      end
  end.

(** The replica set, the pods and the error; [None] is the nil that comes with
    an error. *)
Definition CreateDeploymentReplicaSetAndPods (d : Templated)
    : TestProg (option Templated * option (list Pod) * option error) :=
  hash ← call RandUint64;
  let podTemplateHash := FormatUint16 hash in
  let rs := replica_set d podTemplateHash in
  match SetOwnerReference TDeployment (t_Meta d) (t_Meta rs) with
  | Fail err => mret (None, None, Some err)
  | OK m =>
      r ← call (Create TReplicaSet (set_t_Meta m rs));
      match r.2 with
      | Some err => mret (None, None, Some err)
      | None =>
          let replicas := default 1 (Deployment_Replicas (t_rest d)) in
          pods ← create_pods d r.1 podTemplateHash (Z.to_nat replicas) [];
          mret (Some r.1, pods.1, pods.2)
      end
  end.

(** ** Test cases *)

(** [res.Spec.Instances[0]] panics when there is none. *)
Definition CreateResource (cc : TestCaseClient) : TestProg (Outcome (Res AuthProxyWorkload)) :=
  let expectedConnStr := "proj:inst:db" in
  let failed text err := Ret (Fail (ErrorString (text +:+ Error_text err))) in
  err ← CreateOrPatchNamespace cc;
  match err with
  | Some err => mret (failed "can't create namespace, " err)
  | None =>
      let key := {| nn_Namespace := tc_Namespace cc; nn_Name := "instance1" |} in
      err ← CreateAuthProxyWorkload cc key "app" expectedConnStr "Deployment";
      match err with
      | Some err => mret (failed "unable to create auth proxy workload " err)
      | None =>
          res ← GetAuthProxyWorkloadAfterReconcile key;
          mret match res with
          | Fail err => failed "unable to find entity after create " err
          | OK res =>
              match sp_Instances (apw_Spec res) with
              | [] => Panic "index out of range [0] with length 0"
              | inst :: _ =>
                  let connStr := is_ConnectionString inst in
                  let wlstatus :=
                    GetConditionStatus (status_Conditions (apw_Status res)) ConditionUpToDate in
                  if negb (bool_decide (connStr = expectedConnStr))
                  then Ret (Fail (ErrorString ("was " +:+ connStr +:+ ", wants "
                              +:+ expectedConnStr +:+ ", spec.cloudSqlInstance")))
                  else if negb (bool_decide (wlstatus = ConditionTrue))
                  then Ret (Fail (ErrorString ("was " +:+ wlstatus +:+ ", wants "
                              +:+ ConditionTrue +:+ ", status.condition[up-to-date]")))
                  else Ret (OK res)
              end
          end
      end
  end.

Definition finalizer_attempt (res : AuthProxyWorkload)
    : TestProg (AuthProxyWorkload * option error) :=
  r ← call (Get TResource (ObjectKeyFromObject (t := TResource) res) res);
  match r.2 with
  | Some err => mret r
  | None =>
      if Z.of_nat (length (om_Finalizers (apw_ObjectMeta r.1))) =? 0
      then mret (r.1, Some (ErrorString "waiting for finalizer to be set"))
      else mret (r.1, None)
  end.

Definition WaitForFinalizerOnResource (res : AuthProxyWorkload)
    : TestProg (AuthProxyWorkload * option error) :=
  RetryUntilSuccess Sleep 3 DefaultRetryInterval finalizer_attempt res.

Definition deleted_attempt (res : AuthProxyWorkload)
    : TestProg (AuthProxyWorkload * option error) :=
  r ← call (Get TResource (ObjectKeyFromObject (t := TResource) res) res);
  match r.2 with
  | Some _ => mret (r.1, None)
  | None => mret (r.1, Some (ErrorString
      "was nil, wants error when looking up deleted AuthProxyWorkload resource"))
  end.

Definition DeleteResourceAndWait (res : AuthProxyWorkload)
    : TestProg (AuthProxyWorkload * option error) :=
  err ← call (Delete TResource res);
  match err with
  | Some err => mret (res, Some err)
  | None => RetryUntilSuccess Sleep 3 DefaultRetryInterval deleted_attempt res
  end.

End helpers.

(** ** What the judgements mean *)
Section judgements.
Context `{Hk8s : K8sTypes} `{Hlab : LabelsPkg}.

(** What [ExpectPodContainerCount] is to find: some pod, and the right number
    of containers in all pods, or in any; nothing when [allOrAny] is another
    word. *)
Definition verdict (count : Z) (allOrAny : string) (pods : list Pod) : Prop :=
  pods <> []
  /\ (allOrAny = "all" -> Forall (fun p => pod_containers p = count) pods)
  /\ (allOrAny = "any" -> Exists (fun p => pod_containers p = count) pods).

(** The pods of a listing. *)
Definition listed (e : TestEvent) : option (list Pod) :=
  match e with event (ListPodsBySelector _ _) (OK pods) => Some pods | _ => None end.

Lemma bad_pods_from count pods n :
  fold_left (fun bad p => if negb (pod_containers p =? count) then bad + 1 else bad) pods n
  = n + Z.of_nat (length (List.filter (fun p => negb (pod_containers p =? count)) pods)).
Proof.
  revert n. induction pods as [|p pods IH]; intros n; cbn; [lia|].
  rewrite IH. destruct (negb _); cbn; lia.
Qed.

Lemma bad_pods_spec count pods :
  0 <= bad_pods count pods <= Z.of_nat (length pods)
  /\ (0 < bad_pods count pods <-> ~ Forall (fun p => pod_containers p = count) pods)
  /\ (bad_pods count pods = Z.of_nat (length pods)
      <-> ~ Exists (fun p => pod_containers p = count) pods).
Proof.
  unfold bad_pods. rewrite bad_pods_from.
  induction pods as [|p pods (Hle & Hall & Hany)]; cbn [List.filter length].
  - split_and!; [lia..| |]; split; intros H; try lia.
    + by destruct H.
    + by intros ?%Exists_nil.
  - rewrite Forall_cons, Exists_cons. destruct (Z.eqb_spec (pod_containers p) count) as [E|E];
      cbn [negb length] in *; [|split_and!; [lia..| |]; split; intros H; naive_solver lia].
    split_and!; [lia..| |]; split; intros H; naive_solver lia.
Qed.

Lemma count_attempt_spec cc podSelector count allOrAny v0 es v r :
  runs (count_attempt cc podSelector count allOrAny v0) es (v, r) ->
  match LabelSelectorAsSelector podSelector with
  | Fail _ => es = [] /\ r <> None
  | OK sel => exists res, es = [event (ListPodsBySelector (tc_Namespace cc) sel) res]
      /\ (r = None <-> exists pods, res = OK pods /\ verdict count allOrAny pods)
  end.
Proof.
  unfold count_attempt, ListPods. destruct (LabelSelectorAsSelector podSelector) as [sel|err].
  2:{ intros [-> [= -> ->]]. done. }
  intros (res & es' & -> & Hr). exists res. destruct res as [pods|err]; cbn in Hr.
  2:{ destruct Hr as [-> [= -> ->]]. split; [done|]. split; [done|]. by intros (? & [=] & _). }
  assert (es' = [] /\ (r = None <-> verdict count allOrAny pods)) as [-> Hv].
  { unfold verdict. pose proof (bad_pods_spec count pods) as (Hle & Hall & Hany).
    destruct (Z.eqb_spec (Z.of_nat (length pods)) 0) as [E|E].
    { destruct pods; [|done]. destruct Hr as [-> [= -> ->]]. split; [done|]. naive_solver. }
    assert (pods <> []) as Hne by (by intros ->).
    destruct (decide (allOrAny = "all")) as [->|Hn1];
      [|destruct (decide (allOrAny = "any")) as [->|Hn2]].
    - rewrite bool_decide_eq_true_2 in Hr by done. cbn [andb] in Hr.
      destruct (Z.ltb_spec 0 (bad_pods count pods)); destruct Hr as [-> [= -> ->]];
        (split; [done|]); split; [done|naive_solver| |done].
      intros _. split_and!; [done| |done]. intros _. apply dec_stable. intros Hf%Hall. lia.
    - cbn in Hr. destruct (Z.eqb_spec (bad_pods count pods) (Z.of_nat (length pods)));
        destruct Hr as [-> [= -> ->]]; (split; [done|]); split; [done|naive_solver| |done].
      intros _. split_and!; [done|done|]. intros _. apply dec_stable. by intros Hf%Hany.
    - rewrite !bool_decide_eq_false_2 in Hr by done. destruct Hr as [-> [= -> ->]].
      split; [done|]. naive_solver. }
  split; [done|]. rewrite Hv. naive_solver.
Qed.

(** It can pass at once. *)
Lemma ExpectPodContainerCount_passes cc podSelector sel count allOrAny pods :
  LabelSelectorAsSelector podSelector = OK sel -> verdict count allOrAny pods ->
  runs (ExpectPodContainerCount cc podSelector count allOrAny)
    [event (ListPodsBySelector (tc_Namespace cc) sel) (OK pods)] None.
Proof.
  intros Hsel Hv. set (es := [_]).
  assert (exists vr, runs (count_attempt cc podSelector count allOrAny (0, 0)) es vr)
    as [[v r] Hr].
  { apply (runs_done _ _ _ (OK pods)); [|cbv beta iota zeta; repeat case_match; by eexists].
    unfold ListPods. rewrite Hsel. by exists (OK pods), []. }
  assert (r = None) as ->.
  { apply count_attempt_spec in Hr. rewrite Hsel in Hr. destruct Hr as (res & E & ->).
    exists pods. split; [|done]. apply (f_equal (fun es => head es ≫= listed)) in E.
    destruct res; cbn in E; congruence. }
  apply runs_bind. exists es, [], (v, None). split_and!; [done| |done].
  by apply RetryUntilSuccess_first.
Qed.

(** The calls of [ExpectPodContainerCount] end with a listing that settles it. *)
Lemma ExpectPodContainerCount_last cc podSelector count allOrAny es r :
  runs (ExpectPodContainerCount cc podSelector count allOrAny) es r ->
  exists es0 es1 v v1 r', es = es0 ++ es1 /\ (r = None <-> r' = None)
    /\ (es0 = [] \/ r' = None \/ exists es', es0 = es' ++ [event (Sleep DefaultRetryInterval) tt])
    /\ runs (count_attempt cc podSelector count allOrAny v) es1 (v1, r').
Proof.
  intros (es1 & es2 & [v [e|]] & -> & Hr & Hend)%runs_bind;
    destruct Hend as [-> ->]; rewrite app_nil_r.
  - apply RetryUntilSuccess_spec in Hr as [(? & ? & ? & ? & ? & _ & _ & _ & _ & [=])|(err & Hf & _)].
    apply (failed_attempts_last _ _ _ _ _ 23) in Hf as (es0 & es2 & v1 & e' & -> & Hf).
    exists (es0 ++ [event (Sleep DefaultRetryInterval) tt]), es2, v1, v, (Some e').
    rewrite <-app_assoc. split_and!; [done|split; discriminate| |done]. right. right. by exists es0.
  - apply RetryUntilSuccess_last in Hr as (es0 & es2 & v1 & -> & Hf).
    exists es0, es2, v1, v, None. split_and!; [done|done| |done]. by right; left.
Qed.

End judgements.

(** ** Owners of the pods of a deployment *)
Section owners.
Context `{Hk8s : K8sTypes} `{Hlab : LabelsPkg} `{Hschema : SchemaPkg} `{Hrest : !RestFields}
  `{Howner : !OwnerPkg} `{Hreader : !ClusterReader}.

(** What is created keeps its name, namespace and owners, whatever admission
    changes. *)
Definition faithful_answer {X} (c : TestCall X) : X -> Prop :=
  match c in TestCall X return X -> Prop with
  | Create t o => fun r => r.2 = None ->
      om_Name (obj_meta r.1) = om_Name (obj_meta o)
      /\ om_Namespace (obj_meta r.1) = om_Namespace (obj_meta o)
      /\ om_OwnerReferences (obj_meta r.1) = om_OwnerReferences (obj_meta o)
  | _ => fun _ => True
  end.

Definition creates_faithfully (es : list TestEvent) : Prop :=
  Forall (fun e => match e with event c x => faithful_answer c x end) es.

(** [m] is owned by the object of type [t] with metadata [owner], in its
    namespace, and by nothing else. *)
Definition owned_by (t : ObjTy) (owner m : ObjectMeta) : Prop :=
  om_Namespace m = om_Namespace owner
  /\ exists r, om_OwnerReferences m = [r] /\ or_Name r = om_Name owner /\ or_Kind r = type_name t.

Lemma created_owned_by es t t' owner m (o o' : obj t') :
  creates_faithfully es -> event (Create t' o) (o', None) ∈ es ->
  SetOwnerReference t owner m = OK (obj_meta o) ->
  om_OwnerReferences m = [] -> om_Namespace m = om_Namespace owner ->
  owned_by t owner (obj_meta o').
Proof.
  unfold creates_faithfully. rewrite Forall_forall. intros Hcr Hin Hset Hm Hns.
  destruct (Hcr _ Hin eq_refl) as (_ & Hns' & Ho'). cbn [fst] in *.
  destruct (SetOwnerReference_first _ _ _ _ Hset Hm) as (_ & Hns'' & _ & r & Hr & Hn & Hk).
  split; [congruence|]. exists r. split; [congruence|done].
Qed.

Lemma create_pods_spec d rs hash n pods es pods' :
  runs (create_pods d rs hash n pods) es (Some pods', None) ->
  exists new, pods' = pods ++ new /\ length new = n
    /\ Forall (fun p => exists podID o, event (Create TPod o) (p, None) ∈ es
         /\ SetOwnerReference TReplicaSet (t_Meta rs) (pod_Meta (deployment_pod d hash podID))
            = OK (pod_Meta o)) new.
Proof.
  revert pods es. induction n as [|n IH]; intros pods es; cbn [create_pods].
  - intros [-> [= ->]]. exists []. by rewrite app_nil_r.
  - intros (es1 & es2 & podID & -> & H1 & Hr)%runs_bind.
    destruct (SetOwnerReference _ _ _) as [m|err] eqn:Hset; [|by destruct Hr as [_ [=]]].
    apply runs_bind in Hr as (es3 & es4 & [p [err|]] & -> & H3 & Hr); [by destruct Hr as [_ [=]]|].
    apply runs_call in H3 as ->. apply IH in Hr as (new & -> & <- & Hnew).
    exists (p :: new). rewrite <-app_assoc. split_and!; [done|done|]. constructor.
    + exists (FormatUint16 podID), (set_pod_Meta m (deployment_pod d hash (FormatUint16 podID))).
      split; [|done]. apply elem_of_app. right. by left.
    + eapply Forall_impl; [exact Hnew|]. intros p' (podID' & o & Hin & Hs). exists podID', o.
      split; [|done]. rewrite !elem_of_app. tauto.
Qed.

Lemma CreateDeploymentReplicaSetAndPods_owned d es rs pods :
  runs (CreateDeploymentReplicaSetAndPods d) es (Some rs, Some pods, None) ->
  creates_faithfully es ->
  length pods = Z.to_nat (default 1 (Deployment_Replicas (t_rest d)))
  /\ owned_by TDeployment (t_Meta d) (t_Meta rs)
  /\ Forall (fun p => owned_by TReplicaSet (t_Meta rs) (pod_Meta p)) pods.
Proof.
  unfold CreateDeploymentReplicaSetAndPods.
  intros (es1 & es2 & hash & -> & _ & Hr)%runs_bind Hcr.
  destruct (SetOwnerReference _ _ _) as [m|err] eqn:Hset; [|by destruct Hr as [_ [=]]].
  apply runs_bind in Hr as (es3 & es4 & [rs' [err|]] & -> & H3 & Hr); [by destruct Hr as [_ [=]]|].
  apply runs_call in H3 as ->.
  apply runs_bind in Hr as (es5 & es6 & [pods' err] & -> & H5 & [-> [= -> <- <-]]).
  apply create_pods_spec in H5 as (new & -> & Hlen & Hnew). cbn [app fst] in *.
  assert (owned_by TDeployment (t_Meta d) (t_Meta rs')) as Hrs.
  { eapply (created_owned_by _ TDeployment TReplicaSet _ _ (set_t_Meta m _));
      [exact Hcr| |exact Hset|done|done].
    apply elem_of_app. right. by left. }
  split_and!; [done|done|]. eapply Forall_impl; [exact Hnew|]. intros p (podID & o & Hin & Hs).
  eapply (created_owned_by _ TReplicaSet TPod _ _ o); [exact Hcr| |exact Hs|done|symmetry; apply Hrs].
  rewrite elem_of_app, elem_of_cons, elem_of_app. auto.
Qed.

(** One step of [listOwners], from an object with one owner. *)
Lemma listOwners_single fuel o r wl owners :
  GetOwnerReferences o = [r] -> fetch_owner o r = (Some wl, ObjectOf wl, None) ->
  listOwners fuel (ObjectOf wl) = Ret (OK owners) ->
  listOwners (S fuel) o = Ret (OK (wl :: owners)).
Proof.
  intros Ho Hf Hl. cbn [listOwners]. rewrite Ho. cbn [owners_loop]. by rewrite Hf, Hl.
Qed.

Lemma fetch_owner_ok t owner o r wl zero :
  owned_by t owner (o_Meta o) -> GetOwnerReferences o = [r] ->
  WorkloadForKind (type_name t) = OK zero ->
  Get_workload {| nn_Namespace := om_Namespace owner; nn_Name := om_Name owner |} zero = (wl, None) ->
  fetch_owner o r = (Some wl, ObjectOf wl, None).
Proof.
  intros (Hns & r' & Hr' & Hn & Hk) Hr Hkind Hget.
  unfold GetOwnerReferences in Hr. rewrite Hr' in Hr. injection Hr as ->.
  unfold fetch_owner, GetNamespace. by rewrite Hk, Hkind, Hn, Hns, Hget.
Qed.

(** The owners found for a pod with these two owners. *)
Lemma listOwners_deployment fuel d rs m :
  om_OwnerReferences (t_Meta d) = [] ->
  owned_by TDeployment (t_Meta d) (t_Meta rs) -> owned_by TReplicaSet (t_Meta rs) (o_Meta m) ->
  Get_workload (ObjectKeyFromObject (t := TReplicaSet) rs)
    (WReplicaSet {| rsw_ReplicaSet := Templated_zero |})
  = (WReplicaSet {| rsw_ReplicaSet := rs |}, None) ->
  Get_workload (ObjectKeyFromObject (t := TDeployment) d)
    (WDeployment {| dw_Deployment := Templated_zero |})
  = (WDeployment {| dw_Deployment := d |}, None) ->
  listOwners (3 + fuel) m = Ret (OK [WReplicaSet {| rsw_ReplicaSet := rs |};
                                     WDeployment {| dw_Deployment := d |}]).
Proof.
  intros Hd Hrs Hm Hgrs Hgd. destruct type_name_workloads as [Htd Htr].
  pose proof Hm as (_ & r & Hr & _). pose proof Hrs as (_ & r' & Hr' & _).
  eapply (listOwners_single _ _ r (WReplicaSet _)); [exact Hr| |].
  - eapply fetch_owner_ok; [exact Hm|exact Hr| |exact Hgrs].
    rewrite Htr. unfold WorkloadForKind. by rewrite ParseKindArg_plain.
  - eapply (listOwners_single _ _ r' (WDeployment _)); [exact Hr'| |].
    + eapply fetch_owner_ok; [exact Hrs|exact Hr'| |exact Hgd].
      rewrite Htd. unfold WorkloadForKind. by rewrite ParseKindArg_plain.
    + cbn. unfold GetOwnerReferences. cbn. by rewrite Hd.
Qed.

End owners.

(** ** Theorems *)
Section theorems.
Context `{Hk8s : K8sTypes} `{Hlab : LabelsPkg} `{Hrest : !RestFields}.

(** [ExpectPodContainerCount] passes exactly when the last listing it made
    has a pod and the right number of containers in all pods (or in any pod).
    When [allOrAny] is neither word, a pod with any number of containers will
    do: such a test checks nothing. *)
Theorem ExpectPodContainerCount_verdict cc podSelector count allOrAny es r
    (Hrun : runs (ExpectPodContainerCount cc podSelector count allOrAny) es r) :
  r = None <->
  exists sel es0 pods, LabelSelectorAsSelector podSelector = OK sel
    /\ es = es0 ++ [event (ListPodsBySelector (tc_Namespace cc) sel) (OK pods)]
    /\ verdict count allOrAny pods.
Proof.
  apply ExpectPodContainerCount_last in Hrun as (es0 & es1 & v & v1 & r' & -> & -> & Hes0 & Hr).
  apply count_attempt_spec in Hr. destruct (LabelSelectorAsSelector podSelector) as [sel|err].
  - destruct Hr as (res & -> & ->). split.
    + intros (pods & -> & Hv). by exists sel, es0, pods.
    + intros (? & es & pods & _ & [_ H]%app_inj_tail & Hv). exists pods. split; [|done].
      apply (f_equal listed) in H. by destruct res; simplify_eq/=.
  - destruct Hr as [-> Hr]. split; [done|]. by intros (? & ? & ? & [=] & _).
Qed.

(** The workloads and the resources that the tests build fit together: a
    resource created for a label and a kind selects exactly the workloads
    built with this label and of this kind, in its namespace. *)
Theorem built_workloads_selected name appLabel kind wl url key label' conn kind'
    (Hwl : (kind, wl) ∈ built name appLabel)
    (Hkind : kind' <> "") (Hns : nn_Namespace key <> "")
    (Hlabel : exists sel, LabelSelectorAsSelector (MatchLabels (app_labels label')) = OK sel) :
  let r := app_resource url key label' conn kind' in
  workloadMatches (ObjectOf wl) (sp_Workload (apw_Spec r)) (apw_Namespace r) = true
  <-> kind' = kind /\ label' = appLabel /\ nn_Namespace key = nn_Namespace name.
Proof.
  intros r. destruct Hlabel as [sel Hsel].
  change (sp_Workload (apw_Spec r)) with (app_selector kind' label').
  change (apw_Namespace r) with (nn_Namespace key).
  rewrite app_selector_matches by done.
  apply built_meta in Hwl as (-> & _ & -> & ->). rewrite app_labels_subset. intuition congruence.
Qed.

(** The pods that [CreateDeploymentReplicaSetAndPods] makes are seen by the
    webhook as pods of the deployment: as many as the deployment has replicas
    (one when it says nothing), and for each the search for owners ends with
    the replica set and the deployment, provided the server keeps names and
    owners and gives both back. *)
Theorem simulated_pods_have_owners `{Hschema : SchemaPkg} `{Howner : !OwnerPkg}
    `{Hreader : !ClusterReader} d es rs pods
    (Hrun : runs (CreateDeploymentReplicaSetAndPods d) es (Some rs, Some pods, None))
    (Hcreate : creates_faithfully es) (Hd : om_OwnerReferences (t_Meta d) = [])
    (Hgrs : Get_workload (ObjectKeyFromObject (t := TReplicaSet) rs)
              (WReplicaSet {| rsw_ReplicaSet := Templated_zero |})
            = (WReplicaSet {| rsw_ReplicaSet := rs |}, None))
    (Hgd : Get_workload (ObjectKeyFromObject (t := TDeployment) d)
             (WDeployment {| dw_Deployment := Templated_zero |})
           = (WDeployment {| dw_Deployment := d |}, None)) :
  length pods = Z.to_nat (default 1 (Deployment_Replicas (t_rest d)))
  /\ Forall (fun p => forall fuel, listOwners (3 + fuel) (ObjectOf {| pw_Pod := p |})
       = Ret (OK [WReplicaSet {| rsw_ReplicaSet := rs |}; WDeployment {| dw_Deployment := d |}]))
       pods.
Proof.
  destruct (CreateDeploymentReplicaSetAndPods_owned d es rs pods Hrun Hcreate) as (Hlen & Hrs & Hp).
  split; [done|]. eapply Forall_impl; [exact Hp|]. intros p Hpo fuel.
  by apply listOwners_deployment.
Qed.

(** [DeleteResourceAndWait] takes every error for the end of the resource:
    when the deletion was accepted and the next read fails, for whatever
    reason, it reports success. *)
Theorem DeleteResourceAndWait_any_error res res' e :
  runs (DeleteResourceAndWait res)
    [event (Delete TResource res) None;
     event (Get TResource (ObjectKeyFromObject (t := TResource) res) res) (res', Some e)]
    (res', None).
Proof.
  unfold DeleteResourceAndWait. apply runs_bind. eexists [_], _, None.
  split_and!; [done|by apply runs_call|]. apply RetryUntilSuccess_first; [lia|].
  unfold deleted_attempt. apply runs_bind. eexists [_], [], (res', Some e).
  by split_and!; [done|apply runs_call|].
Qed.

End theorems.

(** ** Witnesses *)
Section witnesses.
Import ConcreteInstances.

Lemma concrete_MatchLabels (m : gmap string string) sel labels :
  concrete_as_selector m = OK sel -> concrete_matches sel labels = true <-> m ⊆ labels.
Proof.
  unfold concrete_as_selector, concrete_matches. case_bool_decide; [|done]. intros [= <-].
  rewrite bool_decide_eq_true, map_subseteq_spec. done.
Qed.

Lemma concrete_MatchLabels_Empty (m sel : gmap string string) :
  concrete_as_selector m = OK sel -> bool_decide (sel = ∅) = true -> m = ∅.
Proof.
  unfold concrete_as_selector. case_bool_decide; [|done]. intros [= <-]. by rewrite bool_decide_eq_true.
Qed.

(** Deployments have two replicas. *)
#[local] Instance concrete_rest : RestFields := {|
  MatchLabels := fun m : gmap string string => (m : @LabelSelector concrete_labels);
  ContainerRest_Command := fun _ => tt; PodSpecRest_RestartPolicy := fun _ r => r;
  TemplateRest_Labels := fun _ => tt; Template_Labels := fun _ => app_labels "busyboxon";
  DeploymentRest := fun _ _ _ => tt; StatefulSetRest := fun _ _ _ => tt;
  DaemonSetRest := fun _ _ => tt; ReplicaSetRest := fun _ _ => tt;
  Deployment_Replicas := fun _ => Some 2; Deployment_Selector := fun _ => None;
  JobRest := fun _ _ => tt; CronJobRest := fun _ => tt;
  MatchLabels_Matches := concrete_MatchLabels;
  MatchLabels_Empty := concrete_MatchLabels_Empty |}.

Definition concrete_type_name (t : ObjTy) : string :=
  match t with
  | TDeployment => "Deployment" | TReplicaSet => "ReplicaSet" | TPod => "Pod"
  | _ => "other"
  end.

Definition concrete_set_owner (t : ObjTy) (owner m : ObjectMeta) : Res ObjectMeta := OK {|
  om_Name := om_Name m; om_Namespace := om_Namespace m; om_Generation := om_Generation m;
  om_ResourceVersion := om_ResourceVersion m; om_Labels := om_Labels m;
  om_Annotations := om_Annotations m; om_DeletionTimestamp := om_DeletionTimestamp m;
  om_Finalizers := om_Finalizers m;
  om_OwnerReferences := om_OwnerReferences m ++
    [ {| or_APIVersion := "apps/v1"; or_Kind := concrete_type_name t; or_Name := om_Name owner |} ];
  om_rest := om_rest m |}.

#[local] Program Instance concrete_owner : OwnerPkg := {|
  SetOwnerReference := concrete_set_owner; type_name := concrete_type_name |}.
Next Obligation. intros t owner m m' [= <-] Hm. cbn. rewrite Hm. eauto 10. Qed.
Next Obligation. done. Qed.

Definition hello : NamespacedName := {| nn_Namespace := "default"; nn_Name := "hello" |}.

Lemma built_workloads_selected_witness :
  workloadMatches (ObjectOf (WJob {| jw_Job := BuildJob hello "app" |}))
    (sp_Workload (apw_Spec (app_resource "" hello "app" "proj:inst:db" "Job"))) "default" = true
  <-> "Job" = "Job" /\ "app" = "app" /\ "default" = "default".
Proof.
  apply (built_workloads_selected hello "app" "Job" (WJob {| jw_Job := BuildJob hello "app" |})
           "" hello "app" "proj:inst:db" "Job").
  - do 3 right. left.
  - discriminate.
  - discriminate.
  - by eexists.
Defined.

(** One pod with one container, where two are wanted in all pods: passed over
    because of the spelling. *)
Definition one_container : Pod := pw_Pod (mk_pod "default" "hello-1" ∅ [mk_container "busybox" [] []]).
Definition test_client : TestCaseClient :=
  {| tc_Namespace := "default"; tc_ConnectionString := "proj:inst:db"; tc_ProxyImageURL := "" |}.

Definition app_set : @Selector concrete_labels := app_labels "app".

Lemma ExpectPodContainerCount_verdict_witness :
  None = (None : option error) <->
  exists sel es0 pods, LabelSelectorAsSelector (MatchLabels (app_labels "app")) = OK sel
    /\ [event (ListPodsBySelector "default" app_set) (OK [one_container])]
       = es0 ++ [event (ListPodsBySelector "default" sel) (OK pods)]
    /\ verdict 2 "All" pods.
Proof.
  apply (ExpectPodContainerCount_verdict test_client (MatchLabels (app_labels "app")) 2 "All").
  by apply ExpectPodContainerCount_passes.
Defined.

(** The replica set and the two pods of a deployment, on a server that stores
    what it is given. *)
Definition owned (t : ObjTy) (owner m : ObjectMeta) : ObjectMeta :=
  match concrete_set_owner t owner m with OK m => m | Fail _ => m end.

Definition hello_deployment : Templated := BuildDeployment hello "app".
Definition hello_rs : Templated :=
  let rs := replica_set hello_deployment "ff" in
  set_t_Meta (owned TDeployment (t_Meta hello_deployment) (t_Meta rs)) rs.
Definition hello_pod (podID : string) : Pod :=
  let p := deployment_pod hello_deployment "ff" podID in
  set_pod_Meta (owned TReplicaSet (t_Meta hello_rs) (pod_Meta p)) p.

#[local] Instance hello_cluster : ClusterReader := {|
  List_AuthProxyWorkload := fun _ => OK {| apl_Items := [] |};
  Get_workload := fun _ w => match w with
    | WReplicaSet _ => (WReplicaSet {| rsw_ReplicaSet := hello_rs |}, None)
    | WDeployment _ => (WDeployment {| dw_Deployment := hello_deployment |}, None)
    | w => (w, Some (StatusError StatusReasonNotFound "")) end;
  Get_metadata := fun _ _ _ => ({| o_GVK := GVK_zero; o_Meta := ObjectMeta_zero |},
    Some (StatusError StatusReasonNotFound "")) |}.

Definition hello_events : list TestEvent := [
  event RandUint64 255;
  event (Create TReplicaSet hello_rs) (hello_rs, None);
  event RandUint32 1;
  event (Create TPod (hello_pod "1")) (hello_pod "1", None);
  event RandUint32 2;
  event (Create TPod (hello_pod "2")) (hello_pod "2", None) ].

Lemma simulated_pods_have_owners_witness :
  length [hello_pod "1"; hello_pod "2"]
  = Z.to_nat (default 1 (Deployment_Replicas (t_rest hello_deployment)))
  /\ Forall (fun p => forall fuel, listOwners (3 + fuel) (ObjectOf {| pw_Pod := p |})
       = Ret (OK [WReplicaSet {| rsw_ReplicaSet := hello_rs |};
                  WDeployment {| dw_Deployment := hello_deployment |}]))
       [hello_pod "1"; hello_pod "2"].
Proof.
  apply (simulated_pods_have_owners hello_deployment hello_events hello_rs
           [hello_pod "1"; hello_pod "2"]).
  - repeat first [eexists|split|reflexivity].
  - repeat constructor.
  - reflexivity.
  - reflexivity.
  - reflexivity.
Defined.

End witnesses.
