(* ===== verification/EnvTest.v ===== *)
(** * The environment of the integration tests

    [src/internal/testintegration/setup.go] starts an API server, and the
    operator in the same process, for the integration tests.  Log lines are
    left out; the goroutine that runs the manager is one call. *)

From S2P Require Import Prelude Interaction GoStd Api Concrete Setup Retry.
From Stdlib Require Import Ascii.
#[local] Open Scope Z_scope.

(** [envtest.Environment], the fields that are set. *)
Record Environment := {
  CRDDirectoryPaths : list string;
  ErrorIfCRDPathMissing : bool;
  BinaryAssetsDirectory : string;
  WebhookPaths : list string
}.

(** What [Start] fills in in [WebhookInstallOptions]. *)
Record Serving := {
  LocalServingHost : string;
  LocalServingPort : Z;
  LocalServingCertDir : string
}.

(** [ctrl.Options], the fields that are set here. *)
Record EnvOptions := {
  env_Host : string;
  env_Port : Z;
  env_CertDir : string;
  env_LeaderElection : bool;
  env_MetricsBindAddress : string
}.

(** The calls: of the process environment and commands, of envtest, of
    controller-runtime ([OnSetup]: those of the operator's own setup). *)
Inductive EnvCall : Type -> Type :=
| LookupEnv (name : string) : EnvCall (string * bool)
| Cmd_Output (args : list string) : EnvCall (Res string)
| Cmd_CombinedOutput (args : list string) : EnvCall (Res string)
| Env_Start (e : Environment) : EnvCall (Res Serving)
| Env_Stop : EnvCall (option error)
| CancelContext : EnvCall unit
| NewClient : EnvCall (bool * option error)         (* is the client not nil? *)
| NewEnvManager (o : EnvOptions) : EnvCall (option error)
| GoStartManager : EnvCall unit
| Dial (addrPort : string) : EnvCall (option error) (* and close *)
| EnvSleep (d : Z) : EnvCall unit
| OnSetup (X : Type) (c : SetupCall X) : EnvCall X.

#[local] Abbreviation EnvProg := (Interaction.Prog EnvCall).
#[local] Abbreviation EnvEvent := (Interaction.Event EnvCall).

Definition kubeVersion : string := "1.24.1".

Definition setup_envtest : list string :=
  ["../../bin/setup-envtest"; "use"; kubeVersion; "-p"; "path"].

(** The same command is run again for its output when it failed. *)
Definition runSetupEnvtest : EnvProg (string * option error) :=
  path ← call (Cmd_Output setup_envtest);
  match path with
  | Fail err => _ ← call (Cmd_CombinedOutput setup_envtest); mret ("", Some err)
  | OK path => mret (path, None)
  end.

Definition teardownFunc : EnvProg unit :=
  _ ← call CancelContext;
  _ ← call Env_Stop;
  mret tt.

Definition envtest_error (err : option error) : option error :=
  Some (ErrorString ("unable to start kuberenetes envtest "
    +:+ match err with Some e => Error_text e | None => "<nil>" end)).

Definition test_environment (kubebuilderAssets : string) : Environment := {|
  CRDDirectoryPaths := ["../../config/crd/bases"]; ErrorIfCRDPathMissing := false;
  BinaryAssetsDirectory := kubebuilderAssets; WebhookPaths := ["../../config/webhook"] |}.

Definition env_options (o : Serving) : EnvOptions := {|
  env_Host := LocalServingHost o; env_Port := LocalServingPort o;
  env_CertDir := LocalServingCertDir o; env_LeaderElection := false;
  env_MetricsBindAddress := "0" |}.

Definition addrPort (o : Serving) : string :=
  LocalServingHost o +:+ ":" +:+ format_d (LocalServingPort o).

Definition dial_attempt (o : Serving) (_ : unit) : EnvProg (unit * option error) :=
  err ← call (Dial (addrPort o)); mret (tt, err).

(** The function to call at the end, [None] for nil, and the error; or a
    panic of [InitScheme]. *)
Definition SetupResult : Type := Outcome (option (EnvProg unit) * option error).

(** [EnvTestSetup] from the start of the environment on. *)
Definition start_operator (o : Serving) : EnvProg SetupResult :=
  err ← translate OnSetup InitScheme;
  match err with
  | Some err => mret (Panic (Error_text err))
  | None =>
      client ← call NewClient;
      match client.2 with
      | Some err => mret (Ret (Some teardownFunc, envtest_error (Some err)))
      | None =>
          if negb client.1 then mret (Ret (Some teardownFunc, envtest_error None))
          else
            err ← call (NewEnvManager (env_options o));
            match err with
            | Some err => mret (Ret (Some teardownFunc, envtest_error (Some err)))
            | None =>
                err ← translate OnSetup (SetupManagers "cloud-sql-proxy-operator/dev");
                match err with
                | Some err => mret (Ret (Some teardownFunc, envtest_error (Some err)))
                | None =>
                    _ ← call GoStartManager;
                    _ ← RetryUntilSuccess EnvSleep 10 time_Second (dial_attempt o) tt;
                    mret (Ret (Some teardownFunc, None))
                end
            end
      end
  end.

Definition EnvTestSetup : EnvProg SetupResult :=
  env ← call (LookupEnv "KUBEBUILDER_ASSETS");
  assets ← (if negb (env.2 : bool) then runSetupEnvtest else mret (env.1, None));
  match assets.2 with
  | Some err =>
      mret (Ret (None, Some (ErrorString ("unable to run setup-envtest " +:+ Error_text err))))
  | None =>
      o ← call (Env_Start (test_environment assets.1));
      match o with
      | Fail err => mret (Ret (None, envtest_error (Some err)))
      | OK o => start_operator o
      end
  end.

(** ** What is left running *)

(** Did a call start the environment? *)
Definition starts (e : EnvEvent) : bool :=
  match e with event (Env_Start _) (OK _) => true | _ => false end.

Definition never_starts {A} (m : EnvProg A) : Prop := forall es a, runs m es a -> existsb starts es = false.

Lemma never_starts_ret {A} (a : A) : never_starts (mret a).
Proof. by intros es a' [-> _]. Qed.

Lemma never_starts_call {X} (c : EnvCall X) :
  (forall x, starts (event c x) = false) -> never_starts (call c).
Proof. intros Hc es x ->%runs_call. cbn [existsb]. by rewrite Hc. Qed.

Lemma never_starts_bind {A B} (m : EnvProg A) (f : A -> EnvProg B) :
  never_starts m -> (forall a, never_starts (f a)) -> never_starts (x ← m; f x).
Proof.
  intros Hm Hf es b (es1 & es2 & a & -> & H1 & H2)%runs_bind.
  rewrite existsb_app. by rewrite (Hm _ _ H1), (Hf _ _ _ H2).
Qed.

Lemma never_starts_translate {A} (m : Interaction.Prog SetupCall A) :
  never_starts (translate OnSetup m).
Proof.
  intros es a (es' & -> & _)%runs_translate. induction es' as [|[X c x] es' IH]; [done|]. apply IH.
Qed.

Lemma never_starts_dial o i n err :
  never_starts (retry_loop EnvSleep 10 time_Second (dial_attempt o) i n tt err).
Proof.
  revert i err. induction n as [|n IH]; intros i err; cbn [retry_loop]; [apply never_starts_ret|].
  apply never_starts_bind.
  - destruct (0 <? i)%nat; [by apply never_starts_call|apply never_starts_ret].
  - intros _. apply never_starts_bind; [|intros [[] [e|]]; [apply IH|apply never_starts_ret]].
    apply never_starts_bind; [by apply never_starts_call|intros a; apply never_starts_ret].
Qed.

Create HintDb envtest.
#[export] Hint Resolve never_starts_ret never_starts_translate never_starts_dial : envtest.
#[export] Hint Extern 1 (never_starts (call _)) => apply never_starts_call; done : envtest.
#[export] Hint Extern 1 (never_starts (mbind _ _)) =>
  apply never_starts_bind; [|intros ?] : envtest.
#[export] Hint Extern 2 (never_starts (match ?x with _ => _ end)) => destruct x : envtest.

Lemma never_starts_operator o : never_starts (start_operator o).
Proof. unfold start_operator, RetryUntilSuccess. auto 20 with envtest. Qed.

(** Once the environment runs, the function that stops it is returned. *)
Lemma start_operator_teardown o es t r :
  runs (start_operator o) es (Ret (t, r)) -> t = Some teardownFunc.
Proof.
  intros (es1 & es2 & [err|] & -> & _ & Hr)%runs_bind; [by destruct Hr as [_ [=]]|].
  apply runs_bind in Hr as (es3 & es4 & [b [err|]] & -> & _ & Hr); [by destruct Hr as [_ [=]]|].
  cbn [fst snd] in Hr. destruct (negb b); [by destruct Hr as [_ [=]]|].
  do 2 (apply runs_bind in Hr as (? & ? & [err|] & -> & _ & Hr); [by destruct Hr as [_ [=]]|]).
  do 2 apply runs_bind in Hr as (? & ? & ? & -> & _ & Hr). by destruct Hr as [_ [=]].
Qed.

(** ** Readiness *)

(** The answers to the attempts to reach the webhook server. *)
Definition dial_answer {X} (c : EnvCall X) : X -> option (option error) :=
  match c in EnvCall X return X -> option (option error) with
  | Dial _ => Some
  | _ => fun _ => None
  end.

Definition dial_answers (es : list EnvEvent) : list (option error) :=
  omap (fun e => match e with event c x => dial_answer c x end) es.

Lemma dial_loop_fails o errs i err :
  exists es e, runs (retry_loop EnvSleep 10 time_Second (dial_attempt o) i (length errs) tt err)
                 es (tt, Some e)
    /\ dial_answers es = Some <$> errs.
Proof.
  revert i err. induction errs as [|e errs IH]; intros i err; cbn [length retry_loop].
  - by eexists [], _.
  - destruct (IH (S i) (Some e)) as (es & e' & Hr & Hd).
    exists (pause EnvSleep time_Second i ++ event (Dial (addrPort o)) (Some e) :: es), e'. split.
    + apply runs_bind. eexists _, _, tt. rewrite runs_pause. split_and!; [done|done|].
      apply runs_bind. exists [event (Dial (addrPort o)) (Some e)], es, (tt, Some e).
      split_and!; [done| |done]. by exists (Some e), [].
    + unfold dial_answers. rewrite omap_app. cbn. unfold dial_answers in Hd. rewrite Hd.
      by destruct i.
Qed.

(** The next call is answered with [x]. *)
Ltac answer x := eexists x, _; split; [reflexivity|]; cbn [translate].

(** ** Theorems *)

(** No environment is left behind: whenever [EnvTestSetup] returns, with or
    without an error, it gives back the function that stops the environment if
    it has started one, and nil otherwise. *)
Theorem EnvTestSetup_teardown es t r (Hrun : runs EnvTestSetup es (Ret (t, r))) :
  t = if existsb starts es then Some teardownFunc else None.
Proof.
  apply runs_bind in Hrun as (es1 & es2 & env & -> & ->%runs_call & Hr).
  apply runs_bind in Hr as (es3 & es4 & assets & -> & Ha & Hr).
  assert (existsb starts es3 = false) as Hes3.
  { enough (never_starts (if negb env.2 then runSetupEnvtest else mret (env.1, None))) as H
      by eauto.
    unfold runSetupEnvtest. auto 10 with envtest. }
  cbn [app]. cbn [existsb starts orb]. rewrite existsb_app, Hes3. cbn [orb].
  destruct assets as [path [err|]]; cbn [fst snd] in Hr; [by destruct Hr as [-> [= -> _]]|].
  apply runs_bind in Hr as (es5 & es6 & [o|err] & -> & ->%runs_call & Hr).
  - by apply start_operator_teardown in Hr.
  - by destruct Hr as [-> [= -> _]].
Qed.

(** The environment is declared ready whether or not it is: the error of the
    ten attempts to reach the webhook server is dropped, so that the setup
    succeeds although every attempt has failed. *)
Theorem EnvTestSetup_ignores_readiness errs (Hlen : length errs = 10%nat) :
  exists es, runs EnvTestSetup es (Ret (Some teardownFunc, None))
    /\ dial_answers es = Some <$> errs.
Proof.
  set (o := {| LocalServingHost := "127.0.0.1"; LocalServingPort := 9443;
               LocalServingCertDir := "" |}).
  destruct (dial_loop_fails o errs 0 None) as (es & e & Hr & Hd). rewrite Hlen in Hr.
  eexists. split.
  - answer ("", true). answer (OK o). do 2 answer (@None error). answer (true, @None error).
    do 3 answer (@None error). answer tt. answer tt.
    apply runs_bind. eexists es, _, _. split_and!; [reflexivity|exact Hr|]. by split.
  - unfold dial_answers in *. cbn. by rewrite app_nil_r.
Qed.

(** ** Witnesses *)

Lemma EnvTestSetup_teardown_witness :
  let err := ErrorString "no such file or directory" in
  None = if existsb starts
              [event (LookupEnv "KUBEBUILDER_ASSETS") ("", false);
               event (Cmd_Output setup_envtest) (Fail err);
               event (Cmd_CombinedOutput setup_envtest) (Fail err)]
         then Some teardownFunc else None.
Proof.
  intros err.
  apply (EnvTestSetup_teardown _ None (Some (ErrorString
    ("unable to run setup-envtest " +:+ Error_text err)))).
  do 3 (eexists _, _; split; [reflexivity|]). by split.
Defined.

Lemma EnvTestSetup_ignores_readiness_witness :
  exists es, runs EnvTestSetup es (Ret (Some teardownFunc, None))
    /\ dial_answers es = Some <$> replicate 10 (ErrorString "connection refused").
Proof. apply EnvTestSetup_ignores_readiness. reflexivity. Defined.
